(* ===== verification/_CoqProject ===== *)
-Q . S2P
Prelude.v
JsVal.v
JsMap.v
Int32.v
TextEncoding.v
Wire.v
WireReader.v
WirePool.v
GoogBase64.v
Base64.v
Process.v
UserMessage.v
Utf8Step.v
Utf8Spec.v
Message.v
Numbers.v
CodecLaws.v
MessageSpec.v
World.v
Conn.v
ConnInv.v
Labels.v
Tables.v
Legacy.v
LegacyCjk.v
Codecs.v
Dial.v
BufferMem.v
BufferText.v
Buffer.v
BufferNum.v
JsNum.v
Rounding.v
Float.v
BufferFind.v
BufferMemSpec.v
Apps.v
System.v
ConnSpec.v
DialSpec.v
Session.v
Leave.v
Join.v
Reconnect.v
Examples.v
LegacySpec.v
EncodingSpec.v
WireSpec.v
WirePoolSpec.v
Int64.v
Int64Spec.v
WireFields.v
UserMessageSpec.v
WireScalar.v
PbValue.v
PbMessage.v
PbValueSpec.v
PbMessageSpec.v
PbExamples.v
WireTotal.v
Base64Spec.v
BufferTextSpec.v
BufferSpec.v
BufferNumSpec.v
FloatFields.v
FloatExponent.v
FloatSpec.v
FloatRound.v
WireFloat.v
WireFloatSpec.v
WireScalarSpec.v
WireAny.v
WireCountSpec.v
BufferFindSpec.v
ProcessSpec.v
AppsSpec.v
IsoSpec.v
DecodeTotal.v
SingleByteSpec.v
EncodingExamples.v
