(* ===== verification/Prelude.v ===== *)
(** * The wolfsocket / neffos.js browser client: a verification development

    The repository's JavaScript is the browser side of the websocket library:
    the client neffos.js, bundled by browserify with what it needs in
    src/_examples/protobuf/browser/bundle.js ("bundle.js" below), and three
    example applications, src/_examples/{basic,scale-out,protobuf}/browser/app.js,
    with the generated message class protobuf/browser/user_message_pb.js. The
    development is a shallow embedding of that code: every function of it is a
    Rocq function on explicit states, thrown errors are values, loops run on
    fuel that is shown to be enough, and what the platform supplies is an
    argument.

    ** The parts and how they interact

    A page calls [dial] (Dial), which opens a socket and gives its frames to a
    Conn (Conn). A Conn reads and writes messages (Message) through a text codec,
    keeps namespaces and rooms, fires the application's handlers and settles
    the promises that wait for answers (World). The codec is the platform's or
    the bundled text-encoding library (TextEncoding, Codecs). The protobuf
    application (Apps) puts messages of a generated class (UserMessage) in the
    body, over google-protobuf's reader and writer (Wire, WireReader), which
    take base64 from the Closure library (GoogBase64). Browserify adds the
    process shim (Process) and the buffer package (Buffer...) over base64-js
    (Base64).

    Interfaces between them are classes: [Message.TextCodec] is what Message
    uses of a codec and [CodecLaws.TextCodecLaws] what it relies on, which
    CodecLaws proves of the bundled one; [Conn.Env] has the handlers and the
    clock of a Conn, [ConnInv.EnvOk] says that handlers act through the client's
    operations, which System proves of every handler program; [Apps.JSON] is the
    language's JSON and [Legacy.Indexes] the multi-byte tables, whose sizes are
    [LegacySpec.IndexSizes]; [WireScalarSpec.Codec] is what an encoder's method
    and a decoder's owe one another, [PbValue.NumText] the language's numerals
    of doubles, of which [PbValueSpec.NumTextOk] says that only NaN reads NaN.

    ** Files

    Base: Prelude (scope, tactics, hints, list lemmas), JsVal (values, errors,
    the [outcome] of code that may throw), JsMap (Map with insertion order and
    iteration under mutation), Int32 (32-bit operations), Numbers (numerals),
    JsNum (doubles: a sign and a multiple of 2^-1074, every operation rounded
    to nearest; its Module Ieee evaluates agreement with the Standard Library's
    SpecFloat) and Rounding.

    neffos.js: Message (bundle.js 67-363: Message, escaping, serializeMessage,
    deserializeMessage, genWait) with MessageSpec; World (the state: a Conn's
    fields, the heap of shared messages, namespace connections and promises,
    the job queue, what went to the socket) and Conn (364-630 and 910-1289:
    Room, NSConn, Conn; an async function is split at its await, the rest is a
    case of [resume]) with ConnInv (the invariant and a small program logic),
    System (handlers as programs, the step relation of the browser's events),
    ConnSpec, Session, Leave and Join; Dial (631-909: resolveNamespaces, URL
    headers, the socket's callbacks, reconnection) with DialSpec and Reconnect;
    Examples (witnesses and evaluated sessions).

    text-encoding (1350-4712): TextEncoding (streams, the UTF-8 codec, the
    decode loops), Labels, Tables, Legacy and LegacyCjk (every legacy encoding),
    Codecs (registries and constructors) with Utf8Step, Utf8Spec, LegacySpec,
    SingleByteSpec, IsoSpec, DecodeTotal, EncodingSpec, EncodingExamples.

    google-protobuf and the generated class: Wire (the encoder and writer),
    WireReader (the decoder and reader), WireScalar (their methods for scalar,
    repeated and packed fields), Int64 (jspb.arith and the 64-bit part of
    jspb.utils), UserMessage, GoogBase64 with WireSpec, WireFields (the format
    as a specification, and that the back-patching writer implements it),
    UserMessageSpec, WireTotal, Int64Spec, WireScalarSpec (the class [Codec] of
    what an encoder's method and a decoder's owe one another, and the table of
    fields built from its instances), WireCountSpec; WireFloat (floats and
    doubles of jspb.utils and the methods for them) with WireFloatSpec; WireAny (the
    methods that take a type); WirePool (the caches of freed decoders and readers)
    with WirePoolSpec; PbValue
    and PbMessage (jspb.Message for any class: fields, groups, comparing and
    copying, 7202-7233) with PbValueSpec (contents as finite maps), PbMessageSpec
    and PbExamples.

    The other packages: Base64 (base64-js, 4831-4985) with Base64Spec; buffer
    (4985-6788) as BufferMem (ArrayBuffers and views), BufferText (encodings),
    Buffer (the operations), BufferNum (integers), BufferFind (searching) with
    BufferMemSpec, BufferTextSpec, BufferSpec, BufferNumSpec, BufferFindSpec;
    Float (ieee754, 7313-7399, and the float accessors) with FloatFields (the
    formats), FloatExponent and FloatSpec (the bits written and read) and
    FloatRound (rounding and the round trip);
    Process (7399-7585: process.nextTick, and which timer functions the shim
    calls) with ProcessSpec. The applications: Apps with AppsSpec.

    ** What the theorems show

    - A frame is read back as the message it was written from, as text and as
      binary, exactly when no field is ambiguous (MessageSpec).
    - In every state the client reaches, under any frames, any handler programs
      and any interleaving with promise jobs, its tables are what they say, and
      nothing settled, sent or fired is undone (System).
    - Asking and being answered, under any handlers; connecting, joining,
      leaving, disconnecting and closing, from the call to the settled promise,
      under handlers that return or throw as a function of their message and do
      not call the client back ([Session.pure_env]): the accepting branch, the
      refusing one, and what is left undone where a handler throws (ConnSpec,
      Session, Join, Leave); the handshake and the reconnection (Reconnect,
      DialSpec).
    - The protobuf writer implements the wire format, the reader accepts every
      well-formed message, returns only well-typed ones, throws on a cut one and
      returns on everything but a known kind of loop (WireFields,
      UserMessageSpec, WireTotal); messages of one type are equal when their
      contents are, a clone is equal and shares nothing, one field of a group is
      set (PbValueSpec, PbMessageSpec); a recycled decoder or reader is as a new
      one and belongs to one user (WirePoolSpec); the applications put the right frame on the
      wire and the other side shows it (AppsSpec).
    - Scalar fields of every kind, single, repeated and packed, are written in the
      format's bytes and read back (WireScalarSpec, WireFloatSpec); 64-bit arithmetic on halves
      is arithmetic modulo 2^64, its numerals are the decimal ones, numbers below
      2^53 pass through the halves unharmed (Int64Spec).
    - UTF-8 round trips, exact acceptance of a fatal decoder, termination of
      every decoder under any chunks, round trips of the legacy encodings.
    - process.nextTick refines a first-in first-out queue in which a call that
      throws costs no other its turn (ProcessSpec); the two base64
      implementations agree with RFC 4648 (Base64Spec).
    - Buffers: text in six encodings, integers in every width and order, floats
      and doubles go in and come out (a float rounded to the nearest), copies move bytes as they were, the comparison is the
      lexicographic order, searches find the nearest place.

    Where the code does something else than it means to, the theorem states
    what it does.

    ** Fuel and bounds

    Machine integers wrap where the code's do (Int32). A loop whose recursion
    is not structural takes fuel: varints 6 (32 bits in groups of 7, and one
    over); [UserMessage.reader_fuel] 2 * length + 4 (every field takes a byte or
    ends the loop; WireTotal); [TextEncoding.decode_fuel] 4 * length + 16 (a
    decoder may put bytes back, but never all; DecodeTotal); a drain of the
    process queue, the number of calls still to come (ProcessSpec); base64 and
    the loops of buffer, the length they run over, with its square for the
    forward search, which backs up (BufferFindSpec); long division 63 and 64
    (the bits of a quotient), a numeral of 64 bits 20 digits (Int64Spec); the
    loops of [splitFloat64] their own bounds 1023 and 1022; comparing and copying
    the depth of a message (PbValueSpec). [Map.forEach] takes its
    fuel from [Env] and the nesting of handlers from [script_env]; the theorems
    that a loop ends say how much is enough. [Running] is the outcome of fuel
    that ran out; no theorem of a result holds for it.

    ** Not modelled

    The example server and client in Go; two minified one-line builds of the
    same client; the glue that picks WebSocket, fetch and TextDecoder (bundle.js
    54-66, 1290-1349, 4712-4748). JSON and the multi-byte index tables, some
    90,000 numbers, all but the ranges of gb18030, are arguments; so is [Math.log], which no standard makes
    exact: [JsNum.MathLog] is the floor of a logarithm and
    [FloatFields.accurate] what ieee754 relies on, an error of one, and below
    only next to a power of two. Numbers are integers wherever the code computes
    with nothing else. Of google-protobuf: jspb.Map, the wrappers of submessages and
    the accessors of extensions, and the encoder's [writeInt64String], which compares a string with a number. Of
    process, its constant members. *)

From Stdlib Require Export ZArith Lia Ascii String.
From stdpp Require Export base tactics sets list option.

#[global] Open Scope Z_scope.
#[global] Open Scope list_scope.

(** A JavaScript string is its sequence of UTF-16 code units. *)
Abbreviation jsstr := (list Z).

(** The code units of an ASCII literal: [js "abc"]. *)
Fixpoint js (s : string) : jsstr :=
  match s with
  | EmptyString => []
  | String a s' => Z.of_nat (nat_of_ascii a) :: js s'
  end.
#[global] Arguments js s%_string : simpl never.

Declare Scope ws_scope.
Delimit Scope ws_scope with ws.
Notation "a ==? b" := (bool_decide (a = b)) (at level 70) : ws_scope.
#[global] Open Scope ws_scope.

(** The development's hint database: facts the components' proofs use silently. *)
Create HintDb ws.

(** ** Tactics *)

(** Case analysis on every [bool_decide], [decide] and arithmetic test in sight. *)
Ltac bdestr :=
  repeat match goal with
  | |- context [bool_decide ?P] => destruct (bool_decide_reflect P)
  | H : context [bool_decide ?P] |- _ => destruct (bool_decide_reflect P)
  | |- context [(?a <? ?b)%Z] => destruct (Z.ltb_spec a b)
  | H : context [(?a <? ?b)%Z] |- _ => destruct (Z.ltb_spec a b)
  | |- context [(?a <=? ?b)%Z] => destruct (Z.leb_spec a b)
  | H : context [(?a <=? ?b)%Z] |- _ => destruct (Z.leb_spec a b)
  | |- context [(?a =? ?b)%Z] => destruct (Z.eqb_spec a b)
  | H : context [(?a =? ?b)%Z] |- _ => destruct (Z.eqb_spec a b)
  end.

(** ** Bytes and code units *)

Definition is_byte (b : Z) : Prop := 0 <= b < 256.
Definition is_unit (c : Z) : Prop := 0 <= c < 65536.
#[global] Instance is_byte_dec b : Decision (is_byte b).
Proof. unfold is_byte. apply _. Defined.
#[global] Instance is_unit_dec c : Decision (is_unit c).
Proof. unfold is_unit. apply _. Defined.

(** ** Lists *)

Section lists.
Context {A : Type} `{EqDecision A}.
Implicit Types l p : list A.

(** [strip p l] is the rest of [l] after the prefix [p]. *)
Fixpoint strip (p l : list A) : option (list A) :=
  match p, l with
  | [], _ => Some l
  | a :: p', b :: l' => if decide (a = b) then strip p' l' else None
  | _ :: _, [] => None
  end.

Lemma strip_Some p l r : strip p l = Some r <-> l = p ++ r.
Proof.
  revert l. induction p as [|a p IH]; intros l; [naive_solver|].
  destruct l as [|b l]; simpl; [naive_solver|].
  case_decide; [subst; rewrite IH|]; naive_solver.
Qed.

Lemma strip_app p r : strip p (p ++ r) = Some r.
Proof. by apply strip_Some. Qed.

Lemma strip_None p l : strip p l = None <-> ~ p `prefix_of` l.
Proof.
  split.
  - intros H [r ->]. by rewrite strip_app in H.
  - intros H. destruct (strip p l) as [r|] eqn:E; [|done].
    apply strip_Some in E. destruct H. by exists r.
Qed.

(** How many times [a] occurs. *)
Fixpoint occ (a : A) l : nat :=
  match l with
  | [] => 0
  | b :: l' => if decide (a = b) then S (occ a l') else occ a l'
  end.

Lemma occ_app a l1 l2 : occ a (l1 ++ l2) = (occ a l1 + occ a l2)%nat.
Proof. induction l1; simpl; [done|]. case_decide; lia. Qed.

Lemma occ_0 a l : occ a l = 0%nat <-> a ∉ l.
Proof.
  induction l as [|b l IH]; simpl; [set_solver|].
  rewrite elem_of_cons. case_decide; naive_solver lia.
Qed.

(** Splitting at the first occurrence of a separator. *)
Lemma first_occ a l : a ∈ l -> exists l1 l2, l = l1 ++ a :: l2 /\ a ∉ l1.
Proof.
  induction l as [|b l IH]; [by rewrite elem_of_nil|].
  intros H. destruct (decide (a = b)) as [->|Hn].
  - exists [], l. set_solver.
  - destruct IH as (l1 & l2 & -> & H1); [set_solver|].
    exists (b :: l1), l2. set_solver.
Qed.

Lemma app_sep_inj a l1 l2 r1 r2 :
  a ∉ l1 -> a ∉ l2 -> l1 ++ a :: r1 = l2 ++ a :: r2 -> l1 = l2 /\ r1 = r2.
Proof.
  revert l2. induction l1 as [|b l1 IH]; intros [|c l2] H1 H2 E; simpl in *; simplify_eq; try set_solver.
  destruct (IH l2) as [-> ->]; [set_solver..|done|done].
Qed.
End lists.


