(* ===== verification/JsVal.v ===== *)
(** The JavaScript values the client's code passes around, and the outcome of
    running a piece of code that can throw. *)

From S2P Require Import Prelude.

(** The classes of Error objects the code creates or the language throws;
    [ReplyErr] is the client's own [replyError] class. *)
Inductive errclass :=
  | PlainError | ReplyErr | TypeErr | RangeErr | ReferenceErr | URIErr
  | AssertionErr (* google-protobuf's goog.asserts.AssertionError *).
#[global] Instance errclass_eq_dec : EqDecision errclass.
Proof. solve_decision. Defined.

(** The values a message field, a frame or a handler's result can hold. *)
Inductive jsval :=
  | JUndef
  | JNull
  | JBool (b : bool)
  | JStr (s : jsstr)
  | JBytes (b : list Z)          (* a Uint8Array *)
  | JBuffer (b : list Z)         (* an ArrayBuffer *)
  | JErr (c : errclass) (m : jsstr). (* an Error object and its message *)
#[global] Instance jsval_eq_dec : EqDecision jsval.
Proof. solve_decision. Defined.

(** A string field that may never have been set. *)
Definition of_key (k : option jsstr) : jsval :=
  match k with Some s => JStr s | None => JUndef end.

(** ** Conversions of the language *)

(** Decimal digits of a non-negative integer ([Number.prototype.toString] on
    integers below 10^21). *)
Fixpoint dec_digits (fuel : nat) (n : Z) (acc : jsstr) : jsstr :=
  match fuel with
  | O => acc
  | S f =>
      let acc' := 48 + n mod 10 :: acc in
      if n <? 10 then acc' else dec_digits f (n / 10) acc'
  end.
Definition num_to_str (n : Z) : jsstr :=
  if n <? 0 then 45 :: dec_digits (S (Z.to_nat (Z.log2 (- n)))) (- n) []
  else dec_digits (S (Z.to_nat (Z.log2 n))) n [].

(** [xs.join(sep)] on strings. *)
Fixpoint join (sep : jsstr) (xs : list jsstr) : jsstr :=
  match xs with
  | [] => []
  | [x] => x
  | x :: xs' => x ++ sep ++ join sep xs'
  end.

Definition errname (c : errclass) : jsstr :=
  match c with
  | PlainError => js "Error"
  | ReplyErr => js "replyError"
  | TypeErr => js "TypeError"
  | RangeErr => js "RangeError"
  | ReferenceErr => js "ReferenceError"
  | URIErr => js "URIError"
  | AssertionErr => js "AssertionError"
  end.

(** [String(v)] / [s + v]. *)
Definition to_str (v : jsval) : jsstr :=
  match v with
  | JUndef => js "undefined"
  | JNull => js "null"
  | JBool true => js "true"
  | JBool false => js "false"
  | JStr s => s
  | JBytes b => join (js ",") (map num_to_str b)
  | JBuffer _ => js "[object ArrayBuffer]"
  | JErr c m => if decide (m = []) then errname c else errname c ++ js ": " ++ m
  end.

(** [if (v)] *)
Definition truthy (v : jsval) : bool :=
  match v with
  | JUndef | JNull => false
  | JBool b => b
  | JStr s => negb (s ==? [])
  | JBytes _ | JBuffer _ | JErr _ _ => true
  end.

(** [a || b] *)
Definition js_or (a b : jsval) : jsval := if truthy a then a else b.

(** ** Outcomes *)

(** A call returns, throws, or (when the model's fuel ends) is still running. *)
Inductive outcome (A : Type) :=
  | Ret (a : A)
  | Throw (e : jsval)
  | Running.
Arguments Ret {A} a.
Arguments Throw {A} e.
Arguments Running {A}.

Definition type_error (m : jsstr) {A} : outcome A := Throw (JErr TypeErr m).
Definition range_error (m : jsstr) {A} : outcome A := Throw (JErr RangeErr m).

#[global] Instance outcome_ret : MRet outcome := fun A a => Ret a.
#[global] Instance outcome_bind : MBind outcome := fun A B f o =>
  match o with Ret a => f a | Throw e => Throw e | Running => Running end.
#[global] Instance outcome_fmap : FMap outcome := fun A B f o =>
  match o with Ret a => Ret (f a) | Throw e => Throw e | Running => Running end.
