(* ===== verification/JsMap.v ===== *)
(** The ECMAScript [Map]: a finite map that remembers insertion order.

    Every entry carries the position it was inserted at. [forEach] walks the
    positions upwards, so that an entry deleted before it is reached is
    skipped and an entry added during the walk is reached, as the language
    prescribes. *)

From S2P Require Import Prelude.

Record jmap (K V : Type) := JMap { jm_next : nat; jm_ents : list (nat * (K * V)) }.
Arguments JMap {K V} _ _.
Arguments jm_next {K V} _.
Arguments jm_ents {K V} _.

Section jmap.
Context {K V : Type} `{EqDecision K}.
Implicit Types (m : jmap K V) (k : K) (v : V) (es : list (nat * (K * V))).

Definition jm_new : jmap K V := JMap 0 [].

Fixpoint ents_get k es : option V :=
  match es with
  | [] => None
  | (_, (k', v)) :: es' => if decide (k = k') then Some v else ents_get k es'
  end.
Fixpoint ents_update k v es : list (nat * (K * V)) :=
  match es with
  | [] => []
  | (i, (k', v')) :: es' =>
      if decide (k = k') then (i, (k', v)) :: es' else (i, (k', v')) :: ents_update k v es'
  end.
Fixpoint ents_delete k es : list (nat * (K * V)) :=
  match es with
  | [] => []
  | (i, (k', v')) :: es' =>
      if decide (k = k') then ents_delete k es' else (i, (k', v')) :: ents_delete k es'
  end.

#[global] Instance jm_lookup : Lookup K V (jmap K V) := fun k m => ents_get k (jm_ents m).
Definition jm_has m k : bool := match m !! k with Some _ => true | None => false end.
#[global] Instance jm_insert : Insert K V (jmap K V) := fun k v m =>
  match m !! k with
  | Some _ => JMap (jm_next m) (ents_update k v (jm_ents m))
  | None => JMap (S (jm_next m)) (jm_ents m ++ [(jm_next m, (k, v))])
  end.
#[global] Instance jm_delete : Delete K (jmap K V) := fun k m =>
  JMap (jm_next m) (ents_delete k (jm_ents m)).
Definition jm_clear m : jmap K V := JMap (jm_next m) [].
Definition jm_size m : nat := length (jm_ents m).
Definition jm_keys m : list K := map (fun e => e.2.1) (jm_ents m).
Definition jm_values m : list V := map (fun e => e.2.2) (jm_ents m).

(** The first entry at position [c] or later: what [forEach] visits next. *)
Fixpoint ents_from (c : nat) es : option (nat * (K * V)) :=
  match es with
  | [] => None
  | (i, kv) :: es' => if decide (c <= i)%nat then Some (i, kv) else ents_from c es'
  end.
Definition jm_from (c : nat) m := ents_from c (jm_ents m).

(** ** Lemmas *)

Lemma ents_get_app k es1 es2 :
  ents_get k (es1 ++ es2) =
    match ents_get k es1 with Some v => Some v | None => ents_get k es2 end.
Proof. induction es1 as [|[i [k' v]] es1 IH]; simpl; [done|]. by case_decide. Qed.

Lemma ents_get_update k k' v es :
  ents_get k (ents_update k' v es) =
    if decide (k = k') then (fun _ => v) <$> ents_get k es else ents_get k es.
Proof.
  induction es as [|[i [k2 v2]] es IH]; simpl; [by case_decide|].
  repeat (case_decide; simplify_eq/=); done.
Qed.

Lemma ents_get_delete k k' es :
  ents_get k (ents_delete k' es) = if decide (k = k') then None else ents_get k es.
Proof.
  induction es as [|[i [k2 v2]] es IH]; simpl; [by case_decide|].
  repeat (case_decide; simplify_eq/=); done.
Qed.

Lemma jm_lookup_new k : jm_new !! k = None.
Proof. done. Qed.

Lemma jm_lookup_insert k k' v m :
  <[k:=v]> m !! k' = if decide (k = k') then Some v else m !! k'.
Proof.
  unfold insert, jm_insert. destruct (m !! k) as [v0|] eqn:E;
    unfold lookup, jm_lookup in *; simpl.
  - rewrite ents_get_update. repeat case_decide; simplify_eq; try done. by rewrite E.
  - rewrite ents_get_app. simpl. destruct (decide (k = k')) as [->|Hn].
    + rewrite E. by case_decide.
    + case_decide; [congruence|]. by destruct (ents_get k' _).
Qed.
Lemma jm_lookup_insert_eq k v m : <[k:=v]> m !! k = Some v.
Proof. rewrite jm_lookup_insert. by case_decide. Qed.
Lemma jm_lookup_insert_ne k k' v m : k <> k' -> <[k:=v]> m !! k' = m !! k'.
Proof. intros. rewrite jm_lookup_insert. by case_decide. Qed.

Lemma jm_lookup_delete k k' m :
  delete k m !! k' = if decide (k = k') then None else m !! k'.
Proof.
  unfold delete, jm_delete, lookup, jm_lookup. simpl. rewrite ents_get_delete.
  repeat case_decide; congruence.
Qed.
Lemma jm_lookup_delete_eq k m : delete k m !! k = None.
Proof. rewrite jm_lookup_delete. by case_decide. Qed.
Lemma jm_lookup_delete_ne k k' m : k <> k' -> delete k m !! k' = m !! k'.
Proof. intros. rewrite jm_lookup_delete. by case_decide. Qed.

Lemma jm_lookup_clear k m : jm_clear m !! k = None.
Proof. done. Qed.

Lemma jm_has_true m k : jm_has m k = true <-> is_Some (m !! k).
Proof. unfold jm_has. destruct (m !! k); split; try done; by intros []. Qed.
Lemma jm_has_false m k : jm_has m k = false <-> m !! k = None.
Proof. unfold jm_has. by destruct (m !! k). Qed.

Lemma ents_get_keys k es : is_Some (ents_get k es) <-> k ∈ map (fun e => e.2.1) es.
Proof.
  induction es as [|[i [k' v]] es IH]; simpl.
  - rewrite elem_of_nil. split; [by intros []|done].
  - rewrite elem_of_cons. case_decide; [subst; naive_solver|]. rewrite IH. naive_solver.
Qed.
Lemma jm_keys_lookup m k : k ∈ jm_keys m <-> is_Some (m !! k).
Proof. symmetry. apply ents_get_keys. Qed.

(** ** Well-formedness: positions ascend below the next one, keys are distinct. *)

Inductive ents_wf (hi : nat) : nat -> list (nat * (K * V)) -> Prop :=
  | ents_wf_nil lo : (lo <= hi)%nat -> ents_wf hi lo []
  | ents_wf_cons lo i k v es :
      (lo <= i)%nat -> ents_wf hi (S i) es ->
      k ∉ map (fun e => e.2.1) es -> ents_wf hi lo ((i, (k, v)) :: es).
Definition jm_wf m : Prop := ents_wf (jm_next m) 0 (jm_ents m).

Lemma ents_wf_lo lo lo' hi es : ents_wf hi lo es -> (lo' <= lo)%nat -> ents_wf hi lo' es.
Proof. destruct 1; constructor; eauto; lia. Qed.
Lemma ents_wf_le lo hi es : ents_wf hi lo es -> (lo <= hi)%nat.
Proof. induction 1; lia. Qed.

Lemma ents_update_keys k v es :
  map (fun e => e.2.1) (ents_update k v es) = map (fun e => e.2.1) es.
Proof. induction es as [|[i [k' v']] es IH]; simpl; [done|]. case_decide; simpl; congruence. Qed.
Lemma ents_delete_keys k k' es :
  k' ∈ map (fun e => e.2.1) (ents_delete k es) <-> k' <> k /\ k' ∈ map (fun e => e.2.1) es.
Proof. rewrite <-!ents_get_keys, ents_get_delete. case_decide; naive_solver. Qed.

Lemma ents_wf_update lo hi k v es : ents_wf hi lo es -> ents_wf hi lo (ents_update k v es).
Proof.
  induction 1 as [lo Hlo|lo i k' v' es Hi Hes IH Hn]; simpl; [by constructor|].
  case_decide; constructor; try done. by rewrite ents_update_keys.
Qed.
Lemma ents_wf_delete lo hi k es : ents_wf hi lo es -> ents_wf hi lo (ents_delete k es).
Proof.
  induction 1 as [lo Hlo|lo i k' v' es Hi Hes IH Hn]; simpl; [by constructor|].
  case_decide.
  - eapply ents_wf_lo; [done|lia].
  - constructor; try done. rewrite ents_delete_keys. naive_solver.
Qed.
Lemma ents_wf_snoc lo hi k v es :
  ents_wf hi lo es -> k ∉ map (fun e => e.2.1) es -> ents_wf (S hi) lo (es ++ [(hi, (k, v))]).
Proof.
  induction 1 as [lo Hlo|lo i k' v' es Hi Hes IH Hn]; simpl; intros Hk.
  - constructor; [done| |set_solver]. by constructor.
  - constructor; [done| |].
    + apply IH. set_solver.
    + rewrite map_app. set_solver.
Qed.

Lemma ents_wf_get lo hi i k v es : ents_wf hi lo es -> (i, (k, v)) ∈ es -> ents_get k es = Some v.
Proof.
  induction 1 as [lo Hlo|lo j k' v' es Hi Hes IH Hn]; [by intros ?%elem_of_nil|].
  intros [[= -> -> ->]|Hin]%elem_of_cons; simpl; [by rewrite decide_True|].
  rewrite decide_False; [by apply IH|]. intros <-. apply Hn, list_elem_of_fmap.
  by exists (i, (k, v)).
Qed.

Lemma jm_wf_new : jm_wf jm_new.
Proof. by constructor. Qed.
Lemma jm_wf_insert k v m : jm_wf m -> jm_wf (<[k:=v]> m).
Proof.
  unfold jm_wf, insert, jm_insert. intros H. destruct (m !! k) as [v0|] eqn:E; simpl.
  - by apply ents_wf_update.
  - apply ents_wf_snoc; [done|]. rewrite <-ents_get_keys. intros [v' Hv].
    unfold lookup, jm_lookup in E. congruence.
Qed.
Lemma jm_wf_delete k m : jm_wf m -> jm_wf (delete k m).
Proof. apply ents_wf_delete. Qed.
Lemma jm_wf_clear m : jm_wf m -> jm_wf (jm_clear m).
Proof. intros H. constructor. by eapply ents_wf_le. Qed.
End jmap.

Arguments jm_new {K V}.
#[export] Hint Resolve jm_wf_new jm_wf_insert jm_wf_delete jm_wf_clear : ws.
