(* ===== verification/Int32.v ===== *)
(** The 32-bit integer operations of the language on numbers held as Z:
    ToInt32 and ToUint32, the shifts that wrap, and reads of typed arrays,
    which give [undefined] out of range. *)

From S2P Require Import Prelude.

(** ToUint32 and ToInt32. *)
Definition u32 (z : Z) : Z := z mod 2 ^ 32.
Definition i32 (z : Z) : Z := (z + 2 ^ 31) mod 2 ^ 32 - 2 ^ 31.

(** [a << n], [a >> n], [a >>> n]. *)
Definition shl (a n : Z) : Z := i32 (Z.shiftl (i32 a) n).
Definition sar (a n : Z) : Z := Z.shiftr (i32 a) n.
Definition shr (a n : Z) : Z := Z.shiftr (u32 a) n.

(** The double nearest to an integer, ties to even; below [2 ^ 1024]. *)
Definition dbl (z : Z) : Z :=
  let k := Z.log2 (Z.abs z) - 52 in
  if k <=? 0 then z
  else
    let q := z / 2 ^ k in
    let r := z mod 2 ^ k in
    if (r <? 2 ^ (k - 1)) || ((r =? 2 ^ (k - 1)) && Z.even q) then q * 2 ^ k else (q + 1) * 2 ^ k.

(** [a[i]] on an array or typed array: nothing below 0 or past the end. *)
Definition at_ (a : list Z) (i : Z) : option Z :=
  if i <? 0 then None else a !! Z.to_nat i.
(** [v & m] of a read: [undefined] counts as 0. *)
Definition band (v : option Z) (m : Z) : Z :=
  match v with Some b => Z.land b m | None => 0 end.
(** [v < n] and [n <= v] of a read: both false on [undefined]. *)
Definition lt_ (v : option Z) (n : Z) : bool := match v with Some b => b <? n | None => false end.
Definition ge_ (v : option Z) (n : Z) : bool := match v with Some b => n <=? b | None => false end.

(** ** Facts *)

Lemma u32_id z : 0 <= z < 2 ^ 32 -> u32 z = z.
Proof. intros. by apply Z.mod_small. Qed.
Lemma u32_bound z : 0 <= u32 z < 2 ^ 32.
Proof. by apply Z.mod_pos_bound. Qed.
Lemma i32_id z : - 2 ^ 31 <= z < 2 ^ 31 -> i32 z = z.
Proof. intros. unfold i32. rewrite Z.mod_small; lia. Qed.
Lemma i32_bound z : - 2 ^ 31 <= i32 z < 2 ^ 31.
Proof. unfold i32. pose proof (Z.mod_pos_bound (z + 2 ^ 31) (2 ^ 32)). lia. Qed.
Lemma u32_i32 z : u32 (i32 z) = u32 z.
Proof.
  unfold u32, i32. rewrite Zminus_mod_idemp_l. f_equal. lia.
Qed.
Lemma i32_high z : 2 ^ 31 <= z < 2 ^ 32 -> i32 z = z - 2 ^ 32.
Proof.
  intros. unfold i32.
  replace (z + 2 ^ 31) with (z - 2 ^ 31 + 1 * 2 ^ 32) by lia.
  rewrite Z_mod_plus_full, Z.mod_small; lia.
Qed.

Lemma at_Some a i b : at_ a i = Some b -> 0 <= i < Z.of_nat (length a).
Proof.
  unfold at_. destruct (Z.ltb_spec i 0); [done|].
  intros Hl%lookup_lt_Some. lia.
Qed.
Lemma at_app_mid p b s : at_ (p ++ b :: s) (Z.of_nat (length p)) = Some b.
Proof.
  unfold at_. destruct (Z.ltb_spec (Z.of_nat (length p)) 0); [lia|].
  by rewrite Nat2Z.id, list_lookup_middle.
Qed.
Lemma at_past a i : Z.of_nat (length a) <= i -> at_ a i = None.
Proof.
  intros. unfold at_. destruct (Z.ltb_spec i 0); [done|].
  apply lookup_ge_None_2. lia.
Qed.
Lemma at_app_off p s i : 0 <= i -> at_ (p ++ s) (Z.of_nat (length p) + i) = at_ s i.
Proof.
  intros. unfold at_.
  destruct (Z.ltb_spec (Z.of_nat (length p) + i) 0), (Z.ltb_spec i 0); [lia|lia|lia|].
  rewrite lookup_app_r by lia. f_equal. lia.
Qed.

Lemma dbl_id z : Z.abs z < 2 ^ 53 -> dbl z = z.
Proof.
  intros Hz. unfold dbl. destruct (Z.eq_dec z 0) as [->|Hn]; [done|].
  assert (Z.log2 (Z.abs z) < 53) by (apply Z.log2_lt_pow2; lia).
  by rewrite (proj2 (Z.leb_le _ 0)) by lia.
Qed.
