(* ===== verification/TextEncoding.v ===== *)
(** The bundled text-encoding library: strings to code points and back, the
    token stream, the UTF-8 decoder and encoder, and the TextDecoder and
    TextEncoder loops that drive them.

    A decoder is a record of its private state and handler, so that the loops
    are written once for every encoding, as the library writes them. *)

From S2P Require Import Prelude JsVal.

(** ** Utilities *)

Definition inRange (a min max : Z) : bool := (min <=? a) && (a <=? max).

Fixpoint stringToCodePoints (s : jsstr) : list Z :=
  match s with
  | [] => []
  | c :: s' =>
      if (c <? 0xD800) || (0xDFFF <? c) then c :: stringToCodePoints s'
      else if (0xDC00 <=? c) && (c <=? 0xDFFF) then 0xFFFD :: stringToCodePoints s'
      else
        match s' with
        | [] => [0xFFFD]
        | d :: s'' =>
            if (0xDC00 <=? d) && (d <=? 0xDFFF) then
              let a := Z.land c 0x3FF in
              let b := Z.land d 0x3FF in
              (0x10000 + Z.shiftl a 10 + b) :: stringToCodePoints s''
            else 0xFFFD :: stringToCodePoints s'
        end
  end.

Fixpoint codePointsToString (code_points : list Z) : jsstr :=
  match code_points with
  | [] => []
  | cp :: cps =>
      if cp <=? 0xFFFF then cp :: codePointsToString cps
      else
        let cp := cp - 0x10000 in
        (Z.shiftr cp 10 + 0xD800) :: (Z.land cp 0x3FF + 0xDC00) :: codePointsToString cps
  end.

Definition isASCIIByte (a : Z) : bool := (0x00 <=? a) && (a <=? 0x7F).

(** ** Streams *)

Definition end_of_stream : Z := -1.

(** [tokens] is the array the constructor keeps: the input reversed, so that
    reading is [pop]. *)
Definition Stream (tokens : list Z) : list Z := reverse tokens.

Definition endOfStream (tokens : list Z) : bool := (length tokens =? 0)%nat.

Definition read (tokens : list Z) : Z * list Z :=
  match reverse tokens with
  | [] => (end_of_stream, [])
  | t :: r => (t, reverse r)
  end.

(** [prepend] pushes one token, or pops an array's tokens one by one onto the end. *)
Definition prepend (tokens : list Z) (token : list Z) : list Z := tokens ++ reverse token.

(** [push] unshifts an array's tokens one by one. *)
Definition push (tokens : list Z) (token : list Z) : list Z := reverse token ++ tokens.

(** ** Decoders *)

(** What a handler answers: [null], [finished], or code points (bytes, for an encoder). *)
Inductive hres := Continue | Finished | Emit (out : list Z).

Definition decoderError (fatal : bool) : outcome hres :=
  if fatal then type_error (js "Decoder error") else Ret (Emit [0xFFFD]).

Record decoder := Decoder {
  dec_state : Type;
  dec_new : dec_state;
  dec_handler : bool -> dec_state -> list Z -> Z -> outcome hres * dec_state * list Z
}.

(** *** The UTF-8 decoder *)

Record utf8_state := Utf8 {
  utf8_code_point : Z;
  utf8_bytes_seen : Z;
  utf8_bytes_needed : Z;
  utf8_lower_boundary : Z;
  utf8_upper_boundary : Z
}.

Definition utf8_init : utf8_state := Utf8 0 0 0 0x80 0xBF.

Definition utf8_lead (fatal : bool) (st : utf8_state) (bite : Z) : outcome hres * utf8_state :=
  let 'Utf8 cp seen needed lower upper := st in
  if inRange bite 0x00 0x7F then (Ret (Emit [bite]), st)
  else if inRange bite 0xC2 0xDF then
    (Ret Continue, Utf8 (Z.land bite 0x1F) seen 1 lower upper)
  else if inRange bite 0xE0 0xEF then
    let lower := if bite =? 0xE0 then 0xA0 else lower in
    let upper := if bite =? 0xED then 0x9F else upper in
    (Ret Continue, Utf8 (Z.land bite 0xF) seen 2 lower upper)
  else if inRange bite 0xF0 0xF4 then
    let lower := if bite =? 0xF0 then 0x90 else lower in
    let upper := if bite =? 0xF4 then 0x8F else upper in
    (Ret Continue, Utf8 (Z.land bite 0x7) seen 3 lower upper)
  else (decoderError fatal, st).

Definition utf8_handler (fatal : bool) (st : utf8_state) (stream : list Z) (bite : Z)
    : outcome hres * utf8_state * list Z :=
  let 'Utf8 cp seen needed lower upper := st in
  if (bite =? end_of_stream) && negb (needed =? 0) then
    (decoderError fatal, Utf8 cp seen 0 lower upper, stream)
  else if bite =? end_of_stream then (Ret Finished, st, stream)
  else if needed =? 0 then
    let '(r, st') := utf8_lead fatal st bite in (r, st', stream)
  else if negb (inRange bite lower upper) then
    (decoderError fatal, Utf8 0 0 0 0x80 0xBF, prepend stream [bite])
  else
    let cp := Z.lor (Z.shiftl cp 6) (Z.land bite 0x3F) in
    let seen := seen + 1 in
    if negb (seen =? needed) then (Ret Continue, Utf8 cp seen needed 0x80 0xBF, stream)
    else (Ret (Emit [cp]), Utf8 0 0 0 0x80 0xBF, stream).

Definition UTF8Decoder : decoder := Decoder utf8_state utf8_init utf8_handler.

(** ** TextDecoder *)

Record textdecoder := TextDec {
  td_encoding : jsstr;              (* the encoding's name *)
  td_kind : decoder;                (* decoders[encoding.name] *)
  td_fatal : bool;
  td_ignoreBOM : bool;
  td_decoder : option (dec_state td_kind);
  td_BOMseen : bool;
  td_do_not_flush : bool
}.

Section decode.
Context (D : decoder) (fatal : bool).

(** The loop over the input: handle each token until the stream ends. *)
Fixpoint decode_loop (fuel : nat) (st : dec_state D) (stream output : list Z)
    : outcome (list Z) * dec_state D * list Z :=
  match fuel with
  | O => (Running, st, stream)
  | S f =>
      let '(token, stream) := read stream in
      if token =? end_of_stream then (Ret output, st, stream)
      else
        let '(result, st, stream) := dec_handler D fatal st stream token in
        match result with
        | Ret Finished => (Ret output, st, stream)
        | Ret Continue => decode_loop f st stream output
        | Ret (Emit out) => decode_loop f st stream (output ++ out)
        | Throw e => (Throw e, st, stream)
        | Running => (Running, st, stream)
        end
  end.

(** The flushing [do ... while]. *)
Fixpoint flush_loop (fuel : nat) (st : dec_state D) (stream output : list Z)
    : outcome (list Z) * dec_state D :=
  match fuel with
  | O => (Running, st)
  | S f =>
      let '(token, stream) := read stream in
      let '(result, st, stream) := dec_handler D fatal st stream token in
      let next out := if endOfStream stream then (Ret out, st) else flush_loop f st stream out in
      match result with
      | Ret Finished => (Ret output, st)
      | Ret Continue => next output
      | Ret (Emit out) => next (output ++ out)
      | Throw e => (Throw e, st)
      | Running => (Running, st)
      end
  end.
End decode.

(** [serializeStream]: the string, less a leading byte order mark. *)
Definition serializeStream (td : textdecoder) (stream : list Z) : jsstr * textdecoder :=
  let 'TextDec name D fatal ignoreBOM dec BOMseen dnf := td in
  if bool_decide (name ∈ [js "UTF-8"; js "UTF-16LE"; js "UTF-16BE"])
     && negb ignoreBOM && negb BOMseen then
    match stream with
    | c :: rest =>
        (codePointsToString (if c =? 0xFEFF then rest else stream),
         TextDec name D fatal ignoreBOM dec true dnf)
    | [] => (codePointsToString stream, td)
    end
  else (codePointsToString stream, td).

#[global] Arguments serializeStream : simpl never.

(** A handler prepends at most what it has read, so four steps a byte are enough
    (see [DecodeTotal.decode_terminates]). *)
Definition decode_fuel (bytes : list Z) : nat := 4 * length bytes + 16.

Definition decode (td : textdecoder) (bytes : list Z) (do_stream : bool)
    : outcome jsstr * textdecoder :=
  let 'TextDec name D fatal ignoreBOM dec BOMseen dnf := td in
  let '(dec, BOMseen) := if dnf then (dec, BOMseen) else (Some (dec_new D), false) in
  let dnf := do_stream in
  match dec with
  | None => (type_error (js "this._decoder is null"), TextDec name D fatal ignoreBOM None BOMseen dnf)
  | Some st =>
  let '(r, st, stream) := decode_loop D fatal (decode_fuel bytes) st (Stream bytes) [] in
  match r with
  | Ret output =>
      if dnf then
        let '(s, td) := serializeStream (TextDec name D fatal ignoreBOM (Some st) BOMseen dnf) output in
        (Ret s, td)
      else
        let '(r, st) := flush_loop D fatal (decode_fuel bytes) st stream output in
        match r with
        | Ret output =>
            let '(s, td) := serializeStream (TextDec name D fatal ignoreBOM None BOMseen dnf) output in
            (Ret s, td)
        | Throw e => (Throw e, TextDec name D fatal ignoreBOM (Some st) BOMseen dnf)
        | Running => (Running, TextDec name D fatal ignoreBOM (Some st) BOMseen dnf)
        end
  | Throw e => (Throw e, TextDec name D fatal ignoreBOM (Some st) BOMseen dnf)
  | Running => (Running, TextDec name D fatal ignoreBOM (Some st) BOMseen dnf)
  end
  end.

(** ** The UTF-8 encoder *)

(** The continuation bytes, most significant first. *)
Fixpoint utf8_tail (count : nat) (code_point : Z) : list Z :=
  match count with
  | O => []
  | S n => Z.lor 0x80 (Z.land (Z.shiftr code_point (6 * Z.of_nat n)) 0x3F) :: utf8_tail n code_point
  end.

Definition utf8_encode_handler (code_point : Z) : hres :=
  if code_point =? end_of_stream then Finished
  else if isASCIIByte code_point then Emit [code_point]
  else if inRange code_point 0x0080 0x07FF then
    Emit (Z.shiftr code_point 6 + 0xC0 :: utf8_tail 1 code_point)
  else if inRange code_point 0x0800 0xFFFF then
    Emit (Z.shiftr code_point 12 + 0xE0 :: utf8_tail 2 code_point)
  else if inRange code_point 0x10000 0x10FFFF then
    Emit (Z.shiftr code_point 18 + 0xF0 :: utf8_tail 3 code_point)
  else Emit [0]. (* [NaN] in a Uint8Array: no range matched, count is undefined *)

(** [TextEncoder.prototype.encode] reads the code points one by one, then flushes:
    the handler answers [finished] at the end of the stream. *)
Fixpoint encode_loop (fuel : nat) (stream output : list Z) : outcome (list Z * list Z) :=
  match fuel with
  | O => Running
  | S f =>
      let '(token, stream) := read stream in
      if token =? end_of_stream then Ret (output, stream)
      else
        match utf8_encode_handler token with
        | Finished => Ret (output, stream)
        | Continue => encode_loop f stream output
        | Emit out => encode_loop f stream (output ++ out)
        end
  end.

Fixpoint encode_flush (fuel : nat) (stream output : list Z) : outcome (list Z) :=
  match fuel with
  | O => Running
  | S f =>
      let '(token, stream) := read stream in
      match utf8_encode_handler token with
      | Finished => Ret output
      | Continue => encode_flush f stream output
      | Emit out => encode_flush f stream (output ++ out)
      end
  end.

(** Storing a number in a Uint8Array. *)
Definition to_uint8 (z : Z) : Z := z mod 256.

Definition encode (s : jsstr) (do_stream : bool) : outcome (list Z) :=
  let cps := stringToCodePoints s in
  let fuel := S (length cps) in
  '(output, stream) ← encode_loop fuel (Stream cps) [];
  output ← (if do_stream then Ret output else encode_flush fuel stream output);
  Ret (map to_uint8 output).

(** The decoder the client creates: [new TextDecoder("utf-8")]. *)
Definition utf8_decoder : textdecoder :=
  TextDec (js "UTF-8") UTF8Decoder false false None false false.
