(* ===== verification/Wire.v ===== *)
(** google-protobuf's binary wire format (jspb, bundle.js 7140-7290): the
    encoder and writer that build a message's bytes, the decoder and reader
    that take them apart, with their assertions, which are enabled in this
    build and throw. The reader keeps a mutable cursor: its methods are state
    passing over [decoder] and [reader], and the writer's over [writer]. *)

From S2P Require Import Prelude JsVal Int32 TextEncoding.

(** ** The state monad of the readers and writers *)

Definition ST (S A : Type) : Type := S -> outcome (A * S).
#[global] Instance ST_ret {S} : MRet (ST S) := fun A a s => Ret (a, s).
#[global] Instance ST_bind {S} : MBind (ST S) := fun A B f m s =>
  match m s with Ret (a, s') => f a s' | Throw e => Throw e | Running => Running end.
Definition get_ {S A} (f : S -> A) : ST S A := fun s => Ret (f s, s).
Definition modify_ {S} (f : S -> S) : ST S unit := fun s => Ret (tt, f s).
Definition running {S A} : ST S A := fun _ => Running.

(** goog.asserts.assert and goog.asserts.fail. *)
Definition assert_ {S} (b : bool) : ST S unit := fun s =>
  if b then Ret (tt, s) else Throw (JErr AssertionErr (js "Assertion failed")).
Definition fail_ {S A} (m : jsstr) : ST S A := fun _ =>
  Throw (JErr AssertionErr (js "Failure: " ++ m)).

(** ** Wire types *)

Definition VARINT : Z := 0.
Definition FIXED64 : Z := 1.
Definition DELIMITED : Z := 2.
Definition START_GROUP : Z := 3.
Definition END_GROUP : Z := 4.
Definition FIXED32 : Z := 5.
Definition INVALID : Z := -1.

(** ** The encoder: pushes onto [buffer_] *)

(** [for (; 127 < b;) push(b & 127 | 128), b >>>= 7; push(b)]. Six rounds are
    enough for every number below 2^53: after the first [>>>] it is below 2^25. *)
Fixpoint varint_loop (fuel : nat) (b : Z) : list Z :=
  match fuel with
  | O => []
  | S f => if 127 <? b then Z.lor (Z.land b 127) 128 :: varint_loop f (shr b 7) else [b]
  end.
Definition varint_fuel : nat := 6.

Definition writeUnsignedVarint32 (a : Z) (buffer_ : list Z) : outcome (list Z) :=
  if (0 <=? a) && (a <? 2 ^ 32) then Ret (buffer_ ++ varint_loop varint_fuel a)
  else Throw (JErr AssertionErr (js "Assertion failed")).

Definition in_u32 (a : Z) : bool := (0 <=? a) && (a <? 2 ^ 32).

(** The loop of [writeSplitVarint64], over the low and high halves; ten bytes
    hold every 64-bit number. *)
Fixpoint splitVarint64_loop (fuel : nat) (a b : Z) : list Z :=
  match fuel with
  | O => []
  | S f =>
      if (0 <? b) || (127 <? a) then
        Z.lor (Z.land a 127) 128 ::
        splitVarint64_loop f (u32 (Z.lor (shr a 7) (shl b 25))) (shr b 7)
      else [a]
  end.
Definition encoder_writeSplitVarint64 (a b : Z) (buffer_ : list Z) : outcome (list Z) :=
  if in_u32 a && in_u32 b then Ret (buffer_ ++ splitVarint64_loop 10 a b)
  else Throw (JErr AssertionErr (js "Assertion failed")).

Definition encoder_writeUint32 (a : Z) (buffer_ : list Z) : outcome (list Z) :=
  if in_u32 a then
    Ret (buffer_ ++ [Z.land (shr a 0) 255; Z.land (shr a 8) 255;
                     Z.land (shr a 16) 255; Z.land (shr a 24) 255])
  else Throw (JErr AssertionErr (js "Assertion failed")).
Definition encoder_writeSplitFixed64 (a b : Z) (buffer_ : list Z) : outcome (list Z) :=
  if in_u32 a && in_u32 b then
    buffer_ ← encoder_writeUint32 a buffer_; encoder_writeUint32 b buffer_
  else Throw (JErr AssertionErr (js "Assertion failed")).

(** The bytes [BinaryEncoder.writeString] pushes. A high surrogate that is not
    the last unit and is not followed by a low one pushes nothing; the last
    unit and lone low surrogates are pushed as three bytes. *)
Fixpoint encoder_writeString (a : jsstr) : list Z :=
  match a with
  | [] => []
  | d :: a' =>
      if d <? 128 then d :: encoder_writeString a'
      else if d <? 2048 then
        Z.lor (Z.shiftr d 6) 192 :: Z.lor (Z.land d 63) 128 :: encoder_writeString a'
      else if (55296 <=? d) && (d <=? 56319) && negb (a' ==? []) then
        match a' with
        | e :: a'' =>
            if (56320 <=? e) && (e <=? 57343) then
              let d := 1024 * (d - 55296) + e - 56320 + 65536 in
              Z.lor (Z.shiftr d 18) 240 :: Z.lor (Z.land (Z.shiftr d 12) 63) 128 ::
              Z.lor (Z.land (Z.shiftr d 6) 63) 128 :: Z.lor (Z.land d 63) 128 ::
              encoder_writeString a''
            else encoder_writeString a'
        | [] => []
        end
      else
        Z.lor (Z.shiftr d 12) 224 :: Z.lor (Z.land (Z.shiftr d 6) 63) 128 ::
        Z.lor (Z.land d 63) 128 :: encoder_writeString a'
  end.

(** ** The writer *)

(** [encoder_] is the encoder's buffer; [bookmarks_] are the open submessages,
    each the header block in [blocks_] that is still to be completed. *)
Record writer := BinaryWriter {
  blocks_ : list (list Z);
  totalLength_ : Z;
  encoder_ : list Z;
  bookmarks_ : list nat }.
Definition new_BinaryWriter : writer := BinaryWriter [] 0 [] [].
Definition W := ST writer.

Definition set_encoder (e : list Z) (w : writer) : writer :=
  BinaryWriter (blocks_ w) (totalLength_ w) e (bookmarks_ w).

(** Run a method of the encoder on the writer's. *)
Definition on_encoder (f : list Z -> outcome (list Z)) : W unit := fun w =>
  e ← f (encoder_ w); Ret (tt, set_encoder e w).

Definition writeFieldHeader_ (a b : Z) : W unit :=
  assert_ (1 <=? a);; on_encoder (writeUnsignedVarint32 (8 * a + b)).

(** [encoder_.end()], pushed as a block. *)
Definition flush_encoder (w : writer) : writer :=
  BinaryWriter (blocks_ w ++ [encoder_ w])
    (totalLength_ w + Z.of_nat (length (encoder_ w))) [] (bookmarks_ w).

Definition appendUint8Array_ (a : list Z) : W unit := modify_ (fun w =>
  let w := flush_encoder w in
  BinaryWriter (blocks_ w ++ [a]) (totalLength_ w + Z.of_nat (length a))
    (encoder_ w) (bookmarks_ w)).

(** The block with the field's header gets the total length so far as its last
    element; it is returned by its place in [blocks_], where it is shared. *)
Definition beginDelimited_ (a : Z) : W nat :=
  writeFieldHeader_ a DELIMITED;;
  modify_ flush_encoder;;
  i ← get_ (fun w => pred (length (blocks_ w)));
  modify_ (fun w => BinaryWriter (alter (fun blk => blk ++ [totalLength_ w]) i (blocks_ w))
    (totalLength_ w) (encoder_ w) (bookmarks_ w));;
  mret i.

(** The remembered length is popped and the length of what was written since
    is appended in its place, as a varint. *)
Definition endDelimited_ (i : nat) : W unit := fun w =>
  match blocks_ w !! i with
  | None => type_error (js "Cannot read properties of undefined")
  | Some blk =>
      let b := totalLength_ w + Z.of_nat (length (encoder_ w)) - List.last blk 0 in
      if 0 <=? b then
        let v := varint_loop varint_fuel b in
        Ret (tt, BinaryWriter (<[i := removelast blk ++ v]> (blocks_ w))
          (totalLength_ w + Z.of_nat (length v)) (encoder_ w) (bookmarks_ w))
      else Throw (JErr AssertionErr (js "Assertion failed"))
  end.

Definition beginSubMessage (a : Z) : W unit :=
  i ← beginDelimited_ a;
  modify_ (fun w => BinaryWriter (blocks_ w) (totalLength_ w) (encoder_ w) (bookmarks_ w ++ [i])).
Definition endSubMessage : W unit :=
  b ← get_ (fun w => List.last (map Some (bookmarks_ w)) None);
  modify_ (fun w => BinaryWriter (blocks_ w) (totalLength_ w) (encoder_ w) (removelast (bookmarks_ w)));;
  match b with
  | Some i => endDelimited_ i
  | None => fun _ => type_error (js "Cannot read properties of undefined (reading 'pop')")
  end.

(** The writer's [writeString], [writeBytes] and [writeMessage]; the callers'
    null tests are theirs, a field that is null is not written. *)
Definition writeString (a : Z) (b : option jsstr) : W unit :=
  match b with
  | None => mret tt
  | Some b =>
      i ← beginDelimited_ a;
      on_encoder (fun e => Ret (e ++ encoder_writeString b));;
      endDelimited_ i
  end.
Definition writeBytes (a : Z) (b : option (list Z)) : W unit :=
  match b with
  | None => mret tt
  | Some b =>
      writeFieldHeader_ a DELIMITED;;
      on_encoder (writeUnsignedVarint32 (Z.of_nat (length b)));;
      appendUint8Array_ b
  end.
Definition writeMessage (a : Z) (b : option (W unit)) : W unit :=
  match b with
  | None => mret tt
  | Some c => i ← beginDelimited_ a; c;; endDelimited_ i
  end.
Definition writeUint32 (a : Z) (b : option Z) : W unit :=
  match b with
  | None => mret tt
  | Some b =>
      assert_ ((0 <=? b) && (b <? 2 ^ 32));;
      writeFieldHeader_ a VARINT;; on_encoder (writeUnsignedVarint32 b)
  end.

Definition writeFixed32 (a : Z) (b : option Z) : W unit :=
  match b with
  | None => mret tt
  | Some b =>
      assert_ (in_u32 b);; writeFieldHeader_ a FIXED32;; on_encoder (encoder_writeUint32 b)
  end.
Definition writeSplitFixed64 (a lo hi : Z) : W unit :=
  writeFieldHeader_ a FIXED64;; on_encoder (encoder_writeSplitFixed64 lo hi).
Definition writeSplitVarint64 (a lo hi : Z) : W unit :=
  writeFieldHeader_ a VARINT;; on_encoder (encoder_writeSplitVarint64 lo hi).
Definition writeGroup (a : Z) (b : option (W unit)) : W unit :=
  match b with
  | None => mret tt
  | Some c => writeFieldHeader_ a START_GROUP;; c;; writeFieldHeader_ a END_GROUP
  end.

(** The bytes of the blocks, one after the other, in a Uint8Array of
    [totalLength_] and the encoder's length: [a.set(f, d)] throws a RangeError
    when a block does not fit. *)
Fixpoint set_blocks (a : list Z) (d : nat) (bs : list (list Z)) : outcome (list Z * nat) :=
  match bs with
  | [] => Ret (a, d)
  | f :: bs =>
      if decide (d + length f <= length a)%nat then
        set_blocks (take d a ++ map to_uint8 f ++ drop (d + length f) a) (d + length f) bs
      else range_error (js "offset is out of bounds")
  end.
Definition getResultBuffer : W (list Z) := fun w =>
  if decide (bookmarks_ w = []) then
    let n := Z.to_nat (totalLength_ w + Z.of_nat (length (encoder_ w))) in
    r ← set_blocks (replicate n 0) 0 (blocks_ w ++ [encoder_ w]);
    if decide (r.2 = n) then Ret (r.1, BinaryWriter [r.1] (totalLength_ w) [] [])
    else Throw (JErr AssertionErr (js "Assertion failed"))
  else Throw (JErr AssertionErr (js "Assertion failed")).
Definition writer_reset : W unit := modify_ (fun _ => new_BinaryWriter).
