(* ===== verification/WireReader.v ===== *)
(** google-protobuf's BinaryDecoder and BinaryReader (bundle.js 7140-7190):
    a cursor over the bytes of a message. Reads past the end give [undefined];
    the assertions that notice it come after the cursor has moved. *)

From S2P Require Import Prelude JsVal Int32 TextEncoding Wire.

(** ** The decoder *)

(** [bytes_] is empty where the source's is null: with both ends at 0 no method
    of the reader gets as far as an index. *)
Record decoder := BinaryDecoder {
  bytes_ : list Z;
  start_ : Z;
  end_ : Z;
  cursor_ : Z;
  error_ : bool }.
Definition D := ST decoder.

(** A new decoder, with the source's bytes or, for a falsy one, without. *)
Definition new_BinaryDecoder (a : option (list Z)) : decoder :=
  match a with
  | Some bytes => BinaryDecoder bytes 0 (Z.of_nat (length bytes)) 0 false
  | None => BinaryDecoder [] 0 0 0 false
  end.

Definition set_cursor (c : Z) (d : decoder) : decoder :=
  BinaryDecoder (bytes_ d) (start_ d) (end_ d) c (error_ d).
Definition setCursor (c : Z) : D unit := modify_ (set_cursor c).
Definition setEnd (e : Z) : D unit := modify_ (fun d =>
  BinaryDecoder (bytes_ d) (start_ d) e (cursor_ d) (error_ d)).

Definition advance (a : Z) : D unit :=
  modify_ (fun d => set_cursor (cursor_ d + a) d);;
  ok ← get_ (fun d => cursor_ d <=? end_ d);
  assert_ ok.
Definition atEnd (d : decoder) : bool := cursor_ d =? end_ d.
Definition getError (d : decoder) : bool :=
  error_ d || (cursor_ d <? 0) || (end_ d <? cursor_ d).

(** [for (; bytes_[cursor_] & 128;) cursor_++; cursor_++]: a byte per round, so
    one more round than there are bytes is enough. *)
Fixpoint skipVarint_loop (fuel : nat) (bytes : list Z) (cur : Z) : option Z :=
  match fuel with
  | O => None
  | S f => if band (at_ bytes cur) 128 =? 0 then Some (cur + 1)
           else skipVarint_loop f bytes (cur + 1)
  end.
Definition skipVarint : D unit := fun d =>
  match skipVarint_loop (S (length (bytes_ d))) (bytes_ d) (cursor_ d) with
  | Some c => Ret (tt, set_cursor c d)
  | None => Running
  end.

(** [128 <= a[cursor_++] && ... && assert(!1)], [n] times: whether the chain
    stopped before the assertion, and the cursor. *)
Fixpoint skip_high (n : nat) (bytes : list Z) (cur : Z) : bool * Z :=
  match n with
  | O => (false, cur)
  | S k => if ge_ (at_ bytes cur) 128 then skip_high k bytes (cur + 1) else (true, cur + 1)
  end.

Definition readUnsignedVarint32 : D Z := fun d =>
  let a i := at_ (bytes_ d) (cursor_ d + i) in
  let done n c := (advance n;; mret c) d in
  let b := a 0 in let c := band b 127 in
  if lt_ b 128 then done 1 c else
  let b := a 1 in let c := Z.lor c (Z.shiftl (band b 127) 7) in
  if lt_ b 128 then done 2 c else
  let b := a 2 in let c := Z.lor c (Z.shiftl (band b 127) 14) in
  if lt_ b 128 then done 3 c else
  let b := a 3 in let c := Z.lor c (Z.shiftl (band b 127) 21) in
  if lt_ b 128 then done 4 c else
  let b := a 4 in let c := i32 (Z.lor c (shl (band b 15) 28)) in
  if lt_ b 128 then done 5 (u32 c) else
  let '(ok, cur) := skip_high 5 (bytes_ d) (cursor_ d + 5) in
  (assert_ ok;; setCursor cur;; advance 0;; mret c) d.

(** [readSplitVarint64], which gives the two halves to its callback: the low
    half from the first five bytes, the high half from the rest of the fifth
    and five more. *)
Fixpoint split_bytes (n : nat) (e0 sh : Z) (bytes : list Z) (cur : Z) (b : option Z) (acc : Z)
    : Z * option Z * Z :=
  match n with
  | S n =>
      if ge_ b 128 then
        let b := at_ bytes cur in
        split_bytes n (e0 + 1) sh bytes (cur + 1) b (i32 (Z.lor acc (shl (band b 127) (7 * e0 + sh))))
      else (cur, b, acc)
  | O => (cur, b, acc)
  end.
Definition readSplitVarint64 {A} (a : Z -> Z -> A) : D A := fun d =>
  let bytes := bytes_ d in
  let '(cur, b, c) := split_bytes 4 0 0 bytes (cursor_ d) (Some 128) 0 in
  let '(cur, b, c, dd) :=
    if ge_ b 128 then
      let b := at_ bytes cur in
      (cur + 1, b, i32 (Z.lor c (shl (band b 127) 28)), Z.shiftr (band b 127) 4)
    else (cur, b, c, 0) in
  let '(cur, b, dd) := if ge_ b 128 then split_bytes 5 0 3 bytes cur b dd else (cur, b, dd) in
  if lt_ b 128 then Ret (a (u32 c) (u32 dd), set_cursor cur d)
  else fail_ (js "Failed to read varint, encoding is invalid.") d.

Definition decoder_readUint32 : D Z := fun d =>
  let a i := match at_ (bytes_ d) (cursor_ d + i) with Some b => b | None => 0 end in
  (advance 4;;
   mret (u32 (Z.lor (Z.lor (Z.lor (shl (a 0) 0) (shl (a 1) 8)) (shl (a 2) 16)) (shl (a 3) 24)))) d.

(** One round of [BinaryDecoder.readString]: the code units pushed and the
    cursor after it. Bytes that cannot lead are passed over. *)
Definition readString_step (bytes : list Z) (c : Z) : list Z * Z :=
  let u i := band (at_ bytes (c + i)) 63 in
  match at_ bytes c with
  | None => ([], c + 1)
  | Some f =>
      if f <? 128 then ([f], c + 1)
      else if f <? 192 then ([], c + 1)
      else if f <? 224 then ([Z.lor (Z.shiftl (Z.land f 31) 6) (u 1)], c + 2)
      else if f <? 240 then
        ([Z.lor (Z.lor (Z.shiftl (Z.land f 15) 12) (Z.shiftl (u 1) 6)) (u 2)], c + 3)
      else if f <? 248 then
        let f := Z.lor (Z.lor (Z.lor (Z.shiftl (Z.land f 7) 18) (Z.shiftl (u 1) 12))
                          (Z.shiftl (u 2) 6)) (u 3) - 65536 in
        ([Z.land (Z.shiftr f 10) 1023 + 55296; Z.land f 1023 + 56320], c + 4)
      else ([], c + 1)
  end.

(** [String.fromCharCode]. *)
Definition fromCharCode (d : list Z) : jsstr := map (fun u => u mod 65536) d.

(** The loop up to [a]; the array [d] of pending units is emptied into the
    string [e] when it has 8192 of them. *)
Fixpoint readString_loop (fuel : nat) (bytes : list Z) (c a : Z) (d e : list Z) : jsstr * Z :=
  if c <? a then
    match fuel with
    | O => (e, c)
    | S f =>
        let '(us, c) := readString_step bytes c in
        let d := d ++ us in
        if 8192 <=? Z.of_nat (length d) then
          readString_loop f bytes c a [] (e ++ fromCharCode d)
        else readString_loop f bytes c a d e
    end
  else (e ++ fromCharCode d, c).
Definition decoder_readString (a : Z) : D jsstr := fun d =>
  let c := cursor_ d in
  let '(s, c') := readString_loop (Z.to_nat a) (bytes_ d) c (c + a) [] [] in
  Ret (s, set_cursor c' d).

(** Where the source marks the error and fails, the failure throws. *)
Definition readBytes (a : Z) : D (list Z) := fun d =>
  if (a <? 0) || (Z.of_nat (length (bytes_ d)) <? cursor_ d + a) then
    fail_ (js "Invalid byte length!") d
  else
    (advance a;; mret (take (Z.to_nat a) (drop (Z.to_nat (cursor_ d)) (bytes_ d)))) d.

(** ** The reader *)

Record reader := BinaryReader {
  decoder_ : decoder;
  fieldCursor_ : Z;
  nextField_ : Z;
  nextWireType_ : Z;
  reader_error_ : bool }.
Definition R := ST reader.

(** [alloc] takes a decoder from its cache of freed ones; nothing frees one. *)
Definition new_BinaryReader (a : option (list Z)) : reader :=
  BinaryReader (new_BinaryDecoder a) 0 (-1) INVALID false.

Definition on_decoder {A} (m : D A) : R A := fun r =>
  '(x, d) ← m (decoder_ r);
  Ret (x, BinaryReader d (fieldCursor_ r) (nextField_ r) (nextWireType_ r) (reader_error_ r)).

Definition getFieldNumber : R Z := get_ nextField_.
Definition isEndGroup : R bool := get_ (fun r => nextWireType_ r =? END_GROUP).
Definition reader_getError (r : reader) : bool := reader_error_ r || getError (decoder_ r).

(** The wire types [nextField] accepts. *)
Definition wire_type_ok (a : Z) : bool :=
  (a =? VARINT) || (a =? FIXED32) || (a =? FIXED64) || (a =? DELIMITED)
  || (a =? START_GROUP) || (a =? END_GROUP).

Definition nextField : R bool := fun r =>
  if atEnd (decoder_ r) then Ret (false, r)
  else if reader_getError r then fail_ (js "Decoder hit an error") r
  else
    let fc := cursor_ (decoder_ r) in
    match readUnsignedVarint32 (decoder_ r) with
    | Ret (a, d) =>
        let b := shr a 3 in let a := Z.land a 7 in
        if wire_type_ok a then Ret (true, BinaryReader d fc b a (reader_error_ r))
        else fail_ (js "Invalid wire type: " ++ num_to_str a ++ js " (at position "
                      ++ num_to_str fc ++ js ")") r
    | Throw e => Throw e
    | Running => Running
    end.

(** [skipField] and the methods it calls on a field of each wire type; each of
    those tests the wire type again, which cannot differ here. [skipGroup]
    throws where the source fails, before it marks the error. *)
Definition skipDelimitedField : R unit :=
  a ← on_decoder readUnsignedVarint32; on_decoder (advance a).
Fixpoint skipField (fuel : nat) : R unit :=
  match fuel with
  | O => running
  | S f =>
      t ← get_ nextWireType_;
      if t =? VARINT then on_decoder skipVarint
      else if t =? FIXED64 then on_decoder (advance 8)
      else if t =? DELIMITED then skipDelimitedField
      else if t =? FIXED32 then on_decoder (advance 4)
      else if t =? START_GROUP then a ← get_ nextField_; skipGroup f a
      else fail_ (js "Invalid wire encoding for field.")
  end
with skipGroup (fuel : nat) (a : Z) : R unit :=
  match fuel with
  | O => running
  | S f =>
      more ← nextField;
      if more : bool then
        t ← get_ nextWireType_;
        if t =? END_GROUP then
          n ← get_ nextField_;
          if n =? a then mret tt else fail_ (js "Unmatched end-group tag")
        else skipField f;; skipGroup f a
      else fail_ (js "Unmatched start-group tag: stream EOF")
  end.

Definition expect_wire (t : Z) : R unit :=
  ok ← get_ (fun r => nextWireType_ r =? t); assert_ ok.
Definition readString : R jsstr :=
  expect_wire DELIMITED;;
  a ← on_decoder readUnsignedVarint32; on_decoder (decoder_readString a).
Definition reader_readBytes : R (list Z) :=
  expect_wire DELIMITED;;
  a ← on_decoder readUnsignedVarint32; on_decoder (readBytes a).
Definition readUint32 : R Z := expect_wire VARINT;; on_decoder readUnsignedVarint32.
Definition readFixed32 : R Z := expect_wire FIXED32;; on_decoder decoder_readUint32.
Definition reader_readSplitVarint64 {A} (a : Z -> Z -> A) : R A :=
  expect_wire VARINT;; on_decoder (readSplitVarint64 a).
Definition readMessage (b : R unit) : R unit :=
  expect_wire DELIMITED;;
  c ← get_ (fun r => end_ (decoder_ r));
  a ← on_decoder readUnsignedVarint32;
  d ← get_ (fun r => cursor_ (decoder_ r) + a);
  on_decoder (setEnd d);; b;;
  on_decoder (setCursor d);; on_decoder (setEnd c).
