(* ===== verification/WirePool.v ===== *)
(** The caches of freed decoders and readers (bundle.js 7140-7142, 7159-7163):
    an object that is freed is cleared and kept, and handed out again by a later
    [alloc]. Objects have an identity here, a decoder belongs to its reader. *)

From S2P Require Import Prelude JsVal Wire WireReader.

(** ** Blocks *)

(** The bytes of a source with the offset and the length asked for. *)
Record block := Block { b_bytes : list Z; b_start : option Z; b_length : option Z }.
Definition cleared : decoder := BinaryDecoder [] 0 0 0 false.
Definition decoder_setBlock (b : block) (d : decoder) : decoder :=
  let start := default 0 (b_start b) in
  let end_ := match b_length b with Some c => start + c | None => Z.of_nat (length (b_bytes b)) end in
  BinaryDecoder (b_bytes b) start end_ start (error_ d).
(** [new BinaryDecoder(a, b, c)], [None] for a falsy source. *)
Definition new_decoder (b : option block) : decoder := match b with Some b => decoder_setBlock b cleared | None => cleared end.
Definition decoder_reset (d : decoder) : decoder := set_cursor (start_ d) d.
Definition pastEnd (d : decoder) : bool := end_ d <? cursor_ d.

(** ** The objects *)

(** A reader with the decoder it owns; [callbacks] are the fields that have a
    read callback, none where the source has null. *)
Record reader_object := ReaderObject {
  o_decoder : nat; o_fieldCursor : Z; o_nextField : Z; o_nextWireType : Z; o_error : bool; callbacks : list Z }.
Record pool := Pool {
  decoders : list decoder;
  decoder_cache : list nat;       (* the last one freed first *)
  readers : list reader_object;
  reader_cache : list nat }.
Definition set_decoders f (p : pool) : pool := Pool (f (decoders p)) (decoder_cache p) (readers p) (reader_cache p).
Definition set_decoder_cache c (p : pool) : pool := Pool (decoders p) c (readers p) (reader_cache p).
Definition set_readers f (p : pool) : pool := Pool (decoders p) (decoder_cache p) (f (readers p)) (reader_cache p).
Definition set_reader_cache c (p : pool) : pool := Pool (decoders p) (decoder_cache p) (readers p) c.
(** [if (100 > cache.length) cache.push(this)] *)
Definition keep (i : nat) (c : list nat) : list nat := if (length c <? 100)%nat then i :: c else c.

Definition update_decoder (i : nat) (f : decoder -> decoder) : pool -> pool := set_decoders (alter f i).
Definition set_block_of (i : nat) (b : option block) (p : pool) : pool :=
  match b with Some b => update_decoder i (decoder_setBlock b) p | None => p end.

Definition decoder_alloc (b : option block) (p : pool) : nat * pool :=
  match decoder_cache p with
  | i :: c => (i, set_block_of i b (set_decoder_cache c p))
  | [] => (length (decoders p), set_decoders (fun l => l ++ [new_decoder b]) p)
  end.
Definition decoder_free (i : nat) (p : pool) : pool :=
  let p := update_decoder i (fun _ => cleared) p in
  set_decoder_cache (keep i (decoder_cache p)) p.

(** [new BinaryReader(a, b, c)] *)
Definition new_reader (b : option block) (p : pool) : nat * pool :=
  let '(i, p) := decoder_alloc b p in
  let fc := match decoders p !! i with Some d => cursor_ d | None => 0 end in
  (length (readers p), set_readers (fun l => l ++ [ReaderObject i fc (-1) INVALID false []]) p).
Definition owned (r : nat) (p : pool) : nat := match readers p !! r with Some o => o_decoder o | None => O end.
Definition reader_alloc (b : option block) (p : pool) : nat * pool :=
  match reader_cache p with
  | r :: c => (r, set_block_of (owned r p) b (set_reader_cache c p))
  | [] => new_reader b p
  end.
(** The field's cursor stays. *)
Definition cleared_reader (o : reader_object) : reader_object :=
  ReaderObject (o_decoder o) (o_fieldCursor o) (-1) INVALID false [].
Definition reader_free (r : nat) (p : pool) : pool :=
  let p := update_decoder (owned r p) (fun _ => cleared) p in
  let p := set_readers (alter cleared_reader r) p in
  set_reader_cache (keep r (reader_cache p)) p.

(** [setBlock] and [reset] of a reader forget the field it was at, not its
    error. *)
Definition no_field (o : reader_object) : reader_object :=
  ReaderObject (o_decoder o) (o_fieldCursor o) (-1) INVALID (o_error o) (callbacks o).
Definition reader_setBlock (r : nat) (b : block) (p : pool) : pool :=
  set_readers (alter no_field r) (update_decoder (owned r p) (decoder_setBlock b) p).
Definition reader_reset (r : nat) (p : pool) : pool :=
  set_readers (alter no_field r) (update_decoder (owned r p) decoder_reset p).
Definition registerReadCallback (r : nat) (a : Z) (p : pool) : outcome pool :=
  match readers p !! r with
  | Some o =>
      if decide (a ∈ callbacks o) then Throw (JErr AssertionErr (js "Assertion failed"))
      else Ret (set_readers (alter (fun o => ReaderObject (o_decoder o) (o_fieldCursor o) (o_nextField o) (o_nextWireType o) (o_error o) (a :: callbacks o)) r) p)
  | None => Ret p
  end.

(** What the methods of a reader see, and what they leave behind. *)
Definition reader_view (p : pool) (r : nat) : option reader :=
  o ← readers p !! r; d ← decoders p !! o_decoder o;
  Some (BinaryReader d (o_fieldCursor o) (o_nextField o) (o_nextWireType o) (o_error o)).
Definition store_view (r : nat) (v : reader) (p : pool) : pool :=
  set_readers (alter (fun o => ReaderObject (o_decoder o) (fieldCursor_ v) (nextField_ v) (nextWireType_ v) (reader_error_ v) (callbacks o)) r)
    (update_decoder (owned r p) (fun _ => decoder_ v) p).
