(* ===== verification/GoogBase64.v ===== *)
(** The base64 decoder of the Closure library (bundle.js 7111-7119), which
    jspb applies to a message given as a string, and its encoder. Padding and
    both alphabets are accepted, white space is passed over. *)

From S2P Require Import Prelude JsVal Int32 TextEncoding.

Definition DEFAULT_ALPHABET_COMMON_ : jsstr :=
  js "ABCDEFGHIJKLMNOPQRSTUVWXYZabcdefghijklmnopqrstuvwxyz0123456789".
(** The suffixes of the five alphabets, in [init_]. *)
Definition alphabet_suffixes : list jsstr := [js "+/="; js "+/"; js "-_="; js "-_."; js "-_"].
Definition byteToCharMap (alphabet : nat) : list Z :=
  DEFAULT_ALPHABET_COMMON_ ++ default [] (alphabet_suffixes !! alphabet).

(** [init_] fills [charToByteMap_] from the five alphabets, in order; the
    values agree where a character is in several. *)
Fixpoint index_of (c : Z) (l : list Z) (i : Z) : option Z :=
  match l with
  | [] => None
  | x :: l => if x =? c then Some i else index_of c l (i + 1)
  end.
Definition charToByteMap_ (c : Z) : option Z :=
  foldr (fun alphabet rest =>
    match index_of c (byteToCharMap alphabet) 0 with Some i => Some i | None => rest end)
    None (seq 0 5).

(** [/^[\s\xa0]*$/] on one character. *)
Definition isEmptyOrWhitespace (c : Z) : bool :=
  inRange c 9 13 || (c =? 32) || (c =? 0xA0) || (c =? 0x1680) || inRange c 0x2000 0x200A
  || (c =? 0x2028) || (c =? 0x2029) || (c =? 0x202F) || (c =? 0x205F) || (c =? 0x3000)
  || (c =? 0xFEFF).

(** The inner [c(b)]: the value of the next character that has one, [b] at the
    end of the string; with the rest of the string. *)
Fixpoint next_value (a : jsstr) (b : Z) : outcome (Z * jsstr) :=
  match a with
  | [] => Ret (b, [])
  | c :: a =>
      match charToByteMap_ c with
      | Some e => Ret (e, a)
      | None =>
          if isEmptyOrWhitespace c then next_value a b
          else Throw (JErr PlainError (js "Unknown base64 encoding at char: " ++ [c]))
      end
  end.

(** [decodeStringInternal_]: the numbers given to the callback. Each round but
    the last takes a character, so one more round than characters is enough. *)
Fixpoint decodeStringInternal_ (fuel : nat) (a : jsstr) : outcome (list Z) :=
  match fuel with
  | O => Running
  | S fuel =>
      '(e, a) ← next_value a (-1);
      '(f, a) ← next_value a 0;
      '(g, a) ← next_value a 64;
      '(h, a) ← next_value a 64;
      if (h =? 64) && (e =? -1) then Ret []
      else
        rest ← decodeStringInternal_ fuel a;
        Ret (Z.lor (shl e 2) (sar f 4) ::
             (if g =? 64 then []
              else Z.lor (Z.land (shl f 4) 240) (sar g 2) ::
                   (if h =? 64 then [] else [Z.lor (Z.land (shl g 6) 192) h])) ++ rest)
  end.

Definition isPadding_ (c : option Z) : bool :=
  match c with Some c => (c =? 61) || (c =? 46) | None => false end.

(** The size of the array [decodeStringToUint8Array] makes; what the decoder
    writes past it is lost. [3 * b / 4] has no remainder by 3 exactly when [b]
    is a multiple of 4. *)
Definition decoded_size (a : jsstr) : Z :=
  let b := Z.of_nat (length a) in
  let c := 3 * b / 4 in
  if negb (b mod 4 =? 0) then c
  else if isPadding_ (at_ a (b - 1)) then
    if isPadding_ (at_ a (b - 2)) then c - 2 else c - 1
  else c.
Definition decodeStringToUint8Array (a : jsstr) : outcome (list Z) :=
  d ← decodeStringInternal_ (S (length a)) a;
  Ret (take (Z.to_nat (decoded_size a)) (map to_uint8 d)).

(** [encodeByteArray]: [b[g]||""] is nothing past the alphabet's end. *)
Definition char_or_nothing (alphabet : nat) (i : Z) : jsstr :=
  match at_ (byteToCharMap alphabet) i with Some c => [c] | None => [] end.
Fixpoint encodeByteArray (a : list Z) (alphabet : nat) : jsstr :=
  let b := char_or_nothing alphabet in
  match a with
  | [] => []
  | [e] => b (Z.shiftr e 2) ++ b (Z.shiftl (Z.land e 3) 4) ++ b 64 ++ b 64
  | [e; g] =>
      b (Z.shiftr e 2) ++ b (Z.lor (Z.shiftl (Z.land e 3) 4) (Z.shiftr g 4))
      ++ b (Z.shiftl (Z.land g 15) 2) ++ b 64
  | e :: g :: k :: a =>
      b (Z.shiftr e 2) ++ b (Z.lor (Z.shiftl (Z.land e 3) 4) (Z.shiftr g 4))
      ++ b (Z.lor (Z.shiftl (Z.land g 15) 2) (Z.shiftr k 6)) ++ b (Z.land k 63)
      ++ encodeByteArray a alphabet
  end.

(** A character above 255 gives two bytes, the low one first. *)
Fixpoint stringToByteArray (a : jsstr) : list Z :=
  match a with
  | [] => []
  | e :: a => (if 255 <? e then [Z.land e 255; Z.shiftr e 8] else [e]) ++ stringToByteArray a
  end.
(** With a native [btoa] or [atob], which are the page's, the default alphabet
    is left to it. *)
Definition encodeString (btoa : option (jsstr -> outcome jsstr)) (a : jsstr) (b : nat) : outcome jsstr :=
  match btoa, b with Some btoa, O => btoa a | _, _ => Ret (encodeByteArray (stringToByteArray a) b) end.
Definition decodeString (atob : option (jsstr -> outcome jsstr)) (a : jsstr) (b : bool) : outcome jsstr :=
  match atob, b with
  | Some atob, false => atob a
  | _, _ => d ← decodeStringInternal_ (S (length a)) a; Ret (map (fun u => u mod 65536) d)
  end.
Definition decodeStringToByteArray (a : jsstr) : outcome (list Z) := decodeStringInternal_ (S (length a)) a.
