(* ===== verification/Base64.v ===== *)
(** base64-js (bundle.js 4831-4983): the encoder, which works in chunks, and
    the decoder, which takes the length and the padding from the string and
    reads characters it does not know as zero bits. *)

From S2P Require Import Prelude JsVal Int32 TextEncoding GoogBase64.

Definition code : jsstr := js "ABCDEFGHIJKLMNOPQRSTUVWXYZabcdefghijklmnopqrstuvwxyz0123456789+/".

(** [lookup[i]], of an index below 64. *)
Definition lookup_ (i : Z) : Z := default 0 (at_ code i).
(** [revLookup[c]], with the two characters of the URL alphabet. *)
Definition revLookup (c : option Z) : option Z :=
  match c with
  | None => None
  | Some c =>
      if c =? 45 then Some 62
      else if c =? 95 then Some 63
      else index_of c code 0
  end.
(** [undefined << n] and [undefined >> n] are 0. *)
Definition digit (b64 : jsstr) (i : Z) : Z := default 0 (revLookup (at_ b64 i)).

Definition getLens (b64 : jsstr) : outcome (Z * Z) :=
  let len := Z.of_nat (length b64) in
  if 0 <? len mod 4 then
    Throw (JErr PlainError (js "Invalid string. Length must be a multiple of 4"))
  else
    let validLen := default len (index_of 61 b64 0) in
    let placeHoldersLen := if validLen =? len then 0 else 4 - validLen mod 4 in
    Ret (validLen, placeHoldersLen).

Definition byteLength_ (validLen placeHoldersLen : Z) : Z :=
  (validLen + placeHoldersLen) * 3 / 4 - placeHoldersLen.
Definition byteLength (b64 : jsstr) : outcome Z :=
  '(validLen, placeHoldersLen) ← getLens b64; Ret (byteLength_ validLen placeHoldersLen).

(** The loop over groups of four characters, from [i] below [len]: the bytes
    written and the index it ends at. *)
Fixpoint toByteArray_loop (fuel : nat) (b64 : jsstr) (i len : Z) : list Z * Z :=
  match fuel with
  | O => ([], i)
  | S fuel =>
      if i <? len then
        let tmp := Z.lor (Z.lor (Z.lor (Z.shiftl (digit b64 i) 18) (Z.shiftl (digit b64 (i + 1)) 12))
                            (Z.shiftl (digit b64 (i + 2)) 6)) (digit b64 (i + 3)) in
        let '(rest, i) := toByteArray_loop fuel b64 (i + 4) len in
        (Z.land (Z.shiftr tmp 16) 255 :: Z.land (Z.shiftr tmp 8) 255 :: Z.land tmp 255 :: rest, i)
      else ([], i)
  end.

(** [new Arr(n)], filled from the front with [bs]; what does not fit is lost. *)
Definition fill (n : Z) (bs : list Z) : list Z :=
  take (Z.to_nat n) (bs ++ replicate (Z.to_nat n) 0).

Definition toByteArray (b64 : jsstr) : outcome (list Z) :=
  '(validLen, placeHoldersLen) ← getLens b64;
  let n := byteLength_ validLen placeHoldersLen in
  if n <? 0 then range_error (js "Invalid typed array length: " ++ num_to_str n)
  else
    let len := if 0 <? placeHoldersLen then validLen - 4 else validLen in
    let '(bs, i) := toByteArray_loop (length b64) b64 0 len in
    let tail :=
      if placeHoldersLen =? 2 then
        let tmp := Z.lor (Z.shiftl (digit b64 i) 2) (Z.shiftr (digit b64 (i + 1)) 4) in
        [Z.land tmp 255]
      else if placeHoldersLen =? 1 then
        let tmp := Z.lor (Z.lor (Z.shiftl (digit b64 i) 10) (Z.shiftl (digit b64 (i + 1)) 4))
                     (Z.shiftr (digit b64 (i + 2)) 2) in
        [Z.land (Z.shiftr tmp 8) 255; Z.land tmp 255]
      else [] in
    Ret (fill n (bs ++ tail)).

Definition tripletToBase64 (num : Z) : jsstr :=
  [lookup_ (Z.land (Z.shiftr num 18) 63); lookup_ (Z.land (Z.shiftr num 12) 63);
   lookup_ (Z.land (Z.shiftr num 6) 63); lookup_ (Z.land num 63)].

(** A byte of the array; [undefined] counts as 0 under [<<] and [&]. *)
Definition u8 (uint8 : list Z) (i : Z) : Z := default 0 (at_ uint8 i).

Fixpoint encodeChunk (fuel : nat) (uint8 : list Z) (i end_ : Z) : jsstr :=
  match fuel with
  | O => []
  | S fuel =>
      if i <? end_ then
        let tmp := Z.land (Z.shiftl (u8 uint8 i) 16) 0xFF0000
                   + Z.land (Z.shiftl (u8 uint8 (i + 1)) 8) 0xFF00
                   + Z.land (u8 uint8 (i + 2)) 0xFF in
        tripletToBase64 tmp ++ encodeChunk fuel uint8 (i + 3) end_
      else []
  end.

Definition maxChunkLength : Z := 16383.

(** The loop over chunks; each is encoded on its own and they are joined. *)
Fixpoint parts (fuel : nat) (uint8 : list Z) (i len2 : Z) : list jsstr :=
  match fuel with
  | O => []
  | S fuel =>
      if i <? len2 then
        let end_ := if len2 <? i + maxChunkLength then len2 else i + maxChunkLength in
        encodeChunk (length uint8) uint8 i end_ :: parts fuel uint8 (i + maxChunkLength) len2
      else []
  end.

Definition fromByteArray (uint8 : list Z) : jsstr :=
  let len := Z.of_nat (length uint8) in
  let extraBytes := len mod 3 in
  let ps := parts (length uint8) uint8 0 (len - extraBytes) in
  concat (ps ++ [
    if extraBytes =? 1 then
      let tmp := u8 uint8 (len - 1) in
      [lookup_ (Z.shiftr tmp 2); lookup_ (Z.land (Z.shiftl tmp 4) 63); 61; 61]
    else if extraBytes =? 2 then
      let tmp := Z.shiftl (u8 uint8 (len - 2)) 8 + u8 uint8 (len - 1) in
      [lookup_ (Z.shiftr tmp 10); lookup_ (Z.land (Z.shiftr tmp 4) 63);
       lookup_ (Z.land (Z.shiftl tmp 2) 63); 61]
    else []]).
