(* ===== verification/Process.v ===== *)
(** The browser shim of Node's [process] (bundle.js 7399-7583): the queue
    behind [process.nextTick], drained from a timer, with a second timer that
    picks the work up again when a callback throws; and the timer functions it
    finds and calls. *)

From S2P Require Import Prelude JsVal.

(** A queued call. Its function is a closure: [fun_] names it, [spawns] are the
    calls of [nextTick] it makes when it runs, and it may end by throwing. *)
Inductive item := Item (fun_ : nat) (array : list jsval) (spawns : list item) (throws : bool).
Definition item_spawns (i : item) : list item := let 'Item _ _ s _ := i in s.
Definition item_throws (i : item) : bool := let 'Item _ _ _ t := i in t.
(** What a run leaves behind: the function was applied to the arguments. *)
Definition applied (i : item) : nat * list jsval := let 'Item f a _ _ := i in (f, a).

Inductive callback := DrainQueue | CleanUpNextTick.

(** The module's variables, the timers that are set, and the calls made. *)
Record process := Process {
  queue : list item;
  draining : bool;
  currentQueue : option (list item);
  queueIndex : Z;
  timers : list (nat * callback);
  nextTimer : nat;
  log : list (nat * list jsval) }.
Definition new_process : process := Process [] false None (-1) [] 0 [].

Definition set_queue q (s : process) : process :=
  Process q (draining s) (currentQueue s) (queueIndex s) (timers s) (nextTimer s) (log s).
Definition set_draining b (s : process) : process :=
  Process (queue s) b (currentQueue s) (queueIndex s) (timers s) (nextTimer s) (log s).
Definition set_currentQueue c (s : process) : process :=
  Process (queue s) (draining s) c (queueIndex s) (timers s) (nextTimer s) (log s).
Definition set_queueIndex i (s : process) : process :=
  Process (queue s) (draining s) (currentQueue s) i (timers s) (nextTimer s) (log s).
Definition set_timers t n (s : process) : process :=
  Process (queue s) (draining s) (currentQueue s) (queueIndex s) t n (log s).
Definition set_log l (s : process) : process :=
  Process (queue s) (draining s) (currentQueue s) (queueIndex s) (timers s) (nextTimer s) l.

(** [runTimeout] where the page has left [setTimeout] alone: a timer of delay
    0, by its handle; and [runClearTimeout]. *)
Definition runTimeout (f : callback) (s : process) : nat * process :=
  (nextTimer s, set_timers (timers s ++ [(nextTimer s, f)]) (S (nextTimer s)) s).
Definition runClearTimeout (marker : nat) (s : process) : process :=
  set_timers (List.filter (fun t => negb (t.1 =? marker)%nat) (timers s)) (nextTimer s) s.

Definition nextTick (i : item) (s : process) : process :=
  let s := set_queue (queue s ++ [i]) s in
  if (length (queue s) =? 1)%nat && negb (draining s) then (runTimeout DrainQueue s).2 else s.

(** A call returns or throws; [Stuck] is the model's fuel running out. *)
Inductive result := Returned | Threw | Stuck.
#[global] Instance result_eq_dec : EqDecision result.
Proof. solve_decision. Defined.

Definition run (i : item) (s : process) : result * process :=
  let s := set_log (log s ++ [applied i]) s in
  let s := fold_left (fun s j => nextTick j s) (item_spawns i) s in
  (if item_throws i then Threw else Returned, s).

(** [while (++queueIndex < len) if (currentQueue) currentQueue[queueIndex].run()] *)
Fixpoint inner_loop (fuel : nat) (len : Z) (s : process) : result * process :=
  match fuel with
  | O => (Stuck, s)
  | S f =>
      let s := set_queueIndex (queueIndex s + 1) s in
      if queueIndex s <? len then
        match currentQueue s with
        | Some cq =>
            match cq !! Z.to_nat (queueIndex s) with
            | Some i =>
                match run i s with
                | (Returned, s) => inner_loop f len s
                | r => r
                end
            | None => (Threw, s) (* [undefined.run] *)
            end
        | None => inner_loop f len s
        end
      else (Returned, s)
  end.

(** [while (len) { ... }] *)
Fixpoint drain_loop (fuel : nat) (s : process) : result * process :=
  let len := Z.of_nat (length (queue s)) in
  if len =? 0 then (Returned, s)
  else
    match fuel with
    | O => (Stuck, s)
    | S f =>
        let s := set_queue [] (set_currentQueue (Some (queue s)) s) in
        match inner_loop (S (Z.to_nat len)) len s with
        | (Returned, s) => drain_loop f (set_queueIndex (-1) s)
        | r => r
        end
    end.

(** The number of calls an item leads to, itself included. *)
Fixpoint size (i : item) : nat := let 'Item _ _ s _ := i in S (list_sum (map size s)).
Definition total (q : list item) : nat := list_sum (map size q).

(** Every round of [drain_loop] makes at least one of the calls that are still
    to come, so their number is fuel enough. *)
Definition drainQueue (s : process) : result * process :=
  if draining s then (Returned, s)
  else
    let '(timeout, s) := runTimeout CleanUpNextTick s in
    let s := set_draining true s in
    match drain_loop (total (queue s)) s with
    | (Returned, s) =>
        (Returned, runClearTimeout timeout (set_draining false (set_currentQueue None s)))
    | r => r
    end.

Definition cleanUpNextTick (s : process) : result * process :=
  match draining s, currentQueue s with
  | true, Some cq =>
      let s := set_draining false s in
      let s := if decide (cq = []) then set_queueIndex (-1) s else set_queue (cq ++ queue s) s in
      if decide (queue s = []) then (Returned, s) else drainQueue s
  | _, _ => (Returned, s)
  end.

(** What can happen: some code calls [nextTick], or the first timer that is set
    fires. A callback that throws is reported by the host. *)
Inductive event := Tick (i : item) | Fire.
Definition step (s : process) (e : event) : process :=
  match e with
  | Tick i => nextTick i s
  | Fire =>
      match timers s with
      | [] => s
      | (_, f) :: rest =>
          let s := set_timers rest (nextTimer s) s in
          (match f with DrainQueue => drainQueue s | CleanUpNextTick => cleanUpNextTick s end).2
      end
  end.
Definition steps (s : process) (es : list event) : process := fold_left step es s.

(** ** The timer functions *)

(** Which timer functions the shim calls (bundle.js 7408-7480): it keeps the
    ones it finds when it is loaded, takes a later one up where there was none,
    and calls one that the page has replaced since in three ways. *)

(** A function of the page, a value of it that is none, or one of the two
    functions of the shim that throw. *)
Inductive fn := Platform (f : nat) | NotCallable (v : nat) | DefaultSetTimeout | DefaultClearTimeout.
#[global] Instance fn_eq_dec : EqDecision fn.
Proof. solve_decision. Defined.
(** [f(x)], [f.call(null, x)] and [f.call(this, x)]. *)
Inductive manner := Plain | WithNull | WithThis.
(** A global name of the page: not declared, undefined or null, or a value. *)
Inductive global := Undeclared | Nullish | Is (f : fn).

(** What calling a function of the page does. *)
Class Page := call_page : nat -> manner -> outcome Z.

Section timers.
Context `{Page}.

Definition call (f : fn) (how : manner) : outcome Z :=
  match f with
  | Platform f => call_page f how
  | NotCallable _ => type_error (js "not a function")
  | DefaultSetTimeout => Throw (JErr PlainError (js "setTimeout has not been defined"))
  | DefaultClearTimeout => Throw (JErr PlainError (js "clearTimeout has not been defined"))
  end.
(** [if (typeof g === 'function')]; [f] is the function that throws. *)
Definition cached_at_load (g : global) (f : fn) : fn := match g with Is (Platform h) => Platform h | _ => f end.

(** [try { return m } catch (e) { n }] *)
Definition or_else (m n : outcome Z) : outcome Z := match m with Throw _ => n | _ => m end.
Definition call_any_way (f : fn) : outcome Z := or_else (call f Plain) (or_else (call f WithNull) (call f WithThis)).
(** The result, and what is cached afterwards. *)
Definition runTimeout_with (name : jsstr) (f cached : fn) (g : global) : outcome Z * fn :=
  match g with
  | Undeclared => (Throw (JErr ReferenceErr (name ++ js " is not defined")), cached)
  | Nullish => (call_any_way cached, cached)
  | Is h =>
      if cached ==? h then (call h Plain, cached)
      else if cached ==? f then (call h Plain, h)
      else (call_any_way cached, cached)
  end.
Definition runTimeout_on := runTimeout_with (js "setTimeout") DefaultSetTimeout.
Definition runClearTimeout_on := runTimeout_with (js "clearTimeout") DefaultClearTimeout.

(** ** What is called *)

(** Where the page leaves its function alone, it is called, as a function. *)
Lemma page_function_called name f h : runTimeout_with name f (cached_at_load (Is (Platform h)) f) (Is (Platform h)) = (call_page h Plain, Platform h).
Proof. cbn. by rewrite bool_decide_eq_true_2. Qed.
(** A function that appears after the shim was loaded is called from its first
    use on. *)
Lemma late_function_called name f h g : (forall h', g <> Is (Platform h')) -> f <> Platform h ->
  let cached := cached_at_load g f in
  runTimeout_with name f cached (Is (Platform h)) = (call_page h Plain, Platform h) /\
  runTimeout_with name f (Platform h) (Is (Platform h)) = (call_page h Plain, Platform h).
Proof.
  intros Hg Hf cached. assert (Hc : cached = f) by (subst cached; destruct g as [| |[]]; cbn; try done; by edestruct Hg).
  rewrite Hc. cbn. rewrite (bool_decide_eq_false_2 (f = Platform h)), !bool_decide_eq_true_2 by done. done.
Qed.
(** A replaced function is not called: the one from the time of loading is, in
    the first manner in which it does not throw. *)
Lemma replaced_function_kept name f h h' x : h <> h' -> f <> Platform h ->
  call_page h Plain = Ret x \/ (exists e, call_page h Plain = Throw e) /\
    (call_page h WithNull = Ret x \/ (exists e, call_page h WithNull = Throw e) /\ call_page h WithThis = Ret x) ->
  runTimeout_with name f (Platform h) (Is (Platform h')) = (Ret x, Platform h).
Proof.
  intros Hh Hf Hx. cbn. rewrite !bool_decide_eq_false_2 by congruence. unfold call_any_way, call.
  destruct Hx as [-> |[[e ->] [-> |[[e' ->] ->]]]]; done.
Qed.
(** On a page that never had the function nothing is called, and the call
    throws. *)
Lemma no_function_throws name g : (forall h, g <> Is h) -> exists e,
  runTimeout_with name DefaultSetTimeout (cached_at_load g DefaultSetTimeout) g = (Throw e, DefaultSetTimeout).
Proof. intros Hg. destruct g as [| |h]; [by eexists..|by destruct (Hg h)]. Qed.
End timers.
