(* ===== verification/UserMessage.v ===== *)
(** The generated class [proto.main.UserMessage] (user_message_pb.js) on the
    parts of [jspb.Message] it uses (bundle.js 7203-7218): a message keeps its
    fields in an array, a field that holds its default is null or missing. *)

From S2P Require Import Prelude JsVal Int32 TextEncoding Wire WireReader GoogBase64.

(** ** jspb.Message *)

Section message.
(** [pivot_] is [Number.MAX_VALUE] for a class without extensions, whose data
    holds no extension object: every field number is below it. *)
Record pb_message := PbMessage {
  arrayIndexOffset_ : Z;
  array : list jsval }.

Definition initialize (opt_data : option (list jsval)) (messageId : Z) : pb_message :=
  PbMessage (if messageId =? 0 then -1 else 0) (default [] opt_data).
Definition getIndex_ (m : pb_message) (b : Z) : Z := b + arrayIndexOffset_ m.

Definition getField (m : pb_message) (b : Z) : jsval :=
  default JUndef (array m !! Z.to_nat (getIndex_ m b)).
Definition is_nullish (v : jsval) : bool :=
  match v with JUndef | JNull => true | _ => false end.
Definition getFieldWithDefault (m : pb_message) (b : Z) (c : jsval) : jsval :=
  let a := getField m b in if is_nullish a then c else a.

(** [array[i] = c], which extends the array with holes. *)
Definition array_set (i : nat) (c : jsval) (a : list jsval) : list jsval :=
  <[i := c]> (a ++ replicate (S i - length a) JUndef).
Definition setField (m : pb_message) (b : Z) (c : jsval) : pb_message :=
  PbMessage (arrayIndexOffset_ m) (array_set (Z.to_nat (getIndex_ m b)) c (array m)).
Definition setFieldIgnoringDefault_ (m : pb_message) (b : Z) (c d : jsval) : pb_message :=
  if decide (c <> d) then setField m b c else setField m b JNull.
Definition setProto3StringField (m : pb_message) (b : Z) (c : jsval) : pb_message :=
  setFieldIgnoringDefault_ m b c (JStr []).
End message.

(** ** The class *)

Definition UserMessage (opt_data : option (list jsval)) : pb_message := initialize opt_data 0.

Definition getUsername (m : pb_message) : jsval := getFieldWithDefault m 1 (JStr []).
Definition setUsername (m : pb_message) (value : jsval) : pb_message :=
  setProto3StringField m 1 value.
Definition getText (m : pb_message) : jsval := getFieldWithDefault m 2 (JStr []).
Definition setText (m : pb_message) (value : jsval) : pb_message :=
  setProto3StringField m 2 value.

(** [toObject], without the instance. *)
Definition toObject (m : pb_message) : list (jsstr * jsval) :=
  [(js "username", getUsername m); (js "text", getText m)].

(** [if (f.length > 0) writer.writeString(n, f)], on a field of any type:
    a value without a length is not written, one that is not a string has no
    [charCodeAt]. *)
Definition write_string_field (n : Z) (f : jsval) : W unit :=
  match f with
  | JStr s => if 0 <? Z.of_nat (length s) then writeString n (Some s) else mret tt
  | JBytes b =>
      if 0 <? Z.of_nat (length b) then
        beginDelimited_ n;; (fun _ => type_error (js "a.charCodeAt is not a function")) : W unit
      else mret tt
  | JUndef | JNull => fun _ => type_error (js "Cannot read properties of null (reading 'length')")
  | JBool _ | JBuffer _ | JErr _ _ => mret tt
  end.
Definition serializeBinaryToWriter (m : pb_message) : W unit :=
  write_string_field 1 (getUsername m);;
  write_string_field 2 (getText m).
Definition serializeBinary (m : pb_message) : outcome (list Z) :=
  r ← (serializeBinaryToWriter m;; getResultBuffer) new_BinaryWriter; Ret r.1.

(** The loop of [deserializeBinaryFromReader]; [fuel] bounds its rounds and
    the depth of skipped groups. *)
Fixpoint deserializeBinaryFromReader (fuel : nat) (m : pb_message) : R pb_message :=
  match fuel with
  | O => running
  | S f =>
      more ← nextField;
      if more : bool then
        stop ← isEndGroup;
        if stop : bool then mret m
        else
          field ← getFieldNumber;
          if field =? 1 then
            value ← readString; deserializeBinaryFromReader f (setUsername m (JStr value))
          else if field =? 2 then
            value ← readString; deserializeBinaryFromReader f (setText m (JStr value))
          else skipField f;; deserializeBinaryFromReader f m
      else mret m
  end.

(** [byteSourceToUint8Array]; what is neither bytes nor a string fails. *)
Definition byteSourceToUint8Array (v : jsval) : outcome (list Z) :=
  match v with
  | JBytes b | JBuffer b => Ret b
  | JStr s => decodeStringToUint8Array s
  | JUndef | JNull => type_error (js "Cannot read properties of undefined (reading 'constructor')")
  | JBool _ | JErr _ _ =>
      Throw (JErr AssertionErr (js "Failure: Type not convertible to Uint8Array."))
  end.
(** [new jspb.BinaryReader(bytes)]: a falsy source leaves it without a block. *)
Definition reader_of (v : jsval) : outcome reader :=
  if truthy v then b ← byteSourceToUint8Array v; Ret (new_BinaryReader (Some b))
  else Ret (new_BinaryReader None).

Definition deserializeBinary (fuel : nat) (bytes : jsval) : outcome pb_message :=
  r ← reader_of bytes;
  x ← deserializeBinaryFromReader fuel (UserMessage None) r;
  Ret x.1.
(** Twice the bytes and a few more rounds: every round takes a byte. *)
Definition reader_fuel (bytes : list Z) : nat := 2 * length bytes + 4.
