(* ===== verification/Utf8Step.v ===== *)
(** The UTF-8 codec of [TextEncoding], one token at a time: strings and code
    points, the bytes of one code point, and one step of the decoder. *)

From S2P Require Import Prelude JsVal TextEncoding.

(** ** Unicode scalar values and well-formed UTF-16 *)

Definition is_scalar (cp : Z) : Prop := 0 <= cp < 0xD800 \/ 0xE000 <= cp <= 0x10FFFF.

(** No lone surrogates. *)
Fixpoint well_formed (s : jsstr) : bool :=
  match s with
  | [] => true
  | c :: s' =>
      if inRange c 0xD800 0xDBFF then
        match s' with
        | d :: s'' => inRange d 0xDC00 0xDFFF && well_formed s''
        | [] => false
        end
      else negb (inRange c 0xDC00 0xDFFF) && inRange c 0 0xFFFF && well_formed s'
  end.

Lemma inRange_true a lo hi : inRange a lo hi = true <-> lo <= a <= hi.
Proof. unfold inRange. rewrite andb_true_iff, !Z.leb_le. done. Qed.
Lemma inRange_false a lo hi : inRange a lo hi = false <-> ~ (lo <= a <= hi).
Proof. rewrite <-inRange_true. by destruct (inRange a lo hi). Qed.

(** Decide every range test in the goal or the context from arithmetic facts. *)
Ltac ranges :=
  repeat match goal with
  | H : inRange _ _ _ = true |- _ => apply inRange_true in H
  | H : inRange _ _ _ = false |- _ => apply inRange_false in H
  | H : context [inRange ?a ?l ?h] |- _ =>
      let E := fresh "E" in destruct (inRange a l h) eqn:E; simpl in H; try discriminate
  | |- context [inRange ?a ?l ?h] =>
      first
        [ rewrite (proj2 (inRange_true a l h)) by lia
        | rewrite (proj2 (inRange_false a l h)) by lia
        | let E := fresh "E" in destruct (inRange a l h) eqn:E ]
  end.

(** Bit operations as arithmetic. *)
Lemma lor_add_disjoint a b n : 0 <= n -> 0 <= b < 2 ^ n -> Z.lor (a * 2 ^ n) b = a * 2 ^ n + b.
Proof.
  intros Hn Hb. rewrite <-Z.add_lor_land.
  enough (Z.land (a * 2 ^ n) b = 0) by lia.
  apply Z.bits_inj'. intros i Hi. rewrite Z.land_spec, Z.bits_0.
  destruct (Z.lt_ge_cases i n).
  - rewrite Z.mul_pow2_bits_low by lia. done.
  - rewrite <-(Z.mod_small b (2 ^ n)), Z.mod_pow2_bits_high by lia. apply andb_false_r.
Qed.

Lemma land_mask6 x : Z.land x 0x3F = x mod 64.
Proof. change 0x3F with (Z.ones 6). by rewrite Z.land_ones. Qed.
Lemma lor_cont x : 0 <= x < 64 -> Z.lor 0x80 x = 0x80 + x.
Proof. intros. change 0x80 with (2 * 2 ^ 6). by rewrite lor_add_disjoint. Qed.

Lemma utf8_tail_arith n cp :
  utf8_tail (S n) cp = 0x80 + (cp / 2 ^ (6 * Z.of_nat n)) mod 64 :: utf8_tail n cp.
Proof.
  cbn [utf8_tail]. rewrite land_mask6, Z.shiftr_div_pow2 by lia.
  rewrite lor_cont; [done|]. apply Z.mod_pos_bound; lia.
Qed.

(** The bytes of one code point. *)
Definition utf8_bytes (cp : Z) : list Z :=
  match utf8_encode_handler cp with Emit out => map to_uint8 out | _ => [] end.

Lemma to_uint8_id b : 0 <= b < 256 -> to_uint8 b = b.
Proof. intros. by apply Z.mod_small. Qed.
Lemma to_uint8_bytes l : Forall is_byte l -> map to_uint8 l = l.
Proof. induction 1 as [|b l Hb _ IH]; [done|]. cbn [map]. by rewrite IH, to_uint8_id. Qed.

Lemma utf8_bytes_1 cp : 0 <= cp < 0x80 -> utf8_bytes cp = [cp].
Proof.
  intros. unfold utf8_bytes, utf8_encode_handler, isASCIIByte, end_of_stream.
  rewrite (proj2 (Z.eqb_neq _ _)), (proj2 (Z.leb_le 0 cp)), (proj2 (Z.leb_le cp 127)) by lia.
  simpl. rewrite to_uint8_id by lia. done.
Qed.
(** Evaluate the constant powers of two. *)
Ltac pow_norm :=
  repeat match goal with
  | |- context [2 ^ ?e] => let v := eval vm_compute in (2 ^ e) in progress change (2 ^ e) with v
  end.
Ltac utf8_bytes_crush cp :=
  intros; unfold utf8_bytes, utf8_encode_handler, isASCIIByte, end_of_stream;
  rewrite (proj2 (Z.eqb_neq cp (-1))), (proj2 (Z.leb_gt cp 127)), andb_false_r by lia;
  ranges; rewrite !utf8_tail_arith, Z.shiftr_div_pow2 by lia; pow_norm; simpl map;
  rewrite !to_uint8_id by (Z.to_euclidean_division_equations; lia);
  repeat (apply (f_equal2 cons); [Z.to_euclidean_division_equations; lia|]); reflexivity.
Lemma utf8_bytes_2 cp : 0x80 <= cp < 0x800 ->
  utf8_bytes cp = [0xC0 + cp / 64; 0x80 + cp mod 64].
Proof. utf8_bytes_crush cp. Qed.
Lemma utf8_bytes_3 cp : 0x800 <= cp < 0x10000 ->
  utf8_bytes cp = [0xE0 + cp / 4096; 0x80 + (cp / 64) mod 64; 0x80 + cp mod 64].
Proof. utf8_bytes_crush cp. Qed.
Lemma utf8_bytes_4 cp : 0x10000 <= cp < 0x110000 ->
  utf8_bytes cp = [0xF0 + cp / 262144; 0x80 + (cp / 4096) mod 64; 0x80 + (cp / 64) mod 64; 0x80 + cp mod 64].
Proof. utf8_bytes_crush cp. Qed.

(** The four shapes a scalar value's encoding takes. *)
Lemma utf8_bytes_cases (P : list Z -> Prop) cp :
  is_scalar cp ->
  (0 <= cp < 0x80 -> P [cp]) ->
  (0x80 <= cp < 0x800 -> P [0xC0 + cp / 64; 0x80 + cp mod 64]) ->
  (0x800 <= cp < 0x10000 -> P [0xE0 + cp / 4096; 0x80 + (cp / 64) mod 64; 0x80 + cp mod 64]) ->
  (0x10000 <= cp < 0x110000 ->
     P [0xF0 + cp / 262144; 0x80 + (cp / 4096) mod 64; 0x80 + (cp / 64) mod 64; 0x80 + cp mod 64]) ->
  P (utf8_bytes cp).
Proof.
  intros Hs H1 H2 H3 H4. unfold is_scalar in Hs.
  destruct (Z.lt_ge_cases cp 0x80); [rewrite utf8_bytes_1 by lia; apply H1; lia|].
  destruct (Z.lt_ge_cases cp 0x800); [rewrite utf8_bytes_2 by lia; apply H2; lia|].
  destruct (Z.lt_ge_cases cp 0x10000); [rewrite utf8_bytes_3 by lia; apply H3; lia|].
  rewrite utf8_bytes_4 by lia. apply H4; lia.
Qed.

(** ** Strings and code points *)

Lemma s2cp_cp2s cps : Forall is_scalar cps -> stringToCodePoints (codePointsToString cps) = cps.
Proof.
  induction 1 as [|cp cps Hs _ IH]; [done|]. unfold is_scalar in Hs. simpl.
  destruct (Z.leb_spec cp 0xFFFF) as [Hc|Hc]; simpl.
    destruct (Z.ltb_spec cp 0xD800), (Z.ltb_spec 0xDFFF cp); simpl; try lia; by rewrite IH.
  - set (x := cp - 0x10000).
    change 0x3FF with (Z.ones 10). rewrite !Z.land_ones, Z.shiftr_div_pow2 by lia. pow_norm.
    assert (0 <= x / 1024 < 1024) by (unfold x; Z.to_euclidean_division_equations; lia).
    pose proof (Z.mod_pos_bound x 1024 ltac:(lia)) as Hm.
    repeat match goal with
    | |- context [?a <? ?b] => destruct (Z.ltb_spec a b); simpl; try lia
    | |- context [?a <=? ?b] => destruct (Z.leb_spec a b); simpl; try lia
    end.
    rewrite IH. f_equal. rewrite Z.shiftl_mul_pow2 by lia. pow_norm.
    unfold x in *. Z.to_euclidean_division_equations; lia.
Qed.

(** Induction over a string the way the conversion walks it: one unit, or a pair. *)
Lemma jsstr_pair_ind (P : jsstr -> Prop) :
  P [] -> (forall c s, P s -> (forall d s', s = d :: s' -> P s') -> P (c :: s)) -> forall s, P s.
Proof.
  intros H0 HS s. enough (P s /\ forall d s', s = d :: s' -> P s') by tauto.
  induction s as [|c s [IH1 IH2]]; [done|]. split; [by apply HS|].
  intros d s' [= <- <-]. done.
Qed.

Lemma s2cp_scalar s : Forall is_unit s -> Forall is_scalar (stringToCodePoints s).
Proof.
  induction s as [|c s IH IH2] using jsstr_pair_ind; intros Hu; [done|].
  apply Forall_cons_1 in Hu as [Hc Hs]. unfold is_unit in Hc. simpl.
  assert (is_scalar 0xFFFD) by (unfold is_scalar; lia).
  destruct (Z.ltb_spec c 0xD800), (Z.ltb_spec 0xDFFF c); simpl;
    try (constructor; [unfold is_scalar; lia|by apply IH]).
  destruct (Z.leb_spec 0xDC00 c), (Z.leb_spec c 0xDFFF); simpl; try (constructor; [done|by apply IH]); try lia.
  all: destruct s as [|d s]; [by repeat constructor|].
  all: destruct (Z.leb_spec 0xDC00 d), (Z.leb_spec d 0xDFFF); simpl; try (constructor; [done|by apply IH]).
  apply Forall_cons_1 in Hs as [Hd Hs]. constructor; [|by eapply IH2].
  change 0x3FF with (Z.ones 10). rewrite !Z.land_ones, Z.shiftl_mul_pow2 by lia. pow_norm.
  unfold is_scalar. Z.to_euclidean_division_equations; lia.
Qed.

Lemma cp2s_s2cp s : well_formed s = true -> codePointsToString (stringToCodePoints s) = s.
Proof.
  induction s as [|c s IH IH2] using jsstr_pair_ind; [done|].
  cbn [well_formed]. intros H.
  destruct (inRange c 0xD800 0xDBFF) eqn:Ec; ranges.
  - destruct s as [|d s]; [done|]. apply andb_true_iff in H as [Hd Hs]. ranges.
    simpl. rewrite !(proj2 (Z.ltb_ge _ _)) by lia. simpl.
    rewrite (proj2 (Z.leb_gt 0xDC00 c)), (proj2 (Z.leb_le 0xDC00 d)), (proj2 (Z.leb_le d 0xDFFF)) by lia.
    simpl.
    change 0x3FF with (Z.ones 10). rewrite !Z.land_ones, Z.shiftl_mul_pow2 by lia. pow_norm.
    rewrite (proj2 (Z.leb_gt _ 0xFFFF)) by (Z.to_euclidean_division_equations; lia).
    rewrite Z.shiftr_div_pow2, (IH2 d s) by done. pow_norm.
    repeat (apply (f_equal2 cons); [Z.to_euclidean_division_equations; lia|]). done.
  - cbn [stringToCodePoints].
    destruct (Z.ltb_spec c 0xD800), (Z.ltb_spec 0xDFFF c); simpl; try lia.
    all: cbn [codePointsToString]; rewrite (proj2 (Z.leb_le c 0xFFFF)), IH by (done || lia); done.
Qed.

Lemma well_formed_cp2s cps : Forall is_scalar cps -> well_formed (codePointsToString cps) = true.
Proof.
  induction 1 as [|cp cps Hs _ IH]; [done|]. unfold is_scalar in Hs. simpl.
  destruct (Z.leb_spec cp 0xFFFF); cbn [well_formed].
  - ranges; simpl; try lia. done.
  - set (x := cp - 0x10000).
    change 0x3FF with (Z.ones 10). rewrite !Z.land_ones, Z.shiftr_div_pow2 by lia. pow_norm.
    assert (0 <= x / 1024 < 1024) by (unfold x; Z.to_euclidean_division_equations; lia).
    pose proof (Z.mod_pos_bound x 1024 ltac:(lia)). ranges. by simpl.
Qed.

Lemma well_formed_unit s : well_formed s = true -> Forall is_unit s.
Proof.
  induction s as [|c s IH IH2] using jsstr_pair_ind; [by constructor|].
  cbn [well_formed]. intros H. unfold is_unit in *.
  destruct (inRange c 0xD800 0xDBFF) eqn:Ec; ranges.
  - destruct s as [|d s]; [done|]. apply andb_true_iff in H as [Hd Hs]. ranges.
    constructor; [lia|]. constructor; [lia|by eapply IH2].
  - constructor; [lia|by apply IH].
Qed.

(** ** Streams are queues *)

Lemma read_rev l : read (reverse l) =
  match l with [] => (end_of_stream, []) | t :: r => (t, reverse r) end.
Proof. unfold read. rewrite reverse_involutive. by destruct l. Qed.
Lemma prepend_rev l ts : prepend (reverse l) ts = reverse (ts ++ l).
Proof. unfold prepend. by rewrite reverse_app. Qed.
Lemma endOfStream_rev l : endOfStream (reverse l) = bool_decide (l = []).
Proof. unfold endOfStream. rewrite length_reverse. by destruct l. Qed.

(** ** Encoding *)

Lemma utf8_handler_scalar cp : is_scalar cp ->
  exists out, utf8_encode_handler cp = Emit out /\ map to_uint8 out = utf8_bytes cp.
Proof.
  intros Hs. unfold utf8_bytes. destruct (utf8_encode_handler cp) eqn:E; [..|eauto].
  all: exfalso; revert E; unfold utf8_encode_handler, is_scalar, end_of_stream in *.
  all: rewrite (proj2 (Z.eqb_neq cp (-1))) by lia; repeat case_match; done.
Qed.

Lemma encode_loop_scalar cps n out :
  Forall is_scalar cps -> (length cps < n)%nat ->
  exists o, encode_loop n (reverse cps) out = Ret (out ++ o, []) /\
    map to_uint8 o = concat (map utf8_bytes cps).
Proof.
  revert n out. induction cps as [|cp cps IH]; intros [|n] out Hs Hn; simpl in Hn; try lia.
  - exists []. cbn [encode_loop]. rewrite read_rev. simpl. by rewrite app_nil_r.
  - apply Forall_cons_1 in Hs as [Hc Hs].
    destruct (utf8_handler_scalar cp Hc) as (o1 & E1 & M1).
    cbn [encode_loop]. rewrite read_rev. unfold end_of_stream.
    rewrite (proj2 (Z.eqb_neq cp (-1))), E1 by (unfold is_scalar in Hc; lia).
    destruct (IH n (out ++ o1) Hs ltac:(lia)) as (o2 & E2 & M2).
    exists (o1 ++ o2). rewrite E2, map_app, M1, M2, app_assoc. done.
Qed.

(** Encoding a string concatenates the encodings of its code points. *)
Lemma encode_concat s b : Forall is_unit s ->
  encode s b = Ret (concat (map utf8_bytes (stringToCodePoints s))).
Proof.
  intros Hu. unfold encode, Stream.
  destruct (encode_loop_scalar (stringToCodePoints s) (S (length (stringToCodePoints s))) [])
    as (o & E & M); [by apply s2cp_scalar|lia|].
  rewrite E. simpl. destruct b; simpl; by rewrite M.
Qed.

(** ** The decoder, one token at a time *)

Definition lo3 (b : Z) : Z := if b =? 0xE0 then 0xA0 else 0x80.
Definition hi3 (b : Z) : Z := if b =? 0xED then 0x9F else 0xBF.
Definition lo4 (b : Z) : Z := if b =? 0xF0 then 0x90 else 0x80.
Definition hi4 (b : Z) : Z := if b =? 0xF4 then 0x8F else 0xBF.

(** [partial p st]: [st] is the decoder's state after the first bytes [p] of a
    multi-byte sequence. *)
Inductive partial : list Z -> utf8_state -> Prop :=
  | partial_none : partial [] utf8_init
  | partial_2 a : 0xC2 <= a <= 0xDF -> partial [a] (Utf8 (a - 0xC0) 0 1 0x80 0xBF)
  | partial_3 a : 0xE0 <= a <= 0xEF -> partial [a] (Utf8 (a - 0xE0) 0 2 (lo3 a) (hi3 a))
  | partial_3' a b : 0xE0 <= a <= 0xEF -> lo3 a <= b <= hi3 a ->
      partial [a; b] (Utf8 ((a - 0xE0) * 64 + (b - 0x80)) 1 2 0x80 0xBF)
  | partial_4 a : 0xF0 <= a <= 0xF4 -> partial [a] (Utf8 (a - 0xF0) 0 3 (lo4 a) (hi4 a))
  | partial_4' a b : 0xF0 <= a <= 0xF4 -> lo4 a <= b <= hi4 a ->
      partial [a; b] (Utf8 ((a - 0xF0) * 64 + (b - 0x80)) 1 3 0x80 0xBF)
  | partial_4'' a b c : 0xF0 <= a <= 0xF4 -> lo4 a <= b <= hi4 a -> 0x80 <= c <= 0xBF ->
      partial [a; b; c] (Utf8 (((a - 0xF0) * 64 + (b - 0x80)) * 64 + (c - 0x80)) 2 3 0x80 0xBF).

Lemma lo3_hi3 a : 0x80 <= lo3 a /\ hi3 a <= 0xBF.
Proof. unfold lo3, hi3. repeat case_match; lia. Qed.
Lemma lo4_hi4 a : 0x80 <= lo4 a /\ hi4 a <= 0xBF.
Proof. unfold lo4, hi4. repeat case_match; lia. Qed.

Lemma partial_high p st : partial p st -> Forall (fun b => 0x80 <= b) p.
Proof.
  destruct 1; repeat constructor; try lia; try (pose proof (lo3_hi3 a); lia);
    pose proof (lo4_hi4 a); lia.
Qed.

(** The accumulation step on a continuation byte. *)
Lemma acc_byte cp b : 0x80 <= b <= 0xBF ->
  Z.lor (Z.shiftl cp 6) (Z.land b 0x3F) = cp * 64 + (b - 0x80).
Proof.
  intros Hb. rewrite land_mask6, Z.shiftl_mul_pow2 by lia.
  rewrite lor_add_disjoint by (pow_norm; Z.to_euclidean_division_equations; lia).
  pow_norm. Z.to_euclidean_division_equations; lia.
Qed.

Lemma lead_bits a :
  (0xC2 <= a <= 0xDF -> Z.land a 0x1F = a - 0xC0) /\
  (0xE0 <= a <= 0xEF -> Z.land a 0xF = a - 0xE0) /\
  (0xF0 <= a <= 0xF4 -> Z.land a 0x7 = a - 0xF0).
Proof.
  change 0x1F with (Z.ones 5). change 0xF with (Z.ones 4). change 0x7 with (Z.ones 3).
  rewrite !Z.land_ones by lia. pow_norm.
  repeat split; intros; Z.to_euclidean_division_equations; lia.
Qed.

(** The encoding of no scalar value starts with [p]. *)
Definition not_utf8 (p : list Z) : Prop :=
  forall cp r, is_scalar cp -> utf8_bytes cp <> p ++ r.

Inductive step_spec (fatal : bool) (p : list Z) (b : Z) (strm : list Z) :
    outcome hres * utf8_state * list Z -> Prop :=
  | step_more st' : partial (p ++ [b]) st' -> step_spec fatal p b strm (Ret Continue, st', strm)
  | step_emit cp : is_scalar cp -> utf8_bytes cp = p ++ [b] ->
      step_spec fatal p b strm (Ret (Emit [cp]), utf8_init, strm)
  | step_again : p <> [] -> not_utf8 (p ++ [b]) ->
      step_spec fatal p b strm (decoderError fatal, utf8_init, prepend strm [b])
  | step_bad : p = [] -> 0x80 <= b -> not_utf8 [b] ->
      step_spec fatal p b strm (decoderError fatal, utf8_init, strm).

Ltac not_utf8_crush :=
  let cp := fresh "cp" in
  let r := fresh "r" in
  intros cp r ?; apply (utf8_bytes_cases (fun l => l <> _ ++ r) cp); [assumption|..];
  intros ? ?; simplify_list_eq; unfold is_scalar, lo3, hi3, lo4, hi4 in *;
  repeat match goal with H : context [?a =? ?b] |- _ => destruct (Z.eqb_spec a b) end;
  Z.to_euclidean_division_equations; lia.

Lemma utf8_step_first fatal b strm : is_byte b ->
  step_spec fatal [] b strm (utf8_handler fatal utf8_init strm b).
Proof.
  intros Hb. unfold is_byte in Hb. unfold utf8_handler, utf8_init, end_of_stream.
  rewrite (proj2 (Z.eqb_neq b (-1))) by lia. simpl.
  destruct (lead_bits b) as (L2 & L3 & L4). unfold utf8_lead. ranges.
  - constructor; [unfold is_scalar; lia|]. apply utf8_bytes_1; lia.
  - rewrite L2 by lia. apply step_more. by constructor.
  - rewrite L3 by lia. apply step_more. by apply (partial_3 b).
  - rewrite L4 by lia. apply step_more. by apply (partial_4 b).
  - apply step_bad; [done|lia|]. not_utf8_crush.
Qed.

Lemma handler_cont fatal cp seen needed lo hi strm b :
  needed <> 0 -> is_byte b -> 0x80 <= lo -> hi <= 0xBF ->
  utf8_handler fatal (Utf8 cp seen needed lo hi) strm b =
    if inRange b lo hi then
      if seen + 1 =? needed then (Ret (Emit [cp * 64 + (b - 0x80)]), utf8_init, strm)
      else (Ret Continue, Utf8 (cp * 64 + (b - 0x80)) (seen + 1) needed 0x80 0xBF, strm)
    else (decoderError fatal, utf8_init, prepend strm [b]).
Proof.
  unfold is_byte. intros Hn Hb Hlo Hhi. unfold utf8_handler, end_of_stream.
  rewrite (proj2 (Z.eqb_neq b (-1))), (proj2 (Z.eqb_neq needed 0)) by lia. simpl.
  destruct (inRange b lo hi) eqn:E; simpl; [|done]. ranges.
  rewrite acc_byte by lia. by destruct (seen + 1 =? needed).
Qed.

(** What one byte does to a decoder that has read [p] of a sequence. *)
Lemma utf8_step fatal p st strm b : partial p st -> is_byte b ->
  step_spec fatal p b strm (utf8_handler fatal st strm b).
Proof.
  intros Hp Hb. pose proof lo3_hi3 as H3. pose proof lo4_hi4 as H4.
  destruct Hp as [|a Ha|a Ha|a c Ha Hc|a Ha|a c Ha Hc|a c d Ha Hc Hd]; [by apply utf8_step_first|..].
  all: specialize (H3 a); specialize (H4 a).
  all: rewrite handler_cont by (done || lia); destruct (inRange b _ _) eqn:E; ranges; simpl.
  all: try (apply step_again; [done|]; unfold is_byte in Hb; simpl; not_utf8_crush).
  - apply step_emit; [unfold is_scalar; lia|]. rewrite utf8_bytes_2 by lia. simpl.
    repeat (apply (f_equal2 cons); [Z.to_euclidean_division_equations; lia|]); done.
  - apply step_more. by apply partial_3'.
  - unfold lo3, hi3 in *. apply step_emit.
    + unfold is_scalar. repeat case_match; lia.
    + rewrite utf8_bytes_3 by (repeat case_match; lia). simpl.
      repeat (apply (f_equal2 cons); [Z.to_euclidean_division_equations; lia|]); done.
  - apply step_more. by apply partial_4'.
  - apply step_more. by apply partial_4''.
  - unfold lo4, hi4 in *. apply step_emit.
    + unfold is_scalar. repeat case_match; lia.
    + rewrite utf8_bytes_4 by (repeat case_match; lia). simpl.
      repeat (apply (f_equal2 cons); [Z.to_euclidean_division_equations; lia|]); done.
Qed.

