(* ===== verification/Utf8Spec.v ===== *)
(** The UTF-8 codec of [TextEncoding] on whole inputs: what the encoder emits,
    what the decoder does on every byte sequence, and that they invert each
    other. *)

From S2P Require Import Prelude JsVal TextEncoding Utf8Step.

(** ** Sequences *)

Definition utf8_concat (cps : list Z) : list Z := concat (map utf8_bytes cps).

Lemma utf8_bytes_byte cp : is_scalar cp -> Forall is_byte (utf8_bytes cp).
Proof.
  intros Hs. apply (utf8_bytes_cases (Forall is_byte) cp); [done|..]; intros Hr;
    repeat constructor; unfold is_byte; Z.to_euclidean_division_equations; lia.
Qed.

Lemma utf8_concat_byte cps : Forall is_scalar cps -> Forall is_byte (utf8_concat cps).
Proof.
  induction 1 as [|cp cps Hc _ IH]; [constructor|].
  unfold utf8_concat. simpl. apply Forall_app. split; [by apply utf8_bytes_byte|done].
Qed.

Lemma utf8_bytes_ne cp : is_scalar cp -> utf8_bytes cp <> [].
Proof. intros Hs. by apply (utf8_bytes_cases (fun l => l <> []) cp). Qed.

(** The code is prefix-free, also against unfinished sequences. *)
Lemma utf8_bytes_prefix_free c1 c2 x y :
  is_scalar c1 -> is_scalar c2 -> utf8_bytes c1 ++ x = utf8_bytes c2 ++ y -> c1 = c2 /\ x = y.
Proof.
  intros H1 H2.
  apply (utf8_bytes_cases (fun l => l ++ x = _ -> _) c1); try assumption; intros R1;
    apply (utf8_bytes_cases (fun l => _ = l ++ y -> _) c2); try assumption;
    intros R2 E; simplify_list_eq; (split; [|done]) || exfalso; Z.to_euclidean_division_equations; lia.
Qed.

Lemma partial_no_prefix p st cp x : partial p st -> is_scalar cp -> p <> utf8_bytes cp ++ x.
Proof.
  intros Hp Hs. apply (utf8_bytes_cases (fun l => p <> l ++ x) cp); [done|..]; intros R E;
    destruct Hp; simplify_list_eq; Z.to_euclidean_division_equations; lia.
Qed.

(** [p ++ b :: bs] is not a prefix of any encoding when [p ++ [b]] is not. *)
Lemma not_utf8_concat p st b bs cps : partial p st -> Forall is_scalar cps ->
  not_utf8 (p ++ [b]) -> p ++ b :: bs <> utf8_concat cps.
Proof.
  intros Hp Hc Hn E. destruct Hc as [|cp cps Hcp Hc]; [by destruct p|].
  unfold utf8_concat in E. simpl in E.
  replace (p ++ b :: bs) with ((p ++ [b]) ++ bs) in E by by rewrite <-app_assoc.
  apply app_eq_inv in E as [(k & E1 & E2)|(k & E1 & E2)].
  - destruct k as [|z k _] using rev_ind.
    + apply (Hn cp [] Hcp). rewrite app_nil_r in E1. by rewrite app_nil_r, E1.
    + rewrite app_assoc in E1. apply app_inj_tail in E1 as [E1 ->].
      by apply (partial_no_prefix p st cp k Hp Hcp).
  - by apply (Hn cp k Hcp).
Qed.

(** Decoding valid input, from the middle of a sequence on. *)
Lemma decode_loop_valid fatal n p st bs cps out :
  partial p st -> Forall is_byte bs -> Forall is_scalar cps -> p ++ bs = utf8_concat cps ->
  (length bs < n)%nat ->
  decode_loop UTF8Decoder fatal n st (reverse bs) out = (Ret (out ++ cps), utf8_init, []).
Proof.
  revert p st bs cps out. induction n as [|n IH]; intros p st bs cps out Hp Hb Hc E Hn; [lia|].
  cbn [decode_loop]. rewrite read_rev. destruct bs as [|b bs].
  - rewrite app_nil_r in E. destruct Hc as [|cp cps Hcp Hc].
    + inv Hp. by rewrite app_nil_r.
    + exfalso. eapply partial_no_prefix in E; done.
  - inv Hb. simpl in Hn. unfold end_of_stream.
    rewrite (proj2 (Z.eqb_neq b (-1))) by (unfold is_byte in *; lia).
    change (dec_handler UTF8Decoder) with utf8_handler.
    destruct (utf8_step fatal p st (reverse bs) b Hp) as [st' Hp'|cp Hcp E1| Hne Hnu| -> Hge Hnu]; [done|..].
    + apply (IH (p ++ [b])); try done; [by rewrite <-app_assoc|lia].
    + destruct Hc as [|cp' cps Hcp' Hc]; [by destruct p|].
      change (utf8_concat (cp' :: cps)) with (utf8_bytes cp' ++ utf8_concat cps) in E.
      replace (p ++ b :: bs) with (utf8_bytes cp ++ bs) in E by by rewrite E1, <-app_assoc.
      apply utf8_bytes_prefix_free in E as [-> ->]; [|done..].
      rewrite (IH [] utf8_init _ cps); try done; [|constructor|lia].
      by rewrite <-app_assoc.
    + exfalso. by eapply not_utf8_concat.
    + exfalso. eapply (not_utf8_concat []); done.
Qed.

(** What the replacing decoder makes of arbitrary bytes: every ill-formed
    subsequence becomes one U+FFFD, and the byte that broke it is read again. *)
Inductive decodes : list Z -> list Z -> list Z -> list Z -> Prop :=
  | decodes_nil p : decodes p [] [] p
  | decodes_more p b bs cps p' :
      Forall (fun x => 0x80 <= x) (p ++ [b]) -> decodes (p ++ [b]) bs cps p' -> decodes p (b :: bs) cps p'
  | decodes_emit p b bs cp cps p' :
      is_scalar cp -> utf8_bytes cp = p ++ [b] -> decodes [] bs cps p' ->
      decodes p (b :: bs) (cp :: cps) p'
  | decodes_again p b bs cps p' :
      p <> [] -> decodes [] (b :: bs) cps p' -> decodes p (b :: bs) (0xFFFD :: cps) p'
  | decodes_bad b bs cps p' :
      0x80 <= b -> decodes [] bs cps p' -> decodes [] (b :: bs) (0xFFFD :: cps) p'.

(** The loop ends within two steps a byte, whatever the bytes. *)
Lemma decode_loop_total n p st bs out :
  partial p st -> Forall is_byte bs ->
  (2 * length bs + (if decide (p = []) then 0 else 1) < n)%nat ->
  exists cps p' st', partial p' st' /\ decodes p bs cps p' /\
    decode_loop UTF8Decoder false n st (reverse bs) out = (Ret (out ++ cps), st', []).
Proof.
  revert p st bs out. induction n as [|n IH]; intros p st bs out Hp Hb Hn; [lia|].
  cbn [decode_loop]. rewrite read_rev. destruct bs as [|b bs].
  - exists [], p, st. rewrite app_nil_r. eauto using decodes_nil.
  - assert (Hb' := Hb). inv Hb'. simpl in Hn. unfold end_of_stream.
    rewrite (proj2 (Z.eqb_neq b (-1))) by (unfold is_byte in *; lia).
    change (dec_handler UTF8Decoder) with utf8_handler.
    destruct (utf8_step false p st (reverse bs) b Hp) as [st' Hp'|cp Hcp E1| Hne Hnu| -> Hge Hnu];
      [done|..]; cbn [decoderError].
    + destruct (IH (p ++ [b]) st' bs out) as (cps & p' & st2 & ? & ? & ->); try done.
      { repeat case_decide; simplify_list_eq; lia. }
      exists cps, p', st2. repeat split; try done. apply decodes_more; [|done]. by eapply partial_high.
    + destruct (IH [] utf8_init bs (out ++ [cp])) as (cps & p' & st2 & ? & ? & ->); try done.
      { constructor. } { simpl. lia. }
      exists (cp :: cps), p', st2. rewrite <-app_assoc. eauto using decodes_emit.
    + rewrite prepend_rev. simpl.
      destruct (IH [] utf8_init (b :: bs) (out ++ [0xFFFD])) as (cps & p' & st2 & ? & ? & ->); try done.
      { constructor. } { rewrite decide_False in Hn by done. simpl. lia. }
      exists (0xFFFD :: cps), p', st2. rewrite <-app_assoc. eauto using decodes_again.
    + destruct (IH [] utf8_init bs (out ++ [0xFFFD])) as (cps & p' & st2 & ? & ? & ->); try done.
      { constructor. } { simpl. lia. }
      exists (0xFFFD :: cps), p', st2. rewrite <-app_assoc. eauto using decodes_bad.
Qed.

(** In fatal mode the loop either consumes valid UTF-8 or throws. *)
Lemma decode_loop_fatal n p st bs out r st' strm :
  partial p st -> Forall is_byte bs ->
  decode_loop UTF8Decoder true n st (reverse bs) out = (Ret r, st', strm) ->
  exists cps p', r = out ++ cps /\ strm = [] /\ Forall is_scalar cps /\ partial p' st' /\
    p ++ bs = utf8_concat cps ++ p'.
Proof.
  revert p st bs out. induction n as [|n IH]; intros p st bs out Hp Hb; [done|].
  cbn [decode_loop]. rewrite read_rev. destruct bs as [|b bs].
  - intros [= <- <- <-]. exists [], p. by rewrite !app_nil_r.
  - inv Hb. unfold end_of_stream.
    rewrite (proj2 (Z.eqb_neq b (-1))) by (unfold is_byte in *; lia).
    change (dec_handler UTF8Decoder) with utf8_handler.
    destruct (utf8_step true p st (reverse bs) b Hp) as [st2 Hp'|cp Hcp E1| |]; [done|..]; intros Hr; try done.
    + apply (IH (p ++ [b])) in Hr as (cps & p' & ? & ? & ? & ? & E); try done.
      exists cps, p'. rewrite <-app_assoc in E. done.
    + apply (IH []) in Hr as (cps & p' & -> & -> & Hcs & Hp' & E); [|constructor|done].
      exists (cp :: cps), p'. rewrite <-app_assoc. repeat split; try done; [by constructor|].
      change (utf8_concat (cp :: cps)) with (utf8_bytes cp ++ utf8_concat cps).
      simpl in E. by rewrite E1, <-!app_assoc, E.
Qed.

Lemma decodes_scalar p bs cps p' : decodes p bs cps p' -> Forall is_scalar cps.
Proof. induction 1; try done; constructor; try done; unfold is_scalar; lia. Qed.

(** ASCII characters come through one for one. *)
Lemma decodes_occ c p bs cps p' : 0 <= c < 0x80 ->
  decodes p bs cps p' -> Forall (fun x => 0x80 <= x) p -> occ c cps = occ c bs.
Proof.
  intros Hc. induction 1 as [p|p b bs cps p' Hpb H IH|p b bs cp cps p' Hs E H IH|p b bs cps p' Hne H IH|b bs cps p' Hb H IH];
    intros Hp; simpl.
  - done.
  - rewrite IH by done. apply Forall_app in Hpb as [_ Hb]. inv Hb.
    case_decide; [lia|done].
  - rewrite IH by constructor. revert E.
    apply (utf8_bytes_cases (fun l => l = _ -> _) cp); [done|..]; intros R E;
      apply (f_equal list.last) in E; rewrite last_snoc in E; simpl in E; simplify_eq; [done|..].
    all: repeat case_decide; try done; exfalso; Z.to_euclidean_division_equations; lia.
  - rewrite IH by constructor. case_decide; [lia|done].
  - rewrite IH by constructor. repeat case_decide; try lia; done.
Qed.

(** ** [TextDecoder.decode] *)

(** The string without one leading byte order mark. *)
Definition strip_bom (s : jsstr) : jsstr :=
  match s with c :: r => if c =? 0xFEFF then r else s | [] => [] end.

(** A UTF-8 TextDecoder between two non-streaming calls. *)
Definition idle_utf8 (td : textdecoder) : Prop :=
  exists fatal dec bom,
    td = TextDec (js "UTF-8") UTF8Decoder fatal false dec bom false.

Lemma flush_init fatal n out :
  flush_loop UTF8Decoder fatal (S n) utf8_init [] out = (Ret out, utf8_init).
Proof. reflexivity. Qed.

Lemma flush_partial n p st out : partial p st -> p <> [] ->
  exists st', flush_loop UTF8Decoder false (S n) st [] out = (Ret (out ++ [0xFFFD]), st') /\
              flush_loop UTF8Decoder true (S n) st [] out = (type_error (js "Decoder error"), st').
Proof. intros Hp Hne. destruct Hp; try done; eexists; split; reflexivity. Qed.

Lemma serialize_utf8 fatal dec dnf cps : Forall is_scalar cps ->
  (serializeStream (TextDec (js "UTF-8") UTF8Decoder fatal false dec false dnf) cps).1 =
    strip_bom (codePointsToString cps).
Proof.
  intros Hs. unfold serializeStream. destruct cps as [|cp cps]; [done|].
  inv Hs. cbn [codePointsToString negb andb]. rewrite bool_decide_eq_true_2 by set_solver. simpl.
  destruct (Z.eqb_spec cp 0xFEFF) as [->|Hn]; [done|].
  destruct (Z.leb_spec cp 0xFFFF) as [Hc|Hc]; simpl.
  - rewrite (proj2 (Z.leb_le cp 0xFFFF)), (proj2 (Z.eqb_neq cp 0xFEFF)) by done. done.
  - rewrite (proj2 (Z.leb_gt cp 0xFFFF)) by done.
    rewrite (proj2 (Z.eqb_neq (Z.shiftr (cp - 0x10000) 10 + 0xD800) 0xFEFF)); [done|].
    unfold is_scalar in *. rewrite Z.shiftr_div_pow2 by lia. pow_norm.
    Z.to_euclidean_division_equations; lia.
Qed.

Lemma serialize_keeps fatal dec dnf bom cps : exists bom',
  (serializeStream (TextDec (js "UTF-8") UTF8Decoder fatal false dec bom dnf) cps).2 =
    TextDec (js "UTF-8") UTF8Decoder fatal false dec bom' dnf.
Proof.
  unfold serializeStream. destruct (_ && _); [destruct cps|]; simpl; eauto.
Qed.

(** The result of a non-streaming call on valid input. *)
Lemma decode_valid td cps : idle_utf8 td -> Forall is_scalar cps ->
  exists td', decode td (utf8_concat cps) false = (Ret (strip_bom (codePointsToString cps)), td')
    /\ idle_utf8 td'.
Proof.
  intros (fatal & dec & bom & ->) Hs. unfold decode, Stream.
  rewrite (decode_loop_valid fatal _ [] _ _ cps); try done;
    [|constructor|by apply utf8_concat_byte|unfold decode_fuel; lia].
  simpl. unfold decode_fuel. rewrite Nat.add_comm. simpl.
  destruct (serialize_keeps fatal None false false cps) as (bom' & E).
  pose proof (serialize_utf8 fatal None false cps Hs) as E1.
  destruct (serializeStream _ _) as [s td']. simpl in *. subst. eexists. split; [done|].
  by eexists _, _, _.
Qed.

(** The result of a non-streaming, replacing call on arbitrary bytes. *)
Lemma decode_replacing td bs : idle_utf8 td -> td_fatal td = false -> Forall is_byte bs ->
  exists cps cps' p td', decodes [] bs cps p /\ (cps' = cps \/ p <> [] /\ cps' = cps ++ [0xFFFD]) /\
    decode td bs false = (Ret (strip_bom (codePointsToString cps')), td') /\ idle_utf8 td'.
Proof.
  intros (fatal & dec & bom & ->) Hf Hb. simpl in Hf. subst fatal.
  destruct (decode_loop_total (decode_fuel bs) [] utf8_init bs []) as (cps & p & st & Hp & Hd & E);
    [constructor|done|unfold decode_fuel; simpl; lia|].
  unfold decode, Stream. simpl in E |- *. rewrite E. unfold decode_fuel. rewrite Nat.add_comm.
  pose proof (decodes_scalar _ _ _ _ Hd) as Hsc.
  assert (Hcps : exists cps' st', (cps' = cps \/ p <> [] /\ cps' = cps ++ [0xFFFD]) /\ Forall is_scalar cps' /\
    flush_loop UTF8Decoder false (16 + 4 * length bs) st [] cps = (Ret cps', st')).
  { destruct (decide (p = [])) as [->|Hne].
    - inv Hp. exists cps, utf8_init. auto.
    - destruct (flush_partial (15 + 4 * length bs) p st cps Hp Hne) as (st' & E' & _).
      exists (cps ++ [0xFFFD]), st'. repeat split; [by right| |done].
      apply Forall_app; split; [done|]. constructor; [unfold is_scalar; lia|constructor]. }
  destruct Hcps as (cps' & st' & Hc & Hsc' & ->).
  destruct (serialize_keeps false None false false cps') as (bom' & E1).
  pose proof (serialize_utf8 false None false cps' Hsc') as E2.
  destruct (serializeStream _ _) as [s td']. simpl in *. subst.
  eexists cps, cps', p, _. repeat split; try done. by eexists _, _, _.
Qed.

(** ** Corollaries on whole strings *)

Lemma encode_cp2s cps b : Forall is_scalar cps ->
  encode (codePointsToString cps) b = Ret (utf8_concat cps).
Proof.
  intros Hs. rewrite encode_concat by by apply well_formed_unit, well_formed_cp2s.
  by rewrite s2cp_cp2s.
Qed.

Lemma well_formed_scalars s : well_formed s = true ->
  exists cps, Forall is_scalar cps /\ s = codePointsToString cps.
Proof.
  intros Hw. exists (stringToCodePoints s). split; [by apply s2cp_scalar, well_formed_unit|].
  by rewrite cp2s_s2cp.
Qed.

Lemma occ_cp2s c cps : 0 <= c < 0x80 -> Forall is_scalar cps ->
  occ c (codePointsToString cps) = occ c cps.
Proof.
  intros Hc. induction 1 as [|cp cps Hs _ IH]; [done|]. unfold is_scalar in Hs. simpl.
  destruct (Z.leb_spec cp 0xFFFF); simpl; [by rewrite IH|].
  change 0x3FF with (Z.ones 10). rewrite Z.land_ones, Z.shiftr_div_pow2, IH by lia. pow_norm.
  repeat case_decide; try done; exfalso; Z.to_euclidean_division_equations; lia.
Qed.

Lemma occ_strip_bom c s : 0 <= c < 0x80 -> occ c (strip_bom s) = occ c s.
Proof.
  intros Hc. destruct s as [|x s]; [done|]. simpl. destruct (Z.eqb_spec x 0xFEFF); [|done].
  case_decide; [lia|done].
Qed.

Lemma well_formed_strip_bom s : well_formed s = true -> well_formed (strip_bom s) = true.
Proof.
  destruct s as [|x s]; [done|]. intros H. unfold strip_bom.
  destruct (Z.eqb_spec x 0xFEFF) as [->|]; done.
Qed.

Lemma decode_encode td s :
  idle_utf8 td -> well_formed s = true ->
  exists bytes td', encode s false = Ret bytes /\ Forall is_byte bytes /\
    decode td bytes false = (Ret (strip_bom s), td') /\ idle_utf8 td'.
Proof.
  intros Htd (cps & Hs & ->)%well_formed_scalars.
  destruct (decode_valid td cps Htd Hs) as (td' & E & Hi).
  exists (utf8_concat cps), td'. rewrite encode_cp2s by done. auto using utf8_concat_byte.
Qed.

(** C36. Decoding what was encoded gives the string back, less one leading U+FEFF. *)
Theorem utf8_roundtrip td s :
  idle_utf8 td -> well_formed s = true ->
  exists bytes td', encode s false = Ret bytes /\ Forall is_byte bytes /\
    decode td bytes false = (Ret (strip_bom s), td') /\ idle_utf8 td'.
Proof. apply decode_encode. Qed.

Lemma utf8_roundtrip_witness :
  exists bytes td', encode [104; 0xE9; 0x20AC; 0xD83D; 0xDE00] false = Ret bytes /\
    Forall is_byte bytes /\
    decode utf8_decoder bytes false = (Ret [104; 0xE9; 0x20AC; 0xD83D; 0xDE00], td') /\ idle_utf8 td'.
Proof.
  apply (utf8_roundtrip utf8_decoder [104; 0xE9; 0x20AC; 0xD83D; 0xDE00]);
    [by eexists _, _, _|vm_compute; reflexivity].
Defined.

Lemma decode_replaces td bytes :
  idle_utf8 td -> td_fatal td = false -> Forall is_byte bytes ->
  exists s td', decode td bytes false = (Ret s, td') /\ idle_utf8 td' /\
    well_formed s = true /\ forall c, 0 <= c < 0x80 -> occ c s = occ c bytes.
Proof.
  intros Htd Hf Hb.
  destruct (decode_replacing td bytes Htd Hf Hb) as (cps & cps' & p & td' & Hd & Hc & E & Hi).
  assert (Hs : Forall is_scalar cps').
  { pose proof (decodes_scalar _ _ _ _ Hd). destruct Hc as [->|[_ ->]]; [done|].
    apply Forall_app; split; [done|]. constructor; [unfold is_scalar; lia|constructor]. }
  exists (strip_bom (codePointsToString cps')), td'. repeat split; try done.
  - by apply well_formed_strip_bom, well_formed_cp2s.
  - intros c Hcr. rewrite occ_strip_bom, occ_cp2s by done.
    rewrite <-(decodes_occ c [] bytes cps p) by (done || constructor).
    destruct Hc as [->|[_ ->]]; [done|]. rewrite occ_app. simpl. case_decide; lia.
Qed.

(** The replacing decoder answers on every input, with a well-formed string that
    has each ASCII character as often as the bytes have it. *)
Theorem utf8_decode_total td bytes :
  idle_utf8 td -> td_fatal td = false -> Forall is_byte bytes ->
  exists s td', decode td bytes false = (Ret s, td') /\ idle_utf8 td' /\
    well_formed s = true /\ forall c, 0 <= c < 0x80 -> occ c s = occ c bytes.
Proof. apply decode_replaces. Qed.

Lemma utf8_decode_total_witness :
  exists s td', decode utf8_decoder [0xE2; 0x3B; 0xFF; 0x3B; 0xC3] false = (Ret s, td') /\
    idle_utf8 td' /\ well_formed s = true /\
    forall c, 0 <= c < 0x80 -> occ c s = occ c [0xE2; 0x3B; 0xFF; 0x3B; 0xC3].
Proof.
  apply (utf8_decode_total utf8_decoder [0xE2; 0x3B; 0xFF; 0x3B; 0xC3]);
    [by eexists _, _, _|reflexivity|repeat constructor; unfold is_byte; lia].
Defined.

(** The bytes the encoder can produce. *)
Definition valid_utf8 (bytes : list Z) : Prop :=
  exists s, well_formed s = true /\ encode s false = Ret bytes.

Lemma valid_utf8_concat bytes :
  valid_utf8 bytes <-> exists cps, Forall is_scalar cps /\ bytes = utf8_concat cps.
Proof.
  split.
  - intros (s & (cps & Hs & ->)%well_formed_scalars & E). rewrite encode_cp2s in E by done.
    exists cps. by simplify_eq.
  - intros (cps & Hs & ->). exists (codePointsToString cps).
    rewrite encode_cp2s by done. auto using well_formed_cp2s.
Qed.

Lemma decode_loop_fatal_total n st bs out p :
  partial p st -> Forall is_byte bs -> (length bs < n)%nat ->
  exists r st' strm, decode_loop UTF8Decoder true n st (reverse bs) out = (r, st', strm) /\
    (r = type_error (js "Decoder error") \/ exists o, r = Ret o).
Proof.
  revert p st bs out. induction n as [|n IH]; intros p st bs out Hp Hb Hn; [lia|].
  cbn [decode_loop]. rewrite read_rev. destruct bs as [|b bs]; [eauto 10|].
  inv Hb. simpl in Hn. unfold end_of_stream.
  rewrite (proj2 (Z.eqb_neq b (-1))) by (unfold is_byte in *; lia).
  change (dec_handler UTF8Decoder) with utf8_handler.
  destruct (utf8_step true p st (reverse bs) b Hp) as [st2 Hp'|cp Hcp E1| |]; [done|..]; cbn [decoderError].
  - eapply IH; [done|done|lia].
  - eapply (IH []); [constructor|done|lia].
  - eauto 10.
  - eauto 10.
Qed.

(** A fatal decoder either throws or has read valid input. *)
Lemma decode_fatal_cases td bytes : idle_utf8 td -> td_fatal td = true -> Forall is_byte bytes ->
  valid_utf8 bytes \/ (decode td bytes false).1 = type_error (js "Decoder error").
Proof.
  intros (fatal & dec & bom & ->) Hf Hb. simpl in Hf. subst fatal. unfold decode, Stream.
  destruct (decode_loop_fatal_total (decode_fuel bytes) utf8_init bytes [] [])
    as (r & st' & strm & E & Hr); [constructor|done|unfold decode_fuel; lia|].
  simpl in E |- *. rewrite E. destruct Hr as [->|[o ->]]; [by right|].
  apply (decode_loop_fatal _ []) in E as (cps & p' & -> & -> & Hs & Hp & E); [|constructor|done].
  destruct (decide (p' = [])) as [->|Hne].
  - left. apply valid_utf8_concat. exists cps. split; [done|].
    simpl in E. by rewrite E, app_nil_r.
  - right. unfold decode_fuel. rewrite Nat.add_comm.
    destruct (flush_partial (15 + 4 * length bytes) p' st' cps Hp Hne) as (st2 & _ & E2).
    change (16 + 4 * length bytes)%nat with (S (15 + 4 * length bytes)). simpl app. by rewrite E2.
Qed.

(** C37. A fatal decoder accepts exactly what the encoder can produce, and throws a
    TypeError on everything else. *)
Theorem utf8_fatal_exact td bytes :
  idle_utf8 td -> td_fatal td = true -> Forall is_byte bytes ->
  (valid_utf8 bytes <-> exists s, (decode td bytes false).1 = Ret s) /\
  (~ valid_utf8 bytes <-> (decode td bytes false).1 = type_error (js "Decoder error")).
Proof.
  intros Htd Hf Hb.
  assert (Hok : valid_utf8 bytes -> exists s, (decode td bytes false).1 = Ret s).
  { intros (cps & Hs & ->)%valid_utf8_concat.
    destruct (decode_valid td cps Htd Hs) as (td' & E & _). rewrite E. eauto. }
  destruct (decode_fatal_cases td bytes Htd Hf Hb) as [Hv|He].
  - destruct (Hok Hv) as [s E]. rewrite E. naive_solver.
  - rewrite He in *. naive_solver.
Qed.

Lemma utf8_fatal_exact_witness :
  let td := TextDec (js "UTF-8") UTF8Decoder true false None false false in
  (valid_utf8 [0xED; 0xA0; 0x80] <-> exists s, (decode td [0xED; 0xA0; 0x80] false).1 = Ret s) /\
  (~ valid_utf8 [0xED; 0xA0; 0x80] <->
    (decode td [0xED; 0xA0; 0x80] false).1 = type_error (js "Decoder error")).
Proof.
  apply utf8_fatal_exact;
    [by eexists _, _, _|reflexivity|repeat constructor; unfold is_byte; lia].
Defined.

(** A TextDecoder's earlier non-streaming calls leave no trace: the client can
    share one decoder. *)
Lemma decode_history_free td1 td2 bytes :
  idle_utf8 td1 -> idle_utf8 td2 -> td_fatal td1 = td_fatal td2 ->
  decode td1 bytes false = decode td2 bytes false.
Proof. intros (f1 & d1 & b1 & ->) (f2 & d2 & b2 & ->) Hf. simpl in Hf. by subst. Qed.

(** ** Separators: what the message codec relies on *)

Lemma s2cp_cons c s : stringToCodePoints (c :: s) =
  if (c <? 0xD800) || (0xDFFF <? c) then c :: stringToCodePoints s
  else if (0xDC00 <=? c) && (c <=? 0xDFFF) then 0xFFFD :: stringToCodePoints s
  else
    match s with
    | [] => [0xFFFD]
    | d :: s'' =>
        if (0xDC00 <=? d) && (d <=? 0xDFFF) then
          (0x10000 + Z.shiftl (Z.land c 0x3FF) 10 + Z.land d 0x3FF) :: stringToCodePoints s''
        else 0xFFFD :: stringToCodePoints s
    end.
Proof. reflexivity. Qed.

#[local] Arguments stringToCodePoints : simpl never.

Lemma s2cp_sep s c t : 0 <= c < 0x80 ->
  stringToCodePoints (s ++ c :: t) = stringToCodePoints s ++ c :: stringToCodePoints t.
Proof.
  intros Hc.
  assert (Hl : (c <? 0xD800) = true) by (apply Z.ltb_lt; lia).
  assert (Hh : (0xDC00 <=? c) = false) by (apply Z.leb_gt; lia).
  induction s as [|a s IH IH2] using jsstr_pair_ind; simpl app.
  - rewrite (s2cp_cons c t), Hl. done.
  - rewrite (s2cp_cons a (s ++ c :: t)), (s2cp_cons a s).
    destruct (_ || _); [by rewrite IH|]. destruct (_ && _) eqn:E1; [by rewrite IH|].
    destruct s as [|d s]; simpl.
    + rewrite Hh, (s2cp_cons c t), Hl. done.
    + destruct ((0xDC00 <=? d) && (d <=? 0xDFFF)) eqn:E2; [by rewrite (IH2 d s)|].
      simpl in IH. by rewrite IH.
Qed.

Lemma utf8_concat_app l1 l2 : utf8_concat (l1 ++ l2) = utf8_concat l1 ++ utf8_concat l2.
Proof. unfold utf8_concat. by rewrite map_app, concat_app. Qed.

Lemma occ_utf8_concat c cps : 0 <= c < 0x80 -> Forall is_scalar cps ->
  occ c (utf8_concat cps) = occ c cps.
Proof.
  intros Hc. induction 1 as [|cp cps Hs _ IH]; [done|].
  change (utf8_concat (cp :: cps)) with (utf8_bytes cp ++ utf8_concat cps).
  rewrite occ_app, IH. simpl.
  apply (utf8_bytes_cases (fun l => (occ c l + _)%nat = _) cp); [done|..]; intros R; simpl;
    repeat case_decide; try lia; exfalso; Z.to_euclidean_division_equations; lia.
Qed.
