(* ===== verification/Message.v ===== *)
(** neffos.js, the message: event names, the [Message] class, the field escaping,
    [serializeMessage] and [deserializeMessage], the wait tokens. *)

From S2P Require Import Prelude JsVal.

(** ** Event names and prefixes *)

Definition OnNamespaceConnect := js "_OnNamespaceConnect".
Definition OnNamespaceConnected := js "_OnNamespaceConnected".
Definition OnNamespaceDisconnect := js "_OnNamespaceDisconnect".
Definition OnRoomJoin := js "_OnRoomJoin".
Definition OnRoomJoined := js "_OnRoomJoined".
Definition OnRoomLeave := js "_OnRoomLeave".
Definition OnRoomLeft := js "_OnRoomLeft".
Definition OnAnyEvent := js "_OnAnyEvent".
Definition OnNativeMessage := js "_OnNativeMessage".

Definition ackBinary : jsstr := js "M".
Definition ackIDBinary : jsstr := js "A".
Definition ackNotOKBinary : jsstr := js "H".
Definition waitIsConfirmationPrefix : Z := 35.    (* '#' *)
Definition waitComesFromClientPrefix : Z := 36.   (* '$' *)

(** A key is a string, or [None] for a field never set ([undefined]). *)
Abbreviation key := (option jsstr).

Definition isSystemEvent (event : key) : bool :=
  bool_decide (event ∈ Some <$>
    [OnNamespaceConnect; OnNamespaceConnected; OnNamespaceDisconnect;
     OnRoomJoin; OnRoomJoined; OnRoomLeave; OnRoomLeft]).

(** [s == ""] holds of an empty Uint8Array (its string is empty), whose length
    is 0; and of [false], which has no length. *)
Definition isEmpty (s : jsval) : bool :=
  match s with
  | JUndef => true
  | JNull => true
  | JStr s => s ==? []
  | JBytes b => b ==? []
  | JErr _ m => m ==? []
  | JBool _ | JBuffer _ => false
  end.

(** ** The Message class

    A flag that was never assigned is [false] here: the code only tests flags. *)
Record message := Msg {
  wait : key;
  Namespace : key;
  Room : key;
  Event : key;
  Body : jsval;
  Err : jsval;
  isError : bool;
  isNoOp : bool;
  isInvalid : bool;
  IsForced : bool;
  IsLocal : bool;
  IsNative : bool;
  SetBinary : bool
}.

#[global] Instance message_eq_dec : EqDecision message.
Proof. solve_decision. Defined.

Definition new_Message : message :=
  Msg None None None None JUndef JUndef false false false false false false false.

(** Assignments to one field. *)
Definition set_wait w '(Msg _ n r e b er ie nn ii f l na bi) := Msg w n r e b er ie nn ii f l na bi.
Definition set_Namespace n '(Msg w _ r e b er ie nn ii f l na bi) := Msg w n r e b er ie nn ii f l na bi.
Definition set_Room r '(Msg w n _ e b er ie nn ii f l na bi) := Msg w n r e b er ie nn ii f l na bi.
Definition set_Event e '(Msg w n r _ b er ie nn ii f l na bi) := Msg w n r e b er ie nn ii f l na bi.
Definition set_Body b '(Msg w n r e _ er ie nn ii f l na bi) := Msg w n r e b er ie nn ii f l na bi.
Definition set_Err er '(Msg w n r e b _ ie nn ii f l na bi) := Msg w n r e b er ie nn ii f l na bi.
Definition set_isInvalid ii '(Msg w n r e b er ie nn _ f l na bi) := Msg w n r e b er ie nn ii f l na bi.
Definition set_IsForced f '(Msg w n r e b er ie nn ii _ l na bi) := Msg w n r e b er ie nn ii f l na bi.
Definition set_IsLocal l '(Msg w n r e b er ie nn ii f _ na bi) := Msg w n r e b er ie nn ii f l na bi.
Definition set_SetBinary bi '(Msg w n r e b er ie nn ii f l na _) := Msg w n r e b er ie nn ii f l na bi.

Definition isConnect (m : message) : bool := Event m ==? Some OnNamespaceConnect.
Definition isDisconnect (m : message) : bool := Event m ==? Some OnNamespaceDisconnect.
Definition isRoomJoin (m : message) : bool := Event m ==? Some OnRoomJoin.
Definition isRoomLeft (m : message) : bool := Event m ==? Some OnRoomLeft.

Definition isWait (m : message) : bool :=
  if isEmpty (of_key (wait m)) then false
  else
    match wait m with
    | Some (c :: _) =>
        if c =? waitIsConfirmationPrefix then true else c =? waitComesFromClientPrefix
    | _ => false
    end.

(** ** Field escaping *)

Definition messageSeparator : Z := 59. (* ';' *)
Definition messageFieldSeparatorReplacement : jsstr := js "@%!semicolon@%!".
Definition validMessageSepCount : nat := 7.
Definition trueString : jsstr := js "1".
Definition falseString : jsstr := js "0".

(** [s.replace(new RegExp(pat, "g"), rep)] for a literal, non-empty [pat]: scan
    from the left, [skip] counts the units of a match still to be passed over. *)
Fixpoint replace_from (pat rep : jsstr) (skip : nat) (s : jsstr) : jsstr :=
  match s with
  | [] => []
  | c :: s' =>
      match skip with
      | S k => replace_from pat rep k s'
      | O =>
          match strip pat s with
          | Some _ => rep ++ replace_from pat rep (length pat - 1) s'
          | None => c :: replace_from pat rep 0 s'
          end
      end
  end.
Definition replace_all (pat rep s : jsstr) : jsstr := replace_from pat rep 0 s.

Definition escapeMessageField (s : key) : jsstr :=
  match s with
  | None => []
  | Some s =>
      if isEmpty (JStr s) then []
      else replace_all [messageSeparator] messageFieldSeparatorReplacement s
  end.

Definition unescapeMessageField (s : key) : jsstr :=
  match s with
  | None => []
  | Some s =>
      if isEmpty (JStr s) then []
      else replace_all messageFieldSeparatorReplacement [messageSeparator] s
  end.

(** ** Replies *)

(** [new replyError(body)]: the Error constructor turns the body into a string. *)
Definition reply (body : jsval) : jsval :=
  JErr ReplyErr (match body with JUndef => [] | _ => to_str body end).

Definition isReply (err : jsval) : bool :=
  match err with JErr ReplyErr _ => true | _ => false end.

(** ** Typed arrays *)

(** [v.length] as a number; [None] is NaN (no such property). *)
Definition js_length (v : jsval) : outcome (option nat) :=
  match v with
  | JUndef | JNull => type_error (js "Cannot read properties of undefined (reading 'length')")
  | JStr s => Ret (Some (length s))
  | JBytes b => Ret (Some (length b))
  | JBool _ | JBuffer _ | JErr _ _ => Ret None
  end.

(** The numbers [Uint8Array.prototype.set] stores for the elements of [v]: the
    element of a string is a one-unit string, which converts to its digit or to
    NaN, stored as 0. *)
Definition unit_to_byte (c : Z) : Z := if (48 <=? c) && (c <=? 57) then c - 48 else 0.
Definition set_source (v : jsval) : list Z :=
  match v with
  | JStr s => map unit_to_byte s
  | JBytes b => b
  | _ => []
  end.

(** [err.message] *)
Definition err_message (e : jsval) : jsval :=
  match e with JErr _ m => JStr m | _ => JUndef end.

(** ** The codec *)

(** What the client needs of TextEncoder and TextDecoder: the platform's in a
    browser, the bundled text-encoding library's under Node. [tc_decode] is one
    non-streaming call of the client's shared decoder. *)
Class TextCodec := {
  tc_encode : jsstr -> list Z;
  tc_decode : list Z -> jsstr
}.

(** A frame as the socket delivers it: [binaryType] is "arraybuffer". *)
Inductive frame := Text (s : jsstr) | Binary (b : list Z).

Section codec.
Context `{TextCodec}.

(** The six header fields, each followed by the separator. *)
Definition message_header (msg : message) (isErrorString isNoOpString : jsstr) : jsstr :=
  join [messageSeparator]
    [ match wait msg with Some w => w | None => [] end;
      escapeMessageField (Namespace msg);
      escapeMessageField (Room msg);
      escapeMessageField (Event msg);
      isErrorString;
      isNoOpString;
      [] ].

Definition serializeMessage (msg : message) : outcome jsval :=
  if IsNative msg && isEmpty (of_key (wait msg)) then Ret (Body msg)
  else
    let '(body, isErrorString) :=
      if isEmpty (Err msg) then (js_or (Body msg) (JStr []), falseString)
      else (err_message (Err msg), if isReply (Err msg) then falseString else trueString) in
    let isNoOpString := if isNoOp msg then trueString else falseString in
    let data := message_header msg isErrorString isNoOpString in
    if SetBinary msg then
      let b := tc_encode data in
      n ← js_length body;
      match n with
      | Some _ => Ret (JBytes (b ++ set_source body))
      | None => range_error (js "offset is out of bounds") (* new Uint8Array(NaN) is empty *)
      end
    else
      let body := match body with JBytes u => JStr (tc_decode u) | _ => body end in
      Ret (JStr (data ++ to_str body)).

(** [s.split(sep)] *)
Fixpoint split (sep : Z) (s : jsstr) : list jsstr :=
  match s with
  | [] => [[]]
  | c :: s' =>
      if c =? sep then [] :: split sep s'
      else match split sep s' with x :: xs => (c :: x) :: xs | [] => [[c]] end
  end.

Definition splitN (s : jsstr) (sep : Z) (limit : nat) : list jsstr :=
  if (limit =? 0)%nat then [s]
  else
    let arr := take limit (split sep s) in
    if (length arr =? limit)%nat then
      let curr := join [sep] arr ++ [sep] in
      arr ++ [drop (length curr) s]
    else [s].

(** The loop over the bytes of a binary frame: (sepCount, lastSepIndex). *)
Fixpoint scan_seps (arr : list Z) (i sepCount lastSepIndex : nat) : nat * nat :=
  match arr with
  | [] => (sepCount, lastSepIndex)
  | b :: arr' =>
      if b =? messageSeparator then
        let sepCount := S sepCount in
        if (sepCount =? validMessageSepCount)%nat then (sepCount, i)
        else scan_seps arr' (S i) sepCount i
      else scan_seps arr' (S i) sepCount lastSepIndex
  end.

(** From the seven parts to the message. *)
Definition fill_message (msg : message) (hd : list jsstr) (body : jsval)
    (allowNativeMessages : bool) : message :=
  let field i := hd !! i in
  let ev := unescapeMessageField (field 3%nat) in
  let isErr := field 4%nat ==? Some trueString in
  let '(bd, er) :=
    if isEmpty body then (JStr [], Err msg)
    else if isErr then (Body msg, JErr PlainError (to_str body)) else (body, Err msg) in
  Msg (field 0%nat) (Some (unescapeMessageField (field 1%nat)))
    (Some (unescapeMessageField (field 2%nat))) (Some ev) bd er
    isErr (field 5%nat ==? Some trueString) false false false
    (allowNativeMessages && (ev ==? OnNativeMessage)) (SetBinary msg).

Definition deserializeMessage (data : frame) (allowNativeMessages : bool) : message :=
  let invalid msg := set_isInvalid true msg in
  let native msg v := set_Body v (set_Event (Some OnNativeMessage) msg) in
  match data with
  | Text s =>
      if s ==? [] then invalid new_Message
      else
        let dts := splitN s messageSeparator (validMessageSepCount - 1) in
        if (length dts =? validMessageSepCount)%nat then
          fill_message new_Message (take 6 dts)
            (match dts !! 6%nat with Some b => JStr b | None => JUndef end) allowNativeMessages
        else if negb allowNativeMessages then invalid new_Message
        else native new_Message (JStr s)
  | Binary arr =>
      let '(sepCount, lastSepIndex) := scan_seps arr 0 1 0 in
      if negb (sepCount =? validMessageSepCount)%nat then invalid new_Message
      else
        let dts := splitN (tc_decode (take lastSepIndex arr)) messageSeparator (validMessageSepCount - 2) in
        let body := JBuffer (drop (S lastSepIndex) arr) in
        let msg := set_SetBinary true new_Message in
        if (length dts + 1 =? validMessageSepCount)%nat then
          fill_message msg dts body allowNativeMessages
        else if negb allowNativeMessages then invalid msg
        else native msg (JBuffer arr)
  end.
End codec.

(** ** Wait tokens *)

(** What the environment's clock reads: [process.hrtime()] under Node, the text
    of [performance.now()] in a browser. *)
Inductive clock := HrTime (seconds nanos : Z) | PerformanceNow (now : jsstr).

Definition genWait (now : clock) : jsstr :=
  match now with
  | HrTime s n =>
      ([waitComesFromClientPrefix] ++ num_to_str (s * 1000000000)) ++ num_to_str n
  | PerformanceNow t => [waitComesFromClientPrefix] ++ t
  end.

Definition genWaitConfirmation (wait : jsstr) : jsstr := [waitIsConfirmationPrefix] ++ wait.

Definition genEmptyReplyToWait (wait : jsstr) : jsstr :=
  wait ++ replicate (validMessageSepCount - 1) messageSeparator.

#[global] Arguments escapeMessageField : simpl never.
#[global] Arguments unescapeMessageField : simpl never.
#[global] Arguments serializeMessage : simpl never.
#[global] Arguments deserializeMessage : simpl never.
