(* ===== verification/Numbers.v ===== *)
(** Decimal numerals: the digits of a number determine it, and so do the wait
    tokens built from the process clock. *)

From S2P Require Import Prelude JsVal Message.

(** The value of a string of digits. *)
Definition dec_val (s : jsstr) : Z := fold_left (fun a c => a * 10 + (c - 48)) s 0.

Lemma fold_dec_val s a : fold_left (fun a c => a * 10 + (c - 48)) s a = a * 10 ^ Z.of_nat (length s) + dec_val s.
Proof.
  unfold dec_val. revert a. induction s as [|c s IH]; intros a; cbn [fold_left length].
  - change (10 ^ Z.of_nat 0) with 1. lia.
  - rewrite IH, (IH (0 * 10 + _)), Nat2Z.inj_succ, Z.pow_succ_r by lia. lia.
Qed.

Lemma dec_val_app s t : dec_val (s ++ t) = dec_val s * 10 ^ Z.of_nat (length t) + dec_val t.
Proof. unfold dec_val at 1. by rewrite fold_left_app, fold_dec_val. Qed.

Lemma dec_digits_spec fuel n acc : 0 <= n < 10 ^ Z.of_nat fuel -> (0 < fuel)%nat ->
  exists ds, dec_digits fuel n acc = ds ++ acc /\ dec_val ds = n /\
    n < 10 ^ Z.of_nat (length ds) /\ (length ds = 1%nat \/ 10 ^ (Z.of_nat (length ds) - 1) <= n).
Proof.
  revert n acc. induction fuel as [|fuel IH]; intros n acc Hn Hf; [lia|]. cbn [dec_digits].
  destruct (Z.ltb_spec n 10) as [Hs|Hs].
  - exists [48 + n mod 10]. split; [done|]. unfold dec_val. cbn. rewrite Z.mod_small by lia. lia.
  - rewrite Nat2Z.inj_succ, Z.pow_succ_r in Hn by lia.
    assert (0 < fuel)%nat.
    { destruct fuel; [|lia]. change (10 ^ Z.of_nat 0) with 1 in Hn. lia. }
    destruct (IH (n / 10) (48 + n mod 10 :: acc)) as (ds & E & Hv & Hlt & Hge);
      [split; [apply Z.div_pos; lia|apply Z.div_lt_upper_bound; lia]|done|].
    exists (ds ++ [48 + n mod 10]). rewrite E, <-app_assoc. split; [done|].
    rewrite dec_val_app, Hv, length_app. cbn [length].
    replace (dec_val [48 + n mod 10]) with (n mod 10) by (unfold dec_val; cbn; lia).
    change (10 ^ Z.of_nat 1) with 10.
    replace (Z.of_nat (length ds + 1)) with (Z.succ (Z.of_nat (length ds))) by lia.
    rewrite Z.pow_succ_r by lia. pose proof (Z.div_mod n 10 ltac:(lia)).
    pose proof (Z.mod_pos_bound n 10 ltac:(lia)).
    repeat split; try lia. right. replace (Z.succ (Z.of_nat (length ds)) - 1) with (Z.of_nat (length ds)) by lia.
    destruct Hge as [->|Hge]; [change (10 ^ Z.of_nat 1) with 10; lia|].
    destruct ds as [|d ds]; [cbn in Hge, Hlt; lia|].
    replace (Z.of_nat (length (d :: ds))) with (Z.succ (Z.of_nat (length (d :: ds)) - 1)) by lia.
    rewrite Z.pow_succ_r by (cbn [length]; lia). lia.
Qed.

Lemma num_to_str_spec n : 0 <= n ->
  dec_val (num_to_str n) = n /\ n < 10 ^ Z.of_nat (length (num_to_str n)) /\
  (length (num_to_str n) = 1%nat \/ 10 ^ (Z.of_nat (length (num_to_str n)) - 1) <= n).
Proof.
  intros Hn. unfold num_to_str. rewrite (proj2 (Z.ltb_ge n 0)) by lia.
  destruct (dec_digits_spec (S (Z.to_nat (Z.log2 n))) n []) as (ds & -> & H); [|lia|].
  - split; [done|]. rewrite Nat2Z.inj_succ, Z2Nat.id by apply Z.log2_nonneg.
    destruct (Z.eq_dec n 0) as [->|]; [done|].
    eapply Z.lt_le_trans; [apply Z.log2_spec; lia|]. apply Z.pow_le_mono_l.
    pose proof (Z.log2_nonneg n). lia.
  - by rewrite app_nil_r.
Qed.

Lemma num_to_str_inj n m : 0 <= n -> 0 <= m -> num_to_str n = num_to_str m -> n = m.
Proof.
  intros Hn Hm E. destruct (num_to_str_spec n Hn) as [<- _], (num_to_str_spec m Hm) as [<- _].
  by rewrite E.
Qed.

Lemma num_to_str_length n k : 0 <= n < 10 ^ k -> 1 <= k -> Z.of_nat (length (num_to_str n)) <= k.
Proof.
  intros Hn Hk. destruct (num_to_str_spec n) as (_ & _ & [->|H]); [lia|lia|].
  assert (10 ^ (Z.of_nat (length (num_to_str n)) - 1) < 10 ^ k) by lia.
  apply Z.pow_lt_mono_r_iff in H0; lia.
Qed.

(** The digits of two readings pasted together still tell them apart, although
    the nanoseconds are not padded: the seconds end in nine zeros. *)
Lemma paste_inj s n s' n' : 0 <= s -> 0 <= n < 10 ^ 9 -> 0 <= s' -> 0 <= n' < 10 ^ 9 ->
  (length (num_to_str n) <= length (num_to_str n'))%nat ->
  num_to_str (s * 1000000000) ++ num_to_str n = num_to_str (s' * 1000000000) ++ num_to_str n' ->
  s = s' /\ n = n'.
Proof.
  intros Hs Hn Hs' Hn' Hl E.
  apply (f_equal dec_val) in E. rewrite !dec_val_app in E.
  destruct (num_to_str_spec (s * 1000000000)) as [V1 _]; [lia|].
  destruct (num_to_str_spec (s' * 1000000000)) as [V2 _]; [lia|].
  destruct (num_to_str_spec n) as (V3 & B3 & _); [lia|].
  destruct (num_to_str_spec n') as (V4 & B4 & _); [lia|].
  rewrite V1, V2, V3, V4 in E.
  set (L := Z.of_nat (length (num_to_str n))) in *. set (L' := Z.of_nat (length (num_to_str n'))) in *.
  assert (HL : 0 <= L <= L') by lia.
  change 1000000000 with (10 ^ 9) in E.
  assert (E2 : 10 ^ L' = 10 ^ L * 10 ^ (L' - L)) by (rewrite <-Z.pow_add_r by lia; f_equal; lia).
  assert (P1 : 0 < 10 ^ L) by (apply Z.pow_pos_nonneg; lia).
  assert (P2 : 0 < 10 ^ (L' - L)) by (apply Z.pow_pos_nonneg; lia).
  assert (P3 : 10 ^ L <= 10 ^ 9 * 10 ^ L /\ 10 ^ 9 <= 10 ^ 9 * 10 ^ L)
    by (change (10 ^ 9) with 1000000000; lia).
  assert (En : n = n').
  { assert (M : (s * 10 ^ 9 * 10 ^ L + n) mod (10 ^ 9 * 10 ^ L) = n).
    { rewrite <-Z.mul_assoc, Z.add_comm, Z.mod_add by lia. apply Z.mod_small. lia. }
    rewrite E, E2 in M.
    replace (s' * 10 ^ 9 * (10 ^ L * 10 ^ (L' - L)) + n')
      with (n' + s' * 10 ^ (L' - L) * (10 ^ 9 * 10 ^ L)) in M by ring.
    rewrite Z.mod_add, Z.mod_small in M by lia. done. }
  subst n'. split; [|done]. change L' with L in E.
  assert (Es : s * (10 ^ 9 * 10 ^ L) = s' * (10 ^ 9 * 10 ^ L)) by lia.
  apply Z.mul_reg_r in Es; [done|lia].
Qed.

(** Under Node, tokens taken at different clock readings differ. *)
Theorem genWait_fresh s n s' n' :
  0 <= s < 4000000000 -> 0 <= n < 1000000000 -> 0 <= s' < 4000000000 -> 0 <= n' < 1000000000 ->
  (s, n) <> (s', n') -> genWait (HrTime s n) <> genWait (HrTime s' n').
Proof.
  intros Hs Hn Hs' Hn' Hne [= E]. apply Hne.
  destruct (Nat.le_ge_cases (length (num_to_str n)) (length (num_to_str n'))) as [Hl|Hl].
  - apply paste_inj in E as [-> ->]; change (10 ^ 9) with 1000000000; done || lia.
  - symmetry in E. apply paste_inj in E as [-> ->]; change (10 ^ 9) with 1000000000; done || lia.
Qed.

Lemma genWait_fresh_witness :
  (1, 0) <> (10, 0) /\ genWait (HrTime 1 0) <> genWait (HrTime 10 0).
Proof. split; [done|]. apply (genWait_fresh 1 0 10 0); done || lia. Defined.
