(* ===== verification/CodecLaws.v ===== *)
(** The interface between the text codec and the message layer: what neffos.js
    relies on of TextEncoder and TextDecoder, and the proof that the bundled
    text-encoding library provides it. *)

From S2P Require Import Prelude JsVal TextEncoding Utf8Step Utf8Spec Message.

Class TextCodecLaws `{TextCodec} : Prop := {
  tc_encode_nil : tc_encode [] = [];
  tc_encode_sep s t : Forall is_unit s -> Forall is_unit t ->
    tc_encode (s ++ messageSeparator :: t) = tc_encode s ++ messageSeparator :: tc_encode t;
  tc_encode_occ s : Forall is_unit s -> occ messageSeparator (tc_encode s) = occ messageSeparator s;
  tc_encode_byte s : Forall is_unit s -> Forall is_byte (tc_encode s);
  tc_decode_encode s : well_formed s = true -> tc_decode (tc_encode s) = strip_bom s;
  tc_decode_occ b : Forall is_byte b -> occ messageSeparator (tc_decode b) = occ messageSeparator b;
  tc_decode_well_formed b : Forall is_byte b -> well_formed (tc_decode b) = true
}.

(** The library's codec; [decode_history_free] makes the decoder's state irrelevant. *)
#[global] Instance library_codec : TextCodec := {
  tc_encode s := match encode s false with Ret b => b | _ => [] end;
  tc_decode b := match (decode utf8_decoder b false).1 with Ret s => s | _ => [] end
}.

Lemma sep_ascii : 0 <= messageSeparator < 0x80.
Proof. done. Qed.

Lemma utf8_decoder_idle : idle_utf8 utf8_decoder.
Proof. by eexists _, _, _. Qed.

#[global] Instance library_codec_laws : TextCodecLaws.
Proof.
  assert (Hdec : forall b, Forall is_byte b ->
    (forall c, 0 <= c < 0x80 -> occ c (tc_decode b) = occ c b) /\ well_formed (tc_decode b) = true).
  { intros b Hb. destruct (decode_replaces utf8_decoder b utf8_decoder_idle) as (s & td' & E & _ & Hw & Ho);
      [done..|]. unfold tc_decode, library_codec. by rewrite E. }
  pose proof sep_ascii as Hsep. split.
  - done.
  - intros s t Hs Ht. unfold tc_encode, library_codec.
    rewrite !encode_concat by (try apply Forall_app; repeat split; try constructor; unfold is_unit in *; done || lia).
    rewrite s2cp_sep by done. change (concat (map utf8_bytes ?l)) with (utf8_concat l).
    rewrite utf8_concat_app. unfold utf8_concat at 2. simpl map. simpl concat. done.
  - intros s Hs. unfold tc_encode, library_codec. rewrite encode_concat by done.
    change (concat (map utf8_bytes ?l)) with (utf8_concat l).
    rewrite occ_utf8_concat by (lia || by apply s2cp_scalar).
    clear. induction s as [|c s IH IH2] using jsstr_pair_ind; [done|].
    rewrite s2cp_cons. cbn [occ].
    destruct (Z.ltb_spec c 0xD800), (Z.ltb_spec 0xDFFF c); cbn [orb occ]; try by rewrite IH.
    all: unfold messageSeparator in *; rewrite (decide_False (P := 59 = c)) by lia.
    all: destruct (_ && _); cbn [occ]; [rewrite IH, decide_False by lia; done|].
    all: destruct s as [|d s]; [done|].
    all: destruct ((0xDC00 <=? d) && _) eqn:E; cbn [occ].
    all: try (rewrite decide_False by done; apply IH).
    all: apply andb_true_iff in E as [E1%Z.leb_le E2%Z.leb_le].
    all: rewrite (IH2 d s) by done; rewrite !decide_False; [done|lia|].
    all: change 0x3FF with (Z.ones 10); rewrite !Z.land_ones, Z.shiftl_mul_pow2 by lia; pow_norm.
    all: Z.to_euclidean_division_equations; lia.
  - intros s Hs. unfold tc_encode, library_codec. rewrite encode_concat by done.
    by apply utf8_concat_byte, s2cp_scalar.
  - intros s Hs. destruct (decode_encode utf8_decoder s utf8_decoder_idle Hs) as (b & td' & E1 & _ & E2 & _).
    unfold tc_decode, tc_encode, library_codec. by rewrite E1, E2.
  - intros b Hb. apply Hdec; [done|lia].
  - intros b Hb. by apply Hdec.
Qed.
