(* ===== verification/MessageSpec.v ===== *)
(** The message codec: escaping, splitting, what a serialized message looks like
    and what the other side reads from it. *)

From S2P Require Import Prelude JsVal TextEncoding Utf8Step Utf8Spec Message CodecLaws.

#[local] Abbreviation sep := messageSeparator.
#[local] Abbreviation R := messageFieldSeparatorReplacement.

(** ** Escaping *)

Lemma escape_flat s :
  escapeMessageField (Some s) = flat_map (fun c => if c =? sep then R else [c]) s.
Proof.
  unfold escapeMessageField, isEmpty. case_bool_decide; [by subst|]. clear.
  unfold replace_all. induction s as [|c s IH]; [done|].
  cbn [replace_from strip flat_map]. unfold messageSeparator in *.
  destruct (Z.eqb_spec c 59) as [->|Hn].
  - rewrite decide_True by done. cbn [length Nat.sub]. by rewrite IH.
  - rewrite decide_False by done. simpl. by rewrite IH.
Qed.

Definition escape (s : jsstr) : jsstr := flat_map (fun c => if c =? sep then R else [c]) s.
Definition unescape (s : jsstr) : jsstr := replace_all R [sep] s.

Lemma escapeMessageField_Some s : escapeMessageField (Some s) = escape s.
Proof. apply escape_flat. Qed.
Lemma unescapeMessageField_Some s : unescapeMessageField (Some s) = unescape s.
Proof. unfold unescapeMessageField, isEmpty. case_bool_decide; [by subst|done]. Qed.

Lemma sep_not_in_R : sep ∉ R.
Proof. apply (bool_decide_unpack _). by vm_compute. Qed.

(** An escaped field never holds the separator. *)
Lemma escape_no_sep k : sep ∉ escapeMessageField k.
Proof.
  destruct k as [s|]; [|by apply not_elem_of_nil]. rewrite escape_flat.
  induction s as [|c s IH]; [by apply not_elem_of_nil|]. simpl.
  rewrite not_elem_of_app. split; [|done].
  destruct (Z.eqb_spec c sep); [apply sep_not_in_R|set_solver].
Qed.

(** Scanning for the replacement. *)
Lemma replace_skip pat rep n s :
  (n <= length s)%nat -> replace_from pat rep n s = replace_from pat rep 0 (drop n s).
Proof.
  revert s. induction n as [|n IH]; intros [|c s] Hn; simpl in *; try done; try lia.
  apply IH. lia.
Qed.

Lemma unescape_match s : unescape (R ++ s) = sep :: unescape s.
Proof. reflexivity. Qed.

Lemma unescape_no_match c s : strip R (c :: s) = None -> unescape (c :: s) = c :: unescape s.
Proof. intros E. unfold unescape, replace_all. cbn [replace_from]. by rewrite E. Qed.

Lemma unescape_hit c s r : c :: s = R ++ r -> unescape (c :: s) = sep :: unescape r.
Proof. intros ->. apply unescape_match. Qed.

(** ** When unescaping inverts escaping

    Not when the field itself holds the replacement text, or the part of it
    before the final marker right in front of a separator: the marker that
    escaping inserts then completes it. *)

Definition marker : jsstr := js "@%!".
Definition half : jsstr := js "@%!semicolon".
Definition ambiguous (s : jsstr) : Prop :=
  exists pre post, s = pre ++ R ++ post \/ s = pre ++ half ++ sep :: post.

(** A match at the head of an escaped text comes from the text itself, or from
    its start and the separator after it. *)
Lemma escape_prefix s :
  (exists r, escape s = R ++ r) -> head s <> Some sep ->
  (exists r, s = R ++ r) \/ (exists r, s = half ++ sep :: r).
Proof.
  assert (HR : R = [64; 37; 33; 115; 101; 109; 105; 99; 111; 108; 111; 110; 64; 37; 33]) by reflexivity.
  assert (Hh : half = [64; 37; 33; 115; 101; 109; 105; 99; 111; 108; 111; 110]) by reflexivity.
  rewrite HR, Hh. clear Hh.
  intros [r E] H0.
  (* each unit of the match is a unit of the text, or the text has a separator there *)
  assert (Hstep : forall x l t, escape t = x :: l -> x <> 64 ->
    exists t', t = x :: t' /\ escape t' = l).
  { intros x l [|c t] Ex Hx; [done|]. simpl in Ex. rewrite HR in Ex. destruct (c =? sep); simplify_eq/=; eauto. }
  assert (Hat : forall l t, escape t = 64 :: l ->
    (exists t', t = 64 :: t' /\ escape t' = l) \/ (exists t', t = sep :: t')).
  { intros l [|c t] Ex; [done|]. simpl in Ex.
    destruct (Z.eqb_spec c sep) as [->|]; simplify_eq/=; eauto. }
  simpl in E. apply Hat in E as [(s1 & -> & E)|[t ->]]; [|done].
  do 11 (apply Hstep in E as (? & -> & E); [|done]).
  apply Hat in E as [(? & -> & E)|[t ->]]; [|right; by eexists].
  do 2 (apply Hstep in E as (? & -> & E); [|done]).
  left. by eexists.
Qed.

Lemma ambiguous_cons c s : ambiguous s -> ambiguous (c :: s).
Proof. intros (pre & post & [->| ->]); exists (c :: pre), post; auto. Qed.

Lemma ambiguous_uncons c s : ambiguous (c :: s) ->
  ambiguous s \/ (c <> sep /\ exists r, escape (c :: s) = R ++ r).
Proof.
  intros (pre & post & [E|E]); destruct pre as [|a pre]; simpl in E.
  - right. split; [by injection E as -> _|]. exists (escape post). by rewrite E.
  - left. exists pre, post. left. by simplify_eq.
  - right. split; [by injection E as -> _|].
    exists (js "semicolon@%!" ++ escape post). rewrite E. reflexivity.
  - left. exists pre, post. right. by simplify_eq.
Qed.

Lemma unescape_escape s :
  unescape (escape s) = s <-> ~ ambiguous s.
Proof.
  induction s as [|c s IH].
  { split; [|done]. intros _ (pre & post & [E|E]); by destruct pre. }
  destruct (decide (c = sep)) as [->|Hc].
  - change (escape (sep :: s)) with (R ++ escape s). rewrite unescape_match.
    split; [intros [= E%IH] [?|[? _]]%ambiguous_uncons; done|].
    intros Hn. f_equal. apply IH. contradict Hn. by apply ambiguous_cons.
  - assert (Ec : escape (c :: s) = c :: escape s) by by (simpl; rewrite (proj2 (Z.eqb_neq _ _) Hc)).
    destruct (strip R (c :: escape s)) as [r|] eqn:Er.
    + apply strip_Some in Er. rewrite Ec, (unescape_hit c _ r Er). split.
      * intros [= E _]. done.
      * intros Hn. destruct Hn. destruct (escape_prefix (c :: s)) as [[t Et]|[t Et]].
        { exists r. by rewrite Ec. } { simpl. congruence. }
        { exists [], t. left. done. } { exists [], t. right. done. }
    + rewrite Ec, unescape_no_match by done. split.
      * intros [= E%IH] [?|[_ [r Hr]]]%ambiguous_uncons; [done|].
        rewrite Ec in Hr. rewrite Hr, strip_app in Er. done.
      * intros Hn. f_equal. apply IH. contradict Hn. by apply ambiguous_cons.
Qed.

(** Escaping is undone exactly when the field is not ambiguous. *)
Theorem unescape_escape_iff s :
  unescapeMessageField (Some (escapeMessageField (Some s))) = s <-> ~ ambiguous s.
Proof. rewrite escapeMessageField_Some, unescapeMessageField_Some. apply unescape_escape. Qed.

(** A short sufficient condition: no ['@'] in the field. *)
Lemma not_ambiguous s : 64 ∉ s -> ~ ambiguous s.
Proof.
  intros Hn (pre & post & [->| ->]); apply Hn; rewrite !elem_of_app; right; left; vm_compute; left.
Qed.

(** ** Splitting *)

Definition sep_all (xs : list jsstr) : jsstr := concat (map (fun x => x ++ [sep]) xs).

Lemma join_sep_all xs x : join [sep] (xs ++ [x]) = sep_all xs ++ x.
Proof.
  induction xs as [|y xs IH]; [done|]. unfold sep_all in *. simpl.
  destruct (xs ++ [x]) eqn:E; [by destruct xs|]. rewrite IH. by rewrite <-!app_assoc.
Qed.

Lemma sep_all_snoc xs x : sep_all (xs ++ [x]) = sep_all xs ++ x ++ [sep].
Proof. unfold sep_all. rewrite map_app, concat_app. simpl. by rewrite app_nil_r. Qed.

Lemma sep_all_app xs ys : sep_all (xs ++ ys) = sep_all xs ++ sep_all ys.
Proof. unfold sep_all. by rewrite map_app, concat_app. Qed.

Lemma split_no_sep a s : a ∉ s -> split a s = [s].
Proof.
  induction s as [|c s IH]; [done|]. rewrite not_elem_of_cons. intros [Hc Hs]. simpl.
  rewrite (proj2 (Z.eqb_neq _ _)) by done. by rewrite IH.
Qed.

Lemma split_app a x s : a ∉ x -> split a (x ++ a :: s) = x :: split a s.
Proof.
  induction x as [|c x IH]; [simpl; by rewrite Z.eqb_refl|].
  rewrite not_elem_of_cons. intros [Hc Hx]. simpl.
  rewrite (proj2 (Z.eqb_neq _ _)) by done. by rewrite IH.
Qed.

Lemma split_sep_all xs s : Forall (fun x => sep ∉ x) xs ->
  split sep (sep_all xs ++ s) = xs ++ split sep s.
Proof.
  induction 1 as [|x xs Hx _ IH]; [done|]. unfold sep_all in *. simpl.
  rewrite <-!app_assoc. simpl. by rewrite split_app, IH.
Qed.

Lemma length_split s : length (split sep s) = S (occ sep s).
Proof.
  induction s as [|c s IH]; [done|]. simpl.
  destruct (Z.eqb_spec c sep) as [->|Hn].
  - rewrite decide_True by done. simpl. by rewrite IH.
  - rewrite decide_False by done. destruct (split sep s); simpl in *; lia.
Qed.

(** Every string is its parts. *)
Lemma sep_parts n s : (n <= occ sep s)%nat ->
  exists xs r, length xs = n /\ Forall (fun x => sep ∉ x) xs /\ s = sep_all xs ++ r.
Proof.
  revert s. induction n as [|n IH]; intros s Hn; [by exists [], s|].
  destruct (first_occ sep s) as (x & r & -> & Hx).
  { destruct (decide (sep ∈ s)); [done|]. rewrite (proj2 (occ_0 sep s)) in Hn by done. lia. }
  destruct (IH r) as (xs & r' & Hl & Hxs & ->).
  { rewrite occ_app, (proj2 (occ_0 sep x)) in Hn by done. simpl in Hn. lia. }
  exists (x :: xs), r'. simpl. split; [by rewrite Hl|]. split; [by constructor|].
  unfold sep_all. simpl. by rewrite <-!app_assoc.
Qed.

Lemma occ_sep_all xs r : Forall (fun x => sep ∉ x) xs ->
  occ sep (sep_all xs ++ r) = (length xs + occ sep r)%nat.
Proof.
  induction 1 as [|x xs Hx _ IH]; [done|]. unfold sep_all in *. simpl.
  rewrite <-!app_assoc, occ_app, (proj2 (occ_0 sep x)) by done. simpl. by rewrite IH.
Qed.

(** [splitN] returns the first [limit] parts and the remainder. *)
Lemma splitN_parts xs r limit : Forall (fun x => sep ∉ x) xs -> length xs = S limit ->
  splitN (sep_all xs ++ r) sep (S limit) = xs ++ [r].
Proof.
  intros Hxs Hl. unfold splitN. rewrite split_sep_all, take_app_length' by done.
  simpl (_ =? 0)%nat. cbv iota. rewrite Hl, Nat.eqb_refl.
  destruct xs as [|y ys _] using rev_ind; [done|].
  rewrite join_sep_all, <-(app_assoc (sep_all ys) y [sep]), <-sep_all_snoc.
  by rewrite drop_app_length.
Qed.

Lemma splitN_few s limit : (S (occ sep s) < limit)%nat -> splitN s sep limit = [s].
Proof.
  intros Hl. unfold splitN. destruct limit as [|limit]; [done|]. simpl (_ =? 0)%nat. cbv iota.
  rewrite (proj2 (Nat.eqb_neq _ _)); [done|]. rewrite length_take, length_split. lia.
Qed.

(** With one separator less than [limit] the remainder is taken past the end of
    the string: an extra empty part. *)
Lemma splitN_exact s limit : S (occ sep s) = S limit ->
  splitN s sep (S limit) = split sep s ++ [[]].
Proof.
  intros Hl. unfold splitN. simpl (_ =? 0)%nat. cbv iota.
  rewrite take_ge by (rewrite length_split; lia).
  rewrite length_split, Hl, Nat.eqb_refl. do 2 f_equal. apply drop_ge.
  destruct (sep_parts (occ sep s) s) as (xs & r & Hxl & Hxs & ->); [done|].
  rewrite occ_sep_all in Hxl by done.
  assert (Hr : sep ∉ r) by (apply occ_0; lia).
  rewrite split_sep_all, split_no_sep, join_sep_all by done. rewrite !length_app. lia.
Qed.

Lemma length_splitN s : length (splitN s sep 6) = if (5 <=? occ sep s)%nat then 7%nat else 1%nat.
Proof.
  destruct (Nat.leb_spec 5 (occ sep s)) as [H|H].
  - destruct (decide (occ sep s = 5%nat)) as [E|E].
    + rewrite splitN_exact by lia. rewrite length_app, length_split, E. done.
    + destruct (sep_parts 6 s) as (xs & r & Hxl & Hxs & ->); [lia|].
      rewrite splitN_parts, length_app, Hxl by done. done.
  - by rewrite splitN_few by lia.
Qed.

(** ** Well-formed headers *)

Lemma well_formed_app s t :
  well_formed s = true -> well_formed t = true -> well_formed (s ++ t) = true.
Proof.
  intros Hs Ht. induction s as [|c s IH IH2] using jsstr_pair_ind; [done|].
  cbn [well_formed app] in *. destruct (inRange c 0xD800 0xDBFF).
  - destruct s as [|d s]; [done|]. apply andb_true_iff in Hs as [Hd Hs]. simpl.
    rewrite Hd. by apply (IH2 d s).
  - apply andb_true_iff in Hs as [H1 H2]. rewrite H1. by apply IH.
Qed.

Lemma well_formed_sep_all xs : Forall (fun x => well_formed x = true) xs ->
  well_formed (sep_all xs) = true.
Proof.
  induction 1 as [|x xs Hx _ IH]; [done|]. unfold sep_all. simpl.
  by apply well_formed_app; [apply well_formed_app|].
Qed.

Lemma well_formed_escape k : well_formed (default [] k) = true ->
  well_formed (escapeMessageField k) = true.
Proof.
  destruct k as [s|]; [|done]. simpl. rewrite escapeMessageField_Some.
  induction s as [|c s IH IH2] using jsstr_pair_ind; [done|].
  cbn [well_formed]. intros H. change (escape (c :: s)) with ((if c =? sep then R else [c]) ++ escape s).
  destruct (inRange c 0xD800 0xDBFF) eqn:E.
  - destruct s as [|d s]; [done|]. apply andb_true_iff in H as [Hd Hs].
    apply inRange_true in E. rewrite (proj2 (Z.eqb_neq c sep)) by (unfold messageSeparator; lia).
    change (escape (d :: s)) with ((if d =? sep then R else [d]) ++ escape s).
    assert (Hd' := Hd). apply inRange_true in Hd'.
    rewrite (proj2 (Z.eqb_neq d sep)) by (unfold messageSeparator; lia).
    cbn [app well_formed]. rewrite (proj2 (inRange_true c 0xD800 0xDBFF)), Hd by done.
    by apply (IH2 d s).
  - apply andb_true_iff in H as [H Hs]. apply well_formed_app; [|by apply IH].
    destruct (c =? sep); [done|]. cbn [well_formed]. by rewrite E, H.
Qed.

(** ** The header as parts *)

Definition flag (b : bool) : jsstr := if b then trueString else falseString.

Definition header_parts (msg : message) (isErr : bool) : list jsstr :=
  [default [] (wait msg); escapeMessageField (Namespace msg); escapeMessageField (Room msg);
   escapeMessageField (Event msg); flag isErr; flag (isNoOp msg)].

(** An error that is not a reply. *)
Definition sends_error (msg : message) : bool := negb (isEmpty (Err msg)) && negb (isReply (Err msg)).

(** The value sent after the header. *)
Definition payload (msg : message) : jsval :=
  if isEmpty (Err msg) then js_or (Body msg) (JStr []) else err_message (Err msg).

(** The message goes out framed: it is not a native message. *)
Definition framed (msg : message) : Prop :=
  IsNative msg = false \/ isEmpty (of_key (wait msg)) = false.

Section codec.
Context `{TextCodec}.

Lemma message_header_parts msg b1 b2 :
  message_header msg (flag b1) (flag b2) =
    sep_all [default [] (wait msg); escapeMessageField (Namespace msg); escapeMessageField (Room msg);
             escapeMessageField (Event msg); flag b1; flag b2].
Proof.
  unfold message_header. etrans; [apply (join_sep_all [_; _; _; _; _; _] [])|]. rewrite app_nil_r. by destruct (wait msg).
Qed.

(** Every framed message is header, then payload. *)
Lemma serializeMessage_framed msg : framed msg ->
  serializeMessage msg =
    let data := sep_all (header_parts msg (sends_error msg)) in
    if SetBinary msg then
      n ← js_length (payload msg);
      match n with
      | Some _ => Ret (JBytes (tc_encode data ++ set_source (payload msg)))
      | None => range_error (js "offset is out of bounds")
      end
    else Ret (JStr (data ++ to_str
           (match payload msg with JBytes u => JStr (tc_decode u) | _ => payload msg end))).
Proof.
  intros Hf. unfold serializeMessage, payload, sends_error, header_parts.
  assert (Hn : IsNative msg && isEmpty (of_key (wait msg)) = false).
  { destruct Hf as [-> | ->]; [done|apply andb_false_r]. }
  rewrite Hn. destruct (isEmpty (Err msg)); cbn [negb andb].
  - by rewrite <-(message_header_parts msg false (isNoOp msg)).
  - destruct (isReply (Err msg)); cbn [negb].
    + by rewrite <-(message_header_parts msg false (isNoOp msg)).
    + by rewrite <-(message_header_parts msg true (isNoOp msg)).
Qed.
End codec.

Lemma flag_no_sep b : sep ∉ flag b.
Proof. apply (bool_decide_unpack _). by destruct b. Qed.

Lemma header_parts_no_sep msg b : (sep ∉ default [] (wait msg)) ->
  Forall (fun x => sep ∉ x) (header_parts msg b).
Proof. intros. repeat constructor; auto using escape_no_sep, flag_no_sep. Qed.

(** ** What arrives *)

(** The fields whose escaping the other side can undo. *)
Definition clean (k : key) : Prop := ~ ambiguous (default [] k).

Definition clean_message (msg : message) : Prop :=
  (sep ∉ default [] (wait msg)) /\ clean (Namespace msg) /\ clean (Room msg) /\ clean (Event msg).

(** The message the other end reads when [msg] was sent with the payload [body]. *)
Definition received (msg : message) (body : jsval) (allow : bool) : message :=
  let err := sends_error msg in
  Msg (Some (default [] (wait msg))) (Some (default [] (Namespace msg)))
    (Some (default [] (Room msg))) (Some (default [] (Event msg)))
    (if isEmpty body then JStr [] else if err then JUndef else body)
    (if isEmpty body then JUndef else if err then JErr PlainError (to_str body) else JUndef)
    err (isNoOp msg) false false false
    (allow && (default [] (Event msg) ==? OnNativeMessage)) (SetBinary msg).

Definition clean_fields (msg : message) : Prop := clean (Namespace msg) /\ clean (Room msg) /\ clean (Event msg).

Lemma unescape_clean k : unescapeMessageField (Some (escapeMessageField k)) = default [] k <-> clean k.
Proof.
  destruct k as [s|].
  - rewrite escapeMessageField_Some, unescapeMessageField_Some. apply unescape_escape.
  - split; [|done]. intros _ (pre & post & [E|E]); by destruct pre.
Qed.

Lemma flag_true b : (Some (flag b) ==? Some trueString) = b.
Proof. by destruct b. Qed.

Lemma fill_header msg isErr base body allow :
  isErr = sends_error msg -> Body base = JUndef -> Err base = JUndef -> SetBinary base = SetBinary msg ->
  fill_message base (header_parts msg isErr) body allow = received msg body allow <-> clean_fields msg.
Proof.
  intros -> Hb Her Hbin. unfold fill_message, received, header_parts, clean_fields. rewrite <-!unescape_clean.
  cbn [lookup list_lookup]. rewrite !flag_true. split.
  - destruct (isEmpty body), (sends_error msg); by intros [=].
  - intros (-> & -> & ->). destruct (isEmpty body), (sends_error msg); by rewrite ?Hb, ?Her, Hbin.
Qed.

Section roundtrip.
Context `{TextCodec}.

(** The text payload of a message that is not sent as binary. *)
Definition payload_text (msg : message) : jsstr :=
  to_str (match payload msg with JBytes u => JStr (tc_decode u) | _ => payload msg end).

Lemma deserialize_text xs r allow : Forall (fun x => sep ∉ x) xs -> length xs = 6%nat ->
  deserializeMessage (Text (sep_all xs ++ r)) allow = fill_message new_Message xs (JStr r) allow.
Proof.
  intros Hxs Hl. unfold deserializeMessage.
  rewrite bool_decide_eq_false_2; [|by destruct xs as [|[|??] ?]].
  change (validMessageSepCount - 1)%nat with 6%nat. rewrite (splitN_parts xs r 5) by done.
  rewrite length_app, Hl. simpl (_ =? _)%nat. cbv iota.
  rewrite take_app_length' by done. rewrite lookup_app_r by lia. by rewrite Hl.
Qed.

(** The frame of a text message, read. *)
Lemma text_frame msg allow :
  framed msg -> sep ∉ default [] (wait msg) -> SetBinary msg = false ->
  exists data, serializeMessage msg = Ret (JStr data) /\
    (deserializeMessage (Text data) allow = received msg (JStr (payload_text msg)) allow <-> clean_fields msg).
Proof.
  intros Hf Hw Hb. rewrite serializeMessage_framed, Hb by done. cbv zeta.
  eexists. split; [done|].
  rewrite deserialize_text by (done || by apply header_parts_no_sep).
  by apply fill_header.
Qed.
Lemma text_frame_read msg allow :
  framed msg -> clean_message msg -> SetBinary msg = false ->
  exists data, serializeMessage msg = Ret (JStr data) /\
    deserializeMessage (Text data) allow = received msg (JStr (payload_text msg)) allow.
Proof. intros Hf [Hw Hc] Hb. destruct (text_frame msg allow Hf Hw Hb) as (data & E & Hd). exists data. split; [done|]. by apply Hd. Qed.

(** C1. A text message in a frame - not a native one, and with no separator in
    its token - arrives as it was sent, every field, the error or reply, and the
    body, whatever separators they contain, exactly when its namespace, its room
    and its event are not ambiguous: when they hold neither the replacement
    text nor its first half in front of a separator. *)
Theorem text_roundtrip msg allow :
  framed msg -> sep ∉ default [] (wait msg) -> SetBinary msg = false ->
  exists data, serializeMessage msg = Ret (JStr data) /\
    (deserializeMessage (Text data) allow = received msg (JStr (payload_text msg)) allow <-> clean_fields msg).
Proof. apply text_frame. Qed.
End roundtrip.

Definition chat_message : message :=
  set_Body (JStr (js "a;b")) (set_Event (Some (js "ch;at")) (set_Room (Some (js "r"))
    (set_Namespace (Some (js "default")) (set_wait (Some (js "$1")) new_Message)))).

Lemma chat_message_clean : clean_message chat_message.
Proof.
  split; [apply (bool_decide_unpack _); by vm_compute|].
  repeat split; apply not_ambiguous; apply (bool_decide_unpack _); by vm_compute.
Qed.

Lemma text_roundtrip_witness :
  exists data, serializeMessage chat_message = Ret (JStr data) /\
    deserializeMessage (Text data) true = received chat_message (JStr (js "a;b")) true.
Proof.
  destruct (text_roundtrip chat_message true) as (data & E & Hd); [by left|apply chat_message_clean|reflexivity|].
  exists data. split; [exact E|]. apply Hd, chat_message_clean.
Defined.

(** ** Binary frames *)

Lemma scan_seps_hit pre r i n last : (occ sep pre + n = 6)%nat ->
  scan_seps (pre ++ sep :: r) i n last = (validMessageSepCount, i + length pre)%nat.
Proof.
  revert i n last. induction pre as [|c pre IH]; intros i n last Hn; simpl in *.
  - subst n. by rewrite Nat.add_0_r.
  - destruct (Z.eqb_spec c sep) as [->|Hc].
    + rewrite decide_True in Hn by done. rewrite (proj2 (Nat.eqb_neq _ _)) by (unfold validMessageSepCount; lia).
      rewrite IH by lia. f_equal. lia.
    + rewrite decide_False in Hn by done. rewrite IH by lia. f_equal. lia.
Qed.

Lemma scan_seps_few arr i n last : (occ sep arr + n < 7)%nat ->
  (scan_seps arr i n last).1 = (occ sep arr + n)%nat.
Proof.
  revert i n last. induction arr as [|c arr IH]; intros i n last Hn; simpl in *; [done|].
  destruct (Z.eqb_spec c sep) as [->|Hc].
  - rewrite decide_True in Hn |- * by done.
    rewrite (proj2 (Nat.eqb_neq _ _)) by (unfold validMessageSepCount; lia). rewrite IH by lia. lia.
  - rewrite decide_False in Hn |- * by done. by rewrite IH by lia.
Qed.

Section binary.
Context `{TextCodecLaws}.

(** A binary frame's header and body. *)
Lemma deserialize_binary pre r allow : Forall is_byte pre -> occ sep pre = 5%nat ->
  exists hd, length hd = 6%nat /\
    hd = splitN (tc_decode pre) sep 5 /\
    deserializeMessage (Binary (pre ++ sep :: r)) allow =
      fill_message (set_SetBinary true new_Message) hd (JBuffer r) allow.
Proof.
  intros Hb Ho. exists (splitN (tc_decode pre) sep 5).
  assert (Hl : length (splitN (tc_decode pre) sep 5) = 6%nat).
  { pose proof (tc_decode_occ pre Hb) as Hd. rewrite Ho in Hd.
    destruct (sep_parts 5 (tc_decode pre)) as (xs & r' & Hxl & Hxs & ->); [lia|].
    rewrite splitN_parts, length_app, Hxl by done. done. }
  split; [done|]. split; [done|]. unfold deserializeMessage.
  rewrite scan_seps_hit by lia. rewrite Nat.eqb_refl. simpl negb. cbv iota. simpl (0 + _)%nat.
  rewrite take_app_length. change (validMessageSepCount - 2)%nat with 5%nat. rewrite Hl.
  simpl (_ =? _)%nat. cbv iota. do 2 f_equal.
  rewrite drop_app_ge by lia. by replace (S (length pre) - length pre)%nat with 1%nat by lia.
Qed.

(** The header's bytes: the encoding of all but the last separator, then it. *)
Definition header_text (msg : message) : jsstr :=
  sep_all [default [] (wait msg); escapeMessageField (Namespace msg);
           escapeMessageField (Room msg); escapeMessageField (Event msg);
           flag (sends_error msg)] ++ flag (isNoOp msg).

Definition well_formed_header (msg : message) : Prop :=
  well_formed (default [] (wait msg)) = true /\ well_formed (default [] (Namespace msg)) = true /\
  well_formed (default [] (Room msg)) = true /\ well_formed (default [] (Event msg)) = true /\
  head (default [] (wait msg)) <> Some 0xFEFF.

Lemma header_text_sep msg :
  sep_all (header_parts msg (sends_error msg)) = header_text msg ++ [sep].
Proof.
  unfold header_text. rewrite <-app_assoc, <-sep_all_snoc. reflexivity.
Qed.

Lemma well_formed_header_text msg : well_formed_header msg -> well_formed (header_text msg) = true.
Proof.
  intros (H1 & H2 & H3 & H4 & _). unfold header_text.
  apply well_formed_app; [|by destruct (isNoOp msg)].
  apply well_formed_sep_all. repeat constructor; auto using well_formed_escape.
  by destruct (sends_error msg).
Qed.

Lemma strip_bom_header msg : well_formed_header msg -> strip_bom (header_text msg) = header_text msg.
Proof.
  intros (_ & _ & _ & _ & Hh). unfold header_text, sep_all, strip_bom. simpl.
  destruct (default [] (wait msg)) as [|c w]; simpl; [done|].
  rewrite (proj2 (Z.eqb_neq _ _)); [done|]. intros ->. by apply Hh.
Qed.

Lemma occ_header_text msg : sep ∉ default [] (wait msg) -> occ sep (header_text msg) = 5%nat.
Proof.
  intros Hw. unfold header_text. rewrite occ_sep_all.
  - by rewrite (proj2 (occ_0 _ _)) by apply flag_no_sep.
  - repeat constructor; auto using escape_no_sep, flag_no_sep.
Qed.

(** The frame of a binary message, read. *)
Lemma binary_frame msg b allow :
  framed msg -> sep ∉ default [] (wait msg) -> well_formed_header msg ->
  SetBinary msg = true -> payload msg = JBytes b ->
  exists data, serializeMessage msg = Ret (JBytes data) /\
    (deserializeMessage (Binary data) allow = received msg (JBuffer b) allow <-> clean_fields msg).
Proof.
  intros Hf Hc Hw Hb Hp. rewrite serializeMessage_framed, Hb, Hp by done. cbv zeta.
  eexists. split; [reflexivity|].
  pose proof (well_formed_header_text msg Hw) as Hwt.
  pose proof (well_formed_unit _ Hwt) as Hu.
  rewrite header_text_sep, tc_encode_sep, tc_encode_nil, <-app_assoc by (done || constructor).
  destruct (deserialize_binary (tc_encode (header_text msg)) b allow) as (hd & _ & -> & E).
  { by apply tc_encode_byte. } { by rewrite tc_encode_occ, occ_header_text. }
  simpl app. simpl set_source. rewrite E, tc_decode_encode, strip_bom_header by done.
  unfold header_text. rewrite (splitN_parts _ _ 4); [by apply fill_header| |done].
  repeat constructor; auto using escape_no_sep, flag_no_sep.
Qed.
Lemma binary_frame_read msg b allow :
  framed msg -> clean_message msg -> well_formed_header msg ->
  SetBinary msg = true -> payload msg = JBytes b ->
  exists data, serializeMessage msg = Ret (JBytes data) /\
    deserializeMessage (Binary data) allow = received msg (JBuffer b) allow.
Proof.
  intros Hf [Hs Hc] Hw Hb Hp. destruct (binary_frame msg b allow Hf Hs Hw Hb Hp) as (data & E & Hd).
  exists data. split; [done|]. by apply Hd.
Qed.

(** C2. A binary message in a frame - not a native one, with no separator and no
    leading byte order mark in its token, and no lone surrogate in its header -
    arrives as it was sent, its body the bytes whatever they are, exactly when
    its namespace, its room and its event are not ambiguous. *)
Theorem binary_roundtrip msg b allow :
  framed msg -> sep ∉ default [] (wait msg) -> well_formed_header msg ->
  SetBinary msg = true -> payload msg = JBytes b ->
  exists data, serializeMessage msg = Ret (JBytes data) /\
    (deserializeMessage (Binary data) allow = received msg (JBuffer b) allow <-> clean_fields msg).
Proof. apply binary_frame. Qed.
End binary.

Definition binary_message : message :=
  set_SetBinary true (set_Body (JBytes [10; 59; 255]) chat_message).

Lemma binary_roundtrip_witness :
  exists data, serializeMessage binary_message = Ret (JBytes data) /\
    deserializeMessage (Binary data) false = received binary_message (JBuffer [10; 59; 255]) false.
Proof.
  destruct (binary_roundtrip binary_message [10; 59; 255] false) as (data & E & Hd);
    [by left|apply chat_message_clean|by vm_compute|reflexivity|reflexivity|].
  exists data. split; [exact E|]. apply Hd, chat_message_clean.
Defined.

(** ** Which frames are messages *)

Lemma isInvalid_fill base hd body allow : isInvalid (fill_message base hd body allow) = false.
Proof. unfold fill_message. by repeat case_match. Qed.

Section validity.
Context `{TextCodecLaws}.

(** Without native messages, a text frame is a message exactly when it has at
    least five separators, and a binary frame when it has at least six. *)
Theorem frame_validity :
  (forall s, isInvalid (deserializeMessage (Text s) false) = negb (5 <=? occ sep s)%nat) /\
  (forall b, Forall is_byte b ->
     isInvalid (deserializeMessage (Binary b) false) = negb (6 <=? occ sep b)%nat).
Proof.
  split.
  - intros s. unfold deserializeMessage. case_bool_decide as Es; [by subst|].
    change (validMessageSepCount - 1)%nat with 6%nat. rewrite length_splitN.
    destruct (5 <=? occ sep s)%nat; [apply isInvalid_fill|done].
  - intros b Hb. destruct (Nat.leb_spec 6 (occ sep b)) as [Ho|Ho].
    + destruct (sep_parts 6 b) as (xs & r & Hl & Hxs & ->); [done|].
      destruct xs as [|x xs _] using rev_ind; [done|].
      rewrite sep_all_snoc, <-!app_assoc in Hb |- *. simpl app in *.
      rewrite app_assoc in Hb |- *. apply Forall_app in Hb as [Hb _].
      apply Forall_app in Hxs as [Hxs Hx]. inv Hx. rewrite length_app in Hl. simpl in Hl.
      destruct (deserialize_binary (sep_all xs ++ x) r false) as (hd & _ & _ & E); [done| |].
      { rewrite occ_sep_all, (proj2 (occ_0 _ x)) by done. lia. }
      rewrite E. apply isInvalid_fill.
    + unfold deserializeMessage. pose proof (scan_seps_few b 0 1 0 ltac:(lia)) as Hs.
      destruct (scan_seps b 0 1 0) as [n l]. simpl in Hs. subst n.
      rewrite (proj2 (Nat.eqb_neq _ _)) by (unfold validMessageSepCount; lia). done.
Qed.

(** The acknowledgement of a wait token is a message that carries the token
    and nothing else, whichever way it travels. *)
Theorem empty_reply_reads w allow : sep ∉ w ->
  deserializeMessage (Text (genEmptyReplyToWait w)) allow =
    received (set_wait (Some w) new_Message) (JStr []) allow.
Proof.
  intros Hw. replace (genEmptyReplyToWait w) with (sep_all [w; []; []; []; []; []] ++ []).
  - rewrite deserialize_text; [done| |done].
    repeat constructor; try done; by apply not_elem_of_nil.
  - unfold genEmptyReplyToWait, sep_all. simpl. by rewrite app_nil_r, <-app_assoc.
Qed.
End validity.

Lemma empty_reply_reads_witness :
  deserializeMessage (Text (genEmptyReplyToWait (js "$1"))) false =
    received (set_wait (Some (js "$1")) new_Message) (JStr []) false.
Proof. apply empty_reply_reads. apply (bool_decide_unpack _). by vm_compute. Defined.

(** ** Errors on binary messages *)

(** Answering a binary message with an error loses the error's text: the frame
    ends in one byte per unit, the digit or zero. *)
Theorem binary_error_text_lost `{TextCodec} msg m :
  SetBinary msg = true -> framed msg -> Err msg = JErr PlainError m -> m <> [] ->
  serializeMessage msg =
    Ret (JBytes (tc_encode (sep_all (header_parts msg true)) ++
                 map (fun c => if (48 <=? c) && (c <=? 57) then c - 48 else 0) m)).
Proof.
  intros Hb Hf He Hm. rewrite serializeMessage_framed, Hb by done. cbv zeta.
  unfold payload, sends_error. rewrite He. simpl isEmpty. rewrite bool_decide_eq_false_2 by done.
  reflexivity.
Qed.

Lemma binary_error_text_lost_witness :
  let msg := set_Err (JErr PlainError (js "no 7")) (set_SetBinary true chat_message) in
  serializeMessage msg = Ret (JBytes (tc_encode (sep_all (header_parts msg true)) ++ [0; 0; 0; 7])).
Proof.
  apply (binary_error_text_lost _ (js "no 7")); [reflexivity|by left|reflexivity|done].
Defined.
