(* ===== verification/World.v ===== *)
(** The client's state: the connection's fields, the heap of objects the code
    shares by reference (messages, namespace connections, promises), the queue
    of promise jobs, and the calls made on the socket; and the monad the
    client's code runs in. *)

From S2P Require Import Prelude JsVal JsMap Message.

(** References into the heap. *)
Abbreviation msgref := nat (only parsing).
Abbreviation nsref := nat (only parsing).
Abbreviation pid := nat (only parsing).

(** The identity of an event handler function. *)
Abbreviation handler := nat (only parsing).
Abbreviation events := (jmap key handler).

(** ** Rooms and namespace connections *)

Record room := Room_ { room_ns : nsref; room_name : key }.

Record nsconn := NS { ns_namespace : key; ns_events : events; ns_rooms : jmap key room }.

(** ** Promises

    The code after an [await] is a value of [await_point]: which function is
    suspended, its local variables, and the promise it will settle. *)

Inductive await_point :=
  | AwaitJoin (ns : nsref) (roomName : key) (joinMsg : msgref) (out : pid)
  | AwaitLeave (ns : nsref) (msg : msgref) (out : pid)
  | AwaitConnect (namespace : key) (ns : nsref) (connectMessage : msgref) (out : pid)
  | AwaitDisconnect (ns : nsref) (msg : msgref) (out : pid)
  | AwaitForward (out : pid)
  | AwaitRejoin (rooms : list key).   (* [.then(whenConnected(joinedRooms))] *)

(** What a promise resolves to. *)
Inductive resolved :=
  | ResMsg (m : msgref)
  | ResRoom (r : room)
  | ResNs (ns : option nsref)
  | ResVal (v : jsval).

Inductive settlement := Resolve (v : resolved) | Reject (e : jsval).

Inductive promise :=
  | Pending (awaits : list await_point)
  | Settled (s : settlement).

(** ** The connection *)

Record conn := Connection {
  c_isAcknowledged : bool;
  c_ID : jsval;
  c_queue : list frame;
  c_waitingMessages : jmap key pid;      (* the callback settles the promise *)
  c_connectedNamespaces : jmap key nsref;
  c_closed : bool;
  c_notifiers : option (jmap key pid);   (* waitServerConnectNotifiers *)
  c_namespaces : jmap key events;
  c_reconnectTries : Z
}.

Record heap := Heap {
  h_msgs : list message;
  h_nsconns : list nsconn;
  h_promises : list promise;
  h_jobs : list (await_point * settlement)   (* the microtask queue *)
}.

(** Calls on the WebSocket, and its readyState; [io_ticks] counts the readings
    of the clock. [io_fired] is a history variable: the events fired, in order. *)
Record io := Io {
  io_sent : list jsval;
  io_open : bool;
  io_closes : nat;
  io_ticks : nat;
  io_fired : list (nsref * message)
}.

Record world := World { w_conn : conn; w_heap : heap; w_io : io }.

(** ** The monad: state, exceptions, and calls still running *)

Definition M (A : Type) : Type := world -> outcome A * world.

#[global] Instance M_ret : MRet M := fun A a w => (Ret a, w).
#[global] Instance M_bind : MBind M := fun A B f m w =>
  match m w with
  | (Ret a, w') => f a w'
  | (Throw e, w') => (Throw e, w')
  | (Running, w') => (Running, w')
  end.

Definition throw {A} (e : jsval) : M A := fun w => (Throw e, w).
Definition running {A} : M A := fun w => (Running, w).
Definition lift {A} (o : outcome A) : M A := fun w => (o, w).
Definition gets {A} (f : world -> A) : M A := fun w => (Ret (f w), w).
Definition modify (f : world -> world) : M unit := fun w => (Ret tt, f w).

(** [try m catch (e) { h e }] *)
Definition catch {A} (m : M A) (h : jsval -> M A) : M A := fun w =>
  match m w with
  | (Throw e, w') => h e w'
  | r => r
  end.

(** ** Field access *)

Definition upd_conn (f : conn -> conn) (w : world) : world := World (f (w_conn w)) (w_heap w) (w_io w).
Definition upd_heap (f : heap -> heap) (w : world) : world := World (w_conn w) (f (w_heap w)) (w_io w).
Definition upd_io (f : io -> io) (w : world) : world := World (w_conn w) (w_heap w) (f (w_io w)).

Definition set_isAcknowledged a '(Connection _ id q wm cn cl no ns rt) := Connection a id q wm cn cl no ns rt.
Definition set_ID id '(Connection a _ q wm cn cl no ns rt) := Connection a id q wm cn cl no ns rt.
Definition set_queue q '(Connection a id _ wm cn cl no ns rt) := Connection a id q wm cn cl no ns rt.
Definition set_waitingMessages wm '(Connection a id q _ cn cl no ns rt) := Connection a id q wm cn cl no ns rt.
Definition set_connectedNamespaces cn '(Connection a id q wm _ cl no ns rt) := Connection a id q wm cn cl no ns rt.
Definition set_closed cl '(Connection a id q wm cn _ no ns rt) := Connection a id q wm cn cl no ns rt.
Definition set_notifiers no '(Connection a id q wm cn cl _ ns rt) := Connection a id q wm cn cl no ns rt.

Definition set_msgs ms '(Heap _ nss ps js) := Heap ms nss ps js.
Definition set_nsconns nss '(Heap ms _ ps js) := Heap ms nss ps js.
Definition set_promises ps '(Heap ms nss _ js) := Heap ms nss ps js.
Definition set_jobs js '(Heap ms nss ps _) := Heap ms nss ps js.

Definition set_sent s '(Io _ o c t f) := Io s o c t f.
Definition set_open o '(Io s _ c t f) := Io s o c t f.
Definition set_closes c '(Io s o _ t f) := Io s o c t f.
Definition set_ticks t '(Io s o c _ f) := Io s o c t f.
Definition set_fired f '(Io s o c t _) := Io s o c t f.

(** ** Objects *)

(** [new Message()] *)
Definition alloc_msg (m : message) : M msgref :=
  fun w => (Ret (length (h_msgs (w_heap w))), upd_heap (set_msgs (h_msgs (w_heap w) ++ [m])) w).

(** Reading through a reference: references always come from an allocation. *)
Definition get_msg (r : msgref) : M message :=
  gets (fun w => default new_Message (h_msgs (w_heap w) !! r)).
Definition upd_msg (r : msgref) (f : message -> message) : M unit :=
  modify (fun w => upd_heap (set_msgs (alter f r (h_msgs (w_heap w)))) w).

(** [new NSConn(conn, namespace, events)] *)
Definition new_NSConn (namespace : key) (evs : events) : M nsref :=
  fun w => (Ret (length (h_nsconns (w_heap w))),
            upd_heap (set_nsconns (h_nsconns (w_heap w) ++ [NS namespace evs jm_new])) w).
Definition get_ns (r : nsref) : M nsconn :=
  gets (fun w => default (NS None jm_new jm_new) (h_nsconns (w_heap w) !! r)).
Definition upd_rooms (r : nsref) (f : jmap key room -> jmap key room) : M unit :=
  modify (fun w => upd_heap (set_nsconns
    (alter (fun ns => NS (ns_namespace ns) (ns_events ns) (f (ns_rooms ns))) r
       (h_nsconns (w_heap w)))) w).

(** ** Promises *)

Definition new_promise : M pid :=
  fun w => (Ret (length (h_promises (w_heap w))),
            upd_heap (set_promises (h_promises (w_heap w) ++ [Pending []])) w).

Definition enqueue_job (j : await_point * settlement) (h : heap) : heap :=
  set_jobs (h_jobs h ++ [j]) h.

(** [resolve(v)] and [reject(e)]: only the first call has an effect; the
    functions awaiting the promise are queued. *)
Definition settle (p : pid) (s : settlement) : M unit := modify (fun w =>
  match h_promises (w_heap w) !! p with
  | Some (Pending awaits) =>
      upd_heap (fun h =>
        set_jobs (h_jobs h ++ map (fun a => (a, s)) awaits)
          (set_promises (<[p := Settled s]> (h_promises h)) h)) w
  | _ => w
  end).

(** [yield] a promise from an async function. *)
Definition await (p : pid) (a : await_point) : M unit := modify (fun w =>
  match h_promises (w_heap w) !! p with
  | Some (Pending awaits) =>
      upd_heap (fun h => set_promises (<[p := Pending (awaits ++ [a])]> (h_promises h)) h) w
  | Some (Settled s) => upd_heap (enqueue_job (a, s)) w
  | None => w
  end).

(** A throw inside the async function passed to [new Promise] rejects the async
    function's own promise, which nobody holds: the outer promise stays pending. *)
Definition swallow (m : M unit) : M unit := catch m (fun _ => mret tt).

(** ** Loops of the language *)

(** [Map.prototype.forEach] over the map [get] reads. *)
Fixpoint map_forEach {V} (fuel : nat) (get : M (jmap key V)) (body : key -> V -> M unit)
    (pos : nat) : M unit :=
  match fuel with
  | O => running
  | S f =>
      m ← get;
      match jm_from pos m with
      | None => mret tt
      | Some (i, (k, v)) => body k v;; map_forEach f get body (S i)
      end
  end.

(** [Array.prototype.forEach] over the array [get] reads: the indices below the
    initial length, those past the present end skipped. *)
Fixpoint array_forEach {A} (n : nat) (get : M (list A)) (body : A -> nat -> M unit)
    (index : nat) : M unit :=
  match n with
  | O => mret tt
  | S n' =>
      l ← get;
      match l !! index with
      | Some x => body x index
      | None => mret tt
      end;; array_forEach n' get body (S index)
  end.
