(* ===== verification/Conn.v ===== *)
(** neffos.js, the classes [Room], [NSConn] and [Conn]: every operation of the
    client, as it runs over the [World].

    Handlers, the clock and the fuel of [Map.forEach] are the environment's. An
    [async] function is split at its [await]: the part before it is the
    operation, the part after it is a case of [resume]. *)

From S2P Require Import Prelude JsVal JsMap Message World.

Class Env := {
  callback : handler -> nsref -> msgref -> M jsval;  (* running a user's handler *)
  clock_at : nat -> clock;                           (* the n-th reading of the clock *)
  fuel : nat
}.

Definition ErrInvalidPayload : jsval := JErr PlainError (js "invalid payload").
Definition ErrBadNamespace : jsval := JErr PlainError (js "bad namespace").
Definition ErrBadRoom : jsval := JErr PlainError (js "bad room").
Definition ErrClosed : jsval := JErr PlainError (js "use of closed connection").
Definition ErrWrite : jsval := JErr PlainError (js "write closed").

(** [s.indexOf(pat) >= 0] *)
Fixpoint contains (pat s : jsstr) : bool :=
  match strip pat s with
  | Some _ => true
  | None => match s with [] => false | _ :: s' => contains pat s' end
  end.

Definition isCloseError (err : jsval) : bool :=
  if truthy err && negb (isEmpty (err_message err)) then
    match err_message err with JStr m => contains (js "[-1] write closed") m | _ => false end
  else false.

Section client.
Context `{TextCodec} `{Env}.

(** ** Events *)

Definition fireEvent (ns : nsref) (msg : msgref) : M jsval :=
  nsc ← get_ns ns;
  m ← get_msg msg;
  modify (fun w => upd_io (set_fired (io_fired (w_io w) ++ [(ns, m)])) w);;
  match ns_events nsc !! Event m with
  | Some h => callback h ns msg
  | None =>
      match ns_events nsc !! Some OnAnyEvent with
      | Some h => callback h ns msg
      | None => mret JNull
      end
  end.

Definition getEvents (namespaces : jmap key events) (namespace : key) : option events :=
  if jm_has namespaces namespace then namespaces !! namespace else None.

(** ** Conn: writing *)

Definition isClosed : M bool := gets (fun w => c_closed (w_conn w)).

Definition namespace (n : key) : M (option nsref) :=
  gets (fun w => c_connectedNamespaces (w_conn w) !! n).

(** [this.conn.send(data)] on the WebSocket *)
Definition ws_send (data : jsval) : M unit :=
  modify (fun w => upd_io (set_sent (io_sent (w_io w) ++ [data])) w).
(** [this.conn.close()]: the socket leaves the OPEN state at once. *)
Definition ws_close : M unit :=
  modify (fun w => upd_io (fun i => set_open false (set_closes (S (io_closes i)) i)) w).

Definition write (msg : msgref) : M bool :=
  closed ← isClosed;
  if closed : bool then mret false
  else
    m ← get_msg msg;
    let send := data ← lift (serializeMessage m); ws_send data;; mret true in
    if negb (isConnect m) && negb (isDisconnect m) then
      ns ← namespace (Namespace m);
      match ns with
      | None => mret false
      | Some r =>
          if negb (isEmpty (of_key (Room m))) && negb (isRoomJoin m) && negb (isRoomLeft m) then
            nsc ← get_ns r;
            if jm_has (ns_rooms nsc) (Room m) then send else mret false
          else send
      end
    else send.

Definition writeEmptyReply (wait : key) : M unit :=
  ws_send (JStr (genEmptyReplyToWait (default [] wait))).

(** [ask]: the message's answer settles the promise, looked up by its token. *)
Definition ask (msg : msgref) : M pid :=
  p ← new_promise;
  catch (
    closed ← isClosed;
    if closed : bool then settle p (Reject ErrClosed)
    else
      n ← gets (fun w => io_ticks (w_io w));
      modify (upd_io (set_ticks (S n)));;
      let w := Some (genWait (clock_at n)) in
      upd_msg msg (set_wait w);;
      modify (fun st => upd_conn (set_waitingMessages (<[w := p]> (c_waitingMessages (w_conn st)))) st);;
      ok ← write msg;
      if ok : bool then mret tt else settle p (Reject ErrWrite))
    (fun e => settle p (Reject e));;
  mret p.

(** ** NSConn and Room *)

(** [new Message()] with the namespace of [ns], an event and a body. *)
Definition ns_message (ns : nsref) (event : key) (body : jsval) : M message :=
  nsc ← get_ns ns;
  mret (set_Body body (set_Event event (set_Namespace (ns_namespace nsc) new_Message))).

Definition NSConn_emit (ns : nsref) (event : key) (body : jsval) : M bool :=
  m ← ns_message ns event body;
  r ← alloc_msg m;
  write r.

Definition NSConn_emitBinary (ns : nsref) (event : key) (body : jsval) : M bool :=
  m ← ns_message ns event body;
  r ← alloc_msg (set_SetBinary true m);
  write r.

Definition NSConn_ask (ns : nsref) (event : key) (body : jsval) : M pid :=
  m ← ns_message ns event body;
  r ← alloc_msg m;
  ask r.

Definition Room_emit (rm : room) (event : key) (body : jsval) : M bool :=
  m ← ns_message (room_ns rm) event body;
  r ← alloc_msg (set_Room (room_name rm) m);
  write r.

Definition NSConn_room (ns : nsref) (roomName : key) : M (option room) :=
  nsc ← get_ns ns; mret (ns_rooms nsc !! roomName).

(** [askRoomLeave], up to its [await]. *)
Definition askRoomLeave (ns : nsref) (msg : msgref) : M pid :=
  out ← new_promise;
  catch (
    nsc ← get_ns ns;
    m ← get_msg msg;
    if jm_has (ns_rooms nsc) (Room m) then
      p ← ask msg;
      await p (AwaitLeave ns msg out)
    else settle out (Resolve (ResVal ErrBadRoom)))
    (fun e => settle out (Reject e));;
  mret out.

Definition Room_leave (rm : room) : M pid :=
  nsc ← get_ns (room_ns rm);
  r ← alloc_msg (set_Event (Some OnRoomLeave) (set_Room (room_name rm)
         (set_Namespace (ns_namespace nsc) new_Message)));
  askRoomLeave (room_ns rm) r.

Definition get_rooms (ns : nsref) : M (jmap key room) :=
  nsc ← get_ns ns; mret (ns_rooms nsc).

(** [leaveAll]: one message object for every room; the promises of the calls
    are dropped. *)
Definition leaveAll (ns : nsref) : M pid :=
  out ← new_promise;
  nsc ← get_ns ns;
  leaveMsg ← alloc_msg (set_IsLocal true (set_Event (Some OnRoomLeft)
                (set_Namespace (ns_namespace nsc) new_Message)));
  map_forEach fuel (get_rooms ns) (fun roomName _ =>
    upd_msg leaveMsg (set_Room roomName);;
    askRoomLeave ns leaveMsg;; mret tt) 0;;
  settle out (Resolve (ResVal JNull));;
  mret out.

Definition forceLeaveAll (ns : nsref) (isLocal : bool) : M unit :=
  nsc ← get_ns ns;
  leaveMsg ← alloc_msg (set_IsLocal isLocal (set_IsForced true
                (set_Event (Some OnRoomLeave) (set_Namespace (ns_namespace nsc) new_Message))));
  map_forEach fuel (get_rooms ns) (fun roomName _ =>
    upd_msg leaveMsg (set_Room roomName);;
    fireEvent ns leaveMsg;;
    upd_rooms ns (delete roomName);;
    upd_msg leaveMsg (set_Event (Some OnRoomLeft));;
    fireEvent ns leaveMsg;;
    upd_msg leaveMsg (set_Event (Some OnRoomLeave))) 0.

(** [askRoomJoin], up to its [await]. *)
Definition askRoomJoin (ns : nsref) (roomName : key) : M pid :=
  out ← new_promise;
  nsc ← get_ns ns;
  match ns_rooms nsc !! roomName with
  | Some room => settle out (Resolve (ResRoom room))
  | None =>
      joinMsg ← alloc_msg (set_IsLocal true (set_Event (Some OnRoomJoin) (set_Room roomName
                   (set_Namespace (ns_namespace nsc) new_Message))));
      p ← ask joinMsg;
      await p (AwaitJoin ns roomName joinMsg out)
  end;;
  mret out.

Definition joinRoom (ns : nsref) (roomName : key) : M pid :=
  out ← new_promise;
  p ← askRoomJoin ns roomName;
  await p (AwaitForward out);;
  mret out.

Definition replyRoomJoin (ns : nsref) (msg : msgref) : M unit :=
  m ← get_msg msg;
  if isEmpty (of_key (wait m)) || isNoOp m then mret tt
  else
    nsc ← get_ns ns;
    let finish := m ← get_msg msg; writeEmptyReply (wait m) in
    if jm_has (ns_rooms nsc) (Room m) then finish
    else
      err ← fireEvent ns msg;
      if negb (isEmpty err) then
        upd_msg msg (set_Err err);;
        write msg;; mret tt
      else
        m ← get_msg msg;
        upd_rooms ns (insert (Room m) (Room_ ns (Room m)));;
        upd_msg msg (set_Event (Some OnRoomJoined));;
        fireEvent ns msg;;
        finish.

Definition replyRoomLeave (ns : nsref) (msg : msgref) : M unit :=
  m ← get_msg msg;
  if isEmpty (of_key (wait m)) || isNoOp m then mret tt
  else
    nsc ← get_ns ns;
    if negb (jm_has (ns_rooms nsc) (Room m)) then writeEmptyReply (wait m)
    else
      fireEvent ns msg;;
      m ← get_msg msg;
      upd_rooms ns (delete (Room m));;
      writeEmptyReply (wait m);;
      upd_msg msg (set_Event (Some OnRoomLeft));;
      fireEvent ns msg;;
      mret tt.

(** ** Conn: namespaces *)

Definition upd_connected (f : jmap key nsref -> jmap key nsref) : M unit :=
  modify (fun w => upd_conn (set_connectedNamespaces (f (c_connectedNamespaces (w_conn w)))) w).

Definition replyConnect (msg : msgref) : M unit :=
  m ← get_msg msg;
  if isEmpty (of_key (wait m)) || isNoOp m then mret tt
  else
    ns ← namespace (Namespace m);
    match ns with
    | Some _ => writeEmptyReply (wait m)
    | None =>
        nss ← gets (fun w => c_namespaces (w_conn w));
        match getEvents nss (Namespace m) with
        | None =>
            upd_msg msg (set_Err ErrBadNamespace);;
            write msg;; mret tt
        | Some evs =>
            ns ← new_NSConn (Namespace m) evs;
            upd_connected (insert (Namespace m) ns);;
            writeEmptyReply (wait m);;
            upd_msg msg (set_Event (Some OnNamespaceConnected));;
            fireEvent ns msg;;
            m ← get_msg msg;
            notifiers ← gets (fun w => c_notifiers (w_conn w));
            match notifiers with
            | Some ns_notifiers =>
                if (0 <? jm_size ns_notifiers)%nat && jm_has ns_notifiers (Namespace m) then
                  match ns_notifiers !! Namespace m with
                  | Some p =>
                      modify (upd_conn (set_notifiers (Some (delete (Namespace m) ns_notifiers))));;
                      r ← namespace (Namespace m);
                      settle p (Resolve (ResNs r))
                  | None => mret tt
                  end
                else mret tt
            | None => mret tt
            end
        end
    end.

(** [waitServerConnect]: the promise is settled by [replyConnect]. *)
Definition waitServerConnect (n : key) : M pid :=
  p ← new_promise;
  modify (fun w => upd_conn (set_notifiers
    (Some (<[n := p]> (default jm_new (c_notifiers (w_conn w)))))) w);;
  mret p.

Definition replyDisconnect (msg : msgref) : M unit :=
  m ← get_msg msg;
  if isEmpty (of_key (wait m)) || isNoOp m then mret tt
  else
    ns ← namespace (Namespace m);
    match ns with
    | None => writeEmptyReply (wait m)
    | Some ns =>
        forceLeaveAll ns true;;
        m ← get_msg msg;
        upd_connected (delete (Namespace m));;
        writeEmptyReply (wait m);;
        fireEvent ns msg;; mret tt
    end.

(** [askConnect], up to its [await]. *)
Definition askConnect (n : key) : M pid :=
  out ← new_promise;
  swallow (
    ns ← namespace n;
    match ns with
    | Some ns => settle out (Resolve (ResNs (Some ns)))
    | None =>
        nss ← gets (fun w => c_namespaces (w_conn w));
        match getEvents nss n with
        | None => settle out (Reject ErrBadNamespace)
        | Some evs =>
            connectMessage ← alloc_msg (set_IsLocal true (set_Event (Some OnNamespaceConnect)
                                (set_Namespace n new_Message)));
            ns ← new_NSConn n evs;
            err ← fireEvent ns connectMessage;
            if negb (isEmpty err) then settle out (Reject err)
            else
              p ← ask connectMessage;
              await p (AwaitConnect n ns connectMessage out)
        end
    end);;
  mret out.

Definition connect (n : key) : M pid := askConnect n.

(** [askDisconnect], up to its [await]. *)
Definition askDisconnect (msg : msgref) : M pid :=
  out ← new_promise;
  m ← get_msg msg;
  ns ← namespace (Namespace m);
  match ns with
  | None => settle out (Resolve (ResVal ErrBadNamespace))
  | Some ns =>
      p ← ask msg;
      await p (AwaitDisconnect ns msg out)
  end;;
  mret out.

Definition NSConn_disconnect (ns : nsref) : M pid :=
  nsc ← get_ns ns;
  r ← alloc_msg (set_Event (Some OnNamespaceDisconnect)
         (set_Namespace (ns_namespace nsc) new_Message));
  askDisconnect r.

(** [joinedRooms.forEach(function (roomName) { newNSConn.joinRoom(roomName); })] *)
Definition join_all (ns : nsref) (rooms : list key) : M unit :=
  foldr (fun k m => joinRoom ns k;; m) (mret tt) rooms.

(** ** After an [await] *)

Definition resume (a : await_point) (s : settlement) : M unit :=
  match a with
  | AwaitJoin ns roomName joinMsg out =>
      match s with
      | Reject e => settle out (Reject e)
      | Resolve _ => swallow (
          err ← fireEvent ns joinMsg;
          if negb (isEmpty err) then settle out (Reject err)
          else
            let room := Room_ ns roomName in
            upd_rooms ns (insert roomName room);;
            upd_msg joinMsg (set_Event (Some OnRoomJoined));;
            fireEvent ns joinMsg;;
            settle out (Resolve (ResRoom room)))
      end
  | AwaitLeave ns msg out =>
      match s with
      | Reject e => settle out (Resolve (ResVal e))
      | Resolve _ => catch (
          err ← fireEvent ns msg;
          if negb (isEmpty err) then settle out (Resolve (ResVal err))
          else
            m ← get_msg msg;
            upd_rooms ns (delete (Room m));;
            upd_msg msg (set_Event (Some OnRoomLeft));;
            fireEvent ns msg;;
            settle out (Resolve (ResVal JNull)))
          (fun e => settle out (Reject e))
      end
  | AwaitConnect n ns connectMessage out =>
      match s with
      | Reject e => settle out (Reject e)
      | Resolve _ => swallow (
          upd_connected (insert n ns);;
          upd_msg connectMessage (set_Event (Some OnNamespaceConnected));;
          fireEvent ns connectMessage;;
          settle out (Resolve (ResNs (Some ns))))
      end
  | AwaitDisconnect ns msg out =>
      match s with
      | Reject e => settle out (Resolve (ResVal e))
      | Resolve _ => catch (
          forceLeaveAll ns true;;
          m ← get_msg msg;
          upd_connected (delete (Namespace m));;
          upd_msg msg (set_IsLocal true);;
          err ← fireEvent ns msg;
          settle out (Resolve (ResVal err)))
          (fun e => settle out (Reject e))
      end
  | AwaitForward out => settle out s
  | AwaitRejoin rooms =>
      match s with
      | Resolve (ResNs (Some ns)) => swallow (join_all ns rooms)
      | _ => mret tt
      end
  end.

(** ** Conn: incoming frames *)

Definition allowNativeMessages : M bool := gets (fun w =>
  let nss := c_namespaces (w_conn w) in
  match nss !! Some [] with
  | Some evs => jm_has evs (Some OnNativeMessage)
  | None => false
  end).

Definition handleMessage (data : frame) : M jsval :=
  allow ← allowNativeMessages;
  msg ← alloc_msg (deserializeMessage data allow);
  m ← get_msg msg;
  if isInvalid m then mret ErrInvalidPayload
  else if IsNative m && allow then
    ns_1 ← namespace (Some []);
    match ns_1 with
    | Some r => fireEvent r msg
    | None => lift (type_error (js "Cannot read properties of undefined (reading 'events')"))
    end
  else
    waiting ← gets (fun w => c_waitingMessages (w_conn w));
    match (if isWait m then waiting !! wait m else None) with
    | Some p =>
        settle p (if isError m then Reject (Err m) else Resolve (ResMsg msg));;
        mret JUndef
    | None =>
        ns ← namespace (Namespace m);
        let default_case :=
          match ns with
          | None => mret ErrBadNamespace
          | Some r =>
              upd_msg msg (set_IsLocal false);;
              err ← fireEvent r msg;
              if negb (isEmpty err) then
                upd_msg msg (set_Err err);;
                write msg;;
                mret err
              else mret JNull
          end in
        if Event m ==? Some OnNamespaceConnect then replyConnect msg;; mret JNull
        else if Event m ==? Some OnNamespaceDisconnect then replyDisconnect msg;; mret JNull
        else
          match ns with
          | Some r =>
              if Event m ==? Some OnRoomJoin then replyRoomJoin r msg;; mret JNull
              else if Event m ==? Some OnRoomLeave then replyRoomLeave r msg;; mret JNull
              else default_case
          | None => default_case
          end
    end.

Definition handleQueue : M unit :=
  q ← gets (fun w => c_queue (w_conn w));
  array_forEach (length q) (gets (fun w => c_queue (w_conn w))) (fun item index =>
    modify (fun w => upd_conn (set_queue
      (take index (c_queue (w_conn w)) ++ drop (S index) (c_queue (w_conn w)))) w);;
    handleMessage item;; mret tt) 0.

(** [data[0]] is the first unit of a text frame; an ArrayBuffer has none. *)
Definition handleAck (data : frame) : M jsval :=
  let queue_it :=
    modify (fun w => upd_conn (set_queue (c_queue (w_conn w) ++ [data])) w);; mret JNull in
  match data with
  | Text (typ :: rest) =>
      if [typ] ==? ackIDBinary then
        modify (upd_conn (set_ID (JStr rest)));; mret JUndef
      else if [typ] ==? ackNotOKBinary then mret (JErr PlainError rest)
      else queue_it
  | _ => queue_it
  end.

Definition handle (data : frame) : M jsval :=
  acked ← gets (fun w => c_isAcknowledged (w_conn w));
  if negb acked then
    err ← handleAck data;
    (if bool_decide (err ∈ [JUndef; JNull]) then
       modify (upd_conn (set_isAcknowledged true));; handleQueue
     else ws_close);;
    mret err
  else handleMessage data.

(** ** Closing *)

Definition close : M unit :=
  closed ← isClosed;
  if closed : bool then mret tt
  else
    disconnectMsg ← alloc_msg (set_IsLocal true (set_IsForced true
                       (set_Event (Some OnNamespaceDisconnect) new_Message)));
    map_forEach fuel (gets (fun w => c_connectedNamespaces (w_conn w))) (fun _ ns =>
      forceLeaveAll ns true;;
      nsc ← get_ns ns;
      upd_msg disconnectMsg (set_Namespace (ns_namespace nsc));;
      fireEvent ns disconnectMsg;;
      upd_connected (delete (ns_namespace nsc))) 0;;
    modify (fun w => upd_conn (set_waitingMessages (jm_clear (c_waitingMessages (w_conn w)))) w);;
    modify (upd_conn (set_closed true));;
    open ← gets (fun w => io_open (w_io w));
    if open : bool then ws_close else mret tt.

(** ** The event loop *)

(** One promise job. *)
Definition run_job : M unit :=
  jobs ← gets (fun w => h_jobs (w_heap w));
  match jobs with
  | [] => mret tt
  | (a, s) :: rest => modify (upd_heap (set_jobs rest));; resume a s
  end.

(** The jobs run to exhaustion between two events; [n] bounds their number. *)
Fixpoint run_jobs (n : nat) : M unit :=
  jobs ← gets (fun w => h_jobs (w_heap w));
  match jobs, n with
  | [], _ => mret tt
  | _, O => running
  | _, S n' => catch run_job (fun _ => mret tt);; run_jobs n'
  end.
End client.

(** The constructor. *)
Definition new_Conn (namespaces : jmap key events) (reconnectTries : Z) : conn :=
  Connection false JUndef [] jm_new jm_new false None namespaces reconnectTries.

Definition wasReconnected (c : conn) : bool := 0 <? c_reconnectTries c.
