(* ===== verification/ConnInv.v ===== *)
(** The client's invariant, and that every operation keeps it whatever the
    user's handlers do, as long as they act through the client's operations. *)

From S2P Require Import Prelude JsVal JsMap Message World Conn.

(** ** What never goes back

    Histories only grow; the connection is acknowledged once and closed once; a
    namespace connection keeps its name and its handlers; a settled promise
    stays as it is. *)
Record ext (w w' : world) : Prop := {
  ext_namespaces : c_namespaces (w_conn w') = c_namespaces (w_conn w);
  ext_ack : c_isAcknowledged (w_conn w) = true -> c_isAcknowledged (w_conn w') = true;
  ext_closed : c_closed (w_conn w) = true -> c_closed (w_conn w') = true;
  ext_nsconns r nsc : h_nsconns (w_heap w) !! r = Some nsc ->
    exists nsc', h_nsconns (w_heap w') !! r = Some nsc' /\
      ns_namespace nsc' = ns_namespace nsc /\ ns_events nsc' = ns_events nsc;
  ext_promises p s : h_promises (w_heap w) !! p = Some (Settled s) ->
    h_promises (w_heap w') !! p = Some (Settled s);
  ext_sent : io_sent (w_io w) `prefix_of` io_sent (w_io w');
  ext_fired : io_fired (w_io w) `prefix_of` io_fired (w_io w')
}.

#[global] Instance ext_preorder : PreOrder ext.
Proof.
  split.
  - intros w. split; eauto.
  - intros w1 w2 w3 [] []. split; try (by etrans); eauto; try congruence.
    intros r nsc (nsc2 & E2 & ? & ?)%ext_nsconns0.
    apply ext_nsconns1 in E2 as (nsc3 & E3 & ? & ?). exists nsc3. intuition congruence.
Qed.

Lemma ext_refl w : ext w w.
Proof. reflexivity. Qed.

(** ** The invariant *)

(** [r] is a namespace connection for [n], with the handlers registered for [n]. *)
Definition ns_for (w : world) (n : key) (r : nat) : Prop :=
  exists nsc, h_nsconns (w_heap w) !! r = Some nsc /\ ns_namespace nsc = n /\
    c_namespaces (w_conn w) !! n = Some (ns_events nsc).

(** A suspended [askConnect] holds a namespace connection for its namespace. *)
Definition await_ok (w : world) (a : await_point) : Prop :=
  match a with AwaitConnect n ns _ _ => ns_for w n ns | _ => True end.

Record Inv (w : world) : Prop := {
  inv_connected_wf : jm_wf (c_connectedNamespaces (w_conn w));
  inv_connected n r : c_connectedNamespaces (w_conn w) !! n = Some r -> ns_for w n r;
  inv_waiting_wf : jm_wf (c_waitingMessages (w_conn w));
  inv_rooms_wf r nsc : h_nsconns (w_heap w) !! r = Some nsc -> jm_wf (ns_rooms nsc);
  inv_rooms r nsc k rm : h_nsconns (w_heap w) !! r = Some nsc ->
    ns_rooms nsc !! k = Some rm -> rm = Room_ r k;
  inv_pending p awaits : h_promises (w_heap w) !! p = Some (Pending awaits) ->
    Forall (await_ok w) awaits;
  inv_jobs : Forall (fun j => await_ok w j.1) (h_jobs (w_heap w));
  inv_queue : c_queue (w_conn w) = []
}.

Lemma ns_for_ext w w' n r : ext w w' -> ns_for w n r -> ns_for w' n r.
Proof.
  intros Hx (nsc & E & Hn & He). destruct (ext_nsconns _ _ Hx _ _ E) as (nsc' & E' & H1 & H2).
  exists nsc'. rewrite (ext_namespaces _ _ Hx). intuition congruence.
Qed.

Lemma await_ok_ext w w' a : ext w w' -> await_ok w a -> await_ok w' a.
Proof. destruct a; simpl; eauto using ns_for_ext. Qed.

(** ** A program logic for the monad *)

(** Run from a good world, [m] keeps the invariant, undoes nothing, and a value
    it returns satisfies [Q]. *)
Definition wp {A} (m : M A) (w : world) (Q : A -> world -> Prop) : Prop :=
  Inv w -> Inv (m w).2 /\ ext w (m w).2 /\ forall a, (m w).1 = Ret a -> Q a (m w).2.

Section wp.
Context {A B : Type}.

Lemma wp_ret (a : A) w (Q : A -> world -> Prop) : Q a w -> wp (mret a) w Q.
Proof. intros HQ Hi. split; [done|]. split; [reflexivity|]. by intros ? [= ->]. Qed.

Lemma wp_bind (m : M A) (f : A -> M B) w Q :
  wp m w (fun a w' => ext w w' -> wp (f a) w' Q) -> wp (m ≫= f) w Q.
Proof.
  intros Hm Hi. destruct (Hm Hi) as (Hi' & Hx & HQ). unfold mbind, M_bind.
  destruct (m w) as [[a|e|] w'] eqn:E; simpl in *; [|done..].
  destruct (HQ a eq_refl Hx Hi') as (? & Hx' & ?). split; [done|]. split; [by etrans|done].
Qed.

Lemma wp_seq (m : M A) (f : A -> M B) w Q :
  wp m w (fun _ _ => True) -> (forall a w', ext w w' -> wp (f a) w' Q) -> wp (m ≫= f) w Q.
Proof. intros Hm Hf. apply wp_bind. intros Hi. destruct (Hm Hi) as (? & ? & ?). eauto. Qed.

Lemma wp_mono (m : M A) w (Q Q' : A -> world -> Prop) :
  wp m w Q -> (forall a w', ext w w' -> Q a w' -> Q' a w') -> wp m w Q'.
Proof. intros Hm HQ Hi. destruct (Hm Hi) as (? & ? & ?). eauto. Qed.

Lemma wp_weaken (m : M A) w Q : wp m w Q -> wp m w (fun _ _ => True).
Proof. intros H. by eapply wp_mono. Qed.

Lemma wp_gets (f : world -> A) w Q : Q (f w) w -> wp (gets f) w Q.
Proof. intros HQ Hi. split; [done|]. split; [reflexivity|]. by intros ? [= <-]. Qed.

Lemma wp_lift (o : outcome A) w (Q : A -> world -> Prop) :
  (forall a, o = Ret a -> Q a w) -> wp (lift o) w Q.
Proof. intros HQ Hi. split; [done|]. split; [reflexivity|]. intros a Ha. by apply HQ. Qed.

Lemma wp_running w (Q : A -> world -> Prop) : wp running w Q.
Proof. intros Hi. split; [done|]. by split; [reflexivity|]. Qed.

Lemma wp_catch (m : M A) h w Q :
  wp m w Q -> (forall e w', ext w w' -> wp (h e) w' Q) -> wp (catch m h) w Q.
Proof.
  intros Hm Hh Hi. destruct (Hm Hi) as (Hi' & Hx & HQ). unfold catch.
  destruct (m w) as [[a|e|] w'] eqn:E; simpl in *; [by auto| |by auto].
  destruct (Hh e w' Hx Hi') as (? & ? & ?). split; [done|]. split; [by etrans|done].
Qed.
End wp.

Lemma wp_modify f w Q : (Inv w -> Inv (f w) /\ ext w (f w)) -> Q tt (f w) -> wp (modify f) w Q.
Proof. intros Hf HQ Hi. destruct (Hf Hi). split; [done|]. split; [done|]. by intros [] _. Qed.

Lemma wp_swallow m w : wp m w (fun _ _ => True) -> wp (swallow m) w (fun _ _ => True).
Proof. intros Hm. apply wp_catch; [done|]. intros. by apply wp_ret. Qed.


(** ** Primitive updates *)

(** A step keeps the invariant when what it adds satisfies it. *)
Lemma Inv_step w w' :
  ext w w' -> Inv w ->
  (jm_wf (c_connectedNamespaces (w_conn w)) -> jm_wf (c_connectedNamespaces (w_conn w'))) ->
  (forall n r, c_connectedNamespaces (w_conn w') !! n = Some r ->
     c_connectedNamespaces (w_conn w) !! n = Some r \/ ns_for w' n r) ->
  (jm_wf (c_waitingMessages (w_conn w)) -> jm_wf (c_waitingMessages (w_conn w'))) ->
  c_queue (w_conn w') = c_queue (w_conn w) ->
  (forall r nsc, h_nsconns (w_heap w') !! r = Some nsc ->
     h_nsconns (w_heap w) !! r = Some nsc \/
     jm_wf (ns_rooms nsc) /\ forall k rm, ns_rooms nsc !! k = Some rm -> rm = Room_ r k) ->
  (forall p aw, h_promises (w_heap w') !! p = Some (Pending aw) ->
     h_promises (w_heap w) !! p = Some (Pending aw) \/ Forall (await_ok w') aw) ->
  (forall j, j ∈ h_jobs (w_heap w') -> j ∈ h_jobs (w_heap w) \/ await_ok w' j.1) ->
  Inv w'.
Proof.
  intros Hx [] Hcw Hc Hww Hq Hs Hp Hj. split; auto.
  - intros n r [?|?]%Hc; eauto using ns_for_ext.
  - intros r nsc [?|[? _]]%Hs; eauto.
  - intros r nsc k rm [?|[_ ?]]%Hs; eauto.
  - intros p aw [E|?]%Hp; [|done]. apply inv_pending0 in E. eapply Forall_impl; [|done].
    eauto using await_ok_ext.
  - apply Forall_forall. intros j [Hin|?]%list_elem_of_In%Hj; [|done].
    rewrite Forall_forall in inv_jobs0. apply list_elem_of_In, inv_jobs0 in Hin.
    by eapply await_ok_ext.
  - congruence.
Qed.

Lemma ext_frame w w' :
  c_namespaces (w_conn w') = c_namespaces (w_conn w) ->
  (c_isAcknowledged (w_conn w) = true -> c_isAcknowledged (w_conn w') = true) ->
  (c_closed (w_conn w) = true -> c_closed (w_conn w') = true) ->
  h_nsconns (w_heap w') = h_nsconns (w_heap w) ->
  h_promises (w_heap w') = h_promises (w_heap w) ->
  io_sent (w_io w) `prefix_of` io_sent (w_io w') ->
  io_fired (w_io w) `prefix_of` io_fired (w_io w') -> ext w w'.
Proof. intros Hn Ha Hc Hs Hp ??. split; rewrite ?Hs, ?Hp; eauto. Qed.

(** Destructs the records of a world, so that its fields compute. *)
Ltac split_world w := destruct w as [[ack id queue waiting conns closed notifiers nss tries]
    [msgs objs promises jobs] [sent open closes ticks fired]]; simpl in *.

(** A step given as a function on worlds. *)
Lemma wp_intro {A} (m : M A) w Q :
  ext w (m w).2 -> (Inv w -> Inv (m w).2) -> (Inv w -> forall a, (m w).1 = Ret a -> Q a (m w).2) ->
  wp m w Q.
Proof. intros H1 H2 H3 Hi. eauto. Qed.

Section updates.
Implicit Types w : world.

Lemma wp_alloc_msg m w : wp (alloc_msg m) w (fun _ _ => True).
Proof.
  assert (Hx : ext w (alloc_msg m w).2) by (split_world w; by apply ext_frame).
  apply wp_intro; [done| |done]. intros Hi. eapply Inv_step; [done..| | | | | | | ]; split_world w; auto.
Qed.

Lemma wp_upd_msg r f w : wp (upd_msg r f) w (fun _ _ => True).
Proof.
  assert (Hx : ext w (upd_msg r f w).2) by (split_world w; by apply ext_frame).
  apply wp_intro; [done| |done]. intros Hi. eapply Inv_step; [done..| | | | | | | ]; split_world w; auto.
Qed.

(** An update of the socket's side keeps everything. *)
Lemma wp_upd_io f w :
  io_sent (w_io w) `prefix_of` io_sent (f (w_io w)) ->
  io_fired (w_io w) `prefix_of` io_fired (f (w_io w)) ->
  wp (modify (upd_io f)) w (fun _ _ => True).
Proof.
  intros H1 H2. assert (Hx : ext w (upd_io f w)) by (by apply ext_frame).
  apply wp_modify; [|done]. intros Hi. split; [|done]. eapply Inv_step; try done; auto.
Qed.

(** An update of the connection outside its namespaces. *)
Lemma wp_upd_conn f w :
  c_connectedNamespaces (f (w_conn w)) = c_connectedNamespaces (w_conn w) ->
  c_namespaces (f (w_conn w)) = c_namespaces (w_conn w) ->
  (c_isAcknowledged (w_conn w) = true -> c_isAcknowledged (f (w_conn w)) = true) ->
  (c_closed (w_conn w) = true -> c_closed (f (w_conn w)) = true) ->
  c_queue (f (w_conn w)) = c_queue (w_conn w) ->
  (jm_wf (c_waitingMessages (w_conn w)) -> jm_wf (c_waitingMessages (f (w_conn w)))) ->
  wp (modify (upd_conn f)) w (fun _ _ => True).
Proof.
  intros Hn Hs Ha Hc Hq Hw. assert (Hx : ext w (upd_conn f w)) by (by apply ext_frame).
  apply wp_modify; [|done]. intros Hi. split; [|done].
  eapply Inv_step; try done; simpl; rewrite ?Hn; auto.
Qed.

Lemma wp_new_NSConn n evs w :
  wp (new_NSConn n evs) w
    (fun r w' => c_namespaces (w_conn w) !! n = Some evs -> ns_for w' n r).
Proof.
  assert (Hx : ext w (new_NSConn n evs w).2).
  { split_world w. split; simpl; try done. intros r nsc E. exists nsc. split; [|done].
    by apply lookup_app_l_Some. }
  apply wp_intro; [done| |].
  - intros Hi. eapply Inv_step; [done..| | | | | | | ]; split_world w; auto.
    intros r nsc [?|[? [? ?]%list_lookup_singleton_Some]]%lookup_app_Some; [auto|].
    subst. right. split; [apply jm_wf_new|done].
  - intros _ r [= <-] E. split_world w. exists (NS n evs jm_new). split; [|by split].
    simpl. by rewrite lookup_app_r, Nat.sub_diag by lia.
Qed.

Lemma wp_upd_rooms r f w :
  (forall m, jm_wf m -> jm_wf (f m)) ->
  (forall m k rm, f m !! k = Some rm -> m !! k = Some rm \/ rm = Room_ r k) ->
  wp (upd_rooms r f) w (fun _ _ => True).
Proof.
  intros Hf Hr. assert (Hx : ext w (upd_rooms r f w).2).
  { split_world w. split; simpl; try done. intros i nsc E.
    rewrite list_lookup_alter. case_decide; subst; rewrite ?E; simpl; eauto. }
  apply wp_intro; [done| |done]. intros Hi. eapply Inv_step; [done..| | | | | | | ];
    split_world w; auto. intros i nsc. rewrite list_lookup_alter.
  case_decide as Hd; [subst i|auto]. destruct (objs !! r) as [nsc0|] eqn:E;
    intros [= <-]. right. simpl. destruct Hi. split; [eauto|].
  intros k rm [?|?]%Hr; eauto.
Qed.

Lemma wp_new_promise w : wp new_promise w (fun _ _ => True).
Proof.
  assert (Hx : ext w (new_promise w).2).
  { split_world w. split; simpl; eauto. intros. by apply lookup_app_l_Some. }
  apply wp_intro; [done| |done]. intros Hi. eapply Inv_step; [done..| | | | | | | ];
    split_world w; auto.
  intros p aw [?|[? [? [= <-]]%list_lookup_singleton_Some]]%lookup_app_Some; auto.
Qed.

Lemma wp_settle p s w : wp (settle p s) w (fun _ _ => True).
Proof.
  destruct (h_promises (w_heap w) !! p) as [[aw|]|] eqn:E.
  2,3: unfold settle, wp, modify; simpl; rewrite E; eauto using ext_refl.
  assert (Hx : ext w (settle p s w).2).
  { unfold settle, modify. split_world w. rewrite E. split; simpl; eauto. intros q t Eq.
    rewrite list_lookup_insert_ne; [done|]. intros ->. congruence. }
  apply wp_intro; [done| |done]. revert Hx. unfold settle, modify. split_world w. rewrite E.
  intros Hx Hi. eapply Inv_step; [done..| | | | | | | ]; simpl; auto.
  - intros q aw'. rewrite list_lookup_insert. case_decide; [naive_solver|auto].
  - intros j [?|Hj]%elem_of_app; [auto|].
    right. apply list_elem_of_fmap in Hj as (a & -> & Ha).
    destruct Hi. eapply await_ok_ext; [done|]. simpl in *.
    specialize (inv_pending0 _ _ E). rewrite Forall_forall in inv_pending0.
    by apply inv_pending0, list_elem_of_In.
Qed.

Lemma wp_await p a w : await_ok w a -> wp (await p a) w (fun _ _ => True).
Proof.
  intros Ha. destruct (h_promises (w_heap w) !! p) as [[aw|t]|] eqn:E.
  3: unfold await, wp, modify; simpl; rewrite E; eauto using ext_refl.
  - assert (Hx : ext w (await p a w).2).
    { unfold await, modify. split_world w. rewrite E. split; simpl; eauto. intros q t Eq.
      rewrite list_lookup_insert_ne; [done|]. intros ->. congruence. }
    apply wp_intro; [done| |done]. revert Ha Hx. unfold await, modify. split_world w. rewrite E.
    intros Ha Hx Hi. eapply Inv_step; [done..| | | | | | | ]; simpl; auto.
    intros q aw'. rewrite list_lookup_insert. case_decide; [|auto].
    intros [= <-]. subst. right. destruct Hi. apply Forall_app; split.
    + eapply Forall_impl; [|by eapply inv_pending0]. eauto using await_ok_ext.
    + constructor; eauto using await_ok_ext.
  - assert (Hx : ext w (await p a w).2).
    { unfold await, modify. split_world w. rewrite E. by apply ext_frame. }
    apply wp_intro; [done| |done]. revert Ha Hx. unfold await, modify. split_world w. rewrite E.
    intros Ha Hx Hi. eapply Inv_step; [done..| | | | | | | ]; simpl; auto.
    intros j [?|Hj]%elem_of_app; [auto|]. apply list_elem_of_singleton in Hj as ->.
    eauto using await_ok_ext.
Qed.

Lemma wp_connected_insert n r w :
  ns_for w n r -> wp (upd_connected (insert n r)) w (fun _ _ => True).
Proof.
  intros Hn. assert (Hx : ext w (upd_connected (insert n r) w).2) by (split_world w; by apply ext_frame).
  apply wp_intro; [done| |done]. intros Hi.
  eapply Inv_step; [done..| | | | | | | ]; try (split_world w; by auto).
  - split_world w. auto with ws.
  - intros n' r'. assert (ns_for (upd_connected (insert n r) w).2 n r) by eauto using ns_for_ext.
    split_world w. rewrite jm_lookup_insert. case_decide; naive_solver.
Qed.

Lemma wp_connected_delete n w : wp (upd_connected (delete n)) w (fun _ _ => True).
Proof.
  assert (Hx : ext w (upd_connected (delete n) w).2) by (split_world w; by apply ext_frame).
  apply wp_intro; [done| |done]. intros Hi.
  eapply Inv_step; [done..| | | | | | | ]; split_world w; auto with ws.
  intros n' r'. rewrite jm_lookup_delete. case_decide; [done|auto].
Qed.
End updates.

(** ** The first frame *)

Section first.
Context `{TextCodec} `{Env}.
Implicit Types w : world.

(** With nothing queued, the frame that acknowledges a connection is queued
    and at once taken from the queue again. *)
Definition first_frame (data : frame) : M jsval :=
  match data with
  | Text (65 :: rest) =>
      modify (upd_conn (set_ID (JStr rest)));; modify (upd_conn (set_isAcknowledged true));;
      mret JUndef
  | Text (72 :: rest) => ws_close;; mret (JErr PlainError rest)
  | _ => modify (upd_conn (set_isAcknowledged true));; handleMessage data;; mret JNull
  end.

Lemma handleQueue_one d w :
  c_queue (w_conn w) = [d] ->
  handleQueue w = (handleMessage d;; mret tt) (upd_conn (set_queue []) w).
Proof.
  intros Hq. split_world w. subst. unfold handleQueue, array_forEach, gets, modify, mbind, M_bind, mret, M_ret.
  simpl. by destruct (handleMessage d _) as [[]].
Qed.

Lemma handle_queued data w :
  c_isAcknowledged (w_conn w) = false -> c_queue (w_conn w) = [] ->
  handleAck data = (modify (fun w => upd_conn (set_queue (c_queue (w_conn w) ++ [data])) w);; mret JNull) ->
  handle data w =
    (modify (upd_conn (set_isAcknowledged true));; handleMessage data;; mret JNull) w.
Proof.
  intros Ha Hq Hd. unfold handle. rewrite Hd. unfold gets, modify, mbind, M_bind, mret, M_ret. rewrite Ha.
  rewrite bool_decide_true by set_solver. simpl.
  rewrite (handleQueue_one data) by (split_world w; by subst).
  split_world w. subst. unfold mbind, M_bind, mret, M_ret. by destruct (handleMessage data _) as [[]].
Qed.

Lemma handle_unacknowledged data w :
  c_isAcknowledged (w_conn w) = false -> c_queue (w_conn w) = [] ->
  handle data w = first_frame data w.
Proof.
  intros Ha Hq.
  assert (Hdec : handleAck data = (modify (fun w => upd_conn (set_queue (c_queue (w_conn w) ++ [data])) w);; mret JNull)
       /\ first_frame data = (modify (upd_conn (set_isAcknowledged true));; handleMessage data;; mret JNull)
    \/ (exists rest, data = Text (65 :: rest)) \/ (exists rest, data = Text (72 :: rest))).
  { destruct data as [[|c rest]|]; [by left| |by left].
    destruct (decide (c = 65)) as [->|H65]; [eauto|].
    destruct (decide (c = 72)) as [->|H72]; [eauto|]. left. split.
    - unfold handleAck. rewrite !bool_decide_false by (cbv; congruence). done.
    - unfold first_frame. repeat case_match; congruence. }
  destruct Hdec as [[Hdec ->]|[[rest ->]|[rest ->]]]; [by apply handle_queued|..];
    split_world w; by subst.
Qed.
End first.

(** ** The operations keep the invariant *)

(** Handlers act through the client's operations, so that they keep the
    invariant too. *)
Class EnvOk `{Env} := callback_ok h ns msg w : wp (callback h ns msg) w (fun _ _ => True).

Create HintDb wp.
#[export] Hint Resolve wp_alloc_msg wp_upd_msg wp_new_promise wp_settle wp_connected_delete : wp.
#[export] Hint Resolve ext_refl ns_for_ext : wp.

(** One step of a proof of [wp]: the program's head decides. *)
Ltac wp_step :=
  lazymatch goal with
  | |- wp (mret _) _ _ => apply wp_ret; try done
  | |- wp (gets _ ≫= _) _ _ => apply wp_bind, wp_gets; intros _
  | |- wp (_ ≫= _) _ _ => eapply wp_seq; [|intros ? ? ?]
  | |- wp (gets _) _ _ => apply wp_gets; try done
  | |- wp (lift _) _ _ => apply wp_lift; try done
  | |- wp running _ _ => apply wp_running
  | |- wp (swallow _) _ _ => apply wp_swallow
  | |- wp (catch _ _) _ _ => apply wp_catch; [|intros ? ? ?]
  | |- wp (if ?b then _ else _) _ _ => destruct b eqn:?
  | |- wp (match getEvents _ _ with _ => _ end) _ _ => fail
  | |- wp (match ?x with _ => _ end) _ _ => destruct x eqn:?
  | |- wp (let _ := _ in _) _ _ => cbv zeta
  end.
Ltac wp_go := repeat first [by eauto with wp | wp_step].

Section operations.
Context `{TextCodec} `{EnvOk}.
Implicit Types w : world.

Lemma wp_get_ns r w : wp (get_ns r) w (fun _ _ => True).
Proof. unfold get_ns. wp_go. Qed.
Lemma wp_get_msg r w : wp (get_msg r) w (fun _ _ => True).
Proof. unfold get_msg. wp_go. Qed.
Hint Resolve wp_get_ns wp_get_msg : wp.

Lemma wp_callback h ns msg w : wp (callback h ns msg) w (fun _ _ => True).
Proof. apply callback_ok. Qed.
Hint Resolve wp_callback : wp.

Lemma wp_fired ns m w :
  wp (modify (fun w => upd_io (set_fired (io_fired (w_io w) ++ [(ns, m)])) w)) w (fun _ _ => True).
Proof.
  apply (wp_upd_io (set_fired (io_fired (w_io w) ++ [(ns, m)])));
    destruct w as [? ? []]; [done|by apply prefix_app_r].
Qed.
Hint Resolve wp_fired : wp.

Lemma wp_fireEvent ns msg w : wp (fireEvent ns msg) w (fun _ _ => True).
Proof. unfold fireEvent. wp_go. Qed.
Hint Resolve wp_fireEvent : wp.

(** *** Loops *)

Lemma wp_map_forEach {V} n (get : M (jmap key V)) body pos w :
  (forall w, wp get w (fun _ _ => True)) ->
  (forall k v w, wp (body k v) w (fun _ _ => True)) ->
  wp (map_forEach n get body pos) w (fun _ _ => True).
Proof.
  intros Hg Hb. revert pos w. induction n as [|n IH]; intros pos w; simpl; wp_go.
Qed.

(** *** Writing and asking *)

Lemma wp_isClosed w : wp isClosed w (fun _ _ => True).
Proof. unfold isClosed. wp_go. Qed.
Lemma wp_namespace n w : wp (namespace n) w (fun o w' => forall r, o = Some r -> ns_for w' n r).
Proof.
  unfold namespace. intros Hi. split; [done|]. split; [reflexivity|]. intros ? [= <-] r Hr.
  by apply Hi.
Qed.
Lemma wp_namespace_any n w : wp (namespace n) w (fun _ _ => True).
Proof. eapply wp_weaken, wp_namespace. Qed.
Lemma wp_ws_send d w : wp (ws_send d) w (fun _ _ => True).
Proof.
  apply (wp_upd_io (set_sent (io_sent (w_io w) ++ [d])));
    destruct w as [? ? []]; [by apply prefix_app_r|done].
Qed.
Lemma wp_ws_close w : wp ws_close w (fun _ _ => True).
Proof.
  apply (wp_upd_io (fun i => set_open false (set_closes (S (io_closes i)) i)));
    by destruct w as [? ? []].
Qed.
Lemma wp_ticks n w : wp (modify (upd_io (set_ticks n))) w (fun _ _ => True).
Proof. apply wp_upd_io; by destruct w as [? ? []]. Qed.
Hint Resolve wp_isClosed wp_namespace_any wp_ws_send wp_ws_close wp_ticks : wp.

Lemma wp_write msg w : wp (write msg) w (fun _ _ => True).
Proof. unfold write. wp_go. Qed.
Lemma wp_writeEmptyReply k w : wp (writeEmptyReply k) w (fun _ _ => True).
Proof. unfold writeEmptyReply. wp_go. Qed.
Hint Resolve wp_write wp_writeEmptyReply : wp.

Lemma wp_waiting f w :
  (forall m, jm_wf m -> jm_wf (f m)) ->
  wp (modify (fun w => upd_conn (set_waitingMessages (f (c_waitingMessages (w_conn w)))) w)) w
    (fun _ _ => True).
Proof.
  intros Hf. apply (wp_upd_conn (set_waitingMessages (f (c_waitingMessages (w_conn w)))));
    destruct w as [[] ? ?]; simpl; auto.
Qed.
Lemma wp_waiting_insert k p w :
  wp (modify (fun w => upd_conn (set_waitingMessages (<[k:=p]> (c_waitingMessages (w_conn w)))) w)) w
    (fun _ _ => True).
Proof. apply wp_waiting. auto with ws. Qed.
Hint Resolve wp_waiting_insert : wp.

Lemma wp_ask msg w : wp (ask msg) w (fun _ _ => True).
Proof. unfold ask. wp_go. Qed.
Hint Resolve wp_ask : wp.

(** *** Namespace connections and rooms *)

Lemma wp_ns_message ns e b w : wp (ns_message ns e b) w (fun _ _ => True).
Proof. unfold ns_message. wp_go. Qed.
Hint Resolve wp_ns_message : wp.
Lemma wp_NSConn_emit ns e b w : wp (NSConn_emit ns e b) w (fun _ _ => True).
Proof. unfold NSConn_emit. wp_go. Qed.
Lemma wp_NSConn_emitBinary ns e b w : wp (NSConn_emitBinary ns e b) w (fun _ _ => True).
Proof. unfold NSConn_emitBinary. wp_go. Qed.
Lemma wp_NSConn_ask ns e b w : wp (NSConn_ask ns e b) w (fun _ _ => True).
Proof. unfold NSConn_ask. wp_go. Qed.
Lemma wp_Room_emit rm e b w : wp (Room_emit rm e b) w (fun _ _ => True).
Proof. unfold Room_emit. wp_go. Qed.
Hint Resolve wp_NSConn_emit wp_NSConn_emitBinary wp_NSConn_ask wp_Room_emit : wp.

Lemma wp_await_leave p ns msg out w : wp (await p (AwaitLeave ns msg out)) w (fun _ _ => True).
Proof. by apply wp_await. Qed.
Lemma wp_await_join p ns k msg out w : wp (await p (AwaitJoin ns k msg out)) w (fun _ _ => True).
Proof. by apply wp_await. Qed.
Lemma wp_await_disconnect p ns msg out w :
  wp (await p (AwaitDisconnect ns msg out)) w (fun _ _ => True).
Proof. by apply wp_await. Qed.
Lemma wp_await_forward p out w : wp (await p (AwaitForward out)) w (fun _ _ => True).
Proof. by apply wp_await. Qed.
Hint Resolve wp_await_leave wp_await_join wp_await_disconnect wp_await_forward : wp.

Lemma wp_rooms_delete ns k w : wp (upd_rooms ns (delete k)) w (fun _ _ => True).
Proof.
  apply wp_upd_rooms; [auto with ws|]. intros m k' rm. rewrite jm_lookup_delete.
  case_decide; auto. done.
Qed.
Lemma wp_rooms_insert ns k w : wp (upd_rooms ns (insert k (Room_ ns k))) w (fun _ _ => True).
Proof.
  apply wp_upd_rooms; [auto with ws|]. intros m k' rm. rewrite jm_lookup_insert.
  case_decide; naive_solver.
Qed.
Hint Resolve wp_rooms_delete wp_rooms_insert : wp.

Lemma wp_askRoomLeave ns msg w : wp (askRoomLeave ns msg) w (fun _ _ => True).
Proof. unfold askRoomLeave. wp_go. Qed.
Hint Resolve wp_askRoomLeave : wp.
Lemma wp_Room_leave rm w : wp (Room_leave rm) w (fun _ _ => True).
Proof. unfold Room_leave. wp_go. Qed.
Lemma wp_get_rooms ns w : wp (get_rooms ns) w (fun _ _ => True).
Proof. unfold get_rooms. wp_go. Qed.
Hint Resolve wp_get_rooms wp_Room_leave : wp.
Lemma wp_leaveAll ns w : wp (leaveAll ns) w (fun _ _ => True).
Proof. unfold leaveAll. wp_go. apply wp_map_forEach; intros; wp_go. Qed.
Lemma wp_forceLeaveAll ns b w : wp (forceLeaveAll ns b) w (fun _ _ => True).
Proof. unfold forceLeaveAll. wp_go. apply wp_map_forEach; intros; wp_go. Qed.
Lemma wp_askRoomJoin ns k w : wp (askRoomJoin ns k) w (fun _ _ => True).
Proof. unfold askRoomJoin. wp_go. Qed.
Hint Resolve wp_askRoomJoin wp_forceLeaveAll wp_leaveAll : wp.
Lemma wp_joinRoom ns k w : wp (joinRoom ns k) w (fun _ _ => True).
Proof. unfold joinRoom. wp_go. Qed.
Lemma wp_replyRoomJoin ns msg w : wp (replyRoomJoin ns msg) w (fun _ _ => True).
Proof. unfold replyRoomJoin. wp_go. Qed.
Lemma wp_replyRoomLeave ns msg w : wp (replyRoomLeave ns msg) w (fun _ _ => True).
Proof. unfold replyRoomLeave. wp_go. Qed.
Hint Resolve wp_joinRoom wp_replyRoomJoin wp_replyRoomLeave : wp.

(** *** Namespaces *)

Lemma getEvents_Some nss n evs : getEvents nss n = Some evs -> nss !! n = Some evs.
Proof. unfold getEvents. by destruct (jm_has nss n). Qed.

Lemma wp_notifiers f w :
  wp (modify (fun w => upd_conn (set_notifiers (f w)) w)) w (fun _ _ => True).
Proof. apply (wp_upd_conn (set_notifiers (f w))); by destruct w as [[] ? ?]. Qed.
Lemma wp_set_notifiers x w : wp (modify (upd_conn (set_notifiers x))) w (fun _ _ => True).
Proof. apply wp_upd_conn; by destruct w as [[] ? ?]. Qed.
Hint Resolve wp_notifiers wp_set_notifiers : wp.

(** Creating a namespace connection and going on with it. *)
Lemma wp_create {B} n evs (f : nsref -> M B) w Q :
  getEvents (c_namespaces (w_conn w)) n = Some evs ->
  (forall r w', ext w w' -> ns_for w' n r -> wp (f r) w' Q) -> wp (r ← new_NSConn n evs; f r) w Q.
Proof.
  intros E%getEvents_Some Hf. apply wp_bind.
  eapply wp_mono; [apply wp_new_NSConn|]. simpl. intros r w' Hx Hr _. eauto.
Qed.

Lemma wp_await_connect p n ns msg out w :
  ns_for w n ns -> wp (await p (AwaitConnect n ns msg out)) w (fun _ _ => True).
Proof. intros. by apply wp_await. Qed.
Hint Resolve wp_await_connect wp_connected_insert : wp.

Lemma wp_replyConnect msg w : wp (replyConnect msg) w (fun _ _ => True).
Proof.
  unfold replyConnect. wp_go. destruct (getEvents _ _) eqn:E; [|wp_go].
  apply wp_create; [done|]. intros. wp_go.
Qed.
Lemma wp_waitServerConnect n w : wp (waitServerConnect n) w (fun _ _ => True).
Proof. unfold waitServerConnect. wp_go. Qed.
Lemma wp_replyDisconnect msg w : wp (replyDisconnect msg) w (fun _ _ => True).
Proof. unfold replyDisconnect. wp_go. Qed.
Hint Resolve wp_replyConnect wp_waitServerConnect wp_replyDisconnect : wp.

Lemma wp_askConnect n w : wp (askConnect n) w (fun _ _ => True).
Proof.
  unfold askConnect. wp_go. destruct (getEvents _ _) eqn:E; [|wp_go].
  wp_step; [by eauto with wp|]. apply wp_create; [by erewrite ext_namespaces by done|].
  intros. wp_go.
Qed.
Lemma wp_askDisconnect msg w : wp (askDisconnect msg) w (fun _ _ => True).
Proof. unfold askDisconnect. wp_go. Qed.
Hint Resolve wp_askConnect wp_askDisconnect : wp.
Lemma wp_NSConn_disconnect ns w : wp (NSConn_disconnect ns) w (fun _ _ => True).
Proof. unfold NSConn_disconnect. wp_go. Qed.
Hint Resolve wp_NSConn_disconnect : wp.

(** *** Promise jobs, frames and closing *)

Lemma wp_join_all ns ks w : wp (join_all ns ks) w (fun _ _ => True).
Proof. revert w. induction ks as [|k ks IH]; intros w; simpl; wp_go. Qed.
Hint Resolve wp_join_all : wp.

Lemma wp_resume a s w : await_ok w a -> wp (resume a s) w (fun _ _ => True).
Proof. intros Ha. destruct a; simpl in *; wp_go. Qed.

Lemma wp_handleMessage data w : wp (handleMessage data) w (fun _ _ => True).
Proof. unfold handleMessage, allowNativeMessages. wp_go. Qed.
Hint Resolve wp_handleMessage : wp.

Lemma wp_acknowledge w : wp (modify (upd_conn (set_isAcknowledged true))) w (fun _ _ => True).
Proof. apply wp_upd_conn; by destruct w as [[] ? ?]. Qed.
Lemma wp_set_ID v w : wp (modify (upd_conn (set_ID v))) w (fun _ _ => True).
Proof. apply wp_upd_conn; by destruct w as [[] ? ?]. Qed.
Hint Resolve wp_acknowledge wp_set_ID : wp.

Lemma wp_handle data w : wp (handle data) w (fun _ _ => True).
Proof.
  destruct (c_isAcknowledged (w_conn w)) eqn:Ha.
  - intros Hi. assert (E : handle data w = handleMessage data w).
    { unfold handle, gets, mbind, M_bind. by rewrite Ha. }
    rewrite E. by apply wp_handleMessage.
  - intros Hi. rewrite handle_unacknowledged by (done || apply Hi). revert Hi.
    unfold first_frame. fold (wp (first_frame data) w (fun _ _ => True)).
    change (wp (first_frame data) w (fun _ _ => True)). unfold first_frame. wp_go.
Qed.
Hint Resolve wp_handle : wp.

Lemma wp_clear_waiting w :
  wp (modify (fun w => upd_conn (set_waitingMessages (jm_clear (c_waitingMessages (w_conn w)))) w)) w
    (fun _ _ => True).
Proof. apply wp_waiting. auto with ws. Qed.
Lemma wp_set_closed w : wp (modify (upd_conn (set_closed true))) w (fun _ _ => True).
Proof. apply wp_upd_conn; by destruct w as [[] ? ?]. Qed.
Hint Resolve wp_clear_waiting wp_set_closed : wp.

Lemma wp_close w : wp close w (fun _ _ => True).
Proof.
  unfold close. wp_go. apply wp_map_forEach; intros; wp_go.
Qed.
Hint Resolve wp_close : wp.

Lemma run_job_eq w :
  run_job w =
    match h_jobs (w_heap w) with
    | [] => (Ret tt, w)
    | (a, s) :: rest => (modify (upd_heap (set_jobs rest));; resume a s) w
    end.
Proof. unfold run_job, gets, mbind, M_bind. by destruct (h_jobs (w_heap w)) as [|[a s] rest]. Qed.

Lemma wp_run_job w : wp run_job w (fun _ _ => True).
Proof.
  intros Hi. rewrite run_job_eq. destruct (h_jobs (w_heap w)) as [|[a s] rest] eqn:E.
  { by apply (wp_ret tt w (fun _ _ => True)). }
  assert (Hx : ext w (upd_heap (set_jobs rest) w)) by (split_world w; by apply ext_frame).
  apply (wp_seq (modify _) (fun _ => resume a s) w (fun _ _ => True)); [..|done].
  - apply wp_modify; [|done]. split; [|done]. eapply Inv_step; [done..| | | | | | | ]; split_world w; auto.
    subst. set_solver.
  - intros _ w' Hw'. apply wp_resume. eapply await_ok_ext; [done|].
    destruct Hi. rewrite E in *. by inv inv_jobs0.
Qed.
Hint Resolve wp_run_job : wp.

Lemma wp_run_jobs n w : wp (run_jobs n) w (fun _ _ => True).
Proof. revert w. induction n as [|n IH]; intros w; simpl; wp_go. Qed.
End operations.

#[export] Hint Resolve wp_get_ns wp_get_msg wp_isClosed wp_namespace_any wp_NSConn_emit
  wp_NSConn_emitBinary wp_NSConn_ask wp_Room_emit wp_Room_leave wp_leaveAll wp_forceLeaveAll
  wp_joinRoom wp_NSConn_disconnect wp_askConnect wp_waitServerConnect wp_close wp_run_job
  wp_handle : wp.
