(* ===== verification/Labels.v ===== *)
(** text-encoding: the table of encodings and their labels, and the look-up of an
    encoding by label. *)

From S2P Require Import Prelude JsVal.

Record encoding := Encoding { enc_name : string; enc_labels : list string }.
Record category := Category { cat_heading : string; cat_encodings : list encoding }.

Definition the_encoding : list encoding := [
  Encoding "UTF-8"
    ["unicode-1-1-utf-8"; "utf-8"; "utf8"]
]%string.

Definition single_byte_1 : list encoding := [
  Encoding "IBM866"
    ["866"; "cp866"; "csibm866"; "ibm866"];
  Encoding "ISO-8859-2"
    ["csisolatin2"; "iso-8859-2"; "iso-ir-101"; "iso8859-2"; "iso88592"; "iso_8859-2";
     "iso_8859-2:1987"; "l2"; "latin2"];
  Encoding "ISO-8859-3"
    ["csisolatin3"; "iso-8859-3"; "iso-ir-109"; "iso8859-3"; "iso88593"; "iso_8859-3";
     "iso_8859-3:1988"; "l3"; "latin3"];
  Encoding "ISO-8859-4"
    ["csisolatin4"; "iso-8859-4"; "iso-ir-110"; "iso8859-4"; "iso88594"; "iso_8859-4";
     "iso_8859-4:1988"; "l4"; "latin4"];
  Encoding "ISO-8859-5"
    ["csisolatincyrillic"; "cyrillic"; "iso-8859-5"; "iso-ir-144"; "iso8859-5"; "iso88595";
     "iso_8859-5"; "iso_8859-5:1988"];
  Encoding "ISO-8859-6"
    ["arabic"; "asmo-708"; "csiso88596e"; "csiso88596i"; "csisolatinarabic"; "ecma-114";
     "iso-8859-6"; "iso-8859-6-e"; "iso-8859-6-i"; "iso-ir-127"; "iso8859-6"; "iso88596";
     "iso_8859-6"; "iso_8859-6:1987"];
  Encoding "ISO-8859-7"
    ["csisolatingreek"; "ecma-118"; "elot_928"; "greek"; "greek8"; "iso-8859-7"; "iso-ir-126";
     "iso8859-7"; "iso88597"; "iso_8859-7"; "iso_8859-7:1987"; "sun_eu_greek"];
  Encoding "ISO-8859-8"
    ["csiso88598e"; "csisolatinhebrew"; "hebrew"; "iso-8859-8"; "iso-8859-8-e"; "iso-ir-138";
     "iso8859-8"; "iso88598"; "iso_8859-8"; "iso_8859-8:1988"; "visual"];
  Encoding "ISO-8859-8-I"
    ["csiso88598i"; "iso-8859-8-i"; "logical"];
  Encoding "ISO-8859-10"
    ["csisolatin6"; "iso-8859-10"; "iso-ir-157"; "iso8859-10"; "iso885910"; "l6"; "latin6"]
]%string.

Definition single_byte_2 : list encoding := [
  Encoding "ISO-8859-13"
    ["iso-8859-13"; "iso8859-13"; "iso885913"];
  Encoding "ISO-8859-14"
    ["iso-8859-14"; "iso8859-14"; "iso885914"];
  Encoding "ISO-8859-15"
    ["csisolatin9"; "iso-8859-15"; "iso8859-15"; "iso885915"; "iso_8859-15"; "l9"];
  Encoding "ISO-8859-16"
    ["iso-8859-16"];
  Encoding "KOI8-R"
    ["cskoi8r"; "koi"; "koi8"; "koi8-r"; "koi8_r"];
  Encoding "KOI8-U"
    ["koi8-ru"; "koi8-u"];
  Encoding "macintosh"
    ["csmacintosh"; "mac"; "macintosh"; "x-mac-roman"];
  Encoding "windows-874"
    ["dos-874"; "iso-8859-11"; "iso8859-11"; "iso885911"; "tis-620"; "windows-874"];
  Encoding "windows-1250"
    ["cp1250"; "windows-1250"; "x-cp1250"]
]%string.

Definition single_byte_3 : list encoding := [
  Encoding "windows-1251"
    ["cp1251"; "windows-1251"; "x-cp1251"];
  Encoding "windows-1252"
    ["ansi_x3.4-1968"; "ascii"; "cp1252"; "cp819"; "csisolatin1"; "ibm819"; "iso-8859-1";
     "iso-ir-100"; "iso8859-1"; "iso88591"; "iso_8859-1"; "iso_8859-1:1987"; "l1"; "latin1";
     "us-ascii"; "windows-1252"; "x-cp1252"];
  Encoding "windows-1253"
    ["cp1253"; "windows-1253"; "x-cp1253"];
  Encoding "windows-1254"
    ["cp1254"; "csisolatin5"; "iso-8859-9"; "iso-ir-148"; "iso8859-9"; "iso88599"; "iso_8859-9";
     "iso_8859-9:1989"; "l5"; "latin5"; "windows-1254"; "x-cp1254"];
  Encoding "windows-1255"
    ["cp1255"; "windows-1255"; "x-cp1255"];
  Encoding "windows-1256"
    ["cp1256"; "windows-1256"; "x-cp1256"];
  Encoding "windows-1257"
    ["cp1257"; "windows-1257"; "x-cp1257"];
  Encoding "windows-1258"
    ["cp1258"; "windows-1258"; "x-cp1258"];
  Encoding "x-mac-cyrillic"
    ["x-mac-cyrillic"; "x-mac-ukrainian"]
]%string.

Definition chinese_simplified : list encoding := [
  Encoding "GBK"
    ["chinese"; "csgb2312"; "csiso58gb231280"; "gb2312"; "gb_2312"; "gb_2312-80"; "gbk";
     "iso-ir-58"; "x-gbk"];
  Encoding "gb18030"
    ["gb18030"]
]%string.

Definition chinese_traditional : list encoding := [
  Encoding "Big5"
    ["big5"; "big5-hkscs"; "cn-big5"; "csbig5"; "x-x-big5"]
]%string.

Definition japanese : list encoding := [
  Encoding "EUC-JP"
    ["cseucpkdfmtjapanese"; "euc-jp"; "x-euc-jp"];
  Encoding "ISO-2022-JP"
    ["csiso2022jp"; "iso-2022-jp"];
  Encoding "Shift_JIS"
    ["csshiftjis"; "ms932"; "ms_kanji"; "shift-jis"; "shift_jis"; "sjis"; "windows-31j"; "x-sjis"]
]%string.

Definition korean : list encoding := [
  Encoding "EUC-KR"
    ["cseuckr"; "csksc56011987"; "euc-kr"; "iso-ir-149"; "korean"; "ks_c_5601-1987";
     "ks_c_5601-1989"; "ksc5601"; "ksc_5601"; "windows-949"]
]%string.

Definition miscellaneous : list encoding := [
  Encoding "replacement"
    ["csiso2022kr"; "hz-gb-2312"; "iso-2022-cn"; "iso-2022-cn-ext"; "iso-2022-kr"];
  Encoding "UTF-16BE"
    ["utf-16be"];
  Encoding "UTF-16LE"
    ["utf-16"; "utf-16le"];
  Encoding "x-user-defined"
    ["x-user-defined"]
]%string.

Definition encodings : list category := [
  Category "The Encoding" the_encoding;
  Category "Legacy single-byte encodings" (single_byte_1 ++ single_byte_2 ++ single_byte_3);
  Category "Legacy multi-byte Chinese (simplified) encodings" chinese_simplified;
  Category "Legacy multi-byte Chinese (traditional) encodings" chinese_traditional;
  Category "Legacy multi-byte Japanese encodings" japanese;
  Category "Legacy multi-byte Korean encodings" korean;
  Category "Legacy miscellaneous encodings" miscellaneous
]%string.

(** [label_to_encoding]: every label of every encoding; a later assignment to the
    same label would win. *)
Definition label_to_encoding : list (jsstr * encoding) :=
  concat (map (fun c => concat (map (fun e => map (fun l => (js l, e)) (enc_labels e)) (cat_encodings c)))
    encodings).

Definition own_property (label : jsstr) : option encoding :=
  fold_left (fun r '(l, e) => if l ==? label then Some e else r) label_to_encoding None.

(** [String.prototype.trim]: the language's white space and line terminators. *)
Definition is_space (c : Z) : bool :=
  bool_decide (c ∈ [9; 10; 11; 12; 13; 32; 0xA0; 0x1680; 0x2028; 0x2029; 0x202F; 0x205F; 0x3000; 0xFEFF])
  || ((0x2000 <=? c) && (c <=? 0x200A)).
Fixpoint trim_start (s : jsstr) : jsstr :=
  match s with c :: s' => if is_space c then trim_start s' else s | [] => [] end.
Definition trim (s : jsstr) : jsstr := reverse (trim_start (reverse (trim_start s))).

(** [String.prototype.toLowerCase] as far as it can produce an ASCII string: the
    ASCII capitals, and U+212A KELVIN SIGN, whose lower case is 'k'. Every other
    character's lower case has a non-ASCII unit, as here the character itself. *)
Definition lower_unit (c : Z) : Z :=
  if (65 <=? c) && (c <=? 90) then c + 32 else if c =? 0x212A then 107 else c.
Definition toLowerCase (s : jsstr) : jsstr := map lower_unit s.

Definition getEncoding (label : jsstr) : option encoding := own_property (toLowerCase (trim label)).
