(* ===== verification/Tables.v ===== *)
(** text-encoding, the indexes of the single-byte encodings, as the source has
    them: 128 code points each, [null] written as -1.

    The indexes of the multi-byte encodings, some 90,000 numbers, stay an argument
    (see [Legacy.Indexes]), but for the ranges of gb18030, which are here. *)

From S2P Require Import Prelude.

Definition index_data (data : list Z) : list (option Z) :=
  map (fun z => if z =? -1 then None else Some z) data.

Definition index_ibm866 : list (option Z) := index_data [
  1040; 1041; 1042; 1043; 1044; 1045; 1046; 1047; 1048; 1049; 1050; 1051; 1052; 1053; 1054; 1055;
  1056; 1057; 1058; 1059; 1060; 1061; 1062; 1063; 1064; 1065; 1066; 1067; 1068; 1069; 1070; 1071;
  1072; 1073; 1074; 1075; 1076; 1077; 1078; 1079; 1080; 1081; 1082; 1083; 1084; 1085; 1086; 1087;
  9617; 9618; 9619; 9474; 9508; 9569; 9570; 9558; 9557; 9571; 9553; 9559; 9565; 9564; 9563; 9488;
  9492; 9524; 9516; 9500; 9472; 9532; 9566; 9567; 9562; 9556; 9577; 9574; 9568; 9552; 9580; 9575;
  9576; 9572; 9573; 9561; 9560; 9554; 9555; 9579; 9578; 9496; 9484; 9608; 9604; 9612; 9616; 9600;
  1088; 1089; 1090; 1091; 1092; 1093; 1094; 1095; 1096; 1097; 1098; 1099; 1100; 1101; 1102; 1103;
  1025; 1105; 1028; 1108; 1031; 1111; 1038; 1118; 176; 8729; 183; 8730; 8470; 164; 9632; 160].

Definition index_iso_8859_2 : list (option Z) := index_data [
  128; 129; 130; 131; 132; 133; 134; 135; 136; 137; 138; 139; 140; 141; 142; 143; 144; 145; 146;
  147; 148; 149; 150; 151; 152; 153; 154; 155; 156; 157; 158; 159; 160; 260; 728; 321; 164; 317;
  346; 167; 168; 352; 350; 356; 377; 173; 381; 379; 176; 261; 731; 322; 180; 318; 347; 711; 184;
  353; 351; 357; 378; 733; 382; 380; 340; 193; 194; 258; 196; 313; 262; 199; 268; 201; 280; 203;
  282; 205; 206; 270; 272; 323; 327; 211; 212; 336; 214; 215; 344; 366; 218; 368; 220; 221; 354;
  223; 341; 225; 226; 259; 228; 314; 263; 231; 269; 233; 281; 235; 283; 237; 238; 271; 273; 324;
  328; 243; 244; 337; 246; 247; 345; 367; 250; 369; 252; 253; 355; 729].

Definition index_iso_8859_3 : list (option Z) := index_data [
  128; 129; 130; 131; 132; 133; 134; 135; 136; 137; 138; 139; 140; 141; 142; 143; 144; 145; 146;
  147; 148; 149; 150; 151; 152; 153; 154; 155; 156; 157; 158; 159; 160; 294; 728; 163; 164; -1; 292;
  167; 168; 304; 350; 286; 308; 173; -1; 379; 176; 295; 178; 179; 180; 181; 293; 183; 184; 305; 351;
  287; 309; 189; -1; 380; 192; 193; 194; -1; 196; 266; 264; 199; 200; 201; 202; 203; 204; 205; 206;
  207; -1; 209; 210; 211; 212; 288; 214; 215; 284; 217; 218; 219; 220; 364; 348; 223; 224; 225; 226;
  -1; 228; 267; 265; 231; 232; 233; 234; 235; 236; 237; 238; 239; -1; 241; 242; 243; 244; 289; 246;
  247; 285; 249; 250; 251; 252; 365; 349; 729].

Definition index_iso_8859_4 : list (option Z) := index_data [
  128; 129; 130; 131; 132; 133; 134; 135; 136; 137; 138; 139; 140; 141; 142; 143; 144; 145; 146;
  147; 148; 149; 150; 151; 152; 153; 154; 155; 156; 157; 158; 159; 160; 260; 312; 342; 164; 296;
  315; 167; 168; 352; 274; 290; 358; 173; 381; 175; 176; 261; 731; 343; 180; 297; 316; 711; 184;
  353; 275; 291; 359; 330; 382; 331; 256; 193; 194; 195; 196; 197; 198; 302; 268; 201; 280; 203;
  278; 205; 206; 298; 272; 325; 332; 310; 212; 213; 214; 215; 216; 370; 218; 219; 220; 360; 362;
  223; 257; 225; 226; 227; 228; 229; 230; 303; 269; 233; 281; 235; 279; 237; 238; 299; 273; 326;
  333; 311; 244; 245; 246; 247; 248; 371; 250; 251; 252; 361; 363; 729].

Definition index_iso_8859_5 : list (option Z) := index_data [
  128; 129; 130; 131; 132; 133; 134; 135; 136; 137; 138; 139; 140; 141; 142; 143; 144; 145; 146;
  147; 148; 149; 150; 151; 152; 153; 154; 155; 156; 157; 158; 159; 160; 1025; 1026; 1027; 1028;
  1029; 1030; 1031; 1032; 1033; 1034; 1035; 1036; 173; 1038; 1039; 1040; 1041; 1042; 1043; 1044;
  1045; 1046; 1047; 1048; 1049; 1050; 1051; 1052; 1053; 1054; 1055; 1056; 1057; 1058; 1059; 1060;
  1061; 1062; 1063; 1064; 1065; 1066; 1067; 1068; 1069; 1070; 1071; 1072; 1073; 1074; 1075; 1076;
  1077; 1078; 1079; 1080; 1081; 1082; 1083; 1084; 1085; 1086; 1087; 1088; 1089; 1090; 1091; 1092;
  1093; 1094; 1095; 1096; 1097; 1098; 1099; 1100; 1101; 1102; 1103; 8470; 1105; 1106; 1107; 1108;
  1109; 1110; 1111; 1112; 1113; 1114; 1115; 1116; 167; 1118; 1119].

Definition index_iso_8859_6 : list (option Z) := index_data [
  128; 129; 130; 131; 132; 133; 134; 135; 136; 137; 138; 139; 140; 141; 142; 143; 144; 145; 146;
  147; 148; 149; 150; 151; 152; 153; 154; 155; 156; 157; 158; 159; 160; -1; -1; -1; 164; -1; -1; -1;
  -1; -1; -1; -1; 1548; 173; -1; -1; -1; -1; -1; -1; -1; -1; -1; -1; -1; -1; -1; 1563; -1; -1; -1;
  1567; -1; 1569; 1570; 1571; 1572; 1573; 1574; 1575; 1576; 1577; 1578; 1579; 1580; 1581; 1582;
  1583; 1584; 1585; 1586; 1587; 1588; 1589; 1590; 1591; 1592; 1593; 1594; -1; -1; -1; -1; -1; 1600;
  1601; 1602; 1603; 1604; 1605; 1606; 1607; 1608; 1609; 1610; 1611; 1612; 1613; 1614; 1615; 1616;
  1617; 1618; -1; -1; -1; -1; -1; -1; -1; -1; -1; -1; -1; -1; -1].

Definition index_iso_8859_7 : list (option Z) := index_data [
  128; 129; 130; 131; 132; 133; 134; 135; 136; 137; 138; 139; 140; 141; 142; 143; 144; 145; 146;
  147; 148; 149; 150; 151; 152; 153; 154; 155; 156; 157; 158; 159; 160; 8216; 8217; 163; 8364; 8367;
  166; 167; 168; 169; 890; 171; 172; 173; -1; 8213; 176; 177; 178; 179; 900; 901; 902; 183; 904;
  905; 906; 187; 908; 189; 910; 911; 912; 913; 914; 915; 916; 917; 918; 919; 920; 921; 922; 923;
  924; 925; 926; 927; 928; 929; -1; 931; 932; 933; 934; 935; 936; 937; 938; 939; 940; 941; 942; 943;
  944; 945; 946; 947; 948; 949; 950; 951; 952; 953; 954; 955; 956; 957; 958; 959; 960; 961; 962;
  963; 964; 965; 966; 967; 968; 969; 970; 971; 972; 973; 974; -1].

Definition index_iso_8859_8 : list (option Z) := index_data [
  128; 129; 130; 131; 132; 133; 134; 135; 136; 137; 138; 139; 140; 141; 142; 143; 144; 145; 146;
  147; 148; 149; 150; 151; 152; 153; 154; 155; 156; 157; 158; 159; 160; -1; 162; 163; 164; 165; 166;
  167; 168; 169; 215; 171; 172; 173; 174; 175; 176; 177; 178; 179; 180; 181; 182; 183; 184; 185;
  247; 187; 188; 189; 190; -1; -1; -1; -1; -1; -1; -1; -1; -1; -1; -1; -1; -1; -1; -1; -1; -1; -1;
  -1; -1; -1; -1; -1; -1; -1; -1; -1; -1; -1; -1; -1; -1; 8215; 1488; 1489; 1490; 1491; 1492; 1493;
  1494; 1495; 1496; 1497; 1498; 1499; 1500; 1501; 1502; 1503; 1504; 1505; 1506; 1507; 1508; 1509;
  1510; 1511; 1512; 1513; 1514; -1; -1; 8206; 8207; -1].

Definition index_iso_8859_10 : list (option Z) := index_data [
  128; 129; 130; 131; 132; 133; 134; 135; 136; 137; 138; 139; 140; 141; 142; 143; 144; 145; 146;
  147; 148; 149; 150; 151; 152; 153; 154; 155; 156; 157; 158; 159; 160; 260; 274; 290; 298; 296;
  310; 167; 315; 272; 352; 358; 381; 173; 362; 330; 176; 261; 275; 291; 299; 297; 311; 183; 316;
  273; 353; 359; 382; 8213; 363; 331; 256; 193; 194; 195; 196; 197; 198; 302; 268; 201; 280; 203;
  278; 205; 206; 207; 208; 325; 332; 211; 212; 213; 214; 360; 216; 370; 218; 219; 220; 221; 222;
  223; 257; 225; 226; 227; 228; 229; 230; 303; 269; 233; 281; 235; 279; 237; 238; 239; 240; 326;
  333; 243; 244; 245; 246; 361; 248; 371; 250; 251; 252; 253; 254; 312].

Definition index_iso_8859_13 : list (option Z) := index_data [
  128; 129; 130; 131; 132; 133; 134; 135; 136; 137; 138; 139; 140; 141; 142; 143; 144; 145; 146;
  147; 148; 149; 150; 151; 152; 153; 154; 155; 156; 157; 158; 159; 160; 8221; 162; 163; 164; 8222;
  166; 167; 216; 169; 342; 171; 172; 173; 174; 198; 176; 177; 178; 179; 8220; 181; 182; 183; 248;
  185; 343; 187; 188; 189; 190; 230; 260; 302; 256; 262; 196; 197; 280; 274; 268; 201; 377; 278;
  290; 310; 298; 315; 352; 323; 325; 211; 332; 213; 214; 215; 370; 321; 346; 362; 220; 379; 381;
  223; 261; 303; 257; 263; 228; 229; 281; 275; 269; 233; 378; 279; 291; 311; 299; 316; 353; 324;
  326; 243; 333; 245; 246; 247; 371; 322; 347; 363; 252; 380; 382; 8217].

Definition index_iso_8859_14 : list (option Z) := index_data [
  128; 129; 130; 131; 132; 133; 134; 135; 136; 137; 138; 139; 140; 141; 142; 143; 144; 145; 146;
  147; 148; 149; 150; 151; 152; 153; 154; 155; 156; 157; 158; 159; 160; 7682; 7683; 163; 266; 267;
  7690; 167; 7808; 169; 7810; 7691; 7922; 173; 174; 376; 7710; 7711; 288; 289; 7744; 7745; 182;
  7766; 7809; 7767; 7811; 7776; 7923; 7812; 7813; 7777; 192; 193; 194; 195; 196; 197; 198; 199; 200;
  201; 202; 203; 204; 205; 206; 207; 372; 209; 210; 211; 212; 213; 214; 7786; 216; 217; 218; 219;
  220; 221; 374; 223; 224; 225; 226; 227; 228; 229; 230; 231; 232; 233; 234; 235; 236; 237; 238;
  239; 373; 241; 242; 243; 244; 245; 246; 7787; 248; 249; 250; 251; 252; 253; 375; 255].

Definition index_iso_8859_15 : list (option Z) := index_data [
  128; 129; 130; 131; 132; 133; 134; 135; 136; 137; 138; 139; 140; 141; 142; 143; 144; 145; 146;
  147; 148; 149; 150; 151; 152; 153; 154; 155; 156; 157; 158; 159; 160; 161; 162; 163; 8364; 165;
  352; 167; 353; 169; 170; 171; 172; 173; 174; 175; 176; 177; 178; 179; 381; 181; 182; 183; 382;
  185; 186; 187; 338; 339; 376; 191; 192; 193; 194; 195; 196; 197; 198; 199; 200; 201; 202; 203;
  204; 205; 206; 207; 208; 209; 210; 211; 212; 213; 214; 215; 216; 217; 218; 219; 220; 221; 222;
  223; 224; 225; 226; 227; 228; 229; 230; 231; 232; 233; 234; 235; 236; 237; 238; 239; 240; 241;
  242; 243; 244; 245; 246; 247; 248; 249; 250; 251; 252; 253; 254; 255].

Definition index_iso_8859_16 : list (option Z) := index_data [
  128; 129; 130; 131; 132; 133; 134; 135; 136; 137; 138; 139; 140; 141; 142; 143; 144; 145; 146;
  147; 148; 149; 150; 151; 152; 153; 154; 155; 156; 157; 158; 159; 160; 260; 261; 321; 8364; 8222;
  352; 167; 353; 169; 536; 171; 377; 173; 378; 379; 176; 177; 268; 322; 381; 8221; 182; 183; 382;
  269; 537; 187; 338; 339; 376; 380; 192; 193; 194; 258; 196; 262; 198; 199; 200; 201; 202; 203;
  204; 205; 206; 207; 272; 323; 210; 211; 212; 336; 214; 346; 368; 217; 218; 219; 220; 280; 538;
  223; 224; 225; 226; 259; 228; 263; 230; 231; 232; 233; 234; 235; 236; 237; 238; 239; 273; 324;
  242; 243; 244; 337; 246; 347; 369; 249; 250; 251; 252; 281; 539; 255].

Definition index_koi8_r : list (option Z) := index_data [
  9472; 9474; 9484; 9488; 9492; 9496; 9500; 9508; 9516; 9524; 9532; 9600; 9604; 9608; 9612; 9616;
  9617; 9618; 9619; 8992; 9632; 8729; 8730; 8776; 8804; 8805; 160; 8993; 176; 178; 183; 247; 9552;
  9553; 9554; 1105; 9555; 9556; 9557; 9558; 9559; 9560; 9561; 9562; 9563; 9564; 9565; 9566; 9567;
  9568; 9569; 1025; 9570; 9571; 9572; 9573; 9574; 9575; 9576; 9577; 9578; 9579; 9580; 169; 1102;
  1072; 1073; 1094; 1076; 1077; 1092; 1075; 1093; 1080; 1081; 1082; 1083; 1084; 1085; 1086; 1087;
  1103; 1088; 1089; 1090; 1091; 1078; 1074; 1100; 1099; 1079; 1096; 1101; 1097; 1095; 1098; 1070;
  1040; 1041; 1062; 1044; 1045; 1060; 1043; 1061; 1048; 1049; 1050; 1051; 1052; 1053; 1054; 1055;
  1071; 1056; 1057; 1058; 1059; 1046; 1042; 1068; 1067; 1047; 1064; 1069; 1065; 1063; 1066].

Definition index_koi8_u : list (option Z) := index_data [
  9472; 9474; 9484; 9488; 9492; 9496; 9500; 9508; 9516; 9524; 9532; 9600; 9604; 9608; 9612; 9616;
  9617; 9618; 9619; 8992; 9632; 8729; 8730; 8776; 8804; 8805; 160; 8993; 176; 178; 183; 247; 9552;
  9553; 9554; 1105; 1108; 9556; 1110; 1111; 9559; 9560; 9561; 9562; 9563; 1169; 1118; 9566; 9567;
  9568; 9569; 1025; 1028; 9571; 1030; 1031; 9574; 9575; 9576; 9577; 9578; 1168; 1038; 169; 1102;
  1072; 1073; 1094; 1076; 1077; 1092; 1075; 1093; 1080; 1081; 1082; 1083; 1084; 1085; 1086; 1087;
  1103; 1088; 1089; 1090; 1091; 1078; 1074; 1100; 1099; 1079; 1096; 1101; 1097; 1095; 1098; 1070;
  1040; 1041; 1062; 1044; 1045; 1060; 1043; 1061; 1048; 1049; 1050; 1051; 1052; 1053; 1054; 1055;
  1071; 1056; 1057; 1058; 1059; 1046; 1042; 1068; 1067; 1047; 1064; 1069; 1065; 1063; 1066].

Definition index_macintosh : list (option Z) := index_data [
  196; 197; 199; 201; 209; 214; 220; 225; 224; 226; 228; 227; 229; 231; 233; 232; 234; 235; 237;
  236; 238; 239; 241; 243; 242; 244; 246; 245; 250; 249; 251; 252; 8224; 176; 162; 163; 167; 8226;
  182; 223; 174; 169; 8482; 180; 168; 8800; 198; 216; 8734; 177; 8804; 8805; 165; 181; 8706; 8721;
  8719; 960; 8747; 170; 186; 937; 230; 248; 191; 161; 172; 8730; 402; 8776; 8710; 171; 187; 8230;
  160; 192; 195; 213; 338; 339; 8211; 8212; 8220; 8221; 8216; 8217; 247; 9674; 255; 376; 8260; 8364;
  8249; 8250; 64257; 64258; 8225; 183; 8218; 8222; 8240; 194; 202; 193; 203; 200; 205; 206; 207;
  204; 211; 212; 63743; 210; 218; 219; 217; 305; 710; 732; 175; 728; 729; 730; 184; 733; 731; 711].

Definition index_windows_874 : list (option Z) := index_data [
  8364; 129; 130; 131; 132; 8230; 134; 135; 136; 137; 138; 139; 140; 141; 142; 143; 144; 8216; 8217;
  8220; 8221; 8226; 8211; 8212; 152; 153; 154; 155; 156; 157; 158; 159; 160; 3585; 3586; 3587; 3588;
  3589; 3590; 3591; 3592; 3593; 3594; 3595; 3596; 3597; 3598; 3599; 3600; 3601; 3602; 3603; 3604;
  3605; 3606; 3607; 3608; 3609; 3610; 3611; 3612; 3613; 3614; 3615; 3616; 3617; 3618; 3619; 3620;
  3621; 3622; 3623; 3624; 3625; 3626; 3627; 3628; 3629; 3630; 3631; 3632; 3633; 3634; 3635; 3636;
  3637; 3638; 3639; 3640; 3641; 3642; -1; -1; -1; -1; 3647; 3648; 3649; 3650; 3651; 3652; 3653;
  3654; 3655; 3656; 3657; 3658; 3659; 3660; 3661; 3662; 3663; 3664; 3665; 3666; 3667; 3668; 3669;
  3670; 3671; 3672; 3673; 3674; 3675; -1; -1; -1; -1].

Definition index_windows_1250 : list (option Z) := index_data [
  8364; 129; 8218; 131; 8222; 8230; 8224; 8225; 136; 8240; 352; 8249; 346; 356; 381; 377; 144; 8216;
  8217; 8220; 8221; 8226; 8211; 8212; 152; 8482; 353; 8250; 347; 357; 382; 378; 160; 711; 728; 321;
  164; 260; 166; 167; 168; 169; 350; 171; 172; 173; 174; 379; 176; 177; 731; 322; 180; 181; 182;
  183; 184; 261; 351; 187; 317; 733; 318; 380; 340; 193; 194; 258; 196; 313; 262; 199; 268; 201;
  280; 203; 282; 205; 206; 270; 272; 323; 327; 211; 212; 336; 214; 215; 344; 366; 218; 368; 220;
  221; 354; 223; 341; 225; 226; 259; 228; 314; 263; 231; 269; 233; 281; 235; 283; 237; 238; 271;
  273; 324; 328; 243; 244; 337; 246; 247; 345; 367; 250; 369; 252; 253; 355; 729].

Definition index_windows_1251 : list (option Z) := index_data [
  1026; 1027; 8218; 1107; 8222; 8230; 8224; 8225; 8364; 8240; 1033; 8249; 1034; 1036; 1035; 1039;
  1106; 8216; 8217; 8220; 8221; 8226; 8211; 8212; 152; 8482; 1113; 8250; 1114; 1116; 1115; 1119;
  160; 1038; 1118; 1032; 164; 1168; 166; 167; 1025; 169; 1028; 171; 172; 173; 174; 1031; 176; 177;
  1030; 1110; 1169; 181; 182; 183; 1105; 8470; 1108; 187; 1112; 1029; 1109; 1111; 1040; 1041; 1042;
  1043; 1044; 1045; 1046; 1047; 1048; 1049; 1050; 1051; 1052; 1053; 1054; 1055; 1056; 1057; 1058;
  1059; 1060; 1061; 1062; 1063; 1064; 1065; 1066; 1067; 1068; 1069; 1070; 1071; 1072; 1073; 1074;
  1075; 1076; 1077; 1078; 1079; 1080; 1081; 1082; 1083; 1084; 1085; 1086; 1087; 1088; 1089; 1090;
  1091; 1092; 1093; 1094; 1095; 1096; 1097; 1098; 1099; 1100; 1101; 1102; 1103].

Definition index_windows_1252 : list (option Z) := index_data [
  8364; 129; 8218; 402; 8222; 8230; 8224; 8225; 710; 8240; 352; 8249; 338; 141; 381; 143; 144; 8216;
  8217; 8220; 8221; 8226; 8211; 8212; 732; 8482; 353; 8250; 339; 157; 382; 376; 160; 161; 162; 163;
  164; 165; 166; 167; 168; 169; 170; 171; 172; 173; 174; 175; 176; 177; 178; 179; 180; 181; 182;
  183; 184; 185; 186; 187; 188; 189; 190; 191; 192; 193; 194; 195; 196; 197; 198; 199; 200; 201;
  202; 203; 204; 205; 206; 207; 208; 209; 210; 211; 212; 213; 214; 215; 216; 217; 218; 219; 220;
  221; 222; 223; 224; 225; 226; 227; 228; 229; 230; 231; 232; 233; 234; 235; 236; 237; 238; 239;
  240; 241; 242; 243; 244; 245; 246; 247; 248; 249; 250; 251; 252; 253; 254; 255].

Definition index_windows_1253 : list (option Z) := index_data [
  8364; 129; 8218; 402; 8222; 8230; 8224; 8225; 136; 8240; 138; 8249; 140; 141; 142; 143; 144; 8216;
  8217; 8220; 8221; 8226; 8211; 8212; 152; 8482; 154; 8250; 156; 157; 158; 159; 160; 901; 902; 163;
  164; 165; 166; 167; 168; 169; -1; 171; 172; 173; 174; 8213; 176; 177; 178; 179; 900; 181; 182;
  183; 904; 905; 906; 187; 908; 189; 910; 911; 912; 913; 914; 915; 916; 917; 918; 919; 920; 921;
  922; 923; 924; 925; 926; 927; 928; 929; -1; 931; 932; 933; 934; 935; 936; 937; 938; 939; 940; 941;
  942; 943; 944; 945; 946; 947; 948; 949; 950; 951; 952; 953; 954; 955; 956; 957; 958; 959; 960;
  961; 962; 963; 964; 965; 966; 967; 968; 969; 970; 971; 972; 973; 974; -1].

Definition index_windows_1254 : list (option Z) := index_data [
  8364; 129; 8218; 402; 8222; 8230; 8224; 8225; 710; 8240; 352; 8249; 338; 141; 142; 143; 144; 8216;
  8217; 8220; 8221; 8226; 8211; 8212; 732; 8482; 353; 8250; 339; 157; 158; 376; 160; 161; 162; 163;
  164; 165; 166; 167; 168; 169; 170; 171; 172; 173; 174; 175; 176; 177; 178; 179; 180; 181; 182;
  183; 184; 185; 186; 187; 188; 189; 190; 191; 192; 193; 194; 195; 196; 197; 198; 199; 200; 201;
  202; 203; 204; 205; 206; 207; 286; 209; 210; 211; 212; 213; 214; 215; 216; 217; 218; 219; 220;
  304; 350; 223; 224; 225; 226; 227; 228; 229; 230; 231; 232; 233; 234; 235; 236; 237; 238; 239;
  287; 241; 242; 243; 244; 245; 246; 247; 248; 249; 250; 251; 252; 305; 351; 255].

Definition index_windows_1255 : list (option Z) := index_data [
  8364; 129; 8218; 402; 8222; 8230; 8224; 8225; 710; 8240; 138; 8249; 140; 141; 142; 143; 144; 8216;
  8217; 8220; 8221; 8226; 8211; 8212; 732; 8482; 154; 8250; 156; 157; 158; 159; 160; 161; 162; 163;
  8362; 165; 166; 167; 168; 169; 215; 171; 172; 173; 174; 175; 176; 177; 178; 179; 180; 181; 182;
  183; 184; 185; 247; 187; 188; 189; 190; 191; 1456; 1457; 1458; 1459; 1460; 1461; 1462; 1463; 1464;
  1465; 1466; 1467; 1468; 1469; 1470; 1471; 1472; 1473; 1474; 1475; 1520; 1521; 1522; 1523; 1524;
  -1; -1; -1; -1; -1; -1; -1; 1488; 1489; 1490; 1491; 1492; 1493; 1494; 1495; 1496; 1497; 1498;
  1499; 1500; 1501; 1502; 1503; 1504; 1505; 1506; 1507; 1508; 1509; 1510; 1511; 1512; 1513; 1514;
  -1; -1; 8206; 8207; -1].

Definition index_windows_1256 : list (option Z) := index_data [
  8364; 1662; 8218; 402; 8222; 8230; 8224; 8225; 710; 8240; 1657; 8249; 338; 1670; 1688; 1672; 1711;
  8216; 8217; 8220; 8221; 8226; 8211; 8212; 1705; 8482; 1681; 8250; 339; 8204; 8205; 1722; 160;
  1548; 162; 163; 164; 165; 166; 167; 168; 169; 1726; 171; 172; 173; 174; 175; 176; 177; 178; 179;
  180; 181; 182; 183; 184; 185; 1563; 187; 188; 189; 190; 1567; 1729; 1569; 1570; 1571; 1572; 1573;
  1574; 1575; 1576; 1577; 1578; 1579; 1580; 1581; 1582; 1583; 1584; 1585; 1586; 1587; 1588; 1589;
  1590; 215; 1591; 1592; 1593; 1594; 1600; 1601; 1602; 1603; 224; 1604; 226; 1605; 1606; 1607; 1608;
  231; 232; 233; 234; 235; 1609; 1610; 238; 239; 1611; 1612; 1613; 1614; 244; 1615; 1616; 247; 1617;
  249; 1618; 251; 252; 8206; 8207; 1746].

Definition index_windows_1257 : list (option Z) := index_data [
  8364; 129; 8218; 131; 8222; 8230; 8224; 8225; 136; 8240; 138; 8249; 140; 168; 711; 184; 144; 8216;
  8217; 8220; 8221; 8226; 8211; 8212; 152; 8482; 154; 8250; 156; 175; 731; 159; 160; -1; 162; 163;
  164; -1; 166; 167; 216; 169; 342; 171; 172; 173; 174; 198; 176; 177; 178; 179; 180; 181; 182; 183;
  248; 185; 343; 187; 188; 189; 190; 230; 260; 302; 256; 262; 196; 197; 280; 274; 268; 201; 377;
  278; 290; 310; 298; 315; 352; 323; 325; 211; 332; 213; 214; 215; 370; 321; 346; 362; 220; 379;
  381; 223; 261; 303; 257; 263; 228; 229; 281; 275; 269; 233; 378; 279; 291; 311; 299; 316; 353;
  324; 326; 243; 333; 245; 246; 247; 371; 322; 347; 363; 252; 380; 382; 729].

Definition index_windows_1258 : list (option Z) := index_data [
  8364; 129; 8218; 402; 8222; 8230; 8224; 8225; 710; 8240; 138; 8249; 338; 141; 142; 143; 144; 8216;
  8217; 8220; 8221; 8226; 8211; 8212; 732; 8482; 154; 8250; 339; 157; 158; 376; 160; 161; 162; 163;
  164; 165; 166; 167; 168; 169; 170; 171; 172; 173; 174; 175; 176; 177; 178; 179; 180; 181; 182;
  183; 184; 185; 186; 187; 188; 189; 190; 191; 192; 193; 194; 258; 196; 197; 198; 199; 200; 201;
  202; 203; 768; 205; 206; 207; 272; 209; 777; 211; 212; 416; 214; 215; 216; 217; 218; 219; 220;
  431; 771; 223; 224; 225; 226; 259; 228; 229; 230; 231; 232; 233; 234; 235; 769; 237; 238; 239;
  273; 241; 803; 243; 244; 417; 246; 247; 248; 249; 250; 251; 252; 432; 8363; 255].

Definition index_x_mac_cyrillic : list (option Z) := index_data [
  1040; 1041; 1042; 1043; 1044; 1045; 1046; 1047; 1048; 1049; 1050; 1051; 1052; 1053; 1054; 1055;
  1056; 1057; 1058; 1059; 1060; 1061; 1062; 1063; 1064; 1065; 1066; 1067; 1068; 1069; 1070; 1071;
  8224; 176; 1168; 163; 167; 8226; 182; 1030; 174; 169; 8482; 1026; 1106; 8800; 1027; 1107; 8734;
  177; 8804; 8805; 1110; 181; 1169; 1032; 1028; 1108; 1031; 1111; 1033; 1113; 1034; 1114; 1112;
  1029; 172; 8730; 402; 8776; 8710; 171; 187; 8230; 160; 1035; 1115; 1036; 1116; 1109; 8211; 8212;
  8220; 8221; 8216; 8217; 247; 8222; 1038; 1118; 1039; 1119; 8470; 1025; 1105; 1103; 1072; 1073;
  1074; 1075; 1076; 1077; 1078; 1079; 1080; 1081; 1082; 1083; 1084; 1085; 1086; 1087; 1088; 1089;
  1090; 1091; 1092; 1093; 1094; 1095; 1096; 1097; 1098; 1099; 1100; 1101; 1102; 8364].

(** The indexes object, as far as the loop over the single-byte encodings reads it;
    there is no "iso-8859-8-i". *)
Definition single_byte_tables : list (string * list (option Z)) := [
  ("ibm866", index_ibm866);
  ("iso-8859-2", index_iso_8859_2);
  ("iso-8859-3", index_iso_8859_3);
  ("iso-8859-4", index_iso_8859_4);
  ("iso-8859-5", index_iso_8859_5);
  ("iso-8859-6", index_iso_8859_6);
  ("iso-8859-7", index_iso_8859_7);
  ("iso-8859-8", index_iso_8859_8);
  ("iso-8859-10", index_iso_8859_10);
  ("iso-8859-13", index_iso_8859_13);
  ("iso-8859-14", index_iso_8859_14);
  ("iso-8859-15", index_iso_8859_15);
  ("iso-8859-16", index_iso_8859_16);
  ("koi8-r", index_koi8_r);
  ("koi8-u", index_koi8_u);
  ("macintosh", index_macintosh);
  ("windows-874", index_windows_874);
  ("windows-1250", index_windows_1250);
  ("windows-1251", index_windows_1251);
  ("windows-1252", index_windows_1252);
  ("windows-1253", index_windows_1253);
  ("windows-1254", index_windows_1254);
  ("windows-1255", index_windows_1255);
  ("windows-1256", index_windows_1256);
  ("windows-1257", index_windows_1257);
  ("windows-1258", index_windows_1258);
  ("x-mac-cyrillic", index_x_mac_cyrillic)
]%string.

(** 'gb18030-ranges': the pointer and the code point where each range starts. *)
Definition ranges : list (Z * Z) := [
  (0, 128); (36, 165); (38, 169); (45, 178); (50, 184); (81, 216); (89, 226); (95, 235); (96,
  238); (100, 244); (103, 248); (104, 251); (105, 253); (109, 258); (126, 276); (133, 284); (148,
  300); (172, 325); (175, 329); (179, 334); (208, 364); (306, 463); (307, 465); (308, 467); (309,
  469); (310, 471); (311, 473); (312, 475); (313, 477); (341, 506); (428, 594); (443, 610); (544,
  712); (545, 716); (558, 730); (741, 930); (742, 938); (749, 962); (750, 970); (805, 1026); (819,
  1104); (820, 1106); (7922, 8209); (7924, 8215); (7925, 8218); (7927, 8222); (7934, 8231); (7943,
  8241); (7944, 8244); (7945, 8246); (7950, 8252); (8062, 8365); (8148, 8452); (8149, 8454);
  (8152, 8458); (8164, 8471); (8174, 8482); (8236, 8556); (8240, 8570); (8262, 8596); (8264,
  8602); (8374, 8713); (8380, 8720); (8381, 8722); (8384, 8726); (8388, 8731); (8390, 8737);
  (8392, 8740); (8393, 8742); (8394, 8748); (8396, 8751); (8401, 8760); (8406, 8766); (8416,
  8777); (8419, 8781); (8424, 8787); (8437, 8802); (8439, 8808); (8445, 8816); (8482, 8854);
  (8485, 8858); (8496, 8870); (8521, 8896); (8603, 8979); (8936, 9322); (8946, 9372); (9046,
  9548); (9050, 9588); (9063, 9616); (9066, 9622); (9076, 9634); (9092, 9652); (9100, 9662);
  (9108, 9672); (9111, 9676); (9113, 9680); (9131, 9702); (9162, 9735); (9164, 9738); (9218,
  9793); (9219, 9795); (11329, 11906); (11331, 11909); (11334, 11913); (11336, 11917); (11346,
  11928); (11361, 11944); (11363, 11947); (11366, 11951); (11370, 11956); (11372, 11960); (11375,
  11964); (11389, 11979); (11682, 12284); (11686, 12292); (11687, 12312); (11692, 12319); (11694,
  12330); (11714, 12351); (11716, 12436); (11723, 12447); (11725, 12535); (11730, 12543); (11736,
  12586); (11982, 12842); (11989, 12850); (12102, 12964); (12336, 13200); (12348, 13215); (12350,
  13218); (12384, 13253); (12393, 13263); (12395, 13267); (12397, 13270); (12510, 13384); (12553,
  13428); (12851, 13727); (12962, 13839); (12973, 13851); (13738, 14617); (13823, 14703); (13919,
  14801); (13933, 14816); (14080, 14964); (14298, 15183); (14585, 15471); (14698, 15585); (15583,
  16471); (15847, 16736); (16318, 17208); (16434, 17325); (16438, 17330); (16481, 17374); (16729,
  17623); (17102, 17997); (17122, 18018); (17315, 18212); (17320, 18218); (17402, 18301); (17418,
  18318); (17859, 18760); (17909, 18811); (17911, 18814); (17915, 18820); (17916, 18823); (17936,
  18844); (17939, 18848); (17961, 18872); (18664, 19576); (18703, 19620); (18814, 19738); (18962,
  19887); (19043, 40870); (33469, 59244); (33470, 59336); (33471, 59367); (33484, 59413); (33485,
  59417); (33490, 59423); (33497, 59431); (33501, 59437); (33505, 59443); (33513, 59452); (33520,
  59460); (33536, 59478); (33550, 59493); (37845, 63789); (37921, 63866); (37948, 63894); (38029,
  63976); (38038, 63986); (38064, 64016); (38065, 64018); (38066, 64021); (38069, 64025); (38075,
  64034); (38076, 64037); (38078, 64042); (39108, 65074); (39109, 65093); (39113, 65107); (39114,
  65112); (39115, 65127); (39116, 65132); (39265, 65375); (39394, 65510); (189000, 65536)].
