(* ===== verification/Legacy.v ===== *)
(** text-encoding, the legacy encodings: the index look-ups, and the decoder and
    encoder of every encoding but UTF-8.

    The multi-byte index tables (bundle.js 1360-1365, plain data) are an argument:
    [index name] is the array under that name. The single-byte ones and the
    ranges of gb18030 are in [Tables]. *)

From S2P Require Import Prelude JsVal TextEncoding Tables.

Class Indexes := {
  index : string -> list (option Z)
}.

Definition isASCIICodePoint (a : Z) : bool := isASCIIByte a.

Definition encoderError {A} (code_point : Z) : outcome A :=
  type_error (js "The code point " ++ num_to_str code_point ++ js " could not be encoded.").

(** ** Index look-ups *)

(** [index[pointer]]: [None] is [undefined], [Some None] is [null]. *)
Definition array_get {A} (l : list A) (i : Z) : option A := if i <? 0 then None else l !! Z.to_nat i.

(** [index[pointer] || null] *)
Definition indexCodePointFor (pointer : Z) (idx : list (option Z)) : option Z :=
  match array_get idx pointer with
  | Some (Some cp) => if cp =? 0 then None else Some cp
  | _ => None
  end.

(** [index.indexOf(code_point)], from position [i]. *)
Fixpoint indexOf (code_point : Z) (i : Z) (idx : list (option Z)) : Z :=
  match idx with
  | [] => -1
  | e :: idx' => if e ==? Some code_point then i else indexOf code_point (i + 1) idx'
  end.
Fixpoint lastIndexOf (code_point : Z) (i : Z) (idx : list (option Z)) : Z :=
  match idx with
  | [] => -1
  | e :: idx' =>
      let r := lastIndexOf code_point (i + 1) idx' in
      if r =? -1 then if e ==? Some code_point then i else -1 else r
  end.

Definition indexPointerFor (code_point : Z) (idx : list (option Z)) : option Z :=
  let pointer := indexOf code_point 0 idx in
  if pointer =? -1 then None else Some pointer.

(** [idx.map(function (code_point, pointer) { return f(pointer) ? null : code_point; })] *)
Definition exclude (f : Z -> bool) (idx : list (option Z)) : list (option Z) :=
  imap (fun i e => if f (Z.of_nat i) then None else e) idx.

Section indexes.
Context `{Indexes}.

(** The loop over the ranges: the last entry whose [sel] is not above [x],
    before the first that is. *)
Fixpoint last_range (sel : Z * Z -> Z) (x : Z) (rs : list (Z * Z)) (acc : Z * Z) : Z * Z :=
  match rs with
  | [] => acc
  | e :: rs' => if sel e <=? x then last_range sel x rs' e else acc
  end.

Definition indexGB18030RangesCodePointFor (pointer : Z) : option Z :=
  if ((39419 <? pointer) && (pointer <? 189000)) || (1237575 <? pointer) then None
  else if pointer =? 7457 then Some 0xE7C7
  else
    let '(offset, code_point_offset) := last_range fst pointer ranges (0, 0) in
    Some (code_point_offset + pointer - offset).

Definition indexGB18030RangesPointerFor (code_point : Z) : Z :=
  if code_point =? 0xE7C7 then 7457
  else
    let '(pointer_offset, offset) := last_range snd code_point ranges (0, 0) in
    pointer_offset + code_point - offset.

(** The result of [indexOf] as it is: -1 when there is no entry. *)
Definition indexShiftJISPointerFor (code_point : Z) : Z :=
  indexOf code_point 0 (exclude (fun p => inRange p 8272 8835) (index "jis0208")).

Definition indexBig5PointerFor (code_point : Z) : option Z :=
  let index_ := exclude (fun p => p <? (0xA1 - 0x81) * 157) (index "big5") in
  if bool_decide (code_point ∈ [0x2550; 0x255E; 0x2561; 0x256A; 0x5341; 0x5345]) then
    Some (lastIndexOf code_point 0 index_)
  else indexPointerFor code_point index_.
End indexes.

(** ** Encoders *)

Record encoder := Encoder {
  enc_state : Type;
  enc_new : enc_state;
  enc_handler : enc_state -> list Z -> Z -> outcome hres * enc_state * list Z
}.

(** An encoder without state. *)
Definition stateless (h : Z -> outcome hres) : encoder :=
  Encoder unit tt (fun _ stream code_point => (h code_point, tt, stream)).

(** A handler's code point, [null] being an error. *)
Definition emit_or_error (fatal : bool) (cp : option Z) : outcome hres :=
  match cp with Some cp => Ret (Emit [cp]) | None => decoderError fatal end.

(** ** Single-byte encodings *)

(** An argument [index] that is [undefined] throws as soon as it is read. *)
Definition no_index {A} : outcome A := type_error (js "Cannot read properties of undefined").

Definition SingleByteDecoder (idx : option (list (option Z))) : decoder :=
  Decoder unit tt (fun fatal _ stream bite =>
    (if bite =? end_of_stream then Ret Finished
     else if isASCIIByte bite then Ret (Emit [bite])
     else
       match idx with
       | None => no_index
       | Some idx =>
           match array_get idx (bite - 0x80) with
           | Some code_point => emit_or_error fatal code_point
           | None => Ret (Emit [0x10000])  (* [undefined] among the code points: what it prints as *)
           end
       end, tt, stream)).

Definition SingleByteEncoder (idx : option (list (option Z))) : encoder :=
  stateless (fun code_point =>
    if code_point =? end_of_stream then Ret Finished
    else if isASCIICodePoint code_point then Ret (Emit [code_point])
    else
      match idx with
      | None => no_index
      | Some idx =>
          match indexPointerFor code_point idx with
          | None => encoderError code_point
          | Some pointer => Ret (Emit [pointer + 0x80])
          end
      end).

(** ** UTF-16 *)

Definition convertCodeUnitToBytes (code_unit : Z) (utf16be : bool) : list Z :=
  let byte1 := Z.shiftr code_unit 8 in
  let byte2 := Z.land code_unit 0x00FF in
  if utf16be then [byte1; byte2] else [byte2; byte1].

Record utf16_state := Utf16 { utf16_lead_byte : option Z; utf16_lead_surrogate : option Z }.

Definition UTF16Decoder (utf16_be : bool) : decoder :=
  Decoder utf16_state (Utf16 None None) (fun fatal '(Utf16 lead_byte lead_surrogate) stream bite =>
    if bite =? end_of_stream then
      match lead_byte, lead_surrogate with
      | None, None => (Ret Finished, Utf16 None None, stream)
      | _, _ => (decoderError fatal, Utf16 lead_byte lead_surrogate, stream)
      end
    else
      match lead_byte with
      | None => (Ret Continue, Utf16 (Some bite) lead_surrogate, stream)
      | Some lead_byte =>
          let code_unit :=
            if utf16_be then Z.shiftl lead_byte 8 + bite else Z.shiftl bite 8 + lead_byte in
          match lead_surrogate with
          | Some lead_surrogate =>
              if inRange code_unit 0xDC00 0xDFFF then
                (Ret (Emit [0x10000 + (lead_surrogate - 0xD800) * 0x400 + (code_unit - 0xDC00)]),
                 Utf16 None None, stream)
              else
                (decoderError fatal, Utf16 None None,
                 prepend stream (convertCodeUnitToBytes code_unit utf16_be))
          | None =>
              if inRange code_unit 0xD800 0xDBFF then
                (Ret Continue, Utf16 None (Some code_unit), stream)
              else if inRange code_unit 0xDC00 0xDFFF then
                (decoderError fatal, Utf16 None None, stream)
              else (Ret (Emit [code_unit]), Utf16 None None, stream)
          end
      end).

Definition UTF16Encoder (utf16_be : bool) : encoder :=
  stateless (fun code_point =>
    if code_point =? end_of_stream then Ret Finished
    else if inRange code_point 0x0000 0xFFFF then
      Ret (Emit (convertCodeUnitToBytes code_point utf16_be))
    else
      let lead := convertCodeUnitToBytes (Z.shiftr (code_point - 0x10000) 10 + 0xD800) utf16_be in
      let trail := convertCodeUnitToBytes (Z.land (code_point - 0x10000) 0x3FF + 0xDC00) utf16_be in
      Ret (Emit (lead ++ trail))).

(** ** x-user-defined *)

Definition XUserDefinedDecoder : decoder :=
  Decoder unit tt (fun fatal _ stream bite =>
    (if bite =? end_of_stream then Ret Finished
     else if isASCIIByte bite then Ret (Emit [bite])
     else Ret (Emit [0xF780 + bite - 0x80]), tt, stream)).

Definition XUserDefinedEncoder : encoder :=
  stateless (fun code_point =>
    if code_point =? end_of_stream then Ret Finished
    else if isASCIICodePoint code_point then Ret (Emit [code_point])
    else if inRange code_point 0xF780 0xF7FF then Ret (Emit [code_point - 0xF780 + 0x80])
    else encoderError code_point).
