(* ===== verification/LegacyCjk.v ===== *)
(** text-encoding, the multi-byte East Asian encodings: state machines over the
    bytes, with their indexes as an argument. *)

From S2P Require Import Prelude JsVal TextEncoding Legacy.

(** [floor(p / n)] and [p % n] of the language. *)
Definition floor_div (p n : Z) : Z := p / n.
Definition js_mod (p n : Z) : Z := Z.rem p n.

Section cjk.
Context `{Indexes}.

(** ** gb18030 and GBK *)

Record gb_state := Gb { gb18030_first : Z; gb18030_second : Z; gb18030_third : Z }.

(** From the test for end-of-stream on. *)
Definition gb18030_rest (fatal : bool) (st : gb_state) (stream : list Z) (bite : Z)
    : outcome hres * gb_state * list Z :=
  let 'Gb first second third := st in
  if negb (third =? 0) then
    let code_point :=
      if inRange bite 0x30 0x39 then
        indexGB18030RangesCodePointFor
          ((((first - 0x81) * 10 + second - 0x30) * 126 + third - 0x81) * 10 + bite - 0x30)
      else None in
    match code_point with
    | None => (decoderError fatal, Gb 0 0 0, prepend stream [second; third; bite])
    | Some cp => (Ret (Emit [cp]), Gb 0 0 0, stream)
    end
  else if negb (second =? 0) then
    if inRange bite 0x81 0xFE then (Ret Continue, Gb first second bite, stream)
    else (decoderError fatal, Gb 0 0 third, prepend stream [second; bite])
  else if negb (first =? 0) then
    if inRange bite 0x30 0x39 then (Ret Continue, Gb first bite third, stream)
    else
      let lead := first in
      let offset := if bite <? 0x7F then 0x40 else 0x41 in
      let pointer :=
        if inRange bite 0x40 0x7E || inRange bite 0x80 0xFE then
          Some ((lead - 0x81) * 190 + (bite - offset))
        else None in
      let code_point := p ← pointer; indexCodePointFor p (index "gb18030") in
      match code_point with
      | None =>
          (decoderError fatal, Gb 0 second third,
           if isASCIIByte bite then prepend stream [bite] else stream)
      | Some cp => (Ret (Emit [cp]), Gb 0 second third, stream)
      end
  else if isASCIIByte bite then (Ret (Emit [bite]), st, stream)
  else if bite =? 0x80 then (Ret (Emit [0x20AC]), st, stream)
  else if inRange bite 0x81 0xFE then (Ret Continue, Gb bite second third, stream)
  else (decoderError fatal, st, stream).

(** At the end of the stream with bytes pending the error is not returned: it
    is only thrown when fatal, and the handler goes on. *)
Definition gb18030_handler (fatal : bool) (st : gb_state) (stream : list Z) (bite : Z)
    : outcome hres * gb_state * list Z :=
  let 'Gb first second third := st in
  let none_pending := (first =? 0) && (second =? 0) && (third =? 0) in
  if (bite =? end_of_stream) && none_pending then (Ret Finished, st, stream)
  else if bite =? end_of_stream then
    match decoderError fatal with
    | Throw e => (Throw e, Gb 0 0 0, stream)
    | _ => gb18030_rest fatal (Gb 0 0 0) stream bite
    end
  else gb18030_rest fatal st stream bite.

Definition GB18030Decoder : decoder := Decoder gb_state (Gb 0 0 0) gb18030_handler.

Definition GB18030Encoder (gbk_flag : bool) : encoder :=
  stateless (fun code_point =>
    if code_point =? end_of_stream then Ret Finished
    else if isASCIICodePoint code_point then Ret (Emit [code_point])
    else if code_point =? 0xE5E5 then encoderError code_point
    else if gbk_flag && (code_point =? 0x20AC) then Ret (Emit [0x80])
    else
      match indexPointerFor code_point (index "gb18030") with
      | Some pointer =>
          let lead := floor_div pointer 190 + 0x81 in
          let trail := js_mod pointer 190 in
          let offset := if trail <? 0x3F then 0x40 else 0x41 in
          Ret (Emit [lead; trail + offset])
      | None =>
          if gbk_flag then encoderError code_point
          else
            let pointer := indexGB18030RangesPointerFor code_point in
            let byte1 := floor_div pointer 12600 in
            let pointer := pointer - byte1 * 10 * 126 * 10 in
            let byte2 := floor_div pointer 1260 in
            let pointer := pointer - byte2 * 10 * 126 in
            let byte3 := floor_div pointer 10 in
            let byte4 := pointer - byte3 * 10 in
            Ret (Emit [byte1 + 0x81; byte2 + 0x30; byte3 + 0x81; byte4 + 0x30])
      end).

(** ** Big5 *)

(** A state of one pending lead byte, 0 when there is none. *)
Definition big5_handler (fatal : bool) (Big5_lead : Z) (stream : list Z) (bite : Z)
    : outcome hres * Z * list Z :=
  if (bite =? end_of_stream) && negb (Big5_lead =? 0) then (decoderError fatal, 0, stream)
  else if bite =? end_of_stream then (Ret Finished, Big5_lead, stream)
  else if negb (Big5_lead =? 0) then
    let lead := Big5_lead in
    let offset := if bite <? 0x7F then 0x40 else 0x62 in
    let pointer :=
      if inRange bite 0x40 0x7E || inRange bite 0xA1 0xFE then
        Some ((lead - 0x81) * 157 + (bite - offset))
      else None in
    if pointer ==? Some 1133 then (Ret (Emit [0x00CA; 0x0304]), 0, stream)
    else if pointer ==? Some 1135 then (Ret (Emit [0x00CA; 0x030C]), 0, stream)
    else if pointer ==? Some 1164 then (Ret (Emit [0x00EA; 0x0304]), 0, stream)
    else if pointer ==? Some 1166 then (Ret (Emit [0x00EA; 0x030C]), 0, stream)
    else
      let code_point := p ← pointer; indexCodePointFor p (index "big5") in
      match code_point with
      | None => (decoderError fatal, 0, if isASCIIByte bite then prepend stream [bite] else stream)
      | Some cp => (Ret (Emit [cp]), 0, stream)
      end
  else if isASCIIByte bite then (Ret (Emit [bite]), Big5_lead, stream)
  else if inRange bite 0x81 0xFE then (Ret Continue, bite, stream)
  else (decoderError fatal, Big5_lead, stream).

Definition Big5Decoder : decoder := Decoder Z 0 big5_handler.

Definition Big5Encoder : encoder :=
  stateless (fun code_point =>
    if code_point =? end_of_stream then Ret Finished
    else if isASCIICodePoint code_point then Ret (Emit [code_point])
    else
      match indexBig5PointerFor code_point with
      | None => encoderError code_point
      | Some pointer =>
          let lead := floor_div pointer 157 + 0x81 in
          if lead <? 0xA1 then encoderError code_point
          else
            let trail := js_mod pointer 157 in
            let offset := if trail <? 0x3F then 0x40 else 0x62 in
            Ret (Emit [lead; trail + offset])
      end).

(** ** EUC-JP *)

Record eucjp_state := EucJp { eucjp_jis0212_flag : bool; eucjp_lead : Z }.

Definition eucjp_handler (fatal : bool) (st : eucjp_state) (stream : list Z) (bite : Z)
    : outcome hres * eucjp_state * list Z :=
  let 'EucJp jis0212_flag lead := st in
  if (bite =? end_of_stream) && negb (lead =? 0) then
    (decoderError fatal, EucJp jis0212_flag 0, stream)
  else if bite =? end_of_stream then (Ret Finished, st, stream)
  else if (lead =? 0x8E) && inRange bite 0xA1 0xDF then
    (Ret (Emit [0xFF61 - 0xA1 + bite]), EucJp jis0212_flag 0, stream)
  else if (lead =? 0x8F) && inRange bite 0xA1 0xFE then
    (Ret Continue, EucJp true bite, stream)
  else if negb (lead =? 0) then
    let code_point :=
      if inRange lead 0xA1 0xFE && inRange bite 0xA1 0xFE then
        indexCodePointFor ((lead - 0xA1) * 94 + (bite - 0xA1))
          (index (if negb jis0212_flag then "jis0208" else "jis0212"))
      else None in
    let stream := if negb (inRange bite 0xA1 0xFE) then prepend stream [bite] else stream in
    (emit_or_error fatal code_point, EucJp false 0, stream)
  else if isASCIIByte bite then (Ret (Emit [bite]), st, stream)
  else if (bite =? 0x8E) || (bite =? 0x8F) || inRange bite 0xA1 0xFE then
    (Ret Continue, EucJp jis0212_flag bite, stream)
  else (decoderError fatal, st, stream).

Definition EUCJPDecoder : decoder := Decoder eucjp_state (EucJp false 0) eucjp_handler.

Definition EUCJPEncoder : encoder :=
  stateless (fun code_point =>
    if code_point =? end_of_stream then Ret Finished
    else if isASCIICodePoint code_point then Ret (Emit [code_point])
    else if code_point =? 0x00A5 then Ret (Emit [0x5C])
    else if code_point =? 0x203E then Ret (Emit [0x7E])
    else if inRange code_point 0xFF61 0xFF9F then Ret (Emit [0x8E; code_point - 0xFF61 + 0xA1])
    else
      let code_point := if code_point =? 0x2212 then 0xFF0D else code_point in
      match indexPointerFor code_point (index "jis0208") with
      | None => encoderError code_point
      | Some pointer =>
          Ret (Emit [floor_div pointer 94 + 0xA1; js_mod pointer 94 + 0xA1])
      end).

(** ** ISO-2022-JP *)

Inductive iso_state := ASCII | Roman | Katakana | LeadByte | TrailByte | EscapeStart | Escape.

Record iso2022jp_state := Iso {
  iso_decoder_state : iso_state;
  iso_output_state : iso_state;
  iso_lead : Z;
  iso_output_flag : bool
}.

(** A byte of the three states that read one character a byte. *)
Definition iso_single (fatal : bool) (st : iso2022jp_state) (stream : list Z) (bite : Z)
    (code_point : option Z) : outcome hres * iso2022jp_state * list Z :=
  let 'Iso ds os lead flag := st in
  if bite =? 0x1B then (Ret Continue, Iso EscapeStart os lead flag, stream)
  else
    match code_point with
    | Some cp => (Ret (Emit [cp]), Iso ds os lead false, stream)
    | None =>
        if bite =? end_of_stream then (Ret Finished, st, stream)
        else (decoderError fatal, Iso ds os lead false, stream)
    end.

Definition iso_ascii (bite : Z) : option Z :=
  if inRange bite 0x00 0x7F && negb (bite =? 0x0E) && negb (bite =? 0x0F) && negb (bite =? 0x1B)
  then Some bite else None.
Definition iso_roman (bite : Z) : option Z :=
  if bite =? 0x5C then Some 0x00A5 else if bite =? 0x7E then Some 0x203E else iso_ascii bite.
Definition iso_katakana (bite : Z) : option Z :=
  if inRange bite 0x21 0x5F then Some (0xFF61 - 0x21 + bite) else None.

(** The state an escape sequence names. *)
Definition iso_escape (lead bite : Z) : option iso_state :=
  if (lead =? 0x28) && (bite =? 0x42) then Some ASCII
  else if (lead =? 0x28) && (bite =? 0x4A) then Some Roman
  else if (lead =? 0x28) && (bite =? 0x49) then Some Katakana
  else if (lead =? 0x24) && ((bite =? 0x40) || (bite =? 0x42)) then Some LeadByte
  else None.

Definition iso2022jp_handler (fatal : bool) (st : iso2022jp_state) (stream : list Z) (bite : Z)
    : outcome hres * iso2022jp_state * list Z :=
  let 'Iso ds os lead flag := st in
  match ds with
  | ASCII => iso_single fatal st stream bite (iso_ascii bite)
  | Roman => iso_single fatal st stream bite (iso_roman bite)
  | Katakana => iso_single fatal st stream bite (iso_katakana bite)
  | LeadByte =>
      if bite =? 0x1B then (Ret Continue, Iso EscapeStart os lead flag, stream)
      else if inRange bite 0x21 0x7E then (Ret Continue, Iso TrailByte os bite false, stream)
      else if bite =? end_of_stream then (Ret Finished, st, stream)
      else (decoderError fatal, Iso ds os lead false, stream)
  | TrailByte =>
      if bite =? 0x1B then (decoderError fatal, Iso EscapeStart os lead flag, stream)
      else if inRange bite 0x21 0x7E then
        (emit_or_error fatal (indexCodePointFor ((lead - 0x21) * 94 + bite - 0x21) (index "jis0208")),
         Iso LeadByte os lead flag, stream)
      else if bite =? end_of_stream then
        (decoderError fatal, Iso LeadByte os lead flag, prepend stream [bite])
      else (decoderError fatal, Iso LeadByte os lead flag, stream)
  | EscapeStart =>
      if (bite =? 0x24) || (bite =? 0x28) then (Ret Continue, Iso Escape os bite flag, stream)
      else (decoderError fatal, Iso os os lead false, prepend stream [bite])
  | Escape =>
      match iso_escape lead bite with
      | Some state =>
          (* the source assigns [decoder_state] twice and never [output_state] *)
          (if negb flag then Ret Continue else decoderError fatal, Iso state os 0 true, stream)
      | None => (decoderError fatal, Iso os os 0 false, prepend stream [lead; bite])
      end
  end.

Definition ISO2022JPDecoder : decoder :=
  Decoder iso2022jp_state (Iso ASCII ASCII 0 false) iso2022jp_handler.

Inductive iso_enc_state := EncASCII | EncRoman | EncJis0208.

Definition iso2022jp_encode (st : iso_enc_state) (stream : list Z) (code_point : Z)
    : outcome hres * iso_enc_state * list Z :=
  let is_roman := match st with EncRoman => true | _ => false end in
  let is_ascii := match st with EncASCII => true | _ => false end in
  let is_jis := match st with EncJis0208 => true | _ => false end in
  if (code_point =? end_of_stream) && negb is_ascii then
    (Ret (Emit [0x1B; 0x28; 0x42]), EncASCII, prepend stream [code_point])
  else if (code_point =? end_of_stream) && is_ascii then (Ret Finished, st, stream)
  else if (is_ascii || is_roman) && ((code_point =? 0x0E) || (code_point =? 0x0F) || (code_point =? 0x1B))
  then (encoderError 0xFFFD, st, stream)
  else if is_ascii && isASCIICodePoint code_point then (Ret (Emit [code_point]), st, stream)
  else if is_roman &&
    ((isASCIICodePoint code_point && negb (code_point =? 0x5C) && negb (code_point =? 0x7E))
     || ((code_point =? 0xA5) || (code_point =? 0x203E)))
  then
    (Ret (Emit [if isASCIICodePoint code_point then code_point
                else if code_point =? 0xA5 then 0x5C else 0x7E]), st, stream)
  else if isASCIICodePoint code_point && negb is_ascii then
    (Ret (Emit [0x1B; 0x28; 0x42]), EncASCII, prepend stream [code_point])
  else if ((code_point =? 0xA5) || (code_point =? 0x203E)) && negb is_roman then
    (Ret (Emit [0x1B; 0x28; 0x4A]), EncRoman, prepend stream [code_point])
  else
    let code_point := if code_point =? 0x2212 then 0xFF0D else code_point in
    match indexPointerFor code_point (index "jis0208") with
    | None => (encoderError code_point, st, stream)
    | Some pointer =>
        if negb is_jis then
          (Ret (Emit [0x1B; 0x24; 0x42]), EncJis0208, prepend stream [code_point])
        else (Ret (Emit [floor_div pointer 94 + 0x21; js_mod pointer 94 + 0x21]), st, stream)
    end.

Definition ISO2022JPEncoder : encoder := Encoder iso_enc_state EncASCII iso2022jp_encode.

(** ** Shift_JIS *)

Definition shift_jis_handler (fatal : bool) (Shift_JIS_lead : Z) (stream : list Z) (bite : Z)
    : outcome hres * Z * list Z :=
  if (bite =? end_of_stream) && negb (Shift_JIS_lead =? 0) then (decoderError fatal, 0, stream)
  else if bite =? end_of_stream then (Ret Finished, Shift_JIS_lead, stream)
  else if negb (Shift_JIS_lead =? 0) then
    let lead := Shift_JIS_lead in
    let offset := if bite <? 0x7F then 0x40 else 0x41 in
    let lead_offset := if lead <? 0xA0 then 0x81 else 0xC1 in
    let pointer :=
      if inRange bite 0x40 0x7E || inRange bite 0x80 0xFC then
        Some ((lead - lead_offset) * 188 + bite - offset)
      else None in
    match pointer with
    | Some p =>
        if inRange p 8836 10715 then (Ret (Emit [0xE000 - 8836 + p]), 0, stream)
        else
          match indexCodePointFor p (index "jis0208") with
          | None => (decoderError fatal, 0, if isASCIIByte bite then prepend stream [bite] else stream)
          | Some cp => (Ret (Emit [cp]), 0, stream)
          end
    | None => (decoderError fatal, 0, if isASCIIByte bite then prepend stream [bite] else stream)
    end
  else if isASCIIByte bite || (bite =? 0x80) then (Ret (Emit [bite]), Shift_JIS_lead, stream)
  else if inRange bite 0xA1 0xDF then (Ret (Emit [0xFF61 - 0xA1 + bite]), Shift_JIS_lead, stream)
  else if inRange bite 0x81 0x9F || inRange bite 0xE0 0xFC then (Ret Continue, bite, stream)
  else (decoderError fatal, Shift_JIS_lead, stream).

Definition ShiftJISDecoder : decoder := Decoder Z 0 shift_jis_handler.

(** The pointer is compared with [null], which [indexShiftJISPointerFor] never
    returns. *)
Definition ShiftJISEncoder : encoder :=
  stateless (fun code_point =>
    if code_point =? end_of_stream then Ret Finished
    else if isASCIICodePoint code_point || (code_point =? 0x80) then Ret (Emit [code_point])
    else if code_point =? 0xA5 then Ret (Emit [0x5C])
    else if code_point =? 0x203E then Ret (Emit [0x7E])
    else if inRange code_point 0xFF61 0xFF9F then Ret (Emit [code_point - 0xFF61 + 0xA1])
    else
      let code_point := if code_point =? 0x2212 then 0xFF0D else code_point in
      let pointer := indexShiftJISPointerFor code_point in
      let lead := floor_div pointer 188 in
      let lead_offset := if lead <? 0x1F then 0x81 else 0xC1 in
      let trail := js_mod pointer 188 in
      let offset := if trail <? 0x3F then 0x40 else 0x41 in
      Ret (Emit [lead + lead_offset; trail + offset])).

(** ** EUC-KR *)

Definition euckr_handler (fatal : bool) (euckr_lead : Z) (stream : list Z) (bite : Z)
    : outcome hres * Z * list Z :=
  if (bite =? end_of_stream) && negb (euckr_lead =? 0) then (decoderError fatal, 0, stream)
  else if bite =? end_of_stream then (Ret Finished, euckr_lead, stream)
  else if negb (euckr_lead =? 0) then
    let lead := euckr_lead in
    let pointer :=
      if inRange bite 0x41 0xFE then Some ((lead - 0x81) * 190 + (bite - 0x41)) else None in
    let code_point := p ← pointer; indexCodePointFor p (index "euc-kr") in
    let stream :=
      if negb (bool_decide (is_Some pointer)) && isASCIIByte bite then prepend stream [bite] else stream in
    (emit_or_error fatal code_point, 0, stream)
  else if isASCIIByte bite then (Ret (Emit [bite]), euckr_lead, stream)
  else if inRange bite 0x81 0xFE then (Ret Continue, bite, stream)
  else (decoderError fatal, euckr_lead, stream).

Definition EUCKRDecoder : decoder := Decoder Z 0 euckr_handler.

Definition EUCKREncoder : encoder :=
  stateless (fun code_point =>
    if code_point =? end_of_stream then Ret Finished
    else if isASCIICodePoint code_point then Ret (Emit [code_point])
    else
      match indexPointerFor code_point (index "euc-kr") with
      | None => encoderError code_point
      | Some pointer => Ret (Emit [floor_div pointer 190 + 0x81; js_mod pointer 190 + 0x41])
      end).
End cjk.
