(* ===== verification/Codecs.v ===== *)
(** text-encoding, the registries of decoders and encoders by encoding name, the
    TextDecoder and TextEncoder constructors, and [TextEncoder.encode] for an
    encoder with state. *)

From S2P Require Import Prelude JsVal TextEncoding Labels Tables Legacy LegacyCjk.

(** [name.toLowerCase()] of an ASCII name. *)
Definition lower_ascii (a : ascii) : ascii :=
  let n := nat_of_ascii a in
  if ((65 <=? n) && (n <=? 90))%nat then ascii_of_nat (n + 32) else a.
Fixpoint lower_string (s : string) : string :=
  match s with
  | EmptyString => EmptyString
  | String a s' => String (lower_ascii a) (lower_string s')
  end.

Definition UTF8Encoder : encoder := stateless (fun code_point => Ret (utf8_encode_handler code_point)).

Section registry.
Context `{Indexes}.

(** The names of the category whose codecs are registered in a loop. *)
Definition single_byte_names : list string :=
  concat (map (fun c =>
    if String.eqb (cat_heading c) "Legacy single-byte encodings" then map enc_name (cat_encodings c) else [])
    encodings).

(** [index(name)] in the loop. *)
Definition single_byte_index (name : string) : option (list (option Z)) :=
  snd <$> List.find (fun e => String.eqb e.1 name) single_byte_tables.

(** The codecs registered one by one. *)
Definition other_codecs : list (string * (decoder * encoder)) :=
  [ ("UTF-8", (UTF8Decoder, UTF8Encoder));
    ("GBK", (GB18030Decoder, GB18030Encoder true));
    ("gb18030", (GB18030Decoder, GB18030Encoder false));
    ("Big5", (Big5Decoder, Big5Encoder));
    ("EUC-JP", (EUCJPDecoder, EUCJPEncoder));
    ("ISO-2022-JP", (ISO2022JPDecoder, ISO2022JPEncoder));
    ("Shift_JIS", (ShiftJISDecoder, ShiftJISEncoder));
    ("EUC-KR", (EUCKRDecoder, EUCKREncoder));
    ("UTF-16BE", (UTF16Decoder true, UTF16Encoder true));
    ("UTF-16LE", (UTF16Decoder false, UTF16Encoder false));
    ("x-user-defined", (XUserDefinedDecoder, XUserDefinedEncoder)) ]%string.

(** Both registries: they have the same names. *)
Definition codecs (name : string) : option (decoder * encoder) :=
  if existsb (String.eqb name) single_byte_names then
    let idx := single_byte_index (lower_string name) in Some (SingleByteDecoder idx, SingleByteEncoder idx)
  else snd <$> List.find (fun e => String.eqb e.1 name) other_codecs.
Definition decoders (name : string) : option decoder := fst <$> codecs name.
Definition encoders (name : string) : option encoder := snd <$> codecs name.

Definition unknown_encoding {A} (label : jsstr) : outcome A :=
  range_error (js "Unknown encoding: " ++ label).
Definition not_present {A} (what : string) : outcome A :=
  Throw (JErr PlainError (js (what ++ " not present. Did you forget to include encoding-indexes.js first?"))).

(** [new TextDecoder(label, {fatal, ignoreBOM})] *)
Definition TextDecoder (label : option jsstr) (fatal ignoreBOM : bool) : outcome textdecoder :=
  let label := default (js "utf-8") label in
  match getEncoding label with
  | None => unknown_encoding label
  | Some encoding =>
      if String.eqb (enc_name encoding) "replacement" then unknown_encoding label
      else
        match decoders (enc_name encoding) with
        | None => not_present "Decoder"
        | Some D => Ret (TextDec (js (enc_name encoding)) D fatal ignoreBOM None false false)
        end
  end.

(** [new TextEncoder(label, {NONSTANDARD_allowLegacyEncoding})]: the name of the
    encoding it keeps. *)
Definition TextEncoder (label : option jsstr) (allowLegacy : bool) : outcome string :=
  if allowLegacy then
    let label := default (js "utf-8") label in
    match getEncoding label with
    | None => unknown_encoding label
    | Some encoding =>
        if String.eqb (enc_name encoding) "replacement" then unknown_encoding label
        else
          match encoders (enc_name encoding) with
          | None => not_present "Encoder"
          | Some _ => Ret (enc_name encoding)
          end
    end
  else
    match getEncoding (js "utf-8") with
    | Some encoding => Ret (enc_name encoding)
    | None => type_error (js "Cannot read properties of null")
    end.
End registry.

(** ** [TextEncoder.prototype.encode] with any encoder *)

Section encode.
Context (E : encoder).

Fixpoint enc_loop (fuel : nat) (st : enc_state E) (stream output : list Z)
    : outcome (list Z * enc_state E * list Z) :=
  match fuel with
  | O => Running
  | S f =>
      let '(token, stream) := read stream in
      if token =? end_of_stream then Ret (output, st, stream)
      else
        let '(result, st, stream) := enc_handler E st stream token in
        match result with
        | Ret Finished => Ret (output, st, stream)
        | Ret Continue => enc_loop f st stream (output ++ [0]) (* [null] in a Uint8Array *)
        | Ret (Emit out) => enc_loop f st stream (output ++ out)
        | Throw e => Throw e
        | Running => Running
        end
  end.

Fixpoint enc_flush (fuel : nat) (st : enc_state E) (stream output : list Z) : outcome (list Z) :=
  match fuel with
  | O => Running
  | S f =>
      let '(token, stream) := read stream in
      let '(result, st, stream) := enc_handler E st stream token in
      match result with
      | Ret Finished => Ret output
      | Ret Continue => enc_flush f st stream (output ++ [0])
      | Ret (Emit out) => enc_flush f st stream (output ++ out)
      | Throw e => Throw e
      | Running => Running
      end
  end.

(** One non-streaming call. A handler puts back at most the code point it has
    read, and then consumes it. *)
Definition encode_with (s : jsstr) : outcome (list Z) :=
  let cps := stringToCodePoints s in
  let fuel := (2 * length cps + 2)%nat in
  '(output, st, stream) ← enc_loop fuel (enc_new E) (Stream cps) [];
  output ← enc_flush fuel st stream output;
  Ret (map to_uint8 output).
End encode.
