(* ===== verification/Dial.v ===== *)
(** neffos.js, dialing: the handler table, the endpoint and its headers, the
    WebSocket's callbacks, and reconnection.

    An [attempt] is one run of [_dial]: its promise, its connection's world, and
    whether the socket's callbacks are installed. The network - the socket's
    events, the answers of [fetch], the passing of time - is the input. *)

From S2P Require Import Prelude JsVal JsMap Message World Conn.

(** ** The handler table *)

(** A value of the object given to [dial]: a function, a Map, or an object. *)
Inductive handler_value :=
  | HFun (h : handler)
  | HMap (m : events)
  | HObj (fields : list (jsstr * handler)).

(** [Object.keys(value).forEach(k => m.set(k, value[k]))] *)
Definition obj_events (fields : list (jsstr * handler)) : events :=
  fold_left (fun m '(k, h) => <[Some k := h]> m) fields jm_new.

Definition mix_error (n total : nat) : jsstr :=
  js "all keys of connHandler should be events, mix of namespaces and event callbacks is not supported "
  ++ num_to_str (Z.of_nat n) ++ js " vs total " ++ num_to_str (Z.of_nat total).

(** The result is the namespaces, or the text [reject] is called with. The
    object is the list of its own keys in the order of [Object.keys]. *)
Definition resolveNamespaces (obj : option (list (jsstr * handler_value)))
    : jmap key events + jsstr :=
  match obj with
  | None => inr (js "connHandler is empty.")
  | Some obj =>
      let '(namespaces, events, totalKeys) :=
        fold_left (fun '(nss, evs, n) '(k, v) =>
          match v with
          | HFun h => (nss, <[Some k := h]> evs, S n)
          | HMap m => (<[Some k := m]> nss, evs, S n)
          | HObj fields => (<[Some k := obj_events fields]> nss, evs, S n)
          end) obj (jm_new : jmap key World.events, jm_new : World.events, 0%nat) in
      if (0 <? jm_size events)%nat then
        if negb (totalKeys =? jm_size events)%nat then inr (mix_error (jm_size events) totalKeys)
        else inl (<[Some [] := events]> namespaces)
      else inl namespaces
  end.

(** ** The endpoint *)

(** [s.indexOf(c) != -1] and [s.split(c)[i]] for a one-unit separator. *)
Definition has_unit (c : Z) (s : jsstr) : bool := bool_decide (c ∈ s).
Definition split_nth (c : Z) (s : jsstr) (i : nat) : jsstr := default (js "undefined") (split c s !! i).

Definition URLParamAsHeaderPrefix : jsstr := js "X-Websocket-Header-".
Definition websocketReconnectHeaderKey : jsstr := js "X-Websocket-Reconnect".

(** [encodeURIComponent]: UTF-8, every byte percent-encoded but letters, digits
    and [-_.!~*'()]; a lone surrogate throws. *)
Definition unreserved (c : Z) : bool :=
  ((97 <=? c) && (c <=? 122)) || ((65 <=? c) && (c <=? 90)) || ((48 <=? c) && (c <=? 57))
  || bool_decide (c ∈ js "-_.!~*'()").
Definition hex_digit (d : Z) : Z := if d <? 10 then 48 + d else 55 + d.
Definition percent (b : Z) : jsstr := [37; hex_digit (b / 16); hex_digit (b mod 16)].
Definition utf8_of (cp : Z) : list Z :=
  if cp <? 0x80 then [cp]
  else if cp <? 0x800 then [0xC0 + cp / 64; 0x80 + cp mod 64]
  else if cp <? 0x10000 then [0xE0 + cp / 4096; 0x80 + (cp / 64) mod 64; 0x80 + cp mod 64]
  else [0xF0 + cp / 262144; 0x80 + (cp / 4096) mod 64; 0x80 + (cp / 64) mod 64; 0x80 + cp mod 64].
Fixpoint encodeURIComponent (s : jsstr) : outcome jsstr :=
  let uri_error := Throw (JErr URIErr (js "URI malformed")) in
  let enc cp := if unreserved cp then [cp] else concat (map percent (utf8_of cp)) in
  match s with
  | [] => Ret []
  | c :: s' =>
      if (c <? 0xD800) || (0xDFFF <? c) then
        r ← encodeURIComponent s'; Ret (enc c ++ r)
      else if 0xDC00 <=? c then uri_error
      else
        match s' with
        | d :: s'' =>
            if (0xDC00 <=? d) && (d <=? 0xDFFF) then
              r ← encodeURIComponent s'';
              Ret (enc (0x10000 + (c - 0xD800) * 0x400 + (d - 0xDC00)) ++ r)
            else uri_error
        | [] => uri_error
        end
  end.

Definition add_part (part url : jsstr) : jsstr :=
  if has_unit 63 url then split_nth 63 url 0 ++ [63] ++ part ++ [38] ++ split_nth 63 url 1
  else if has_unit 35 url then split_nth 35 url 0 ++ [63] ++ part ++ [35] ++ split_nth 35 url 1
  else url ++ [63] ++ part.

(** The headers are an object: a map in insertion order. *)
Definition parseHeadersAsURLParameters (headers : option (jmap jsstr jsstr)) (url : jsstr)
    : outcome jsstr :=
  match headers with
  | None => Ret url
  | Some headers =>
      foldl (fun url '(_, (k, v)) =>
        url ← url;
        k ← encodeURIComponent (URLParamAsHeaderPrefix ++ k);
        v ← encodeURIComponent v;
        Ret (add_part (k ++ [61] ++ v) url)) (Ret url) (jm_ents headers)
  end.

(** [document.location] *)
Record location := Location { loc_protocol : jsstr; loc_hostname : jsstr; loc_port : jsstr }.

(** The first lines of [_dial]. *)
Definition dial_endpoint (isBrowser : bool) (loc : location) (endpoint : jsstr) : jsstr :=
  let endpoint :=
    match strip (js "/") endpoint with
    | Some _ =>
        if isBrowser then
          let scheme := if loc_protocol loc ==? js "https:" then js "wss" else js "ws" in
          let port := if loc_port loc ==? [] then [] else js ":" ++ loc_port loc in
          scheme ++ js "://" ++ loc_hostname loc ++ port ++ endpoint
        else endpoint
    | None => endpoint
    end in
  if contains (js "ws") endpoint then endpoint else js "ws://" ++ endpoint.

(** ** Options *)

Record options := Options {
  o_headers : jmap jsstr jsstr;
  o_protocols : option (list jsstr);
  o_reconnect : Z     (* 0 when absent *)
}.
Definition no_options : options := Options jm_new None 0.

(** The reconnect header: set from the count of tries, or removed. *)
Definition dial_headers (tries : Z) (o : options) : options :=
  if (0 <? tries) && (0 <? o_reconnect o) then
    Options (<[websocketReconnectHeaderKey := num_to_str tries]> (o_headers o)) (o_protocols o) (o_reconnect o)
  else if jm_has (o_headers o) websocketReconnectHeaderKey then
    Options (delete websocketReconnectHeaderKey (o_headers o)) (o_protocols o) (o_reconnect o)
  else o.

(** What [new WebSocket] is called with. *)
Inductive ws_request :=
  | BrowserSocket (url : jsstr) (protocols : option (list jsstr))
  | NodeSocket (url : jsstr) (o : options).

Definition makeWebsocketConnection (isBrowser : bool) (endpoint : jsstr) (o : options)
    : outcome ws_request :=
  if isBrowser then
    url ← parseHeadersAsURLParameters (Some (o_headers o)) endpoint;
    Ret (BrowserSocket url (o_protocols o))
  else Ret (NodeSocket endpoint o).

(** [endpoint.replace(/(ws)(s)?\:\/\//, "http$2://")] *)
Fixpoint http_endpoint (endpoint : jsstr) : jsstr :=
  match endpoint with
  | [] => []
  | c :: rest =>
      match strip (js "wss://") endpoint, strip (js "ws://") endpoint with
      | Some r, _ => js "https://" ++ r
      | None, Some r => js "http://" ++ r
      | None, None => c :: http_endpoint rest
      end
  end.

(** ** An attempt to connect *)

Inductive dial_result := Connected | Failed (e : jsval).

Record attempt := Attempt {
  a_world : world;
  a_result : option dial_result;      (* the promise of this [_dial] *)
  a_installed : bool;                 (* the socket's callbacks *)
  a_endpoint : jsstr;
  a_options : options
}.

(** Only the first settlement counts. *)
Definition finish (r : dial_result) (a : attempt) : attempt :=
  match a_result a with
  | None => Attempt (a_world a) (Some r) (a_installed a) (a_endpoint a) (a_options a)
  | Some _ => a
  end.
Definition with_world (w : world) (a : attempt) : attempt :=
  Attempt w (a_result a) (a_installed a) (a_endpoint a) (a_options a).

Section dial.
Context `{TextCodec} `{Env}.
Context (isBrowser : bool) (loc : location).
Context (WebSocket_throws : ws_request -> option jsval).   (* the platform's constructor *)

(** [_dial]: the attempt with its callbacks installed, or the reason the promise
    is rejected with before there is a connection. *)
Definition dial_ (endpoint : jsstr) (connHandler : option (list (jsstr * handler_value)))
    (tries : Z) (o : options) : attempt + jsval :=
  let endpoint := dial_endpoint isBrowser loc endpoint in
  match resolveNamespaces connHandler with
  | inr text => inr (JStr text)
  | inl namespaces =>
      let o := dial_headers tries o in
      match makeWebsocketConnection isBrowser endpoint o with
      | Ret req =>
          match WebSocket_throws req with
          | Some e => inr e
          | None =>
              inl (Attempt (World (new_Conn namespaces tries) (Heap [] [] [] []) (Io [] false 0 0 []))
                     None true endpoint o)
          end
      | Throw e => inr e
      | Running => inr JUndef
      end
  end.

Definition dial (endpoint : jsstr) (connHandler : option (list (jsstr * handler_value)))
    (o : options) : attempt + jsval := dial_ endpoint connHandler 0 o.

(** [ws.onopen]; the socket is OPEN. *)
Definition onopen (a : attempt) : attempt :=
  let a := with_world (upd_io (set_open true) (a_world a)) a in
  if a_installed a then with_world (ws_send (JStr ackBinary) (a_world a)).2 a else a.

(** [ws.onmessage] *)
Definition onmessage (data : frame) (a : attempt) : attempt :=
  if a_installed a then
    let '(r, w) := handle data (a_world a) in
    let a := with_world w a in
    match r with
    | Ret err =>
        if negb (isEmpty err) then finish (Failed err) a
        else if c_isAcknowledged (w_conn w) then finish Connected a
        else a
    | _ => a
    end
  else a.

(** [ws.onerror] *)
Definition onerror (err : jsval) (a : attempt) : attempt :=
  if a_installed a then
    let '(r, w) := close (a_world a) in
    match r with
    | Ret _ => finish (Failed err) (with_world w a)
    | _ => with_world w a
    end
  else a.

(** The connected namespaces, each with the names of its rooms. *)
Definition previously (w : world) : jmap key (list key) :=
  fold_left (fun prev '(_, (name, ns)) =>
    let rooms := match h_nsconns (w_heap w) !! ns with Some nsc => jm_keys (ns_rooms nsc) | None => [] end in
    <[name := rooms]> prev) (jm_ents (c_connectedNamespaces (w_conn w))) jm_new.

(** [ws.onclose], the socket being CLOSED: the attempt afterwards, and what is to
    be restored when the endpoint is back, if it is to be dialed again. A throw
    of [close] leaves the callback before anything is dialed. *)
Definition onclose (a : attempt) : attempt * option (jmap key (list key)) :=
  let w := upd_io (set_open false) (a_world a) in
  if a_installed a then
    if c_closed (w_conn w) then (with_world w a, None)
    else
      let off w := Attempt w (a_result a) false (a_endpoint a) (a_options a) in
      let '(r, w') := close w in
      if o_reconnect (a_options a) <=? 0 then (off w', None)
      else
        match r with
        | Ret _ => (off w', Some (previously w))
        | _ => (off w', None)
        end
  else (with_world w a, None).

(** [whenResourceOnline]: the answers of the HEAD requests, one every
    [checkEvery] milliseconds; the number of tries it notifies with. *)
Fixpoint whenResourceOnline (answers : list bool) (tries : Z) : option Z :=
  match answers with
  | [] => None
  | true :: _ => Some tries
  | false :: answers => whenResourceOnline answers (tries + 1)
  end.

(** The endpoint answers again: the same handlers are dialed, with the number of
    tries and the options the first attempt left. *)
Definition redial (a : attempt) (connHandler : option (list (jsstr * handler_value)))
    (answers : list bool) : option (attempt + jsval) :=
  tries ← whenResourceOnline answers 1;
  Some (dial_ (a_endpoint a) connHandler tries (a_options a)).

(** The new connection is ready and the caller was awaiting, not chaining: the
    namespaces are connected again, and when each is, its rooms joined. *)
Definition rejoin (prev : jmap key (list key)) : M unit :=
  foldr (fun '(_, (name, rooms)) m => p ← connect name; await p (AwaitRejoin rooms);; m)
    (mret tt) (jm_ents prev).
End dial.
