(* ===== verification/BufferMem.v ===== *)
(** The memory behind the bundled [buffer] package (bundle.js 4985-6788):
    ArrayBuffers, the views on them that Uint8Arrays and Buffers are, and the
    package's constructor of blank ones and [slice], which share memory.

    Numbers are integers, [None] stands for an argument left undefined. *)

From S2P Require Import Prelude JsVal Int32 TextEncoding.

(** ** Memory and views *)

(** The contents of the ArrayBuffers, by their number. *)
Abbreviation mem := (list (list Z)).

(** A typed array: its ArrayBuffer, and the window it has of it. *)
Record view := View { v_buffer : nat; byteOffset : nat; v_length : nat }.
#[global] Instance view_eq_dec : EqDecision view.
Proof. solve_decision. Defined.

(** [this.length] *)
Definition len (b : view) : Z := Z.of_nat (v_length b).

Definition contents (a : nat) (m : mem) : list Z := default [] (m !! a).
(** The bytes a view shows. *)
Definition bytes (b : view) (m : mem) : list Z :=
  firstn (v_length b) (skipn (byteOffset b) (contents (v_buffer b) m)).

(** The window lies within the ArrayBuffer. *)
Definition valid (b : view) (m : mem) : Prop :=
  (v_buffer b < length m)%nat /\ (byteOffset b + v_length b <= length (contents (v_buffer b) m))%nat.

(** What code that touches memory does: it returns or throws, with the memory
    as it is then. *)
Definition BM (A : Type) : Type := mem -> outcome A * mem.
#[global] Instance BM_ret : MRet BM := fun A a m => (Ret a, m).
#[global] Instance BM_bind : MBind BM := fun A B f x m =>
  match x m with
  | (Ret a, m) => f a m
  | (Throw e, m) => (Throw e, m)
  | (Running, m) => (Running, m)
  end.
Definition lift {A} (o : outcome A) : BM A := fun m => (o, m).
Definition throw_ {A} (c : errclass) (msg : jsstr) : BM A := lift (Throw (JErr c msg)).

(** [b[i]], undefined out of range; [b[i] = x], ignored out of range. *)
Definition get (b : view) (i : Z) : BM (option Z) := fun m => (Ret (at_ (bytes b m) i), m).
Definition in_window (b : view) (i : Z) : bool := (0 <=? i) && (i <? len b).
Definition put (b : view) (i x : Z) : BM unit := fun m =>
  (Ret tt, if in_window b i
           then alter (<[(byteOffset b + Z.to_nat i)%nat := to_uint8 x]>) (v_buffer b) m else m).
Definition all_bytes (b : view) : BM (list Z) := fun m => (Ret (bytes b m), m).

(** The values of [xs] stored one after the other. *)
Fixpoint put_all (b : view) (i : Z) (xs : list Z) : BM unit :=
  match xs with
  | [] => mret tt
  | x :: xs => put b i x;; put_all b (i + 1) xs
  end.

(** [new Uint8Array(n)] *)
Definition new_array (n : nat) : BM view := fun m =>
  (Ret (View (length m) 0 n), m ++ [replicate n 0]).
(** [new Uint8Array(buffer, offset, length)] *)
Definition new_view (a : nat) (offset : Z) (length_ : option Z) : BM view := fun m =>
  let size := Z.of_nat (length (contents a m)) in
  let n := default (size - offset) length_ in
  if (offset <? 0) || (n <? 0) || (size <? offset + n)
  then (Throw (JErr RangeErr (js "Invalid typed array length")), m)
  else (Ret (View a (Z.to_nat offset) (Z.to_nat n)), m).

(** ** The package's use of it *)

Definition K_MAX_LENGTH : Z := 0x7fffffff.

Definition invalid_size (size : Z) : jsstr :=
  js "The value " ++ [34] ++ num_to_str size ++ [34] ++ js " is invalid for option "
    ++ [34] ++ js "size" ++ [34].

Definition createBuffer (length_ : Z) : BM view :=
  if K_MAX_LENGTH <? length_ then throw_ RangeErr (invalid_size length_)
  else if length_ <? 0 then throw_ RangeErr (js "Invalid typed array length: " ++ num_to_str length_)
  else new_array (Z.to_nat length_).

Definition checked (length_ : Z) : outcome Z :=
  if K_MAX_LENGTH <=? length_
  then Throw (JErr RangeErr (js "Attempt to allocate Buffer larger than maximum size: 0x7fffffff bytes"))
  else Ret (i32 length_).

Definition allocUnsafe (size : Z) : BM view :=
  if size <? 0 then throw_ RangeErr (invalid_size size)
  else n ← lift (checked size); createBuffer (i32 n).

(** [subarray] within the bounds that [slice] has computed. *)
Definition subarray (b : view) (start end_ : Z) : view :=
  View (v_buffer b) (byteOffset b + Z.to_nat start) (Z.to_nat (end_ - start)).

(** An index of [slice]: from the end when negative, within the buffer. *)
Definition slice_index (n i : Z) : Z :=
  if i <? 0 then (if i + n <? 0 then 0 else i + n) else if n <? i then n else i.
Definition slice (b : view) (start end_ : option Z) : view :=
  let n := len b in
  let start := slice_index n (i32 (default 0 start)) in
  let end_ := slice_index n (match end_ with None => n | Some e => i32 e end) in
  subarray b start (if end_ <? start then start else end_).

(** [swap(b, n, m)] *)
Definition swap (b : view) (n m : Z) : BM unit :=
  i ← get b n;
  j ← get b m;
  put b n (default 0 j);;
  put b m (default 0 i).

(** [for (var i = 0; i < len; i += step) body] *)
Fixpoint every (fuel : nat) (step len_ i : Z) (body : Z -> BM unit) : BM unit :=
  match fuel with
  | O => mret tt
  | S f => if i <? len_ then body i;; every f step len_ (i + step) body else mret tt
  end.

Definition multiple_of (n : Z) : jsstr := js "Buffer size must be a multiple of " ++ num_to_str n ++ js "-bits".
Definition swap16 (b : view) : BM view :=
  if negb (len b mod 2 =? 0) then throw_ RangeErr (multiple_of 16)
  else every (v_length b) 2 (len b) 0 (fun i => swap b i (i + 1));; mret b.
Definition swap32 (b : view) : BM view :=
  if negb (len b mod 4 =? 0) then throw_ RangeErr (multiple_of 32)
  else every (v_length b) 4 (len b) 0 (fun i => swap b i (i + 3);; swap b (i + 1) (i + 2));; mret b.
Definition swap64 (b : view) : BM view :=
  if negb (len b mod 8 =? 0) then throw_ RangeErr (multiple_of 64)
  else every (v_length b) 8 (len b) 0
         (fun i => swap b i (i + 7);; swap b (i + 1) (i + 6);; swap b (i + 2) (i + 5);; swap b (i + 3) (i + 4));;
       mret b.
