(* ===== verification/BufferText.v ===== *)
(** The text encodings of the bundled [buffer] package (bundle.js 5356-5373,
    5925-6069 and 6624-6785): from a string to bytes, and from the bytes of a
    buffer to a string. *)

From S2P Require Import Prelude JsVal Int32 TextEncoding Labels Base64.

(** ** From strings to bytes *)

(** [units -= n], where [None] is Infinity; and [units > -1] after it. *)
Definition minus (units : option Z) (n : Z) : option Z := option_map (fun u => u - n) units.
Definition enough (units : option Z) : bool := match units with Some u => -1 <? u | None => true end.

Definition replacement : list Z := [0xEF; 0xBF; 0xBD].
Definition replaced (units : option Z) : list Z := if enough (minus units 3) then replacement else [].

(** The loop of [utf8ToBytes]: [lead] is 0 when no lead surrogate waits. When
    the units run out the loop ends before a character, but goes on over a
    replacement. *)
Fixpoint utf8_loop (units : option Z) (lead : Z) (s : jsstr) : list Z :=
  match s with
  | [] => []
  | codePoint :: rest =>
      let put units codePoint :=
        let n := if codePoint <? 0x80 then 1 else if codePoint <? 0x800 then 2
                 else if codePoint <? 0x10000 then 3 else 4 in
        let units := minus units n in
        if enough units then
          (if codePoint <? 0x80 then [codePoint]
           else if codePoint <? 0x800 then
             [Z.lor (sar codePoint 6) 0xC0; Z.lor (Z.land codePoint 0x3F) 0x80]
           else if codePoint <? 0x10000 then
             [Z.lor (sar codePoint 12) 0xE0; Z.lor (Z.land (sar codePoint 6) 0x3F) 0x80;
              Z.lor (Z.land codePoint 0x3F) 0x80]
           else
             [Z.lor (sar codePoint 18) 0xF0; Z.lor (Z.land (sar codePoint 12) 0x3F) 0x80;
              Z.lor (Z.land (sar codePoint 6) 0x3F) 0x80; Z.lor (Z.land codePoint 0x3F) 0x80])
          ++ utf8_loop units 0 rest
        else [] in
      if (0xD7FF <? codePoint) && (codePoint <? 0xE000) then
        if lead =? 0 then
          if (0xDBFF <? codePoint) || bool_decide (rest = [])
          then replaced units ++ utf8_loop (minus units 3) 0 rest
          else utf8_loop units codePoint rest
        else if codePoint <? 0xDC00
        then replaced units ++ utf8_loop (minus units 3) codePoint rest
        else put units (Z.lor (shl (lead - 0xD800) 10) (codePoint - 0xDC00) + 0x10000)
      else if lead =? 0 then put units codePoint
      else replaced units ++ put (minus units 3) codePoint
  end.
(** [units || Infinity] *)
Definition utf8ToBytes (string : jsstr) (units : option Z) : list Z :=
  utf8_loop (match units with Some 0 => None | u => u end) 0 string.

Definition asciiToBytes (str : jsstr) : list Z := map (fun c => Z.land c 0xFF) str.

Fixpoint utf16leToBytes (str : jsstr) (units : option Z) : list Z :=
  match str with
  | [] => []
  | c :: rest =>
      let units := minus units 2 in
      if enough units then c mod 256 :: sar c 8 :: utf16leToBytes rest units else []
  end.

(** [str.split("=")[0]] *)
Fixpoint before_equals (str : jsstr) : jsstr :=
  match str with
  | [] => []
  | c :: rest => if c =? 61 then [] else c :: before_equals rest
  end.
(** What [INVALID_BASE64_RE] leaves: both alphabets. *)
Definition base64_character (c : Z) : bool :=
  (c =? 43) || (c =? 47) || inRange c 48 57 || inRange c 65 90 || inRange c 97 122 || (c =? 45) || (c =? 95).
(** [while (str.length % 4 !== 0) str = str + "="]: three times at most. *)
Fixpoint pad (fuel : nat) (str : jsstr) : jsstr :=
  match fuel with
  | O => str
  | S f => if Z.of_nat (length str) mod 4 =? 0 then str else pad f (str ++ [61])
  end.
Definition base64clean (str : jsstr) : jsstr :=
  let str := List.filter base64_character (trim (before_equals str)) in
  if Z.of_nat (length str) <? 2 then [] else pad 3 str.
Definition base64ToBytes (str : jsstr) : outcome (list Z) := toByteArray (base64clean str).

(** [parseInt(s, 16)]: white space, a sign and the prefix 0x are passed over,
    the digits end at the first other character; None is NaN. *)
Definition hex_value (c : Z) : option Z :=
  if inRange c 48 57 then Some (c - 48)
  else if inRange c 97 102 then Some (c - 87)
  else if inRange c 65 70 then Some (c - 55)
  else None.
Fixpoint hex_digits (s : jsstr) (acc : option Z) : option Z :=
  match s with
  | c :: s =>
      match hex_value c with
      | Some v => hex_digits s (Some (16 * default 0 acc + v))
      | None => acc
      end
  | [] => acc
  end.
Definition parseInt16 (s : jsstr) : option Z :=
  let s := trim_start s in
  let '(sign, s) := match s with 45 :: s => (-1, s) | 43 :: s => (1, s) | _ => (1, s) end in
  let s := match s with 48 :: 120 :: s | 48 :: 88 :: s => s | _ => s end in
  option_map (Z.mul sign) (hex_digits s None).
(** [string.substr(i, n)] *)
Definition substr (s : jsstr) (i n : Z) : jsstr := firstn (Z.to_nat n) (skipn (Z.to_nat i) s).

(** ** From bytes to strings *)

(** One round of [utf8Slice] at the bytes [buf]: the sequence that starts there
    when it is whole and well-formed, with its length. *)
Definition trail (b : option Z) : bool := band b 0xC0 =? 0x80.
Definition sequence (buf : list Z) : option (Z * nat) :=
  match buf with
  | [] => None
  | firstByte :: rest =>
      let secondByte := rest !! 0%nat in
      let thirdByte := rest !! 1%nat in
      let fourthByte := rest !! 2%nat in
      let accept (b : bool) cp n := if b then Some (cp, n) else None in
      if 0xEF <? firstByte then
        if (length buf <? 4)%nat then None
        else if trail secondByte && trail thirdByte && trail fourthByte then
          let cp := Z.lor (Z.lor (Z.lor (shl (Z.land firstByte 0xF) 18) (shl (band secondByte 0x3F) 12))
                             (shl (band thirdByte 0x3F) 6)) (band fourthByte 0x3F) in
          accept ((0xFFFF <? cp) && (cp <? 0x110000)) cp 4%nat
        else None
      else if 0xDF <? firstByte then
        if (length buf <? 3)%nat then None
        else if trail secondByte && trail thirdByte then
          let cp := Z.lor (Z.lor (shl (Z.land firstByte 0xF) 12) (shl (band secondByte 0x3F) 6))
                      (band thirdByte 0x3F) in
          accept ((0x7FF <? cp) && ((cp <? 0xD800) || (0xDFFF <? cp))) cp 3%nat
        else None
      else if 0xBF <? firstByte then
        if (length buf <? 2)%nat then None
        else if trail secondByte then
          let cp := Z.lor (shl (Z.land firstByte 0x1F) 6) (band secondByte 0x3F) in
          accept (0x7F <? cp) cp 2%nat
        else None
      else accept (firstByte <? 0x80) firstByte 1%nat
  end.
(** The loop: each round takes at least one byte. *)
Fixpoint utf8_res (fuel : nat) (buf : list Z) : list Z :=
  match fuel, buf with
  | S f, _ :: rest =>
      match sequence buf with
      | None => 0xFFFD :: utf8_res f rest
      | Some (codePoint, n) =>
          (if 0xFFFF <? codePoint then
             let codePoint := codePoint - 0x10000 in
             [Z.lor (Z.land (shr codePoint 10) 0x3FF) 0xD800; Z.lor 0xDC00 (Z.land codePoint 0x3FF)]
           else [codePoint]) ++ utf8_res f (skipn n buf)
      end
  | _, _ => []
  end.

(** [String.fromCharCode] of an array, called on one chunk after the other. *)
Definition MAX_ARGUMENTS_LENGTH : nat := 0x1000.
Definition char_codes (codePoints : list Z) : jsstr := map (fun c => c mod 65536) codePoints.
Fixpoint decode_chunks (fuel : nat) (codePoints : list Z) : jsstr :=
  match fuel, codePoints with
  | S f, _ :: _ =>
      char_codes (firstn MAX_ARGUMENTS_LENGTH codePoints) ++ decode_chunks f (skipn MAX_ARGUMENTS_LENGTH codePoints)
  | _, _ => []
  end.
Definition decodeCodePointsArray (codePoints : list Z) : jsstr :=
  if (length codePoints <=? MAX_ARGUMENTS_LENGTH)%nat then char_codes codePoints
  else decode_chunks (length codePoints) codePoints.

(** The bytes from [start] to [end]; the callers keep both within the buffer. *)
Definition range (buf : list Z) (start end_ : Z) : list Z :=
  firstn (Z.to_nat (end_ - start)) (skipn (Z.to_nat start) buf).

Definition utf8Slice (buf : list Z) (start end_ : Z) : jsstr :=
  let seen := range buf start (Z.min (Z.of_nat (length buf)) end_) in
  decodeCodePointsArray (utf8_res (length seen) seen).
Definition asciiSlice (buf : list Z) (start end_ : Z) : jsstr :=
  map (fun b => Z.land b 0x7F) (range buf start (Z.min (Z.of_nat (length buf)) end_)).
Definition latin1Slice (buf : list Z) (start end_ : Z) : jsstr :=
  range buf start (Z.min (Z.of_nat (length buf)) end_).

Definition alphabet : jsstr := js "0123456789abcdef".
(** [hexSliceLookupTable[b]] *)
Definition hexSliceLookupTable (b : Z) : jsstr :=
  [default 0 (at_ alphabet (b / 16)); default 0 (at_ alphabet (b mod 16))].
Definition hexSlice (buf : list Z) (start end_ : Z) : jsstr :=
  let len := Z.of_nat (length buf) in
  let start := if start <? 0 then 0 else start in
  let end_ := if (end_ <=? 0) || (len <? end_) then len else end_ in
  concat (map hexSliceLookupTable (range buf start end_)).

Definition base64Slice (buf : list Z) (start end_ : Z) : jsstr :=
  if (start =? 0) && (end_ =? Z.of_nat (length buf)) then fromByteArray buf
  else fromByteArray (range buf start end_).

(** [String.fromCharCode(bytes[i] + bytes[i + 1] * 256)]: NaN, the last of an
    odd number of bytes, gives the character 0. *)
Fixpoint utf16le_units (bytes : list Z) : jsstr :=
  match bytes with
  | lo :: hi :: rest => (lo + hi * 256) :: utf16le_units rest
  | [_] => [0]
  | [] => []
  end.
Definition utf16leSlice (buf : list Z) (start end_ : Z) : jsstr := utf16le_units (range buf start end_).

(** ** The names of the encodings *)

Inductive enc := Hex | Utf8 | Ascii | Latin1 | Base64 | Ucs2.
#[global] Instance enc_eq_dec : EqDecision enc.
Proof. solve_decision. Defined.

(** The cases of the [switch]es over an encoding. *)
Definition encoding_names : list (jsstr * enc) :=
  [(js "hex", Hex); (js "utf8", Utf8); (js "utf-8", Utf8); (js "ascii", Ascii); (js "latin1", Latin1);
   (js "binary", Latin1); (js "base64", Base64); (js "ucs2", Ucs2); (js "ucs-2", Ucs2);
   (js "utf16le", Ucs2); (js "utf-16le", Ucs2)].
Definition encoding_case (name : jsstr) : option enc :=
  snd <$> List.find (fun p => p.1 ==? name) encoding_names.
(** The [switch], then once more with the name in lower case. *)
Definition encoding_of (name : jsstr) : option enc :=
  match encoding_case name with
  | Some e => Some e
  | None => encoding_case (toLowerCase name)
  end.
Definition isEncoding (name : jsstr) : bool := bool_decide (is_Some (encoding_case (toLowerCase name))).
