(* ===== verification/Buffer.v ===== *)
(** The bundled [buffer] package (bundle.js 4985-6788): making, filling,
    writing, comparing, searching and copying Buffers, over the memory of
    BufferMem.

    Arguments are [value]s where the package tells their types apart. Numbers
    are integers or NaN; what is given for a number and is not one has no value
    as a number (no numeral as a string, no empty string or array); the methods
    are called on Buffers. *)

From S2P Require Import Prelude JsVal Int32 TextEncoding Labels BufferMem BufferText.

(** ** Arguments *)

(** [VView true b] is a Buffer, [VView false b] another Uint8Array; [VJSON] is
    what [toJSON] returns. *)
Inductive value :=
  | VUndef | VNull | VNaN
  | VNum (n : Z)
  | VBool (b : bool)
  | VStr (s : jsstr)
  | VView (isBuffer : bool) (b : view)
  | VArrayBuffer (a : nat)
  | VArray (l : list Z)
  | VJSON (data : list Z).

Definition typeof (v : value) : jsstr :=
  match v with
  | VUndef => js "undefined"
  | VNull | VView _ _ | VArrayBuffer _ | VArray _ | VJSON _ => js "object"
  | VNaN | VNum _ => js "number"
  | VBool _ => js "boolean"
  | VStr _ => js "string"
  end.
Definition v_truthy (v : value) : bool :=
  match v with
  | VUndef | VNull | VNaN => false
  | VNum n => negb (n =? 0)
  | VBool b => b
  | VStr s => negb (s ==? [])
  | _ => true
  end.
(** [+v]; None is NaN. *)
Definition to_num (v : value) : option Z :=
  match v with
  | VNum n => Some n
  | VNull => Some 0
  | VBool b => Some (if b then 1 else 0)
  | _ => None
  end.
(** [v >>> 0] and [a < b], false on NaN. *)
Definition v_u32 (v : value) : Z := u32 (default 0 (to_num v)).
Definition lt_num (a b : option Z) : bool := match a, b with Some a, Some b => a <? b | _, _ => false end.
Definition le_num (a b : option Z) : bool := match a, b with Some a, Some b => a <=? b | _, _ => false end.
(** [String(v)] of what is given as an encoding; a Buffer's text is not needed. *)
Definition v_str (v : value) : jsstr :=
  match v with
  | VUndef => js "undefined"
  | VNull => js "null"
  | VNaN => js "NaN"
  | VNum n => num_to_str n
  | VBool b => if b then js "true" else js "false"
  | VStr s => s
  | VArray l => join (js ",") (map num_to_str l)
  | _ => js "[object Object]"
  end.
Definition isBuffer (v : value) : bool := match v with VView b _ => b | _ => false end.
Definition unknown_encoding (v : value) : jsstr := js "Unknown encoding: " ++ v_str v.
(** The [switch] over an encoding that may be of any type. *)
Definition v_encoding (v : value) : option enc :=
  match v with VStr s => encoding_of s | _ => encoding_case (toLowerCase (v_str v)) end.

(** ** Writing text into a Buffer *)

(** [blitBuffer]: the number of bytes stored. *)
Fixpoint blitBuffer (src : list Z) (dst : view) (i offset length_ : Z) : BM Z :=
  match src with
  | [] => mret i
  | x :: src =>
      if (i <? length_) && negb (len dst <=? i + offset)
      then put dst (i + offset) x;; blitBuffer src dst (i + 1) offset length_
      else mret i
  end.

(** The loop of [hexWrite] up to [limit / 2]. *)
Fixpoint hex_loop (fuel : nat) (buf : view) (string : jsstr) (offset i limit : Z) : BM Z :=
  match fuel with
  | O => mret i
  | S f =>
      if 2 * i <? limit then
        match parseInt16 (substr string (i * 2) 2) with
        | None => mret i
        | Some parsed => put buf (offset + i) parsed;; hex_loop f buf string offset (i + 1) limit
        end
      else mret i
  end.
(** [length] may become half of an odd number; twice it is kept. *)
Definition hexWrite (buf : view) (string : jsstr) (offset length_ : Z) : BM Z :=
  let remaining := len buf - offset in
  let length_ := if length_ =? 0 then remaining else if remaining <? length_ then remaining else length_ in
  let strLen := Z.of_nat (length string) in
  let limit := if strLen <? 2 * length_ then strLen else 2 * length_ in
  hex_loop (length string) buf string offset 0 limit.
Definition utf8Write (buf : view) (string : jsstr) (offset length_ : Z) : BM Z :=
  blitBuffer (utf8ToBytes string (Some (len buf - offset))) buf 0 offset length_.
Definition asciiWrite (buf : view) (string : jsstr) (offset length_ : Z) : BM Z :=
  blitBuffer (asciiToBytes string) buf 0 offset length_.
Definition base64Write (buf : view) (string : jsstr) (offset length_ : Z) : BM Z :=
  src ← lift (base64ToBytes string); blitBuffer src buf 0 offset length_.
Definition ucs2Write (buf : view) (string : jsstr) (offset length_ : Z) : BM Z :=
  blitBuffer (utf16leToBytes string (Some (len buf - offset))) buf 0 offset length_.

Definition is_finite (v : value) : bool := bool_decide (is_Some (to_num v)).
(** The forms of the arguments of [write]: offset, length and encoding. *)
Definition write_args (b : view) (offset length_ encoding : value) : outcome (Z * option Z * value) :=
  match offset, length_ with
  | VUndef, _ => Ret (0, Some (len b), VStr (js "utf8"))
  | VStr _, VUndef => Ret (0, Some (len b), offset)
  | _, _ =>
      if is_finite offset then
        if is_finite length_
        then Ret (v_u32 offset, Some (v_u32 length_),
                  match encoding with VUndef => VStr (js "utf8") | _ => encoding end)
        else Ret (v_u32 offset, None, length_)
      else Throw (JErr PlainError (js "Buffer.write(string, encoding, offset[, length]) is no longer supported"))
  end.
Definition write (b : view) (string : jsstr) (offset length_ encoding : value) : BM Z :=
  '(offset, length_, encoding) ← lift (write_args b offset length_ encoding);
  let remaining := len b - offset in
  let length_ := match length_ with
                 | None => remaining
                 | Some n => if remaining <? n then remaining else n
                 end in
  if ((0 <? Z.of_nat (length string)) && ((length_ <? 0) || (offset <? 0))) || (len b <? offset)
  then throw_ RangeErr (js "Attempt to write outside buffer bounds")
  else
    let encoding := if v_truthy encoding then encoding else VStr (js "utf8") in
    match v_encoding encoding with
    | Some Hex => hexWrite b string offset length_
    | Some Utf8 => utf8Write b string offset length_
    | Some Ascii | Some Latin1 => asciiWrite b string offset length_
    | Some Base64 => base64Write b string offset length_
    | Some Ucs2 => ucs2Write b string offset length_
    | None => throw_ TypeErr (unknown_encoding (VStr (toLowerCase (v_str encoding))))
    end.

(** ** Making a Buffer *)

Definition first_argument (what : jsstr) (v : value) : jsstr :=
  what ++ js " Received type " ++ typeof v.
Definition not_bytes : jsstr :=
  js "The first argument must be one of type string, Buffer, ArrayBuffer, Array, or Array-like Object.".

Definition byteLength (string : value) (encoding : value) (mustMatch : bool) : BM Z :=
  match string with
  | VView _ b => mret (len b)
  | VArrayBuffer a => fun m => (Ret (Z.of_nat (length (contents a m))), m)
  | VStr s =>
      let n := Z.of_nat (length s) in
      if negb mustMatch && (n =? 0) then mret 0
      else
        match v_encoding encoding with
        | Some Ascii | Some Latin1 => mret n
        | Some Utf8 => mret (Z.of_nat (length (utf8ToBytes s None)))
        | Some Ucs2 => mret (n * 2)
        | Some Hex => mret (shr n 1)
        | Some Base64 => b ← lift (base64ToBytes s); mret (Z.of_nat (length b))
        | None => mret (if mustMatch then -1 else Z.of_nat (length (utf8ToBytes s None)))
        end
  | v => throw_ TypeErr (first_argument
           (js "The " ++ [34] ++ js "string" ++ [34]
            ++ js " argument must be one of type string, Buffer, or ArrayBuffer.") v)
  end.

Definition fromString (string : jsstr) (encoding : value) : BM view :=
  let encoding := match encoding with VStr [] => VStr (js "utf8") | VStr _ => encoding | _ => VStr (js "utf8") end in
  if negb (isEncoding (v_str encoding)) then throw_ TypeErr (unknown_encoding encoding)
  else
    n ← byteLength (VStr string) encoding false;
    let n := i32 n in
    buf ← createBuffer n;
    actual ← write buf string encoding VUndef VUndef;
    mret (if actual =? n then buf else slice buf (Some 0) (Some actual)).

Definition fromArrayLike (array : list Z) : BM view :=
  n ← lift (checked (Z.of_nat (length array)));
  buf ← createBuffer (i32 n);
  put_all buf 0 (map (fun x => Z.land (i32 x) 255) array);;
  mret buf.

Definition fromArrayBuffer (array : nat) (byteOffset length_ : value) : BM view := fun m =>
  let size := Some (Z.of_nat (length (contents array m))) in
  let end_ := o ← to_num byteOffset; l ← (if v_truthy length_ then to_num length_ else Some 0); Some (o + l) in
  if lt_num (to_num byteOffset) (Some 0) || lt_num size (to_num byteOffset)
  then throw_ RangeErr ([34] ++ js "offset" ++ [34] ++ js " is outside of buffer bounds") m
  else if lt_num size end_
  then throw_ RangeErr ([34] ++ js "length" ++ [34] ++ js " is outside of buffer bounds") m
  else
    new_view array (default 0 (to_num byteOffset))
      (match length_ with VUndef => None | _ => Some (default 0 (to_num length_)) end) m.

(** [copy(target, targetStart, start, end)], the numbers None when they are
    left out. The bytes are taken before any is stored, by [set] and by
    [copyWithin] alike. *)
Definition copy (b : view) (target : value) (targetStart start end_ : option Z) : BM Z :=
  match target with
  | VView true t =>
      let start := default 0 start in
      let end_ := default (len b) end_ in
      let targetStart := match targetStart with
                         | None => 0
                         | Some n => if len t <=? n then len t else n
                         end in
      let end_ := if (0 <? end_) && (end_ <? start) then start else end_ in
      if end_ =? start then mret 0
      else if (len t =? 0) || (len b =? 0) then mret 0
      else if targetStart <? 0 then throw_ RangeErr (js "targetStart out of bounds")
      else if (start <? 0) || (len b <=? start) then throw_ RangeErr (js "Index out of range")
      else if end_ <? 0 then throw_ RangeErr (js "sourceEnd out of bounds")
      else
        let end_ := if len b <? end_ then len b else end_ in
        let end_ := if len t - targetStart <? end_ - start then len t - targetStart + start else end_ in
        src ← all_bytes (subarray b start end_);
        put_all t targetStart src;;
        mret (end_ - start)
  | _ => throw_ TypeErr (js "argument should be a Buffer")
  end.

Definition fromObject (obj : value) : BM (option view) :=
  match obj with
  | VView true b =>
      n ← lift (checked (len b));
      buf ← createBuffer (i32 n);
      if len buf =? 0 then mret (Some buf)
      else copy b (VView true buf) (Some 0) (Some 0) (Some (i32 n));; mret (Some buf)
  | VArray l | VJSON l => buf ← fromArrayLike l; mret (Some buf)
  | _ => mret None
  end.

Definition from (v encodingOrOffset length_ : value) : BM view :=
  match v with
  | VStr s => fromString s encodingOrOffset
  | VView _ b => array ← all_bytes b; fromArrayLike array
  | VUndef | VNull => throw_ TypeErr (first_argument not_bytes v)
  | VArrayBuffer a => fromArrayBuffer a encodingOrOffset length_
  | VNum _ | VNaN =>
      throw_ TypeErr (js "The " ++ [34] ++ js "value" ++ [34]
        ++ js " argument must not be of type number. Received type number")
  | VBool _ | VArray _ | VJSON _ =>
      b ← fromObject v;
      match b with
      | Some b => mret b
      | None => throw_ TypeErr (first_argument not_bytes v)
      end
  end.

(** ** Filling *)

(** [this[i] = val] from [i] on; and the bytes of a Buffer over and over, each
    read when it is its turn. *)
Definition fill_number (b : view) (val start end_ : Z) : BM unit :=
  every (Z.to_nat (end_ - start)) 1 end_ start (fun i => put b i val).
Definition fill_bytes (b src : view) (start end_ : Z) : BM unit :=
  every (Z.to_nat (end_ - start)) 1 (end_ - start) 0
    (fun i => x ← get src (i mod len src); put b (i + start) (default 0 x)).

(** The string cases of [fill]'s arguments, [Some] encoding a string if given;
    and the value that stands for [val]. *)
Definition fill_args (b : view) (val start end_ encoding : value) : outcome (value * value * value * value) :=
  match val with
  | VStr s =>
      let '(start, end_, encoding) :=
        match start, end_ with
        | VStr _, _ => (VNum 0, VNum (len b), start)
        | _, VStr _ => (start, VNum (len b), end_)
        | _, _ => (start, end_, encoding)
        end in
      match encoding with
      | VUndef =>  Ret (val, start, end_, encoding)
      | VStr e =>
          if negb (isEncoding e) then Throw (JErr TypeErr (unknown_encoding encoding))
          else
            match s with
            | [code] =>
                if ((e ==? js "utf8") && (code <? 128)) || (e ==? js "latin1")
                then Ret (VNum code, start, end_, encoding)
                else Ret (val, start, end_, encoding)
            | _ => Ret (val, start, end_, encoding)
            end
      | _ => Throw (JErr TypeErr (js "encoding must be a string"))
      end
  | VNum n => Ret (VNum (Z.land (i32 n) 255), start, end_, encoding)
  | VNaN => Ret (VNum 0, start, end_, encoding)
  | VBool x => Ret (VNum (if x then 1 else 0), start, end_, encoding)
  | _ => Ret (val, start, end_, encoding)
  end.
Definition fill (b : view) (val start end_ encoding : value) : BM view :=
  '(val, start, end_, encoding) ← lift (fill_args b val start end_ encoding);
  if lt_num (to_num start) (Some 0) || lt_num (Some (len b)) (to_num start)
     || lt_num (Some (len b)) (to_num end_)
  then throw_ RangeErr (js "Out of range index")
  else if le_num (to_num end_) (to_num start) then mret b
  else
    let start := v_u32 start in
    let end_ := match end_ with VUndef => len b | _ => v_u32 end_ end in
    match (if v_truthy val then val else VNum 0) with
    | VNum n => fill_number b n start end_;; mret b
    | val =>
        src ← (match val with VView true src => mret src | _ => from val encoding VUndef end);
        if len src =? 0 then
          throw_ TypeErr (js "The value " ++ [34] ++ v_str val ++ [34] ++ js " is invalid for argument "
                          ++ [34] ++ js "value" ++ [34])
        else fill_bytes b src start end_;; mret b
    end.

(** ** Allocation *)

(** [assertSize]: None is a size that is not a number. *)
Definition assertSize (size : value) : outcome unit :=
  match size with
  | VNum n => if n <? 0 then Throw (JErr RangeErr (invalid_size n)) else Ret tt
  | VNaN => Ret tt
  | _ => Throw (JErr TypeErr ([34] ++ js "size" ++ [34] ++ js " argument must be of type number"))
  end.
Definition alloc (size fill_ encoding : value) : BM view :=
  lift (assertSize size);;
  let n := default 0 (to_num size) in
  if le_num (to_num size) (Some 0) then createBuffer n
  else
    match fill_ with
    | VUndef => createBuffer n
    | _ =>
        b ← createBuffer n;
        match encoding with
        | VStr _ => fill b fill_ encoding VUndef VUndef
        | _ => fill b fill_ VUndef VUndef VUndef
        end
    end.
(** [new Buffer(arg, encodingOrOffset, length)] *)
Definition Buffer (arg encodingOrOffset length_ : value) : BM view :=
  match arg, encodingOrOffset with
  | (VNum _ | VNaN), VStr _ =>
      throw_ TypeErr (js "The " ++ [34] ++ js "string" ++ [34]
        ++ js " argument must be of type string. Received type number")
  | (VNum _ | VNaN), _ => allocUnsafe (default 0 (to_num arg))
  | _, _ => from arg encodingOrOffset length_
  end.
Definition SlowBuffer (length_ : value) : BM view := alloc (VNum (default 0 (to_num length_))) VUndef VUndef.

(** ** Comparing *)

(** The loop of [compare] over the bytes, and its answer. *)
Fixpoint compare_bytes (a b : list Z) : Z :=
  match a, b with
  | [], [] => 0
  | [], _ :: _ => -1
  | _ :: _, [] => 1
  | x :: a, y :: b => if x =? y then compare_bytes a b else if x <? y then -1 else 1
  end.

(** A Uint8Array, Buffer or not, is copied. *)
Definition as_buffer (v : value) : BM (option view) :=
  match v with
  | VView _ _ => b ← from v VUndef VUndef; mret (Some b)
  | _ => mret None
  end.
Definition compare_error : jsstr :=
  js "The " ++ [34] ++ js "buf1" ++ [34] ++ js ", " ++ [34] ++ js "buf2" ++ [34]
  ++ js " arguments must be one of type Buffer or Uint8Array".
Definition Buffer_compare (a b : value) : BM Z :=
  a ← as_buffer a;
  b ← as_buffer b;
  match a, b with
  | Some a, Some b => x ← all_bytes a; y ← all_bytes b; mret (compare_bytes x y)
  | _, _ => throw_ TypeErr compare_error
  end.
Definition equals (b : view) (v : value) : BM bool :=
  match v with
  | VView true c =>
      if b ==? c then mret true else r ← Buffer_compare (VView true b) v; mret (r =? 0)
  | _ => throw_ TypeErr (js "Argument must be a Buffer")
  end.
Definition compare (b : view) (target : value) (start end_ thisStart thisEnd : option Z) : BM Z :=
  t ← as_buffer target;
  match t with
  | Some t =>
      let start := default 0 start in
      let end_ := default (len t) end_ in
      let thisStart := default 0 thisStart in
      let thisEnd := default (len b) thisEnd in
      if (start <? 0) || (len t <? end_) || (thisStart <? 0) || (len b <? thisEnd)
      then throw_ RangeErr (js "out of range index")
      else if (thisEnd <=? thisStart) && (end_ <=? start) then mret 0
      else if thisEnd <=? thisStart then mret (-1)
      else if end_ <=? start then mret 1
      else
        x ← all_bytes (slice b (Some (u32 thisStart)) (Some (u32 thisEnd)));
        y ← all_bytes (slice t (Some (u32 start)) (Some (u32 end_)));
        mret (compare_bytes x y)
  | None => throw_ TypeErr (first_argument (js "The " ++ [34] ++ js "target" ++ [34]
           ++ js " argument must be one of type Buffer or Uint8Array.") target)
  end.

(** ** Joining *)

(** [list[i].length]; None where it is undefined. *)
Definition length_of (v : value) : option Z :=
  match v with
  | VView _ b => Some (len b)
  | VStr s => Some (Z.of_nat (length s))
  | VArray l => Some (Z.of_nat (length l))
  | _ => None
  end.
Definition no_list : jsstr := [34] ++ js "list" ++ [34] ++ js " argument must be an Array of Buffers".
Fixpoint total_length (l : list value) : outcome (option Z) :=
  match l with
  | [] => Ret (Some 0)
  | ((VUndef | VNull) as v) :: _ =>
      type_error (js "Cannot read properties of " ++ v_str v ++ js " (reading 'length')")
  | v :: l => n ← total_length l; Ret (a ← n; b ← length_of v; Some (a + b))
  end.
Fixpoint concat_loop (l : list value) (buffer : view) (pos : Z) : BM unit :=
  match l with
  | [] => mret tt
  | (VView _ _ as v) :: l =>
      buf ← from v VUndef VUndef;
      copy buf (VView true buffer) (Some pos) None None;;
      concat_loop l buffer (pos + len buf)
  | _ :: _ => throw_ TypeErr no_list
  end.
Definition concat_ (list_ : option (list value)) (length_ : option Z) : BM view :=
  match list_ with
  | None => throw_ TypeErr no_list
  | Some [] => alloc (VNum 0) VUndef VUndef
  | Some l =>
      n ← (match length_ with
           | Some n => mret n
           | None => n ← lift (total_length l); mret (default 0 n)
           end);
      buffer ← allocUnsafe n;
      concat_loop l buffer 0;;
      mret buffer
  end.

(** ** Reading text *)

Definition slowToString (b : view) (encoding : value) (start end_ : option Z) : BM jsstr :=
  let start := match start with None => 0 | Some n => if n <? 0 then 0 else n end in
  if len b <? start then mret []
  else
    let end_ := match end_ with None => len b | Some n => if len b <? n then len b else n end in
    if end_ <=? 0 then mret []
    else
      let end_ := u32 end_ in
      let start := u32 start in
      if end_ <=? start then mret []
      else
        let encoding := if v_truthy encoding then encoding else VStr (js "utf8") in
        buf ← all_bytes b;
        match v_encoding encoding with
        | Some Hex => mret (hexSlice buf start end_)
        | Some Utf8 => mret (utf8Slice buf start end_)
        | Some Ascii => mret (asciiSlice buf start end_)
        | Some Latin1 => mret (latin1Slice buf start end_)
        | Some Base64 => mret (base64Slice buf start end_)
        | Some Ucs2 => mret (utf16leSlice buf start end_)
        | None => throw_ TypeErr (unknown_encoding (VStr (toLowerCase (v_str encoding))))
        end.
(** [toString(...)]; None is the call without arguments. *)
Definition toString (b : view) (args : option (value * option Z * option Z)) : BM jsstr :=
  if len b =? 0 then mret []
  else
    match args with
    | None => buf ← all_bytes b; mret (utf8Slice buf 0 (len b))
    | Some (encoding, start, end_) => slowToString b encoding start end_
    end.

Definition toJSON (b : view) : BM value := data ← all_bytes b; mret (VJSON data).

Definition INSPECT_MAX_BYTES : Z := 50.
(** [.replace(/(.{2})/g, "$1 ")] *)
Fixpoint space_pairs (s : jsstr) : jsstr :=
  match s with
  | x :: y :: s => x :: y :: 32 :: space_pairs s
  | s => s
  end.
Definition inspect (b : view) : BM jsstr :=
  hex ← toString b (Some (VStr (js "hex"), Some 0, Some INSPECT_MAX_BYTES));
  let str := trim (space_pairs hex) in
  let str := if INSPECT_MAX_BYTES <? len b then str ++ js " ... " else str in
  mret (js "<Buffer " ++ str ++ js ">").

(** The getters [parent] and [offset]; [None] is undefined. *)
Definition get_parent (this : value) : option nat := match this with VView true b => Some (v_buffer b) | _ => None end.
Definition get_offset (this : value) : option nat := match this with VView true b => Some (byteOffset b) | _ => None end.
