(* ===== verification/BufferNum.v ===== *)
(** The integers of the bundled [buffer] package (bundle.js 6099-6463): reading
    and writing them at any offset, width and byte order. A number read out of
    range with [noAssert] is undefined or NaN, both None here. The widths are below
    128 bytes, where every number is below [2 ^ 1024]. *)

From S2P Require Import Prelude JsVal Int32 TextEncoding BufferMem.

(** [a + b] and [a * n] on what was read; [v] as an operand of [|], [&], [<<]. *)
Definition add_ (a b : option Z) : option Z := a ← a; b ← b; Some (dbl (a + b)).
Definition mul_ (a : option Z) (n : Z) : option Z := a ← a; Some (dbl (a * n)).
Definition bits (v : option Z) : Z := default 0 v.

(** ** Reading *)

Definition checkOffset (offset ext length_ : Z) : outcome unit :=
  if offset <? 0 then range_error (js "offset is not uint")
  else if length_ <? offset + ext then range_error (js "Trying to access beyond buffer length")
  else Ret tt.
(** The first lines of every reader: the offset as an unsigned integer, and
    the check unless it is waived. *)
Definition reading (b : view) (offset ext : Z) (noAssert : bool) : BM (Z * list Z) :=
  let offset := u32 offset in
  (if noAssert then mret tt else lift (checkOffset offset ext (len b)));;
  bs ← all_bytes b;
  mret (offset, bs).

(** [while (++i < byteLength && (mul *= 0x100)) val += this[offset + i] * mul] *)
Fixpoint le_loop (fuel : nat) (bs : list Z) (offset byteLength i mul : Z) (val : option Z) : option Z * Z :=
  match fuel with
  | O => (val, mul)
  | S f =>
      let i := i + 1 in
      if i <? byteLength then
        let mul := mul * 0x100 in
        le_loop f bs offset byteLength i mul (add_ val (mul_ (at_ bs (offset + i)) mul))
      else (val, mul)
  end.
(** [while (byteLength > 0 && (mul *= 0x100)) val += this[offset + --byteLength] * mul] *)
Fixpoint be_loop (fuel : nat) (bs : list Z) (offset i mul : Z) (val : option Z) : option Z * Z :=
  match fuel with
  | O => (val, mul)
  | S f =>
      if 0 <? i then
        let mul := mul * 0x100 in
        let i := i - 1 in
        be_loop f bs offset i mul (add_ val (mul_ (at_ bs (offset + i)) mul))
      else (val, mul)
  end.

Definition readUIntLE (b : view) (offset byteLength : Z) (noAssert : bool) : BM (option Z) :=
  let byteLength := u32 byteLength in
  '(offset, bs) ← reading b offset byteLength noAssert;
  mret (le_loop (Z.to_nat byteLength) bs offset byteLength 0 1 (at_ bs offset)).1.
Definition readUIntBE (b : view) (offset byteLength : Z) (noAssert : bool) : BM (option Z) :=
  let byteLength := u32 byteLength in
  '(offset, bs) ← reading b offset byteLength noAssert;
  let i := byteLength - 1 in
  mret (be_loop (Z.to_nat byteLength) bs offset i 1 (at_ bs (offset + i))).1.

(** [mul *= 0x80; if (val >= mul) val -= Math.pow(2, 8 * byteLength)] *)
Definition sign_extended (byteLength : Z) (r : option Z * Z) : option Z :=
  val ← r.1;
  Some (if r.2 * 0x80 <=? val then dbl (val - 2 ^ (8 * byteLength)) else val).
Definition readIntLE (b : view) (offset byteLength : Z) (noAssert : bool) : BM (option Z) :=
  let byteLength := u32 byteLength in
  '(offset, bs) ← reading b offset byteLength noAssert;
  mret (sign_extended byteLength (le_loop (Z.to_nat byteLength) bs offset byteLength 0 1 (at_ bs offset))).
Definition readIntBE (b : view) (offset byteLength : Z) (noAssert : bool) : BM (option Z) :=
  let byteLength := u32 byteLength in
  '(offset, bs) ← reading b offset byteLength noAssert;
  let i := byteLength - 1 in
  mret (sign_extended byteLength (be_loop (Z.to_nat byteLength) bs offset i 1 (at_ bs (offset + i)))).

Definition readUInt8 (b : view) (offset : Z) (noAssert : bool) : BM (option Z) :=
  '(offset, bs) ← reading b offset 1 noAssert; mret (at_ bs offset).
Definition readUInt16LE (b : view) (offset : Z) (noAssert : bool) : BM (option Z) :=
  '(offset, bs) ← reading b offset 2 noAssert;
  mret (Some (Z.lor (bits (at_ bs offset)) (shl (bits (at_ bs (offset + 1))) 8))).
Definition readUInt16BE (b : view) (offset : Z) (noAssert : bool) : BM (option Z) :=
  '(offset, bs) ← reading b offset 2 noAssert;
  mret (Some (Z.lor (shl (bits (at_ bs offset)) 8) (bits (at_ bs (offset + 1))))).
Definition readUInt32LE (b : view) (offset : Z) (noAssert : bool) : BM (option Z) :=
  '(offset, bs) ← reading b offset 4 noAssert;
  let byte i := at_ bs (offset + i) in
  mret (add_ (Some (Z.lor (Z.lor (bits (byte 0)) (shl (bits (byte 1)) 8)) (shl (bits (byte 2)) 16)))
             (mul_ (byte 3) 0x1000000)).
Definition readUInt32BE (b : view) (offset : Z) (noAssert : bool) : BM (option Z) :=
  '(offset, bs) ← reading b offset 4 noAssert;
  let byte i := at_ bs (offset + i) in
  mret (add_ (mul_ (byte 0) 0x1000000)
             (Some (Z.lor (Z.lor (shl (bits (byte 1)) 16) (shl (bits (byte 2)) 8)) (bits (byte 3))))).

Definition readInt8 (b : view) (offset : Z) (noAssert : bool) : BM (option Z) :=
  '(offset, bs) ← reading b offset 1 noAssert;
  let x := at_ bs offset in
  mret (if band x 0x80 =? 0 then x else y ← x; Some ((0xff - y + 1) * -1)).
Definition extend16 (val : Z) : Z := if Z.land val 0x8000 =? 0 then val else Z.lor val (i32 0xFFFF0000).
Definition readInt16LE (b : view) (offset : Z) (noAssert : bool) : BM (option Z) :=
  '(offset, bs) ← reading b offset 2 noAssert;
  mret (Some (extend16 (Z.lor (bits (at_ bs offset)) (shl (bits (at_ bs (offset + 1))) 8)))).
Definition readInt16BE (b : view) (offset : Z) (noAssert : bool) : BM (option Z) :=
  '(offset, bs) ← reading b offset 2 noAssert;
  mret (Some (extend16 (Z.lor (bits (at_ bs (offset + 1))) (shl (bits (at_ bs offset)) 8)))).
Definition readInt32LE (b : view) (offset : Z) (noAssert : bool) : BM (option Z) :=
  '(offset, bs) ← reading b offset 4 noAssert;
  let byte i := bits (at_ bs (offset + i)) in
  mret (Some (Z.lor (Z.lor (Z.lor (byte 0) (shl (byte 1) 8)) (shl (byte 2) 16)) (shl (byte 3) 24))).
Definition readInt32BE (b : view) (offset : Z) (noAssert : bool) : BM (option Z) :=
  '(offset, bs) ← reading b offset 4 noAssert;
  let byte i := bits (at_ bs (offset + i)) in
  mret (Some (Z.lor (Z.lor (Z.lor (shl (byte 0) 24) (shl (byte 1) 16)) (shl (byte 2) 8)) (byte 3))).

(** ** Writing *)

Definition checkInt (b : view) (value offset ext max min : Z) : outcome unit :=
  if (max <? value) || (value <? min)
  then range_error ([34] ++ js "value" ++ [34] ++ js " argument is out of bounds")
  else if len b <? offset + ext then range_error (js "Index out of range")
  else Ret tt.
Definition assert_int (b : view) (value offset ext max min : Z) (noAssert : bool) : BM unit :=
  if noAssert then mret tt else lift (checkInt b value offset ext max min).

(** [value & 0xFF] and [(value / mul) & 0xFF], which cuts off the fraction. *)
Definition low_byte (value : Z) : Z := Z.land (i32 value) 0xFF.

Fixpoint write_le_loop (fuel : nat) (b : view) (value offset byteLength i mul : Z) : BM unit :=
  match fuel with
  | O => mret tt
  | S f =>
      let i := i + 1 in
      if i <? byteLength then
        let mul := mul * 0x100 in
        put b (offset + i) (low_byte (Z.quot value mul));;
        write_le_loop f b value offset byteLength i mul
      else mret tt
  end.
Definition writeUIntLE (b : view) (value offset byteLength : Z) (noAssert : bool) : BM Z :=
  let offset := u32 offset in
  let byteLength := u32 byteLength in
  assert_int b value offset byteLength (dbl (2 ^ (8 * byteLength) - 1)) 0 noAssert;;
  put b offset (low_byte value);;
  write_le_loop (Z.to_nat byteLength) b value offset byteLength 0 1;;
  mret (offset + byteLength).

Fixpoint write_be_loop (fuel : nat) (b : view) (value offset i mul : Z) : BM unit :=
  match fuel with
  | O => mret tt
  | S f =>
      let i := i - 1 in
      if 0 <=? i then
        let mul := mul * 0x100 in
        put b (offset + i) (low_byte (Z.quot value mul));;
        write_be_loop f b value offset i mul
      else mret tt
  end.
Definition writeUIntBE (b : view) (value offset byteLength : Z) (noAssert : bool) : BM Z :=
  let offset := u32 offset in
  let byteLength := u32 byteLength in
  assert_int b value offset byteLength (dbl (2 ^ (8 * byteLength) - 1)) 0 noAssert;;
  let i := byteLength - 1 in
  put b (offset + i) (low_byte value);;
  write_be_loop (Z.to_nat byteLength) b value offset i 1;;
  mret (offset + byteLength).

Definition writeUInt8 (b : view) (value offset : Z) (noAssert : bool) : BM Z :=
  let offset := u32 offset in
  assert_int b value offset 1 0xff 0 noAssert;;
  put b offset (low_byte value);; mret (offset + 1).
Definition put_16le (b : view) (value offset : Z) : BM Z :=
  put b offset (low_byte value);; put b (offset + 1) (shr value 8);; mret (offset + 2).
Definition put_16be (b : view) (value offset : Z) : BM Z :=
  put b offset (shr value 8);; put b (offset + 1) (low_byte value);; mret (offset + 2).
Definition put_32be (b : view) (value offset : Z) : BM Z :=
  put b offset (shr value 24);; put b (offset + 1) (shr value 16);;
  put b (offset + 2) (shr value 8);; put b (offset + 3) (low_byte value);; mret (offset + 4).
Definition writeUInt16LE (b : view) (value offset : Z) (noAssert : bool) : BM Z :=
  let offset := u32 offset in
  assert_int b value offset 2 0xffff 0 noAssert;; put_16le b value offset.
Definition writeUInt16BE (b : view) (value offset : Z) (noAssert : bool) : BM Z :=
  let offset := u32 offset in
  assert_int b value offset 2 0xffff 0 noAssert;; put_16be b value offset.
Definition writeUInt32LE (b : view) (value offset : Z) (noAssert : bool) : BM Z :=
  let offset := u32 offset in
  assert_int b value offset 4 0xffffffff 0 noAssert;;
  put b (offset + 3) (shr value 24);; put b (offset + 2) (shr value 16);;
  put b (offset + 1) (shr value 8);; put b offset (low_byte value);; mret (offset + 4).
Definition writeUInt32BE (b : view) (value offset : Z) (noAssert : bool) : BM Z :=
  let offset := u32 offset in
  assert_int b value offset 4 0xffffffff 0 noAssert;; put_32be b value offset.

(** [sub = 1] once a byte of a negative number was not zero. *)
Definition borrow (value sub : Z) (previous : option Z) : Z :=
  if (value <? 0) && (sub =? 0) && negb (previous ==? Some 0) then 1 else sub.
Definition int_byte (value mul sub : Z) : Z := Z.land (i32 (i32 (Z.quot value mul) - sub)) 0xFF.
Fixpoint write_int_le_loop (fuel : nat) (b : view) (value offset byteLength i mul sub : Z) : BM unit :=
  match fuel with
  | O => mret tt
  | S f =>
      let i := i + 1 in
      if i <? byteLength then
        let mul := mul * 0x100 in
        previous ← get b (offset + i - 1);
        let sub := borrow value sub previous in
        put b (offset + i) (int_byte value mul sub);;
        write_int_le_loop f b value offset byteLength i mul sub
      else mret tt
  end.
Definition writeIntLE (b : view) (value offset byteLength : Z) (noAssert : bool) : BM Z :=
  let offset := u32 offset in
  let limit := 2 ^ (8 * byteLength - 1) in
  assert_int b value offset byteLength (dbl (limit - 1)) (- limit) noAssert;;
  put b offset (low_byte value);;
  write_int_le_loop (Z.to_nat byteLength) b value offset byteLength 0 1 0;;
  mret (offset + byteLength).
Fixpoint write_int_be_loop (fuel : nat) (b : view) (value offset i mul sub : Z) : BM unit :=
  match fuel with
  | O => mret tt
  | S f =>
      let i := i - 1 in
      if 0 <=? i then
        let mul := mul * 0x100 in
        previous ← get b (offset + i + 1);
        let sub := borrow value sub previous in
        put b (offset + i) (int_byte value mul sub);;
        write_int_be_loop f b value offset i mul sub
      else mret tt
  end.
Definition writeIntBE (b : view) (value offset byteLength : Z) (noAssert : bool) : BM Z :=
  let offset := u32 offset in
  let limit := 2 ^ (8 * byteLength - 1) in
  assert_int b value offset byteLength (dbl (limit - 1)) (- limit) noAssert;;
  let i := byteLength - 1 in
  put b (offset + i) (low_byte value);;
  write_int_be_loop (Z.to_nat byteLength) b value offset i 1 0;;
  mret (offset + byteLength).

Definition writeInt8 (b : view) (value offset : Z) (noAssert : bool) : BM Z :=
  let offset := u32 offset in
  assert_int b value offset 1 0x7f (-0x80) noAssert;;
  let value := if value <? 0 then 0xff + value + 1 else value in
  put b offset (low_byte value);; mret (offset + 1).
Definition writeInt16LE (b : view) (value offset : Z) (noAssert : bool) : BM Z :=
  let offset := u32 offset in
  assert_int b value offset 2 0x7fff (-0x8000) noAssert;; put_16le b value offset.
Definition writeInt16BE (b : view) (value offset : Z) (noAssert : bool) : BM Z :=
  let offset := u32 offset in
  assert_int b value offset 2 0x7fff (-0x8000) noAssert;; put_16be b value offset.
Definition writeInt32LE (b : view) (value offset : Z) (noAssert : bool) : BM Z :=
  let offset := u32 offset in
  assert_int b value offset 4 0x7fffffff (-0x80000000) noAssert;;
  put b offset (low_byte value);; put b (offset + 1) (shr value 8);;
  put b (offset + 2) (shr value 16);; put b (offset + 3) (shr value 24);; mret (offset + 4).
Definition writeInt32BE (b : view) (value offset : Z) (noAssert : bool) : BM Z :=
  let offset := u32 offset in
  assert_int b value offset 4 0x7fffffff (-0x80000000) noAssert;;
  let value := if value <? 0 then 0xffffffff + value + 1 else value in
  put_32be b value offset.
