(* ===== verification/JsNum.v ===== *)
(** The numbers of the language, IEEE 754 doubles, for the code that takes them
    apart. Every finite double is a multiple of [2 ^ -1074]; [Fin s n] is
    [n * 2 ^ -1074] with the sign [s], so both zeros are there and a number has
    one form. An operation rounds the exact result to the nearest double, the
    even one of two. *)

From Stdlib Require SpecFloat.
From S2P Require Import Prelude Int32.

Inductive num := NaN | Inf (s : bool) | Fin (s : bool) (n : Z).
#[global] Instance num_eq_dec : EqDecision num.
Proof. solve_decision. Defined.

(** ** Rounding *)

(** The integer nearest to [n / d], the even one of two. *)
Definition near (n d : Z) : Z :=
  let q := n / d in
  let r := n mod d in
  if (2 * r <? d) || ((2 * r =? d) && Z.even q) then q else q + 1.
(** [n / d] units to 53 significant bits, and to units below [2 ^ 53]. *)
Definition rnd (n d : Z) : Z :=
  let k := Z.max 0 (Z.log2 (n / d) - 52) in
  near n (d * 2 ^ k) * 2 ^ k.
(** From [2 ^ 1024] on. *)
Definition fin (s : bool) (n : Z) : num := if 2 ^ 2098 <=? n then Inf s else Fin s n.

(** The number 1 in units. *)
Definition one : Z := 2 ^ 1074.
Definition signed (s : bool) (n : Z) : Z := if s then - n else n.

(** ** Operations *)

Definition of_Z (z : Z) : num := fin (z <? 0) (rnd (Z.abs z * one) 1).
Definition opp (x : num) : num :=
  match x with NaN => NaN | Inf s => Inf (negb s) | Fin s n => Fin (negb s) n end.
(** [Math.abs], [isNaN] *)
Definition abs_ (x : num) : num :=
  match x with NaN => NaN | Inf _ => Inf false | Fin _ n => Fin false n end.
Definition isNaN (x : num) : bool := match x with NaN => true | _ => false end.

Definition add (x y : num) : num :=
  match x, y with
  | NaN, _ | _, NaN => NaN
  | Inf s, Inf t => if Bool.eqb s t then Inf s else NaN
  | Inf s, Fin _ _ | Fin _ _, Inf s => Inf s
  | Fin s n, Fin t n' =>
      let z := signed s n + signed t n' in
      if z =? 0 then Fin (s && t) 0 else fin (z <? 0) (rnd (Z.abs z) 1)
  end.
Definition sub (x y : num) : num := add x (opp y).
Definition mul (x y : num) : num :=
  match x, y with
  | NaN, _ | _, NaN => NaN
  | Inf s, Inf t => Inf (xorb s t)
  | Inf s, Fin t n | Fin s n, Inf t => if n =? 0 then NaN else Inf (xorb s t)
  | Fin s n, Fin t n' => fin (xorb s t) (rnd (n * n') one)
  end.
Definition div (x y : num) : num :=
  match x, y with
  | NaN, _ | _, NaN | Inf _, Inf _ => NaN
  | Inf s, Fin t _ => Inf (xorb s t)
  | Fin s _, Inf t => Fin (xorb s t) 0
  | Fin s n, Fin t n' =>
      if n' =? 0 then (if n =? 0 then NaN else Inf (xorb s t))
      else fin (xorb s t) (rnd (n * one) n')
  end.

(** [x < y], [x <= y], [x === y]: false on NaN; the zeros are equal. *)
Definition ltb (x y : num) : bool :=
  match x, y with
  | NaN, _ | _, NaN => false
  | Inf s, Inf t => s && negb t
  | Inf s, Fin _ _ => s
  | Fin _ _, Inf t => negb t
  | Fin s n, Fin t n' => signed s n <? signed t n'
  end.
Definition eqb (x y : num) : bool :=
  match x, y with
  | NaN, _ | _, NaN => false
  | Inf s, Inf t => Bool.eqb s t
  | Fin s n, Fin t n' => signed s n =? signed t n'
  | _, _ => false
  end.
Definition leb (x y : num) : bool := ltb x y || eqb x y.

(** [Math.pow(2, k)] *)
Definition pow2 (k : Z) : num :=
  if 1024 <=? k then Inf false
  else Fin false (if k <? -1075 then 0 else rnd (2 ^ (k + 1075)) 2).

(** ToInt32 and ToUint32 cut off the fraction; [Math.round] of a number that
    is not negative. *)
Definition trunc (x : num) : Z := match x with Fin s n => signed s (n / one) | _ => 0 end.
Definition to_i32 (x : num) : Z := i32 (trunc x).
Definition to_u32 (x : num) : Z := u32 (trunc x).
Definition round_ (x : num) : num := match x with Fin false n => Fin false ((n + one / 2) / one * one) | x => x end.

(** [Math.floor(Math.log(value) / Math.LN2)] of a positive number of units.
    [Math.log] may be off by a little in any implementation: it is an argument
    of what uses it. *)
Class MathLog := floor_log2 : Z -> Z.

(** The literal [m * 10 ^ e]. *)
Definition lit (m e : Z) : num := fin false (if e <? 0 then rnd (m * one) (10 ^ (- e)) else rnd (m * 10 ^ e * one) 1).

(** ** Doubles *)

(** A number of units with 53 significant bits. *)
Definition rep (n : Z) : Prop := exists m e, 0 <= e /\ 0 <= m < 2 ^ 53 /\ n = m * 2 ^ e.
Definition double (x : num) : Prop := match x with Fin _ n => rep n /\ n < 2 ^ 2098 | _ => True end.

(** ** Facts of rounding *)

Lemma near_exact q d : 0 < d -> near (q * d) d = q.
Proof.
  intros Hd. unfold near. rewrite Z.div_mul, Z_mod_mult by lia. by rewrite (proj2 (Z.ltb_lt _ _)) by lia.
Qed.
Lemma near_le n d j : 0 < d -> n <= j * d -> near n d <= j.
Proof.
  intros Hd Hn. unfold near. pose proof (Z.div_mod n d ltac:(lia)). pose proof (Z.mod_pos_bound n d Hd).
  bdestr; cbn [orb andb]; try destruct (Z.even _); nia.
Qed.
Lemma near_ge n d j : 0 < d -> j * d <= n -> j <= near n d.
Proof.
  intros Hd Hn. unfold near. pose proof (Z.div_mod n d ltac:(lia)). pose proof (Z.mod_pos_bound n d Hd).
  bdestr; cbn [orb andb]; try destruct (Z.even _); nia.
Qed.
(** What is nearer to [j] than half a unit, or halfway to an even one. *)
Lemma near_half n d j : 0 < d -> (2 * Z.abs (n - j * d) < d \/ (2 * Z.abs (n - j * d) = d /\ Z.even j = true)) -> near n d = j.
Proof.
  intros Hd Hn. unfold near. pose proof (Z.div_mod n d ltac:(lia)). pose proof (Z.mod_pos_bound n d Hd) as Hr.
  assert (n / d = j \/ n / d = j - 1) as [E|E] by nia; rewrite E in *.
  - bdestr; cbn [orb andb]; try done; try nia. destruct Hn as [Hn|[_ ->]]; [nia|done].
  - replace (j - 1 + 1) with j by lia. bdestr; cbn [orb andb]; try done; try nia.
    destruct Hn as [Hn|[_ Hn]]; [nia|]. by rewrite Z.sub_1_r, Z.even_pred, <-Z.negb_even, Hn.
Qed.
Lemma near_scale n d c : 0 < d -> 0 < c -> near (n * c) (d * c) = near n d.
Proof.
  intros Hd Hc. unfold near. rewrite Z.div_mul_cancel_r, Zmult_mod_distr_r by lia.
  replace (2 * (n mod d * c) <? d * c) with (2 * (n mod d) <? d) by (bdestr; nia).
  by replace (2 * (n mod d * c) =? d * c) with (2 * (n mod d) =? d) by (bdestr; nia).
Qed.
Lemma rnd_scale n d c : 0 < d -> 0 < c -> rnd (n * c) (d * c) = rnd n d.
Proof.
  intros Hd Hc. unfold rnd. rewrite Z.div_mul_cancel_r by lia.
  by rewrite <-Z.mul_assoc, (Z.mul_comm c), Z.mul_assoc, near_scale by (try apply Z.mul_pos_pos; try apply Z.pow_pos_nonneg; lia).
Qed.

(** Signs of exponents and powers. *)
Ltac nonneg := first [lia | auto with ws].

Lemma pow2_pos k : 0 <= k -> 0 < 2 ^ k.
Proof. intros. by apply Z.pow_pos_nonneg. Qed.
#[global] Hint Resolve pow2_pos : ws.

Lemma rep_intro m e : 0 <= e -> 0 <= m < 2 ^ 53 -> rep (m * 2 ^ e).
Proof. intros. by exists m, e. Qed.
Lemma rep_small n : 0 <= n < 2 ^ 53 -> rep n.
Proof. intros. exists n, 0. lia. Qed.
Lemma rep_top m e : 0 <= e -> 0 <= m <= 2 ^ 53 -> rep (m * 2 ^ e).
Proof.
  intros He Hm. destruct (Z.eq_dec m (2 ^ 53)) as [->|]; [|apply rep_intro; lia].
  exists 1, (53 + e). split; [lia|]. split; [lia|]. rewrite Z.pow_add_r by lia. lia.
Qed.
Lemma rep_pow2 k : 0 <= k -> rep (2 ^ k).
Proof. intros. exists 1, k. lia. Qed.
Lemma rep_nonneg n : rep n -> 0 <= n.
Proof. intros (m & e & He & Hm & ->). pose proof (pow2_pos e He). nia. Qed.
(** Shifting the binary point. *)
Lemma rep_shift n y a b : rep n -> 0 <= a -> 0 <= b -> n * 2 ^ a = y * 2 ^ b -> rep y.
Proof.
  intros (m & e & He & Hm & ->) Ha Hb E. rewrite <-Z.mul_assoc, <-Z.pow_add_r in E by lia.
  destruct (Z.le_gt_cases b (e + a)) as [L|L].
  - replace (e + a) with (e + a - b + b) in E by lia. rewrite Z.pow_add_r, Z.mul_assoc in E by lia.
    apply Z.mul_reg_r in E; [|pose proof (pow2_pos b Hb); lia]. subst y. apply rep_intro; lia.
  - replace b with (b - (e + a) + (e + a)) in E by lia. rewrite (Z.pow_add_r 2 (b - (e + a))), Z.mul_assoc in E by lia.
    apply Z.mul_reg_r in E; [|pose proof (pow2_pos (e + a) ltac:(lia)); lia].
    apply rep_small. pose proof (pow2_pos (b - (e + a)) ltac:(lia)). nia.
Qed.
(** The last of the 53 bits of [n], and above. *)
Definition quantum (n : Z) : Z := Z.max 0 (Z.log2 n - 52).
Lemma quantum_nonneg n : 0 <= quantum n.
Proof. unfold quantum. lia. Qed.
#[global] Hint Resolve quantum_nonneg : ws.
Lemma quantum_mono n y : n <= y -> quantum n <= quantum y.
Proof. intros H%Z.log2_le_mono. unfold quantum. lia. Qed.
Lemma quantum_bound n : n < 2 ^ (quantum n + 53).
Proof.
  destruct (Z.le_gt_cases n 0); [pose proof (pow2_pos (quantum n + 53)); pose proof (quantum_nonneg n); lia|].
  eapply Z.lt_le_trans; [apply Z.log2_spec; lia|]. apply Z.pow_le_mono_r; unfold quantum; lia.
Qed.
Lemma rep_multiple n : rep n -> exists j, n = j * 2 ^ quantum n.
Proof.
  intros (m & e & He & Hm & ->). destruct (Z.eq_dec m 0) as [->|]; [by exists 0|].
  assert (L : Z.log2 (m * 2 ^ e) <= 52 + e).
  { rewrite Z.log2_mul_pow2 by lia. assert (Z.log2 m < 53) by (apply Z.log2_lt_pow2; lia). lia. }
  set (q := quantum _). assert (Hq : 0 <= q <= e) by (subst q; unfold quantum; lia).
  exists (m * 2 ^ (e - q)). rewrite <-Z.mul_assoc, <-Z.pow_add_r by lia. do 2 f_equal. lia.
Qed.
Lemma rep_of_multiple n j q : 0 <= n -> quantum n <= q -> n = j * 2 ^ q -> rep n.
Proof.
  intros Hn Hq ->. pose proof (quantum_nonneg (j * 2 ^ q)) as H0. pose proof (quantum_bound (j * 2 ^ q)) as Hb.
  pose proof (pow2_pos q ltac:(lia)). apply rep_intro; [lia|]. split; [by apply (Z.mul_le_mono_pos_r 0 j (2 ^ q)); rewrite ?Z.mul_0_l|].
  assert (Hl : 2 ^ (quantum (j * 2 ^ q) + 53) <= 2 ^ (53 + q)) by (apply Z.pow_le_mono_r; lia).
  rewrite (Z.pow_add_r 2 53 q) in Hl by lia. apply (Z.mul_lt_mono_pos_r (2 ^ q)); [done|]. lia.
Qed.

Lemma rnd_exact q d : rep q -> 0 < d -> rnd (q * d) d = q.
Proof.
  intros Hq Hd. unfold rnd. rewrite Z.div_mul by lia. fold (quantum q).
  destruct (rep_multiple q Hq) as [j E]. rewrite E at 1.
  rewrite <-Z.mul_assoc, (Z.mul_comm _ d), near_exact; [done|].
  apply Z.mul_pos_pos; [done|apply pow2_pos; auto with ws].
Qed.
Lemma rnd_1 n : rep n -> rnd n 1 = n.
Proof. intros. rewrite <-(Z.mul_1_r n) at 1. by apply rnd_exact. Qed.

Lemma quotient_top n d : 0 <= n -> 0 < d -> n <= 2 ^ 53 * (d * 2 ^ quantum (n / d)).
Proof.
  intros Hn Hd. pose proof (quantum_bound (n / d)) as Hb. rewrite Z.pow_add_r in Hb by nonneg.
  pose proof (Z.div_mod n d ltac:(lia)). pose proof (Z.mod_pos_bound n d Hd). nia.
Qed.
Lemma rep_rnd n d : 0 <= n -> 0 < d -> rep (rnd n d).
Proof.
  intros Hn Hd. unfold rnd. fold (quantum (n / d)). apply rep_top; [auto with ws|].
  assert (0 < d * 2 ^ quantum (n / d)) by (apply Z.mul_pos_pos; [done|apply pow2_pos; auto with ws]).
  split; [apply near_ge; lia|]. apply near_le; [done|]. by apply quotient_top.
Qed.
Lemma rnd_le n d y : 0 <= n -> 0 < d -> rep y -> n <= y * d -> rnd n d <= y.
Proof.
  intros Hn Hd Hy H. unfold rnd. fold (quantum (n / d)). set (q := quantum (n / d)).
  assert (Hq : 0 < d * 2 ^ q) by (apply Z.mul_pos_pos; [done|apply pow2_pos; subst q; auto with ws]).
  assert (L : q <= quantum y) by (apply quantum_mono, Z.div_le_upper_bound; lia).
  destruct (rep_multiple y Hy) as [j Ey]. set (j' := j * 2 ^ (quantum y - q)).
  assert (E : y = j' * 2 ^ q).
  { subst j'. rewrite <-Z.mul_assoc, <-Z.pow_add_r by (subst q; nonneg). by replace (quantum y - q + q) with (quantum y) by lia. }
  rewrite E. apply Z.mul_le_mono_nonneg_r; [apply Z.lt_le_incl, pow2_pos; subst q; auto with ws|].
  apply near_le; [done|]. lia.
Qed.
Lemma rnd_ge n d y : 0 <= n -> 0 < d -> rep y -> y * d <= n -> y <= rnd n d.
Proof.
  intros Hn Hd Hy H. unfold rnd. fold (quantum (n / d)). set (q := quantum (n / d)).
  assert (Hp : 0 < 2 ^ q) by (apply pow2_pos; subst q; auto with ws).
  assert (Hq : 0 < d * 2 ^ q) by (apply Z.mul_pos_pos; done).
  assert (L : y <= n / d) by (apply Z.div_le_lower_bound; lia).
  destruct (Z.le_gt_cases q (quantum y)) as [Hle|Hgt].
  - destruct (rep_multiple y Hy) as [j Ey]. set (j' := j * 2 ^ (quantum y - q)).
    assert (E : y = j' * 2 ^ q).
    { subst j'. rewrite <-Z.mul_assoc, <-Z.pow_add_r by (subst q; nonneg). by replace (quantum y - q + q) with (quantum y) by lia. }
    rewrite E. apply Z.mul_le_mono_nonneg_r; [lia|]. apply near_ge; [done|]. lia.
  - (* a binade below: what is rounded is at least [2 ^ 52] quanta *)
    assert (Hq0 : q = Z.log2 (n / d) - 52) by (subst q; unfold quantum in *; lia).
    assert (Hpos : 0 < n / d) by (destruct (Z.le_gt_cases (n / d) 0); [rewrite Z.log2_nonpos in Hq0 by done; pose proof (quantum_nonneg y); lia|done]).
    assert (B : 2 ^ (52 + q) <= n / d) by (replace (52 + q) with (Z.log2 (n / d)) by lia; by apply Z.log2_spec).
    assert (C : y < 2 ^ (52 + q)) by (eapply Z.lt_le_trans; [apply quantum_bound|]; apply Z.pow_le_mono_r; pose proof (quantum_nonneg y); lia).
    rewrite Z.pow_add_r in B, C by (pose proof (quantum_nonneg y); lia).
    enough (2 ^ 52 <= near n (d * 2 ^ q)) by nia. apply near_ge; [done|].
    pose proof (Z.div_mod n d ltac:(lia)). pose proof (Z.mod_pos_bound n d Hd). nia.
Qed.

(** ** Facts of the operations *)

Lemma one_pos : 0 < one.
Proof. by apply pow2_pos. Qed.
#[global] Hint Resolve one_pos : ws.
#[global] Opaque one.
Lemma one_eq : one = 2 ^ 1074.
Proof. done. Qed.

Lemma fin_small s n : n < 2 ^ 2098 -> fin s n = Fin s n.
Proof. intros. unfold fin. by rewrite (proj2 (Z.leb_gt _ _)). Qed.
Lemma mul_exact s t n n' y : rep y -> y < 2 ^ 2098 -> n * n' = y * one -> mul (Fin s n) (Fin t n') = Fin (xorb s t) y.
Proof. intros Hy Hl E. cbn [mul]. rewrite E, rnd_exact by auto with ws. by apply fin_small. Qed.
Lemma div_exact s t n n' y : rep y -> y < 2 ^ 2098 -> 0 < n' -> n * one = y * n' -> div (Fin s n) (Fin t n') = Fin (xorb s t) y.
Proof.
  intros Hy Hl Hn E. cbn [div]. rewrite (proj2 (Z.eqb_neq n' 0)) by lia. rewrite E, rnd_exact by done. by apply fin_small.
Qed.
Lemma pow2_Fin k : -1074 <= k < 1024 -> pow2 k = Fin false (2 ^ (k + 1074)).
Proof.
  intros Hk. unfold pow2. rewrite (proj2 (Z.leb_gt 1024 k)), (proj2 (Z.ltb_ge k _)) by lia.
  replace (k + 1075) with (k + 1074 + 1) by lia. rewrite Z.pow_add_r, Z.pow_1_r by lia.
  rewrite rnd_exact; [done|apply rep_pow2; lia|lia].
Qed.
Lemma of_Z_small z : 0 <= z < 2 ^ 53 -> of_Z z = Fin false (z * one).
Proof.
  intros Hz. unfold of_Z. rewrite (proj2 (Z.ltb_ge z 0)), Z.abs_eq by lia.
  rewrite one_eq. rewrite rnd_1 by (apply rep_intro; lia). apply fin_small. 
  eapply Z.lt_le_trans; [apply Z.mul_lt_mono_pos_r; [apply pow2_pos; lia|apply Hz]|]. rewrite <-Z.pow_add_r by lia. apply Z.pow_le_mono_r; lia.
Qed.

(** ** Agreement *)

(** The arithmetic against the Standard Library's specification of IEEE 754
    doubles, evaluated at the edges. *)
Module Ieee.
Import SpecFloat.

Definition of_spec (x : spec_float) : num :=
  match x with
  | S754_nan => NaN
  | S754_infinity s => Inf s
  | S754_zero s => Fin s 0
  | S754_finite s m e => Fin s (Z.pos m * 2 ^ (e + 1074))
  end.
(** Rounding at a tie, underflow, overflow, a negative zero, a subnormal result. *)
Definition f (m e : Z) : spec_float := binary_normalize 53 1024 m e false.
Definition agree (op : num -> num -> num) (spec : spec_float -> spec_float -> spec_float) (x y : spec_float) : bool :=
  op (of_spec x) (of_spec y) ==? of_spec (spec x y).
Lemma additions_agree : forallb (fun '(x, y) => agree add (SFadd 53 1024) x y && agree sub (SFsub 53 1024) x y)
  [(f (2 ^ 53 - 1) 971, f 1 970); (f (2 ^ 52 + 1) 0, f 1 (-1)); (f 1 (-1074), f (-3) (-1)); (S754_zero true, S754_zero true);
   (S754_infinity true, S754_infinity true); (f (2 ^ 53 - 1) (-1074), f (2 ^ 53 - 3) (-1073))] = true.
Proof. vm_compute. reflexivity. Qed.
Lemma products_agree : forallb (fun '(x, y) => agree mul (SFmul 53 1024) x y)
  [(f (2 ^ 53 - 1) (-53), f 3602879701896397 (-55)); (f (-7) (-540), f (2 ^ 53 + 3) (-590)); (f (2 ^ 53 - 1) 971, f 1 1);
   (S754_infinity false, S754_zero true)] = true.
Proof. vm_compute. reflexivity. Qed.
Lemma quotients_agree : forallb (fun '(x, y) => agree div (SFdiv 53 1024) x y)
  [(f 1 0, f 3 0); (f (-7) (-540), f 3602879701896397 480); (f 1 0, S754_zero true)] = true.
Proof. vm_compute. reflexivity. Qed.

End Ieee.
