(* ===== verification/Rounding.v ===== *)
(** Rounding in the way ieee754 does it: a little less than half of a last bit
    is added in doubles, which rounds, and the rest is cut off. *)

From S2P Require Import Prelude JsNum.
(** Rounding up to an even number of quanta. *)
Lemma rnd_up S j : 0 <= S <= j * 2 ^ quantum S -> 2 * (j * 2 ^ quantum S - S) <= 2 ^ quantum S -> Z.even j = true ->
  rnd S 1 = j * 2 ^ quantum S.
Proof.
  intros HS Hd Hj. unfold rnd. rewrite Z.div_1_r. fold (quantum S). f_equal. rewrite Z.mul_1_l.
  apply near_half; [nonneg|]. rewrite Z.abs_neq by lia.
  destruct (Z.eq_dec (2 * (j * 2 ^ quantum S - S)) (2 ^ quantum S)); [right; split; [lia|done]|left; lia].
Qed.
(** Between two multiples there is a whole unit. *)
Lemma multiple_lt a b q : 0 < q -> a * q < b * q -> a * q <= b * q - q.
Proof. intros Hq H. apply Z.mul_lt_mono_pos_r in H; [|done]. nia. Qed.
(** The double before a power of two. *)
Lemma rep_pred n a : rep n -> 53 <= a -> n < 2 ^ a -> n <= 2 ^ a - 2 ^ (a - 53).
Proof.
  intros Hr Ha Hn. assert (E : 2 ^ a = 2 ^ 53 * 2 ^ (a - 53)) by (rewrite <-Z.pow_add_r by lia; f_equal; lia).
  pose proof (pow2_pos (a - 53) ltac:(lia)). destruct (Z.le_gt_cases n 0); [nia|].
  destruct (Z.eq_dec (Z.log2 n) (a - 1)) as [El|Nl].
  - destruct (rep_multiple n Hr) as [j Ej]. unfold quantum in Ej. rewrite El in Ej.
    replace (Z.max 0 (a - 1 - 52)) with (a - 53) in Ej by lia.
    rewrite Ej, E in *. by apply multiple_lt.
  - assert (Z.log2 n < a) by (apply Z.log2_lt_pow2; lia).
    assert (n < 2 ^ (a - 1)) by (apply Z.log2_lt_pow2; lia).
    assert (2 ^ (a - 1) = 2 ^ 52 * 2 ^ (a - 53)) by (rewrite <-Z.pow_add_r by lia; f_equal; lia). nia.
Qed.

Section round_up.
Variables (n u : Z).
Hypothesis Hn : rep n.
Hypothesis Hpos : 0 < n.
Hypothesis Hu : 54 <= u.
Hypothesis Hlt : n < 2 ^ (u + 24).
Let k := (n + 2 ^ (u - 1)) / 2 ^ u.
Let S := n + 2 ^ (u - 1) - 2 ^ (u - 54).

Lemma powers : 2 ^ u = 2 * 2 ^ (u - 1) /\ 2 ^ (u - 1) = 2 ^ 53 * 2 ^ (u - 54) /\ 0 < 2 ^ (u - 54).
Proof.
  split; [|split; [|apply pow2_pos; lia]].
  - replace u with (Z.succ (u - 1)) at 1 by lia. apply Z.pow_succ_r. lia.
  - rewrite <-Z.pow_add_r by lia. f_equal. lia.
Qed.
Lemma k_bounds : 0 <= k <= 2 ^ 24 /\ k * 2 ^ u <= n + 2 ^ (u - 1) < (k + 1) * 2 ^ u.
Proof.
  destruct powers as (P1 & P2 & P3). pose proof (pow2_pos u ltac:(lia)) as P0.
  pose proof (Z.div_mod (n + 2 ^ (u - 1)) (2 ^ u) ltac:(lia)) as D. pose proof (Z.mod_pos_bound (n + 2 ^ (u - 1)) (2 ^ u) P0).
  fold k in D. rewrite Z.pow_add_r in Hlt by lia. assert (0 <= k) by (apply Z.div_pos; lia).
  split; [split; [done|]|lia]. enough (k < 2 ^ 24 + 1) by lia. apply (Z.mul_lt_mono_pos_r (2 ^ u)); [done|]. lia.
Qed.

Lemma rounded_ge : k * 2 ^ u <= rnd S 1.
Proof.
  destruct powers as (P1 & P2 & P3), k_bounds as (K & B1 & B2). pose proof (pow2_pos u ltac:(lia)) as P0.
  assert (HS : 0 <= S) by (subst S; lia).
  destruct (Z.eq_dec k 0) as [->|Nk]; [pose proof (rep_nonneg _ (rep_rnd S 1 HS ltac:(lia))); lia|].
  destruct (Z.le_gt_cases (k * 2 ^ u) S) as [L|L]; [apply rnd_ge; [done|lia|apply rep_intro; lia|lia]|].
  assert (Hlog : u - 1 <= Z.log2 S < u + 25).
  { split; [apply Z.log2_le_pow2; subst S; nia|]. apply Z.log2_lt_pow2; [subst S; nia|].
    rewrite Z.pow_add_r by lia. nia. }
  assert (Q : quantum S = Z.log2 S - 52) by (unfold quantum; lia).
  assert (E : k * 2 ^ u = k * 2 ^ (u - quantum S) * 2 ^ quantum S) by (rewrite <-Z.mul_assoc, <-Z.pow_add_r by lia; do 2 f_equal; lia).
  rewrite E. rewrite (rnd_up S (k * 2 ^ (u - quantum S))); [done|lia| |].
  - rewrite <-E. assert (2 ^ (u - 53) <= 2 ^ quantum S) by (apply Z.pow_le_mono_r; lia).
    assert (2 ^ (u - 53) = 2 * 2 ^ (u - 54)) by (rewrite <-Z.pow_succ_r by lia; f_equal; lia). subst S. lia.
  - rewrite Z.even_mul, Z.even_pow by lia. by rewrite orb_true_r.
Qed.
Lemma rounded_lt : rnd S 1 < (k + 1) * 2 ^ u.
Proof.
  destruct powers as (P1 & P2 & P3), k_bounds as (K & B1 & B2). pose proof (pow2_pos u ltac:(lia)) as P0.
  assert (HS : 0 <= S) by (subst S; lia).
  destruct (Z.eq_dec k 0) as [Ek|Nk].
  { rewrite Ek in *. pose proof (rep_pred n (u - 1) Hn ltac:(lia) ltac:(lia)) as H. replace (u - 1 - 53) with (u - 54) in H by lia.
    enough (rnd S 1 <= (2 ^ 53 - 1) * 2 ^ (u - 53)).
    { assert (2 ^ (u - 53) = 2 * 2 ^ (u - 54)) by (rewrite <-Z.pow_succ_r by lia; f_equal; lia). lia. }
    apply rnd_le; [done|lia|apply rep_intro; lia|].
    assert (2 ^ (u - 53) = 2 * 2 ^ (u - 54)) by (rewrite <-Z.pow_succ_r by lia; f_equal; lia). subst S. lia. }
  pose proof (Z.log2_spec k ltac:(lia)) as [H1 H2]. pose proof (Z.log2_nonneg k).
  assert (Hk : Z.log2 k <= 24) by (change 24 with (Z.log2 (2 ^ 24)); apply Z.log2_le_mono; lia).
  rewrite Z.pow_succ_r in H2 by done.
  destruct (Z.le_gt_cases (2 ^ (Z.log2 k + u)) n) as [L|L].
  - set (p := Z.log2 k + u - 52). assert (Pp : 0 < 2 ^ p) by (apply pow2_pos; subst p; lia).
    assert (Ln : Z.log2 k + u <= Z.log2 n) by (apply Z.log2_le_pow2; lia).
    destruct (rep_multiple n Hn) as [j Ej]. set (j' := j * 2 ^ (quantum n - p)).
    assert (En : n = j' * 2 ^ p).
    { subst j'. rewrite <-Z.mul_assoc, <-Z.pow_add_r by (unfold quantum; lia). replace (quantum n - p + p) with (quantum n) by lia. done. }
    assert (Eu : 2 ^ (u - 1) = 2 ^ (u - 1 - p) * 2 ^ p) by (rewrite <-Z.pow_add_r by lia; f_equal; lia).
    set (h := 2 ^ (u - 1 - p)) in *. set (y := 2 * (k + 1) * h - 1).
    assert (Hy : (k + 1) * 2 ^ u - 2 ^ p = y * 2 ^ p) by (subst y; rewrite P1, Eu; lia).
    enough (rnd S 1 <= y * 2 ^ p) by lia.
    apply rnd_le; [done|lia| |].
    + apply (rep_of_multiple _ y p); [nia| |done]. rewrite <-Hy.
      assert (B : (k + 1) * 2 ^ u - 2 ^ p < 2 ^ (Z.log2 k + u + 1)) by (rewrite !Z.pow_add_r by lia; nia).
      destruct (Z.le_gt_cases ((k + 1) * 2 ^ u - 2 ^ p) 0) as [Z0|Z0]; [unfold quantum; rewrite Z.log2_nonpos by done; lia|].
      apply Z.log2_lt_pow2 in B; [|done]. unfold quantum. lia.
    + enough (j' + h <= y) by (subst S; rewrite En, Eu; nia). subst y.
      enough (j' + h < 2 * (k + 1) * h) by lia. apply (Z.mul_lt_mono_pos_r (2 ^ p)); [done|]. rewrite En, Eu, P1 in B2. lia.
  - enough (rnd S 1 <= (2 * k + 1) * 2 ^ (u - 1)) by lia. apply rnd_le; [done|lia|apply rep_intro; lia|].
    rewrite Z.pow_add_r in L by lia. subst S. nia.
Qed.
Lemma rounded_cut : rnd S 1 / 2 ^ u = k.
Proof.
  pose proof rounded_ge. pose proof rounded_lt. pose proof (pow2_pos u ltac:(lia)).
  symmetry. apply (Z.div_unique_pos _ _ _ (rnd S 1 - k * 2 ^ u)); lia.
Qed.
End round_up.
