(* ===== verification/Float.v ===== *)
(** The bundled ieee754 package (bundle.js 7314-7398), which stores numbers as
    bytes of the IEEE 754 formats by arithmetic alone, and the accessors of
    [buffer] that call it (6253-6275, 6465-6504). *)

From S2P Require Import Prelude JsVal Int32 BufferMem BufferNum JsNum.

(** ** Reading *)

(** [for (; nBits > 0; v = (v * 256) + buffer[offset + i], i += d, nBits -= 8) {}] *)
Fixpoint more_bits (fuel : nat) (bs : list Z) (offset d : Z) (v : option Z) (i nBits : Z) : option Z * Z * Z :=
  match fuel with
  | O => (v, i, nBits)
  | S f =>
      if 0 <? nBits then more_bits f bs offset d (add_ (mul_ v 256) (at_ bs (offset + i))) (i + d) (nBits - 8)
      else (v, i, nBits)
  end.
(** A number read, [undefined + 1] being NaN. *)
Definition number (v : option Z) : num := match v with Some z => of_Z z | None => NaN end.
Definition sign_ (s : Z) : num := if s =? 0 then of_Z 1 else of_Z (-1).

Definition ieee754_read (bs : list Z) (offset : Z) (isLE : bool) (mLen nBytes : Z) : num :=
  let eLen := nBytes * 8 - mLen - 1 in
  let eMax := shl 1 eLen - 1 in
  let eBias := sar eMax 1 in
  let nBits := -7 in
  let i := if isLE then nBytes - 1 else 0 in
  let d := if isLE then -1 else 1 in
  let s := at_ bs (offset + i) in
  let i := i + d in
  let e := band s (shl 1 (- nBits) - 1) in
  let s := sar (bits s) (- nBits) in
  let nBits := nBits + eLen in
  let '(e, i, nBits) := more_bits (Z.to_nat nBits) bs offset d (Some e) i nBits in
  let m := band e (shl 1 (- nBits) - 1) in
  let e := sar (bits e) (- nBits) in
  let nBits := nBits + mLen in
  let '(m, i, nBits) := more_bits (Z.to_nat nBits) bs offset d (Some m) i nBits in
  let m := number m in
  let value m e := mul (mul (sign_ s) m) (pow2 (e - mLen)) in
  if e =? 0 then value m (1 - eBias)
  else if e =? eMax then
    if isNaN m || eqb m (of_Z 0) then mul (sign_ s) (Inf false) else NaN
  else value (add m (pow2 mLen)) (e - eBias).

(** ** Writing *)

Section writing.
Context `{MathLog}.

(** None is -Infinity, the logarithm of 0. *)
Definition exponent (value : num) : option Z :=
  match value with Fin _ n => if n =? 0 then None else Some (floor_log2 n) | _ => None end.
(** [Math.pow(2, -e)] *)
Definition pow2_opp (e : option Z) : num := match e with Some e => pow2 (- e) | None => Inf false end.
Definition plus_ (e : option Z) (k : Z) : option Z := option_map (fun e => e + k) e.

(** The exponent and the mantissa to be stored, the latter with a fraction
    that is cut off. *)
Definition fields (mLen eMax eBias : Z) (value : num) : Z * num :=
  let rt := if mLen =? 23 then sub (pow2 (-24)) (pow2 (-77)) else of_Z 0 in
  if isNaN value || eqb value (Inf false) then (eMax, if isNaN value then of_Z 1 else of_Z 0)
  else
    let e := exponent value in
    let c := pow2_opp e in
    let '(e, c) := if ltb (mul value c) (of_Z 1) then (plus_ e (-1), mul c (of_Z 2)) else (e, c) in
    let value := if ge_ (plus_ e eBias) 1 then add value (div rt c) else add value (mul rt (pow2 (1 - eBias))) in
    let '(e, c) := if leb (of_Z 2) (mul value c) then (plus_ e 1, div c (of_Z 2)) else (e, c) in
    if ge_ (plus_ e eBias) eMax then (eMax, of_Z 0)
    else if ge_ (plus_ e eBias) 1 then (bits (plus_ e eBias), mul (sub (mul value c) (of_Z 1)) (pow2 mLen))
    else (0, mul (mul value (pow2 (eBias - 1))) (pow2 mLen)).

(** [for (; n >= limit; buffer[offset + i] = v & 0xff, i += d, v /= 256, n -= 8) {}] *)
Fixpoint put_bits (fuel : nat) (limit : Z) (b : view) (offset d : Z) (v : num) (i n : Z) : BM (num * Z * Z) :=
  match fuel with
  | O => mret (v, i, n)
  | S f =>
      if limit <=? n then
        put b (offset + i) (Z.land (to_i32 v) 0xff);;
        put_bits f limit b offset d (div v (of_Z 256)) (i + d) (n - 8)
      else mret (v, i, n)
  end.

Definition ieee754_write (b : view) (value : num) (offset : Z) (isLE : bool) (mLen nBytes : Z) : BM unit :=
  let eLen := nBytes * 8 - mLen - 1 in
  let eMax := shl 1 eLen - 1 in
  let eBias := sar eMax 1 in
  let i := if isLE then 0 else nBytes - 1 in
  let d := if isLE then 1 else -1 in
  let s := if ltb value (of_Z 0) || (eqb value (of_Z 0) && ltb (div (of_Z 1) value) (of_Z 0)) then 1 else 0 in
  let value := abs_ value in
  let '(e, m) := fields mLen eMax eBias value in
  '(m, i, mLen) ← put_bits (Z.to_nat mLen) 8 b offset d m i mLen;
  let e := Z.lor (shl e mLen) (to_i32 m) in
  let eLen := eLen + mLen in
  '(_, i, _) ← put_bits (Z.to_nat eLen) 1 b offset d (of_Z e) i eLen;
  x ← get b (offset + i - d);
  put b (offset + i - d) (Z.lor (bits x) (s * 128)).

(** ** The accessors of buffer *)

Definition checkIEEE754 (b : view) (offset ext : Z) : outcome unit :=
  if len b <? offset + ext then range_error (js "Index out of range")
  else if offset <? 0 then range_error (js "Index out of range")
  else Ret tt.

Definition writeFloat (b : view) (value : num) (offset : Z) (littleEndian noAssert : bool) : BM Z :=
  let offset := u32 offset in
  (if noAssert then mret tt else lift (checkIEEE754 b offset 4));;
  ieee754_write b value offset littleEndian 23 4;;
  mret (offset + 4).
Definition writeFloatLE (b : view) (value : num) (offset : Z) (noAssert : bool) : BM Z :=
  writeFloat b value offset true noAssert.
Definition writeFloatBE (b : view) (value : num) (offset : Z) (noAssert : bool) : BM Z :=
  writeFloat b value offset false noAssert.
Definition writeDouble (b : view) (value : num) (offset : Z) (littleEndian noAssert : bool) : BM Z :=
  let offset := u32 offset in
  (if noAssert then mret tt else lift (checkIEEE754 b offset 8));;
  ieee754_write b value offset littleEndian 52 8;;
  mret (offset + 8).
Definition writeDoubleLE (b : view) (value : num) (offset : Z) (noAssert : bool) : BM Z :=
  writeDouble b value offset true noAssert.
Definition writeDoubleBE (b : view) (value : num) (offset : Z) (noAssert : bool) : BM Z :=
  writeDouble b value offset false noAssert.
End writing.

Definition readFloatLE (b : view) (offset : Z) (noAssert : bool) : BM num :=
  '(offset, bs) ← reading b offset 4 noAssert; mret (ieee754_read bs offset true 23 4).
Definition readFloatBE (b : view) (offset : Z) (noAssert : bool) : BM num :=
  '(offset, bs) ← reading b offset 4 noAssert; mret (ieee754_read bs offset false 23 4).
Definition readDoubleLE (b : view) (offset : Z) (noAssert : bool) : BM num :=
  '(offset, bs) ← reading b offset 8 noAssert; mret (ieee754_read bs offset true 52 8).
Definition readDoubleBE (b : view) (offset : Z) (noAssert : bool) : BM num :=
  '(offset, bs) ← reading b offset 8 noAssert; mret (ieee754_read bs offset false 52 8).
