(* ===== verification/BufferFind.v ===== *)
(** Searching in the bundled [buffer] package (bundle.js 5678-5800): [indexOf],
    [lastIndexOf] and [includes]. *)

From S2P Require Import Prelude JsVal Int32 TextEncoding Labels BufferMem BufferText Buffer BufferNum.

(** An index that was found: [Half p] is the number p / 2 for an odd p. *)
Inductive index := At (i : Z) | Half (p : Z).
#[global] Instance index_eq_dec : EqDecision index.
Proof. solve_decision. Defined.
Definition halved (p size : Z) : index :=
  if size =? 1 then At p else if Z.even p then At (p / 2) else Half p.

Definition ucs2_name (encoding : value) : bool :=
  match encoding with
  | VUndef => false
  | _ =>
      let e := toLowerCase (v_str encoding) in
      (e ==? js "ucs2") || (e ==? js "ucs-2") || (e ==? js "utf16le") || (e ==? js "utf-16le")
  end.

(** The inner [read]: [p] is [i * indexSize]. *)
Definition read (size : Z) (buf : view) (p : Z) : BM (option Z) :=
  if size =? 1 then get buf p else readUInt16BE buf p false.

(** The forward loop; [p] and [found] are [i] and [foundIndex] times
    [indexSize], [found] is -1 times it while nothing is matched. *)
Fixpoint forward (fuel : nat) (size : Z) (arr val : view) (p : Z) (found : option Z) : BM Z :=
  match fuel with
  | O => lift Running
  | S f =>
      if p <? len arr then
        x ← read size arr p;
        y ← read size val (match found with None => 0 | Some q => p - q end);
        if x ==? y then
          let q := default p found in
          if p - q + size =? len val then mret q
          else forward f size arr val (p + size) (Some q)
        else forward f size arr val (default p found + size) None
      else mret (-1)
  end.

(** The inner loop of the backward search, over [val] from [j] on. *)
Fixpoint matches (fuel : nat) (size : Z) (arr val : view) (p j : Z) : BM bool :=
  match fuel with
  | O => lift Running
  | S f =>
      if j <? len val then
        x ← read size arr (p + j);
        y ← read size val j;
        if x ==? y then matches f size arr val p (j + size) else mret false
      else mret true
  end.
Fixpoint backward (fuel : nat) (size : Z) (arr val : view) (p : Z) : BM index :=
  match fuel with
  | O => lift Running
  | S f =>
      if 0 <=? p then
        found ← matches (S (v_length val)) size arr val p 0;
        if found : bool then mret (halved p size) else backward f size arr val (p - size)
      else mret (At (-1))
  end.

(** The forward loop backs up at most once per index, so the square of the
    length is fuel enough. *)
Definition arrayIndexOf (arr val : view) (byteOffset : Z) (encoding : value) (dir : bool) : BM index :=
  let ucs2 := ucs2_name encoding in
  if ucs2 && ((len arr <? 2) || (len val <? 2)) then mret (At (-1))
  else
    let size := if ucs2 then 2 else 1 in
    if dir then
      q ← forward (S (v_length arr) * S (v_length arr)) size arr val byteOffset None; mret (At q)
    else
      let p := if len arr <? byteOffset + len val then len arr - len val else byteOffset in
      backward (S (S (v_length arr))) size arr val p.

(** [Uint8Array.prototype.indexOf] and [lastIndexOf] on a byte. *)
Fixpoint first_byte (bs : list Z) (x i : Z) : Z :=
  match bs with
  | [] => -1
  | y :: bs => if y =? x then i else first_byte bs x (i + 1)
  end.
Fixpoint last_byte (bs : list Z) (x i best : Z) : Z :=
  match bs with
  | [] => best
  | y :: bs => last_byte bs x (i + 1) (if y =? x then i else best)
  end.
Definition byte_index (bs : list Z) (x byteOffset : Z) (dir : bool) : Z :=
  if dir then first_byte (skipn (Z.to_nat byteOffset) bs) x byteOffset
  else last_byte (firstn (Z.to_nat (byteOffset + 1)) bs) x 0 (-1).

(** The offset as an index of the buffer; None when nothing can be found. *)
Definition find_offset (b : view) (byteOffset : value) (dir : bool) : option Z :=
  let o := match byteOffset with
           | VNum n => Some (if 0x7fffffff <? n then 0x7fffffff else if n <? -0x80000000 then -0x80000000 else n)
           | v => to_num v
           end in
  let o := match o with Some n => n | None => if dir then 0 else len b - 1 end in
  let o := if o <? 0 then len b + o else o in
  if len b <=? o then (if dir then None else Some (len b - 1))
  else if o <? 0 then (if dir then Some 0 else None)
  else Some o.

Definition bidirectionalIndexOf (b : view) (val byteOffset encoding : value) (dir : bool) : BM index :=
  if len b =? 0 then mret (At (-1))
  else
    let '(byteOffset, encoding) :=
      match byteOffset with VStr _ => (VNum 0, byteOffset) | _ => (byteOffset, encoding) end in
    match find_offset b byteOffset dir with
    | None => mret (At (-1))
    | Some o =>
        val ← (match val with
               | VStr _ => c ← from val encoding VUndef; mret (VView true c)
               | _ => mret val
               end);
        match val with
        | VView true c => if len c =? 0 then mret (At (-1)) else arrayIndexOf b c o encoding dir
        | VNum _ | VNaN =>
            bs ← all_bytes b; mret (At (byte_index bs (Z.land (i32 (default 0 (to_num val))) 0xFF) o dir))
        | _ => throw_ TypeErr (js "val must be string, number or Buffer")
        end
    end.

Definition indexOf (b : view) (val byteOffset encoding : value) : BM index :=
  bidirectionalIndexOf b val byteOffset encoding true.
Definition lastIndexOf (b : view) (val byteOffset encoding : value) : BM index :=
  bidirectionalIndexOf b val byteOffset encoding false.
Definition includes (b : view) (val byteOffset encoding : value) : BM bool :=
  i ← indexOf b val byteOffset encoding; mret (negb (i ==? At (-1))).
