(* ===== verification/BufferMemSpec.v ===== *)
(** The memory of the [buffer] package: what a store does to the view it goes
    through and to the others, slices that share their bytes, and the swaps. *)

From S2P Require Import Prelude JsVal Int32 TextEncoding Utf8Step BufferMem.

(** ** Stores *)

Lemma len_bytes b m : valid b m -> length (bytes b m) = v_length b.
Proof. intros [_ Hv]. unfold bytes. rewrite length_firstn, length_skipn. lia. Qed.
Lemma len_eq b m : valid b m -> len b = Z.of_nat (length (bytes b m)).
Proof. intros Hv. by rewrite len_bytes. Qed.

(** A list with the value at an index that may be out of range replaced. *)
Definition set_at (l : list Z) (i x : Z) : list Z :=
  if i <? 0 then l else <[Z.to_nat i := to_uint8 x]> l.

Lemma contents_alter f a c m : (a < length m)%nat ->
  contents c (alter f a m) = if decide (c = a) then f (contents c m) else contents c m.
Proof.
  intros Ha. unfold contents. case_decide as E.
  - subst c. rewrite list_lookup_alter_eq. by destruct (lookup_lt_is_Some_2 m a Ha) as [x ->].
  - by rewrite list_lookup_alter_ne.
Qed.

(** The memory after a store. *)
Definition stored (b : view) (i x : Z) (m : mem) : mem :=
  if in_window b i then alter (<[(byteOffset b + Z.to_nat i)%nat := to_uint8 x]>) (v_buffer b) m else m.
Lemma put_stored b i x m : put b i x m = (Ret tt, stored b i x m).
Proof. done. Qed.

Lemma length_stored b i x m : length (stored b i x m) = length m.
Proof. unfold stored. destruct (in_window b i); [by rewrite length_alter|done]. Qed.
Lemma length_contents_stored c b i x m : valid b m ->
  length (contents c (stored b i x m)) = length (contents c m).
Proof.
  intros [Hb _]. unfold stored. destruct (in_window b i); [|done].
  rewrite contents_alter by done. case_decide; [by rewrite length_insert|done].
Qed.
Lemma valid_stored c b i x m : valid b m -> valid c m -> valid c (stored b i x m).
Proof. intros Hb [H1 H2]. split; by rewrite ?length_stored, ?length_contents_stored. Qed.

(** A store through a view changes that byte of what it shows, and of nothing
    else when it is out of range. *)
Lemma bytes_stored b i x m : valid b m -> bytes b (stored b i x m) = set_at (bytes b m) i x.
Proof.
  intros Hv. pose proof (len_bytes b m Hv) as Hl. destruct Hv as [Hb _]. unfold stored, in_window, set_at, len.
  destruct (Z.leb_spec 0 i), (Z.ltb_spec i 0); try lia; cbn [andb]; [|done].
  destruct (Z.ltb_spec i (Z.of_nat (v_length b))).
  - unfold bytes. rewrite contents_alter, decide_True by done.
    rewrite drop_insert_ge, take_insert_lt by lia. do 2 f_equal. lia.
  - rewrite list_insert_ge; [done|]. rewrite Hl. lia.
Qed.
(** Views of different ArrayBuffers do not see each other's stores. *)
Lemma bytes_stored_other c b i x m : valid b m -> v_buffer c <> v_buffer b ->
  bytes c (stored b i x m) = bytes c m.
Proof.
  intros [Hb _] Hc. unfold stored. destruct (in_window b i); [|done].
  unfold bytes. by rewrite contents_alter, decide_False.
Qed.

(** Several stores in a row. *)
Fixpoint stored_all (b : view) (i : Z) (xs : list Z) (m : mem) : mem :=
  match xs with
  | [] => m
  | x :: xs => stored_all b (i + 1) xs (stored b i x m)
  end.
Lemma put_all_stored b xs : forall i m, put_all b i xs m = (Ret tt, stored_all b i xs m).
Proof. induction xs as [|x xs IH]; intros i m; [done|]. cbn [put_all stored_all]. unfold mbind, BM_bind. cbn. apply IH. Qed.

Lemma valid_stored_all c b xs : forall i m, valid b m -> valid c m -> valid c (stored_all b i xs m).
Proof. induction xs as [|x xs IH]; intros i m Hb Hc; [done|]. cbn. apply IH; by apply valid_stored. Qed.
Lemma bytes_stored_all_other c b xs : forall i m, valid b m -> v_buffer c <> v_buffer b ->
  bytes c (stored_all b i xs m) = bytes c m.
Proof.
  induction xs as [|x xs IH]; intros i m Hb Hc; [done|]. cbn.
  rewrite IH by (by apply valid_stored || done). by apply bytes_stored_other.
Qed.
Lemma length_stored_all b xs : forall i m, length (stored_all b i xs m) = length m.
Proof. induction xs as [|x xs IH]; intros i m; [done|]. cbn. by rewrite IH, length_stored. Qed.
Lemma bytes_stored_all b xs : forall i m, valid b m -> 0 <= i -> i + Z.of_nat (length xs) <= len b ->
  bytes b (stored_all b i xs m)
  = take (Z.to_nat i) (bytes b m) ++ map to_uint8 xs ++ drop (Z.to_nat i + length xs) (bytes b m).
Proof.
  induction xs as [|x xs IH]; intros i m Hb Hi Hl; cbn [stored_all map length] in *.
  { by rewrite Nat.add_0_r, app_nil_l, take_drop. }
  rewrite IH by (try (by apply valid_stored); lia). rewrite bytes_stored by done.
  unfold set_at. rewrite (proj2 (Z.ltb_ge i 0)) by lia.
  assert (Hn : (Z.to_nat i < length (bytes b m))%nat) by (rewrite len_bytes by done; unfold len in *; lia).
  replace (Z.to_nat (i + 1)) with (S (Z.to_nat i)) by lia.
  rewrite (take_S_r _ _ (to_uint8 x)) by (by rewrite list_lookup_insert_eq).
  rewrite take_insert_ge, (drop_insert_lt (bytes b m) (S (Z.to_nat i) + length xs)) by lia.
  rewrite <-app_assoc. cbn [Datatypes.app]. do 4 f_equal. lia.
Qed.
Lemma bytes_stored_full b xs m : valid b m -> length xs = v_length b ->
  bytes b (stored_all b 0 xs m) = map to_uint8 xs.
Proof.
  intros Hb Hl. rewrite bytes_stored_all by (unfold len; (done || lia)).
  cbn [Z.to_nat take]. rewrite drop_ge by (rewrite len_bytes by done; lia). by rewrite app_nil_r.
Qed.

(** ** New ArrayBuffers *)

Lemma contents_app m x c : (c < length m)%nat -> contents c (m ++ [x]) = contents c m.
Proof. intros. unfold contents. by rewrite lookup_app_l. Qed.
Lemma contents_new m x : contents (length m) (m ++ [x]) = x.
Proof. unfold contents. by rewrite list_lookup_middle. Qed.
Lemma valid_app c m x : valid c m -> valid c (m ++ [x]).
Proof.
  intros [H1 H2]. split; [rewrite length_app; lia|]. by rewrite contents_app.
Qed.
Lemma bytes_app c m x : valid c m -> bytes c (m ++ [x]) = bytes c m.
Proof. intros [H1 _]. unfold bytes. by rewrite contents_app. Qed.
Lemma new_array_valid n m : valid (View (length m) 0 n) (m ++ [replicate n 0]).
Proof.
  split; cbn; [rewrite length_app; cbn; lia|]. by rewrite contents_new, length_replicate.
Qed.
Lemma new_array_bytes n m : bytes (View (length m) 0 n) (m ++ [replicate n 0]) = replicate n 0.
Proof. unfold bytes. cbn. rewrite contents_new, drop_0. apply take_ge. by rewrite length_replicate. Qed.

(** ** Slices *)

Lemma slice_index_bound n i : 0 <= n -> 0 <= slice_index n i <= n.
Proof. intros. unfold slice_index. bdestr; lia. Qed.
Lemma slice_index_id n i : 0 <= i <= n -> slice_index n i = i.
Proof. intros. unfold slice_index. bdestr; lia. Qed.
Lemma slice_valid b s e m : valid b m -> valid (slice b s e) m.
Proof.
  intros [H1 H2]. unfold slice. pose proof (slice_index_bound (len b) (i32 (default 0 s)) ltac:(unfold len; lia)).
  pose proof (slice_index_bound (len b) (match e with None => len b | Some e => i32 e end) ltac:(unfold len; lia)).
  split; cbn; [done|]. unfold len in *. bdestr; lia.
Qed.

Definition slice_start (b : view) (s : option Z) : Z := slice_index (len b) (i32 (default 0 s)).
Definition slice_end (b : view) (s e : option Z) : Z :=
  Z.max (slice_start b s) (slice_index (len b) (match e with None => len b | Some e => i32 e end)).
Lemma slice_eq b s e : slice b s e = subarray b (slice_start b s) (slice_end b s e).
Proof. unfold slice, slice_end, slice_start. f_equal. bdestr; lia. Qed.
Lemma slice_end_bound b s e : 0 <= slice_start b s <= slice_end b s e /\ slice_end b s e <= len b.
Proof.
  unfold slice_end, slice_start.
  pose proof (slice_index_bound (len b) (i32 (default 0 s)) ltac:(unfold len; lia)).
  pose proof (slice_index_bound (len b) (match e with None => len b | Some e => i32 e end) ltac:(unfold len; lia)).
  lia.
Qed.

Lemma subarray_bytes b lo hi m : 0 <= lo <= hi -> hi <= len b ->
  bytes (subarray b lo hi) m = firstn (Z.to_nat (hi - lo)) (skipn (Z.to_nat lo) (bytes b m)).
Proof.
  intros Hlo Hhi. unfold subarray, bytes, len in *. cbn.
  rewrite <-drop_drop, skipn_firstn_comm, take_take. f_equal. lia.
Qed.

(** ** Code that changes one view *)

(** From [m] to [m'] only the ArrayBuffer of [b] may have changed, none has
    changed its size. *)
Definition writes_only (b : view) (m m' : mem) : Prop :=
  (forall c, valid c m -> valid c m') /\
  (forall c, v_buffer c <> v_buffer b -> bytes c m' = bytes c m).
(** The code returns [r] and leaves the bytes [bs] in [b]. *)
Definition leaves {A} (b : view) (c : BM A) (m : mem) (r : A) (bs : list Z) : Prop :=
  exists m', c m = (Ret r, m') /\ writes_only b m m' /\ bytes b m' = bs.

#[global] Instance writes_only_preorder b : PreOrder (writes_only b).
Proof.
  split; [by split|]. intros m1 m2 m3 [V1 B1] [V2 B2]. split; [auto|].
  intros c Hc. by rewrite B2, B1.
Qed.
Lemma stored_only b i x m : valid b m -> writes_only b m (stored b i x m).
Proof. intros Hb. split; [intros c; by apply valid_stored|]. intros c. by apply bytes_stored_other. Qed.

Lemma leaves_put b i x m : valid b m -> leaves b (put b i x) m tt (set_at (bytes b m) i x).
Proof.
  intros Hb. exists (stored b i x m). split; [done|]. split; [by apply stored_only|by apply bytes_stored].
Qed.
Lemma leaves_ret {A} b m (r : A) : leaves b (mret r) m r (bytes b m).
Proof. by exists m. Qed.
(** In sequence: the second part runs on the bytes the first left. *)
Lemma leaves_bind {A B} b (c : BM A) (k : A -> BM B) m r bs r' bs' :
  leaves b c m r bs -> valid b m ->
  (forall m', valid b m' -> bytes b m' = bs -> leaves b (k r) m' r' bs') ->
  leaves b (c ≫= k) m r' bs'.
Proof.
  intros (m1 & E1 & W1 & B1) Hv Hk. destruct (Hk m1) as (m2 & E2 & W2 & B2); [by apply W1|done|].
  exists m2. unfold mbind, BM_bind. rewrite E1. split; [done|]. split; [by etrans|done].
Qed.
Lemma leaves_get {A} b c i (k : option Z -> BM A) m r bs :
  leaves b (k (at_ (bytes c m) i)) m r bs -> leaves b (get c i ≫= k) m r bs.
Proof. done. Qed.

(** ** Swapping bytes *)

Lemma set_at_app p x l i y : i = Z.of_nat (length p) -> is_byte y ->
  set_at (p ++ x :: l) i y = p ++ y :: l.
Proof.
  intros -> Hy. unfold set_at. rewrite (proj2 (Z.ltb_ge _ 0)) by lia.
  rewrite Nat2Z.id, to_uint8_id by done. by rewrite insert_app_r_alt, Nat.sub_diag by lia.
Qed.

Lemma leaves_swap b m i j p x mid y post : valid b m ->
  bytes b m = p ++ x :: mid ++ y :: post -> is_byte x -> is_byte y ->
  i = Z.of_nat (length p) -> j = Z.of_nat (length p) + 1 + Z.of_nat (length mid) ->
  leaves b (swap b i j) m tt (p ++ y :: mid ++ x :: post).
Proof.
  intros Hv E Hx Hy Hi Hj. unfold swap. apply leaves_get. apply leaves_get. rewrite E.
  assert (Ei : at_ (p ++ x :: mid ++ y :: post) i = Some x) by (rewrite Hi; apply at_app_mid).
  assert (Ej : at_ (p ++ x :: mid ++ y :: post) j = Some y).
  { rewrite app_comm_cons, app_assoc. replace j with (Z.of_nat (length (p ++ x :: mid))); [apply at_app_mid|].
    rewrite length_app. cbn. lia. }
  rewrite Ei, Ej. cbn [default id from_option].
  eapply leaves_bind; [by apply leaves_put|done|]. intros m' Hv' E'. rewrite E, set_at_app in E' by done.
  replace (p ++ y :: mid ++ x :: post) with (set_at (bytes b m') j x); [by apply leaves_put|].
  rewrite E', !app_comm_cons, !(app_assoc p). apply set_at_app; [|done]. rewrite length_app. cbn. lia.
Qed.

(** Each group of [n] bytes reversed. *)
Fixpoint groups_reversed (fuel n : nat) (l : list Z) : list Z :=
  match fuel with
  | O => l
  | S f => if decide (l = []) then [] else rev (take n l) ++ groups_reversed f n (drop n l)
  end.

(** A loop over groups, each reversed by the body. *)
Lemma leaves_every b n body : (0 < n)%nat ->
  (forall m p g post, valid b m -> bytes b m = p ++ g ++ post -> length g = n -> Forall is_byte g ->
     leaves b (body (Z.of_nat (length p))) m tt (p ++ rev g ++ post)) ->
  forall fuel m p l k, valid b m -> bytes b m = p ++ l -> Forall is_byte l -> length l = (k * n)%nat ->
    (length l <= fuel)%nat ->
    leaves b (every fuel (Z.of_nat n) (len b) (Z.of_nat (length p)) body) m tt
      (p ++ groups_reversed fuel n l).
Proof.
  intros Hn Hbody. induction fuel as [|fuel IH]; intros m p l k Hv E Hl Hk Hf.
  { destruct l; [|cbn in Hf; lia]. cbn. rewrite <-E. apply leaves_ret. }
  cbn [every groups_reversed]. rewrite (len_eq b m Hv), E, length_app. case_decide as El.
  - subst l. rewrite (proj2 (Z.ltb_ge _ _)) by (cbn; lia). rewrite <-E. apply leaves_ret.
  - destruct k as [|k]; [destruct l; [done|cbn in Hk; lia]|].
    rewrite (proj2 (Z.ltb_lt _ _)) by lia.
    assert (Hg : length (take n l) = n) by (rewrite length_take; lia).
    eapply leaves_bind; [apply (Hbody m p (take n l) (drop n l)); try done; [by rewrite take_drop|by apply Forall_take]|done|].
    intros m' Hv' E'. rewrite app_assoc.
    replace (Z.of_nat (length p) + Z.of_nat n) with (Z.of_nat (length (p ++ rev (take n l))))
      by (rewrite length_app, length_rev; lia).
    rewrite (app_assoc p) in E'.
    replace (Z.of_nat (length p + length l)) with (len b)
      by (rewrite (len_eq b m Hv), E, length_app; lia).
    apply (IH m' _ (drop n l) k); [done..|by apply Forall_drop|rewrite length_drop; lia|rewrite length_drop; lia].
Qed.

(** [chunk g] names the bytes of a group of known length. *)
Ltac chunk g :=
  repeat match goal with
  | H : length g = S _ |- _ => let x := fresh "x" in destruct g as [|x g]; [done|]; cbn in H; injection H as H
  | H : length g = 0%nat |- _ => destruct g; [|done]; clear H
  end.
(** One swap within the group: the bytes before its first and between its two,
    the two, and what follows. *)
Ltac swap_step p pre x mid y post :=
  eapply (leaves_swap _ _ _ _ (p ++ pre) x mid y post);
  [done|rewrite <-?app_assoc; done|done|done|rewrite length_app; cbn; lia|rewrite length_app; cbn; lia].

Lemma swap16_body b m p g post : valid b m -> bytes b m = p ++ g ++ post -> length g = 2%nat ->
  Forall is_byte g ->
  leaves b (swap b (Z.of_nat (length p)) (Z.of_nat (length p) + 1)) m tt (p ++ rev g ++ post).
Proof.
  intros Hv E Hg Hb. chunk g. rewrite !Forall_cons_iff in Hb. destruct_and! Hb.
  rewrite <-(app_nil_r p) at 3. swap_step p (@nil Z) x (@nil Z) x0 post.
Qed.
Lemma swap32_body b m p g post : valid b m -> bytes b m = p ++ g ++ post -> length g = 4%nat ->
  Forall is_byte g ->
  leaves b (let i := Z.of_nat (length p) in swap b i (i + 3);; swap b (i + 1) (i + 2)) m tt (p ++ rev g ++ post).
Proof.
  intros Hv E Hg Hb. chunk g. rewrite !Forall_cons_iff in Hb. destruct_and! Hb. cbv zeta.
  eapply leaves_bind; [swap_step p (@nil Z) x [x0; x1] x2 post|done|].
  intros m1 V1 E1. rewrite <-app_assoc in E1. cbn in E1.
  replace (p ++ rev [x; x0; x1; x2] ++ post) with ((p ++ [x2]) ++ x1 :: [] ++ x0 :: x :: post)
    by by rewrite <-app_assoc.
  swap_step p [x2] x0 (@nil Z) x1 (x :: post).
Qed.
Lemma swap64_body b m p g post : valid b m -> bytes b m = p ++ g ++ post -> length g = 8%nat ->
  Forall is_byte g ->
  leaves b (let i := Z.of_nat (length p) in
            swap b i (i + 7);; swap b (i + 1) (i + 6);; swap b (i + 2) (i + 5);; swap b (i + 3) (i + 4))
    m tt (p ++ rev g ++ post).
Proof.
  intros Hv E Hg Hb. chunk g. rewrite !Forall_cons_iff in Hb. destruct_and! Hb. cbv zeta.
  eapply leaves_bind; [swap_step p (@nil Z) x [x0; x1; x2; x3; x4; x5] x6 post|done|].
  intros m1 V1 E1. rewrite <-app_assoc in E1. cbn in E1.
  eapply leaves_bind; [swap_step p [x6] x0 [x1; x2; x3; x4] x5 (x :: post)|done|].
  intros m2 V2 E2. rewrite <-app_assoc in E2. cbn in E2.
  eapply leaves_bind; [swap_step p [x6; x5] x1 [x2; x3] x4 (x0 :: x :: post)|done|].
  intros m3 V3 E3. rewrite <-app_assoc in E3. cbn in E3.
  replace (p ++ rev [x; x0; x1; x2; x3; x4; x5; x6] ++ post)
    with ((p ++ [x6; x5; x4]) ++ x3 :: [] ++ x2 :: x1 :: x0 :: x :: post) by by rewrite <-app_assoc.
  swap_step p [x6; x5; x4] x2 (@nil Z) x3 (x1 :: x0 :: x :: post).
Qed.

Lemma leaves_groups b n body : (0 < n)%nat ->
  (forall m p g post, valid b m -> bytes b m = p ++ g ++ post -> length g = n -> Forall is_byte g ->
     leaves b (body (Z.of_nat (length p))) m tt (p ++ rev g ++ post)) ->
  forall m, valid b m -> Forall is_byte (bytes b m) -> len b mod Z.of_nat n = 0 ->
    leaves b (every (v_length b) (Z.of_nat n) (len b) 0 body;; mret b) m b
      (groups_reversed (v_length b) n (bytes b m)).
Proof.
  intros Hn Hbody m Hv Hb Hd. apply Z_div_exact_2 in Hd; [|lia].
  eapply leaves_bind; [apply (leaves_every b n body Hn Hbody _ m [] (bytes b m) (Z.to_nat (len b / Z.of_nat n)))|done|];
    try done; rewrite ?len_bytes by done.
  - unfold len in *. nia.
  - lia.
  - intros m' Hv' E'. cbn in E'. rewrite <-E'. apply leaves_ret.
Qed.

(** Each of the three swaps reverses the bytes of every group, in place, when
    the length is a multiple of the group's; otherwise it throws a RangeError
    before it changes anything. *)
Theorem swaps_reverse b m : valid b m -> Forall is_byte (bytes b m) ->
  (if len b mod 2 =? 0 then leaves b (swap16 b) m b (groups_reversed (v_length b) 2 (bytes b m))
   else exists e, swap16 b m = (Throw (JErr RangeErr e), m)) /\
  (if len b mod 4 =? 0 then leaves b (swap32 b) m b (groups_reversed (v_length b) 4 (bytes b m))
   else exists e, swap32 b m = (Throw (JErr RangeErr e), m)) /\
  (if len b mod 8 =? 0 then leaves b (swap64 b) m b (groups_reversed (v_length b) 8 (bytes b m))
   else exists e, swap64 b m = (Throw (JErr RangeErr e), m)).
Proof.
  intros Hv Hb. unfold swap16, swap32, swap64.
  repeat split; match goal with |- context [?x =? 0] => destruct (Z.eqb_spec x 0) end; cbn [negb];
    try by eexists.
  - apply (leaves_groups b 2); auto using swap16_body with lia.
  - apply (leaves_groups b 4); auto using swap32_body with lia.
  - apply (leaves_groups b 8); auto using swap64_body with lia.
Qed.
