(* ===== verification/Apps.v ===== *)
(** The example applications (basic, scale-out and protobuf, each
    browser/app.js), over the client: the page they read and write, what the
    send button does, and the handlers they dial with.

    A handler runs over the page and the client's [world]. [prompt] takes the
    user's answers from the page in order; what is appended to the output
    element is kept as the list of the strings appended. *)

From S2P Require Import Prelude JsVal JsMap Message World Conn Dial UserMessage.

(** ** The page *)

(** The send button's closure: its [nsConn] and the variable it captured, the
    room joined or the user's name. *)
Record closure := Closure { cl_nsConn : nsref; cl_var : jsval }.
Record page := Page {
  outputTxt : list jsstr;
  inputTxt : jsstr;
  inputToTxt : jsstr;
  sendBtn_disabled : bool;
  sendBtn_onclick : option closure;
  answers : list jsval;
  alerts : list jsval }.
Record app := App { a_page : page; a_world : world }.

(** ** The monad of a handler: the page, the client, and exceptions *)

Definition AM (A : Type) : Type := app -> outcome A * app.
#[global] Instance AM_ret : MRet AM := fun A a s => (Ret a, s).
#[global] Instance AM_bind : MBind AM := fun A B f m s =>
  match m s with
  | (Ret a, s) => f a s
  | (Throw e, s) => (Throw e, s)
  | (Running, s) => (Running, s)
  end.
Definition client {A} (m : M A) : AM A := fun s =>
  let '(o, w) := m (a_world s) in (o, App (a_page s) w).
Definition of_page {A} (f : page -> A) : AM A := fun s => (Ret (f (a_page s)), s).
Definition upd_page (f : page -> page) : AM unit := fun s => (Ret tt, App (f (a_page s)) (a_world s)).
Definition of_outcome {A} (o : outcome A) : AM A := fun s => (o, s).

(** ** What the three applications share *)

Definition wsURL (document_location : location) : jsstr :=
  let scheme := if loc_protocol document_location ==? js "https:" then js "wss" else js "ws" in
  let port := if loc_port document_location ==? [] then [] else js ":" ++ loc_port document_location in
  scheme ++ js "://" ++ loc_hostname document_location ++ port ++ js "/echo".

Definition newline : jsstr := [10].
Definition addMessage (msg : jsstr) : AM unit := upd_page (fun p =>
  Page (outputTxt p ++ [msg ++ newline]) (inputTxt p) (inputToTxt p) (sendBtn_disabled p)
    (sendBtn_onclick p) (answers p) (alerts p)).
Definition handleError (reason : jsval) : AM unit := upd_page (fun p =>
  Page (outputTxt p) (inputTxt p) (inputToTxt p) (sendBtn_disabled p)
    (sendBtn_onclick p) (answers p) (alerts p ++ [reason])).
(** [prompt(text)]: null when the user gives no answer. *)
Definition prompt : AM jsval := fun s =>
  let p := a_page s in
  (Ret (List.hd JNull (answers p)),
   App (Page (outputTxt p) (inputTxt p) (inputToTxt p) (sendBtn_disabled p)
          (sendBtn_onclick p) (List.tl (answers p)) (alerts p)) (a_world s)).
Definition clear_input : AM unit := upd_page (fun p =>
  Page (outputTxt p) [] (inputToTxt p) (sendBtn_disabled p) (sendBtn_onclick p) (answers p) (alerts p)).
(** [sendBtn.disabled = false; sendBtn.onclick = ...] *)
Definition enable_button (c : closure) : AM unit := upd_page (fun p =>
  Page (outputTxt p) (inputTxt p) (inputToTxt p) false (Some c) (answers p) (alerts p)).
Definition set_closure (c : closure) : AM unit := upd_page (fun p =>
  Page (outputTxt p) (inputTxt p) (inputToTxt p) (sendBtn_disabled p) (Some c) (answers p) (alerts p)).

(** The names of the events in the handler objects. *)
Definition default_namespace : jsstr := js "default".
Definition chat_event : jsstr := js "chat".

(** A value as the name of a room: [joinRoom(null)] and [room(null)] look up
    the same key, no room has it. *)
Definition as_key (v : jsval) : key := match v with JStr s => Some s | _ => None end.

(** JSON objects with their members in order, and the language's [JSON]. *)
Class JSON := {
  stringify : list (jsstr * jsval) -> jsstr;
  parse : jsstr -> outcome (option (list (jsstr * jsval)))  (* null is no object *)
}.

Section apps.
Context `{TextCodec} `{Env} `{JSON}.

Definition namespace_message (text : jsstr) (msg : msgref) : AM unit :=
  m ← client (get_msg msg); addMessage (text ++ to_str (of_key (Namespace m))).
Definition room_message (text : jsstr) (msg : msgref) : AM unit :=
  m ← client (get_msg msg); addMessage (text ++ to_str (of_key (Room m))).

(** [obj.name] *)
Fixpoint member (name : jsstr) (obj : list (jsstr * jsval)) : jsval :=
  match obj with
  | [] => JUndef
  | (k, v) :: obj => if k ==? name then v else member name obj
  end.
Definition no_object : outcome (list (jsstr * jsval)) :=
  type_error (js "Cannot read properties of null (reading 'to')").

(** The chat handler of the JSON applications: a direct message is marked, and
    so is the room it came in. *)
Definition json_chat (msg : msgref) : AM unit :=
  m ← client (get_msg msg);
  obj ← of_outcome (parse (to_str (Body m)));
  userMsg ← of_outcome (match obj with Some o => Ret o | None => no_object end);
  let from := member (js "from") userMsg in
  let from := if truthy (member (js "to") userMsg)
              then JStr (js "private message: " ++ to_str from) else from in
  let from := if of_key (Room m) ==? JStr [] then from
              else JStr (to_str (of_key (Room m)) ++ js ": " ++ to_str from) in
  addMessage (to_str from ++ js ": " ++ to_str (member (js "text") userMsg)).

(** [handleNamespaceConnectedConn] of the JSON applications. *)
Definition json_namespace_connected (nsConn : nsref) : AM unit :=
  roomToJoin ← prompt;
  client (joinRoom nsConn (as_key roomToJoin));;
  enable_button (Closure nsConn roomToJoin).

(** Their event handlers, in the order of the handler object. *)
Definition json_handlers : list (jsstr * handler_value) :=
  [(default_namespace, HObj
     [(OnNamespaceConnected, 0%nat); (OnNamespaceDisconnect, 1%nat); (OnRoomJoined, 2%nat);
      (OnRoomLeft, 3%nat); (js "notify", 4%nat); (chat_event, 5%nat)])].
Definition json_handler (h : handler) (nsConn : nsref) (msg : msgref) : AM jsval :=
  (match h with
   | 0%nat => namespace_message (js "connected to namespace: ") msg;; json_namespace_connected nsConn
   | 1%nat => namespace_message (js "disconnected from namespace: ") msg
   | 2%nat => room_message (js "joined to room: ") msg
   | 3%nat => room_message (js "left from room: ") msg
   | 4%nat => m ← client (get_msg msg); addMessage (to_str (Body m))
   | _ => json_chat msg
   end);; mret JUndef.

(** [nsConn.room(name).leave()] *)
Definition leave_room (nsConn : nsref) (name : jsval) : AM unit :=
  rm ← client (NSConn_room nsConn (as_key name));
  match rm with
  | None => of_outcome (type_error (js "Cannot read properties of undefined (reading 'leave')"))
  | Some r => client (Room_leave r);; mret tt
  end.
(** The message is emitted in the room, or in the namespace without one. *)
Definition emit_chat (nsConn : nsref) (name : jsval) (body : jsstr) : AM unit :=
  if negb (name ==? JStr []) then
    rm ← client (NSConn_room nsConn (as_key name));
    match rm with
    | None => of_outcome (type_error (js "Cannot read properties of undefined (reading 'emit')"))
    | Some r => client (Room_emit r (Some chat_event) (JStr body));; mret tt
    end
  else client (NSConn_emit nsConn (Some chat_event) (JStr body));; mret tt.

(** *** scale-out *)

Definition scaleout_send : AM unit :=
  c ← of_page sendBtn_onclick;
  match c with
  | None => mret tt
  | Some (Closure nsConn roomToJoin) =>
      input ← of_page inputTxt;
      clear_input;;
      toID ← of_page inputToTxt;
      if input ==? js "leave" then
        leave_room nsConn roomToJoin;; set_closure (Closure nsConn (JStr []))
      else
        id ← client (gets (fun w => c_ID (w_conn w)));
        emit_chat nsConn roomToJoin
          (stringify [(js "from", id); (js "to", JStr toID); (js "text", JStr input)]);;
        addMessage (js "Me: " ++ input)
  end.

(** *** basic: the handler names [toID], which is not declared there *)

Definition basic_send : AM unit :=
  c ← of_page sendBtn_onclick;
  match c with
  | None => mret tt
  | Some (Closure nsConn roomToJoin) =>
      input ← of_page inputTxt;
      clear_input;;
      if input ==? js "leave" then
        leave_room nsConn roomToJoin;; set_closure (Closure nsConn (JStr []))
      else of_outcome (Throw (JErr ReferenceErr (js "toID is not defined")))
  end.

(** The options of the two [dial] calls. *)
Definition scaleout_options (username : jsval) : options :=
  Options (<[js "X-Username" := to_str username]> jm_new) None 0.
Definition basic_options (username : jsval) : options :=
  Options (<[js "X-Username" := to_str username]> jm_new) None 5000.

(** *** protobuf *)

Definition protobuf_namespace_connected (nsConn : nsref) : AM unit :=
  username ← prompt; enable_button (Closure nsConn username).

Definition protobuf_send : AM unit :=
  c ← of_page sendBtn_onclick;
  match c with
  | None => mret tt
  | Some (Closure nsConn username) =>
      input ← of_page inputTxt;
      clear_input;;
      body ← of_outcome (serializeBinary (setText (setUsername (UserMessage None) username) (JStr input)));
      client (NSConn_emitBinary nsConn (Some chat_event) (JBytes body));;
      addMessage (js "Me: " ++ input)
  end.

Definition protobuf_chat (pb_fuel : nat) (msg : msgref) : AM unit :=
  m ← client (get_msg msg);
  userMsg ← of_outcome (deserializeBinary pb_fuel (Body m));
  addMessage (to_str (getUsername userMsg) ++ js ": " ++ to_str (getText userMsg)).

(** [new TextDecoder("utf-8").decode(msg.Body)] *)
Definition protobuf_chat_test (msg : msgref) : AM unit :=
  m ← client (get_msg msg);
  s ← of_outcome (match Body m with
                  | JBytes b | JBuffer b => Ret (tc_decode b)
                  | JUndef => Ret []
                  | _ => type_error (js "parameter 1 is not of type 'ArrayBuffer'")
                  end);
  addMessage s.

Definition protobuf_handlers : list (jsstr * handler_value) :=
  [(default_namespace, HObj
     [(OnNamespaceConnected, 0%nat); (OnNamespaceDisconnect, 1%nat); (chat_event, 2%nat);
      (js "chat_test", 3%nat)])].
Definition protobuf_handler (pb_fuel : nat) (h : handler) (nsConn : nsref) (msg : msgref) : AM jsval :=
  (match h with
   | 0%nat => namespace_message (js "connected to namespace: ") msg;; protobuf_namespace_connected nsConn
   | 1%nat => namespace_message (js "disconnected from namespace: ") msg
   | 2%nat => protobuf_chat pb_fuel msg
   | _ => protobuf_chat_test msg
   end);; mret JUndef.

(** ** [runExample], around its [await] of [dial] *)

(** The call of [dial]. The JSON applications ask for a user name first. *)
Definition protobuf_dial (isBrowser : bool) (throws : ws_request -> option jsval) (loc : location) :=
  dial isBrowser loc throws (wsURL loc) (Some protobuf_handlers) no_options.
Definition json_dial (opts : jsval -> options) (isBrowser : bool)
    (throws : ws_request -> option jsval) (loc : location) : AM (attempt + jsval) :=
  username ← prompt;
  mret (dial isBrowser loc throws (wsURL loc) (Some json_handlers) (opts username)).

(** After it: the default namespace is connected, or the error shown. *)
Definition after_dial (s : unit + jsval) : AM unit :=
  match s with
  | inl _ => client (connect (Some default_namespace));; mret tt
  | inr err => handleError err
  end.
End apps.
