(* ===== verification/System.v ===== *)
(** The client as a whole: event handlers written as programs over the client's
    operations, the events that drive it, and what holds in every state it can
    reach. *)

From stdpp Require Import relations.
From S2P Require Import Prelude JsVal JsMap TextEncoding Message World Conn ConnInv.

(** ** Handlers

    A handler reads and writes its message and calls the client's public
    operations; what it does next may depend on each answer. *)

Inductive op :=
  | OReadMsg (r : msgref)
  | OWriteMsg (r : msgref) (f : message -> message)
  | OIsClosed
  | ONamespace (n : key)
  | ORoom (ns : nsref) (k : key)
  | OEmit (ns : nsref) (event : key) (body : jsval)
  | OEmitBinary (ns : nsref) (event : key) (body : jsval)
  | OAsk (ns : nsref) (event : key) (body : jsval)
  | ORoomEmit (rm : room) (event : key) (body : jsval)
  | ORoomLeave (rm : room)
  | OLeaveAll (ns : nsref)
  | OForceLeaveAll (ns : nsref) (isLocal : bool)
  | OJoinRoom (ns : nsref) (k : key)
  | ODisconnect (ns : nsref)
  | OConnect (n : key)
  | OWaitServerConnect (n : key)
  | OClose.

Inductive answer :=
  | AUnit
  | ABool (b : bool)
  | AMsg (m : message)
  | APromise (p : pid)
  | ANs (ns : option nsref)
  | ARoom (rm : option room).

Inductive prog :=
  | PReturn (v : jsval)
  | PThrow (e : jsval)
  | POp (o : op) (k : answer -> prog).

Section run.
Context `{TextCodec} `{Env}.

Definition run_op (o : op) : M answer :=
  match o with
  | OReadMsg r => m ← get_msg r; mret (AMsg m)
  | OWriteMsg r f => upd_msg r f;; mret AUnit
  | OIsClosed => b ← isClosed; mret (ABool b)
  | ONamespace n => ns ← namespace n; mret (ANs ns)
  | ORoom ns k => rm ← NSConn_room ns k; mret (ARoom rm)
  | OEmit ns e b => x ← NSConn_emit ns e b; mret (ABool x)
  | OEmitBinary ns e b => x ← NSConn_emitBinary ns e b; mret (ABool x)
  | OAsk ns e b => p ← NSConn_ask ns e b; mret (APromise p)
  | ORoomEmit rm e b => x ← Room_emit rm e b; mret (ABool x)
  | ORoomLeave rm => p ← Room_leave rm; mret (APromise p)
  | OLeaveAll ns => p ← leaveAll ns; mret (APromise p)
  | OForceLeaveAll ns b => forceLeaveAll ns b;; mret AUnit
  | OJoinRoom ns k => p ← joinRoom ns k; mret (APromise p)
  | ODisconnect ns => p ← NSConn_disconnect ns; mret (APromise p)
  | OConnect n => p ← connect n; mret (APromise p)
  | OWaitServerConnect n => p ← waitServerConnect n; mret (APromise p)
  | OClose => close;; mret AUnit
  end.

Fixpoint run_prog (p : prog) : M jsval :=
  match p with
  | PReturn v => mret v
  | PThrow e => throw e
  | POp o k => a ← run_op o; run_prog (k a)
  end.
End run.

(** ** The environment made of such handlers

    [scripts h ns msg] is the program of handler [h]; handlers fire further
    handlers through the operations, to the depth [n]. *)

Section system.
Context `{TextCodec}.
Variable scripts : handler -> nsref -> msgref -> prog.
Variable clock_of : nat -> clock.
Variable loops : nat.

Fixpoint run_handler (n : nat) (h : handler) (ns : nsref) (msg : msgref) : M jsval :=
  match n with
  | O => running
  | S n' =>
      let env := {| callback := run_handler n'; clock_at := clock_of; fuel := loops |} in
      run_prog (scripts h ns msg)
  end.

Definition script_env (n : nat) : Env :=
  {| callback := run_handler n; clock_at := clock_of; fuel := loops |}.

(** ** Events *)

(** The events of the browser: a frame arrives, the connection's socket closes
    ([onclose] also runs [close]), a promise job runs, the application calls an
    operation. *)
Inductive step (n : nat) (w : world) : world -> Prop :=
  | step_frame data : step n w (handle (H0 := script_env n) data w).2
  | step_onclose :
      step n w (close (H0 := script_env n) (upd_io (set_open false) w)).2
  | step_job : step n w (run_job (H0 := script_env n) w).2
  | step_call o : step n w (run_op (H0 := script_env n) o w).2.

Definition init (namespaces : jmap key events) (reconnectTries : Z) (w : world) : Prop :=
  exists open, w = World (new_Conn namespaces reconnectTries) (Heap [] [] [] []) (Io [] open 0 0 []).

Definition reachable (n : nat) (w w' : world) : Prop := rtc (step n) w w'.
End system.

(** ** Every handler program keeps the invariant *)

Section keeps.
Context `{TextCodec} `{EnvOk}.

Lemma wp_throw {A} e w (Q : A -> world -> Prop) : wp (throw e) w Q.
Proof. intros Hi. split; [done|]. by split; [apply ext_refl|]. Qed.

Lemma wp_run_op o w : wp (run_op o) w (fun _ _ => True).
Proof. destruct o; simpl; unfold NSConn_room, connect; wp_go. Qed.

Lemma wp_run_prog p w : wp (run_prog p) w (fun _ _ => True).
Proof.
  revert w. induction p as [v|e|o k IH]; intros w; simpl.
  - by apply wp_ret.
  - apply wp_throw.
  - apply wp_seq; [apply wp_run_op|]. intros. apply IH.
Qed.
End keeps.

Section invariant.
Context `{TextCodec}.
Variable scripts : handler -> nsref -> msgref -> prog.
Variable clock_of : nat -> clock.
Variable loops : nat.

Abbreviation env := (script_env scripts clock_of loops).

Lemma script_env_ok n : EnvOk (H := env n).
Proof.
  induction n as [|n IH]; intros h ns msg w; simpl; [apply wp_running|].
  apply (wp_run_prog (H1 := IH)).
Qed.

Lemma Inv_init nss rt w : init nss rt w -> Inv w.
Proof.
  intros [open ->]. split; simpl; try (done || apply jm_wf_new || by constructor).
Qed.

Lemma step_keeps n w w' : step scripts clock_of loops n w w' -> Inv w -> Inv w' /\ ext w w'.
Proof.
  pose proof (script_env_ok n) as Hok. intros Hs Hi. destruct Hs.
  - destruct (wp_handle (H1 := Hok) data w Hi) as (? & ? & _). done.
  - assert (Hx : ext w (upd_io (set_open false) w)) by (split_world w; by apply ext_frame).
    assert (Hi' : Inv (upd_io (set_open false) w)).
    { eapply Inv_step; [done..| | | | | | | ]; auto. }
    destruct (wp_close (H1 := Hok) _ Hi') as (? & ? & _). split; [done|]. by etrans.
  - destruct (wp_run_job (H1 := Hok) w Hi) as (? & ? & _). done.
  - destruct (wp_run_op (H1 := Hok) o w Hi) as (? & ? & _). done.
Qed.

Lemma reachable_keeps n w w' : reachable scripts clock_of loops n w w' -> Inv w -> Inv w' /\ ext w w'.
Proof.
  induction 1 as [w|w1 w2 w3 Hs _ IH]; [by split; [|apply ext_refl]|].
  intros Hi. destruct (step_keeps _ _ _ Hs Hi) as [Hi2 Hx].
  destruct (IH Hi2). split; [done|]. by etrans.
Qed.

(** C3. In every state the client reaches, whatever the server sends, whatever the
    handlers do and however the promise jobs interleave with the frames: a
    connected namespace has the object of its name, with the handlers registered
    for it; a room belongs to the namespace connection that lists it, under its
    own name; no frame is left in the queue. *)
Theorem reachable_invariant n nss rt w0 w : init nss rt w0 -> reachable scripts clock_of loops n w0 w ->
  (forall k r, c_connectedNamespaces (w_conn w) !! k = Some r -> exists nsc,
     h_nsconns (w_heap w) !! r = Some nsc /\ ns_namespace nsc = k /\ nss !! k = Some (ns_events nsc)) /\
  (forall r nsc k rm, h_nsconns (w_heap w) !! r = Some nsc -> ns_rooms nsc !! k = Some rm -> rm = Room_ r k) /\
  c_queue (w_conn w) = [] /\ c_namespaces (w_conn w) = nss.
Proof.
  intros Hi Hr. destruct (reachable_keeps _ _ _ Hr (Inv_init _ _ _ Hi)) as [HI Hx].
  assert (Hn : c_namespaces (w_conn w) = nss).
  { rewrite (ext_namespaces _ _ Hx). by destruct Hi as [? ->]. }
  split; [|split; [|split]]; [|apply HI|apply HI|done].
  intros k r Hk. destruct (inv_connected _ HI _ _ Hk) as (nsc & H1 & H2 & H3). exists nsc. by rewrite <-Hn.
Qed.

(** C4. Nothing is undone: a promise settles once, an acknowledged connection stays
    acknowledged and a closed one closed, and what has been sent or fired stays
    sent and fired, in its order. *)
Theorem nothing_undone n nss rt w0 w w' : init nss rt w0 ->
  reachable scripts clock_of loops n w0 w -> reachable scripts clock_of loops n w w' ->
  (forall p s, h_promises (w_heap w) !! p = Some (Settled s) -> h_promises (w_heap w') !! p = Some (Settled s)) /\
  (c_isAcknowledged (w_conn w) = true -> c_isAcknowledged (w_conn w') = true) /\
  (c_closed (w_conn w) = true -> c_closed (w_conn w') = true) /\
  (exists later, io_sent (w_io w') = io_sent (w_io w) ++ later) /\
  exists later, io_fired (w_io w') = io_fired (w_io w) ++ later.
Proof.
  intros Hi Hr Hr'. destruct (reachable_keeps _ _ _ Hr (Inv_init _ _ _ Hi)) as [HI _].
  destruct (reachable_keeps _ _ _ Hr' HI) as [_ [Hnn Ha Hc Hns Hp Hs Hf]]. repeat split; auto.
Qed.
End invariant.
