(* ===== verification/ConnSpec.v ===== *)
(** What the client's operations do, branch by branch: the write guard, the
    acknowledgement, the routing of replies, asking and being answered. *)

From S2P Require Import Prelude JsVal JsMap TextEncoding Message CodecLaws MessageSpec World Conn.
From S2P Require Import ConnInv System.

(** ** Running the monad *)

Lemma bind_ret {A B} (m : M A) (f : A -> M B) w a w' :
  m w = (Ret a, w') -> (m ≫= f) w = f a w'.
Proof. unfold mbind, M_bind. by intros ->. Qed.

Lemma bind_throw {A B} (m : M A) (f : A -> M B) w e w' :
  m w = (Throw e, w') -> (m ≫= f) w = (Throw e, w').
Proof. unfold mbind, M_bind. by intros ->. Qed.

Lemma bind_assoc {A B C} (m : M A) (f : A -> M B) (g : B -> M C) w :
  ((m ≫= f) ≫= g) w = (m ≫= (fun a => f a ≫= g)) w.
Proof. unfold mbind, M_bind. by destruct (m w) as [[]]. Qed.

Lemma bind_gets {A B} (f : world -> A) (g : A -> M B) w : (gets f ≫= g) w = g (f w) w.
Proof. done. Qed.
Lemma bind_modify {B} f (g : unit -> M B) w : (modify f ≫= g) w = g tt (f w).
Proof. done. Qed.
Lemma bind_mret {A B} (a : A) (g : A -> M B) w : (mret a ≫= g) w = g a w.
Proof. done. Qed.

(** One step of a run, when its first operation is a primitive. *)
Ltac run1 :=
  first [ rewrite bind_assoc | rewrite bind_gets | rewrite bind_modify | rewrite bind_mret ].
Ltac run := repeat run1; cbv beta.

Section spec.
Context `{TextCodec} `{Env}.
Implicit Types (w : world) (m : message).

(** ** Writing *)

(** When a message may be written: on an open connection; to connect or
    disconnect a namespace; otherwise in a connected namespace, and inside a
    room only to join it, to say it was left, or as its member. *)
Definition may_write w m : bool :=
  negb (c_closed (w_conn w)) &&
  (isConnect m || isDisconnect m ||
   match c_connectedNamespaces (w_conn w) !! Namespace m with
   | None => false
   | Some r =>
       isEmpty (of_key (Room m)) || isRoomJoin m || isRoomLeft m ||
       match h_nsconns (w_heap w) !! r with
       | Some nsc => jm_has (ns_rooms nsc) (Room m)
       | None => false
       end
   end).

Definition sent_also (d : jsval) w : world := upd_io (set_sent (io_sent (w_io w) ++ [d])) w.

Lemma write_eq msg w m :
  h_msgs (w_heap w) !! msg = Some m ->
  write msg w =
    if may_write w m then
      match serializeMessage m with
      | Ret d => (Ret true, sent_also d w)
      | Throw e => (Throw e, w)
      | Running => (Running, w)
      end
    else (Ret false, w).
Proof.
  intros Em. unfold write, may_write, isClosed, namespace. run.
  destruct (c_closed (w_conn w)); [done|]. simpl negb. rewrite andb_true_l.
  unfold get_msg. run. rewrite Em. change (default new_Message (Some m)) with m.
  assert (Esend : (data ← lift (serializeMessage m); ws_send data;; mret true) w =
    match serializeMessage m with
      | Ret d => (Ret true, sent_also d w)
      | Throw e => (Throw e, w)
      | Running => (Running, w)
      end).
  { unfold mbind, M_bind, lift. by destruct (serializeMessage m). }
  destruct (isConnect m), (isDisconnect m); simpl; try apply Esend. run.
  destruct (c_connectedNamespaces (w_conn w) !! Namespace m) as [r|]; [|done].
  destruct (isEmpty _), (isRoomJoin m), (isRoomLeft m); simpl; try apply Esend.
  unfold get_ns. run. destruct (h_nsconns (w_heap w) !! r) as [nsc|]; simpl; [|done].
  destruct (jm_has _ _); [apply Esend|done].
Qed.

(** C6. A message is written exactly when the guard holds; then one frame leaves,
    its serialization, and otherwise nothing happens at all. *)
Theorem write_guarded msg w m :
  h_msgs (w_heap w) !! msg = Some m ->
  write msg w =
    if may_write w m then
      match serializeMessage m with
      | Ret d => (Ret true, sent_also d w)
      | Throw e => (Throw e, w)
      | Running => (Running, w)
      end
    else (Ret false, w).
Proof. apply write_eq. Qed.

(** ** The first frame *)

(** What the first unit of an unacknowledged connection's first frame decides:
    'A' gives the connection its ID, 'H' closes it with the text as the
    error, and anything else acknowledges it too and is handled as a message
    whose result is dropped. *)
Theorem first_frame_decides w :
  c_isAcknowledged (w_conn w) = false -> c_queue (w_conn w) = [] ->
  (forall rest, handle (Text (js "A" ++ rest)) w =
     (Ret JUndef, upd_conn (set_isAcknowledged true) (upd_conn (set_ID (JStr rest)) w))) /\
  (forall rest, handle (Text (js "H" ++ rest)) w =
     (Ret (JErr PlainError rest),
      upd_io (fun i => set_open false (set_closes (S (io_closes i)) i)) w)) /\
  (forall data, (forall c rest, data = Text (c :: rest) -> c ∉ js "AH") ->
     handle data w = (handleMessage data;; mret JNull) (upd_conn (set_isAcknowledged true) w)).
Proof.
  intros Ha Hq. repeat split; intros; rewrite handle_unacknowledged by done; [done..|].
  destruct data as [[|c rest]|]; [done| |done].
  assert (Hc : c ∉ js "AH") by eauto. unfold first_frame.
  repeat case_match; try done; subst; destruct Hc; set_solver.
Qed.

(** ** Replies *)

Definition allows_native w : bool :=
  match c_namespaces (w_conn w) !! Some [] with
  | Some evs => jm_has evs (Some OnNativeMessage)
  | None => false
  end.

Definition add_msg m w : world := upd_heap (set_msgs (h_msgs (w_heap w) ++ [m])) w.

(** Settling a pending promise and waking what awaits it. *)
Definition settled p s (awaits : list await_point) w : world :=
  upd_heap (fun h => set_jobs (h_jobs h ++ map (fun a => (a, s)) awaits)
                       (set_promises (<[p := Settled s]> (h_promises h)) h)) w.

Lemma handle_reply data w p awaits :
  let m := deserializeMessage data (allows_native w) in
  isInvalid m = false -> IsNative m && allows_native w = false -> isWait m = true ->
  c_waitingMessages (w_conn w) !! wait m = Some p ->
  h_promises (w_heap w) !! p = Some (Pending awaits) ->
  handleMessage data w =
    (Ret JUndef,
     settled p (if isError m then Reject (Err m) else Resolve (ResMsg (length (h_msgs (w_heap w)))))
       awaits (add_msg m w)).
Proof.
  intros m Hv Hn Hw Hp Hpr. unfold handleMessage. unfold allowNativeMessages. run.
  fold (allows_native w). fold m. erewrite bind_ret by done.
  unfold get_msg. run. replace (h_msgs _ !! _) with (Some m).
  2:{ split_world w. by rewrite lookup_app_r, Nat.sub_diag by lia. }
  change (default new_Message (Some m)) with m. rewrite Hv, Hn. run. rewrite Hw.
  replace (c_waitingMessages _ !! _) with (Some p) by done.
  unfold settle. run. unfold mret, M_ret. f_equal. split_world w. by rewrite Hpr.
Qed.
(** A frame whose token has a waiting ask settles that promise - with the
    message, or with its error - and does nothing else: no handler runs, no
    frame leaves, and the token stays registered. *)
Theorem reply_settles data w p awaits :
  let m := deserializeMessage data (allows_native w) in
  isInvalid m = false -> IsNative m && allows_native w = false -> isWait m = true ->
  c_waitingMessages (w_conn w) !! wait m = Some p ->
  h_promises (w_heap w) !! p = Some (Pending awaits) ->
  handleMessage data w =
    (Ret JUndef,
     settled p (if isError m then Reject (Err m) else Resolve (ResMsg (length (h_msgs (w_heap w)))))
       awaits (add_msg m w)).
Proof. apply handle_reply. Qed.

(** ** Asking *)

Lemma isWait_genWait m c : wait m = Some (genWait c) -> isWait m = true.
Proof. unfold isWait. by intros ->; destruct c. Qed.

(** [ask] on a message that can be written: the token is registered for a fresh
    promise, then the message leaves with it. *)
Definition asked msg t w : world :=
  World (set_waitingMessages (<[Some t := length (h_promises (w_heap w))]> (c_waitingMessages (w_conn w))) (w_conn w))
    (set_msgs (alter (set_wait (Some t)) msg (h_msgs (w_heap w)))
      (set_promises (h_promises (w_heap w) ++ [Pending []]) (w_heap w)))
    (set_ticks (S (io_ticks (w_io w))) (w_io w)).

(** [ask] in general: the token is registered before the message is written, and
    stays registered when it is not written. *)
Lemma ask_run msg w m : let t := genWait (clock_at (io_ticks (w_io w))) in let p := length (h_promises (w_heap w)) in
  let m' := set_wait (Some t) m in
  h_msgs (w_heap w) !! msg = Some m ->
  ask msg w =
    if c_closed (w_conn w) then
      (Ret p, settled p (Reject ErrClosed) [] (upd_heap (set_promises (h_promises (w_heap w) ++ [Pending []])) w))
    else if may_write w m' then
      match serializeMessage m' with
      | Ret d => (Ret p, sent_also d (asked msg t w))
      | Throw e => (Ret p, settled p (Reject e) [] (asked msg t w))
      | Running => (Running, asked msg t w)
      end
    else (Ret p, settled p (Reject ErrWrite) [] (asked msg t w)).
Proof.
  intros t p m' Em. subst p. unfold ask. erewrite bind_ret by done. unfold mbind at 1, M_bind at 1, catch, isClosed. run.
  assert (Hset : forall s, settle (length (h_promises (w_heap w))) s (asked msg t w)
                           = (Ret tt, settled (length (h_promises (w_heap w))) s [] (asked msg t w))).
  { intros s. unfold settle, modify. split_world w. by rewrite lookup_app_r, Nat.sub_diag by lia. }
  assert (Ewrite : write msg (asked msg t w) =
    if may_write w m' then match serializeMessage m' with
      | Ret d => (Ret true, sent_also d (asked msg t w)) | Throw e => (Throw e, asked msg t w) | Running => (Running, asked msg t w) end
    else (Ret false, asked msg t w)).
  { rewrite (write_eq _ _ m') by (split_world w; by rewrite list_lookup_alter_eq, Em).
    by replace (may_write (asked msg t w) m') with (may_write w m') by by split_world w. }
  change (c_closed _) with (c_closed (w_conn w)). destruct (c_closed (w_conn w)) eqn:Ec.
  { unfold settle, modify. split_world w. subst. by rewrite lookup_app_r, Nat.sub_diag by lia. }
  run. unfold upd_msg. run.
  match goal with |- context [(write msg ≫= _) ?x] => replace x with (asked msg t w) by by split_world w end.
  unfold mbind, M_bind. rewrite Ewrite.
  destruct (may_write w m'); [destruct (serializeMessage m')|]; by rewrite ?Hset.
Qed.

Lemma ask_eq msg w m d :
  let t := genWait (clock_at (io_ticks (w_io w))) in
  h_msgs (w_heap w) !! msg = Some m -> may_write w (set_wait (Some t) m) = true ->
  serializeMessage (set_wait (Some t) m) = Ret d ->
  ask msg w = (Ret (length (h_promises (w_heap w))), sent_also d (asked msg t w)).
Proof.
  intros t Em Hw Hd. pose proof (ask_run msg w m Em) as E. cbv zeta in E. fold t in E. rewrite E, Hw, Hd. unfold may_write in Hw. by destruct (c_closed (w_conn w)).
Qed.

(** The answer to a question that was written: the waiting promise and no other
    is settled. *)
Lemma answer_settles msg w d data :
  let t := genWait (clock_at (io_ticks (w_io w))) in
  let p := length (h_promises (w_heap w)) in
  let answer := deserializeMessage data (allows_native w) in
  let w1 := sent_also d (asked msg t w) in
  isInvalid answer = false -> IsNative answer && allows_native w = false -> wait answer = Some t ->
  handleMessage data w1 = (Ret JUndef,
    settled p (if isError answer then Reject (Err answer) else Resolve (ResMsg (length (h_msgs (w_heap w))))) [] (add_msg answer w1)).
Proof.
  intros t p answer w1 Hv Hn Ht. assert (Ha : allows_native w1 = allows_native w) by (subst w1; by split_world w).
  assert (Hl : length (h_msgs (w_heap w)) = length (h_msgs (w_heap w1))) by (subst w1; split_world w; by rewrite length_alter).
  pose proof (handle_reply data w1 p []) as Hr. cbv zeta in Hr. rewrite Ha in Hr. fold answer in Hr. rewrite Hl. apply Hr; try done.
  - by eapply isWait_genWait.
  - rewrite Ht. subst w1. split_world w. apply jm_lookup_insert_eq.
  - subst w1 p. split_world w. by rewrite lookup_app_r, Nat.sub_diag by lia.
Qed.

(** C5. [ask] returns a new promise and touches no other. On a closed connection
    it is rejected and nothing registered; otherwise it is first registered
    under the token of this reading of the clock, then the message with the
    token is written: refused by the guard, or unserializable, the promise is
    rejected, the token staying registered; written, the promise waits until a
    frame that reads as a message with its token comes, which settles this
    promise and no other, with that message or the error it brings, fires no
    handler and sends nothing. *)
Theorem ask_answered msg w m :
  let t := genWait (clock_at (io_ticks (w_io w))) in
  let p := length (h_promises (w_heap w)) in
  let m' := set_wait (Some t) m in
  h_msgs (w_heap w) !! msg = Some m -> serializeMessage m' <> Running ->
  exists w1, ask msg w = (Ret p, w1) /\
    h_promises (w_heap w) !! p = None /\
    (forall q, q <> p -> h_promises (w_heap w1) !! q = h_promises (w_heap w) !! q) /\
    let rejected e := h_promises (w_heap w1) !! p = Some (Settled (Reject e)) /\ io_sent (w_io w1) = io_sent (w_io w) in
    if c_closed (w_conn w) then rejected ErrClosed /\ c_waitingMessages (w_conn w1) = c_waitingMessages (w_conn w)
    else c_waitingMessages (w_conn w1) = <[Some t := p]> (c_waitingMessages (w_conn w)) /\
      if may_write w m' then
        match serializeMessage m' with
        | Throw e => rejected e
        | Running => False
        | Ret d =>
            h_promises (w_heap w1) !! p = Some (Pending []) /\
            io_sent (w_io w1) = io_sent (w_io w) ++ [d] /\
            forall data, let answer := deserializeMessage data (allows_native w) in
              isInvalid answer = false -> IsNative answer && allows_native w = false -> wait answer = Some t ->
              exists w2, handleMessage data w1 = (Ret JUndef, w2) /\
                h_promises (w_heap w2) !! p = Some (Settled
                  (if isError answer then Reject (Err answer) else Resolve (ResMsg (length (h_msgs (w_heap w)))))) /\
                (forall q, q <> p -> h_promises (w_heap w2) !! q = h_promises (w_heap w) !! q) /\
                h_jobs (w_heap w2) = h_jobs (w_heap w) /\ w_conn w2 = w_conn w1 /\
                h_msgs (w_heap w2) !! length (h_msgs (w_heap w)) = Some answer /\ w_io w2 = w_io w1
        end
      else rejected ErrWrite.
Proof.
  intros t p m' Em Hrun. pose proof (ask_run msg w m Em) as E. cbv zeta in E. fold t p m' in E.
  assert (Hp : h_promises (w_heap w) !! p = None) by (apply lookup_ge_None_2; lia).
  assert (Hq : forall x q, q <> p -> (h_promises (w_heap w) ++ [x]) !! q = h_promises (w_heap w) !! q).
  { intros x q Hne. destruct (decide (q < p)%nat); [by apply lookup_app_l|]. subst p.
    rewrite !lookup_ge_None_2; [done|lia|rewrite length_app; simpl; lia]. }
  assert (Hnew : forall x y : promise, <[p := x]> (h_promises (w_heap w) ++ [y]) = h_promises (w_heap w) ++ [x]).
  { intros x y. subst p. by rewrite insert_app_r_alt, Nat.sub_diag by lia. }
  assert (Hat : forall x, (h_promises (w_heap w) ++ [x]) !! p = Some x) by (intros; by apply list_lookup_middle).
  destruct (c_closed (w_conn w)); [|destruct (may_write w m'); [destruct (serializeMessage m') as [d|e|]; [| |done]|]].
  2:{ eexists. split; [exact E|]. split; [done|]. split; [by split_world w; auto|]. split; [by split_world w|].
      split; [by split_world w|]. split; [by split_world w|]. intros data answer Hv Hn Ht.
      eexists. split; [by apply answer_settles|]. fold t p answer. subst answer. unfold sent_also, asked, settled, add_msg.
      split_world w. rewrite Hnew, Hat, app_nil_r. repeat split; auto.
      by rewrite lookup_app_r, length_alter, Nat.sub_diag by (rewrite length_alter; lia). }
  all: eexists; (split; [exact E|]); (split; [done|]); unfold asked, settled; split_world w; rewrite ?Hnew, ?Hat;
    repeat split; auto.
Qed.
End spec.
