(* ===== verification/DialSpec.v ===== *)
(** Dialing: headers travel in the URL and can be read back there, the handler
    table is well-formed, the handshake settles the promise once, and a lost
    connection is dialed again with what it had. *)

From S2P Require Import Prelude JsVal JsMap TextEncoding Utf8Step Utf8Spec Message Numbers.
From S2P Require Import MessageSpec World Conn ConnInv ConnSpec Dial.

(** ** [encodeURIComponent] *)

(** What a server reads: [%XX] is a byte, everything else itself. *)
Definition hex_val (c : Z) : Z := if c <? 65 then c - 48 else c - 55.
Fixpoint percent_decode (s : jsstr) : list Z :=
  match s with
  | 37 :: h :: l :: s' => (16 * hex_val h + hex_val l) :: percent_decode s'
  | c :: s' => c :: percent_decode s'
  | [] => []
  end.

Definition uri_safe (c : Z) : Prop := unreserved c = true \/ c = 37.

Lemma unreserved_ne c d : unreserved c = true -> d ∈ [63; 35; 38; 61; 37] -> c <> d.
Proof.
  intros Hc Hd ->. repeat (apply elem_of_cons in Hd as [-> | Hd]; [done|]). by apply elem_of_nil in Hd.
Qed.

Lemma hex_digit_safe d : 0 <= d < 16 -> unreserved (hex_digit d) = true /\ hex_val (hex_digit d) = d.
Proof.
  intros Hd.
  assert (H : Forall (fun d => unreserved (hex_digit d) = true /\ hex_val (hex_digit d) = d) (seqZ 0 16))
    by (cbv [seqZ]; simpl; repeat constructor).
  rewrite Forall_forall in H. apply H, list_elem_of_In, elem_of_seqZ. lia.
Qed.

Lemma percent_ok b s : is_byte b ->
  Forall uri_safe (percent b) /\ percent_decode (percent b ++ s) = b :: percent_decode s.
Proof.
  intros Hb. unfold is_byte in Hb. unfold percent. cbn [app percent_decode].
  destruct (hex_digit_safe (b / 16)) as [H1 E1]; [Z.to_euclidean_division_equations; lia|].
  destruct (hex_digit_safe (b mod 16)) as [H2 E2]; [Z.to_euclidean_division_equations; lia|].
  split; [constructor; [by right|constructor; [by left|constructor; [by left|constructor]]]|].
  rewrite E1, E2. f_equal.
  Z.to_euclidean_division_equations; lia.
Qed.

Lemma utf8_of_bytes cp : is_scalar cp -> utf8_of cp = utf8_bytes cp.
Proof.
  intros Hs. unfold utf8_of. unfold is_scalar in Hs.
  destruct (Z.ltb_spec cp 0x80); [by rewrite utf8_bytes_1 by lia|].
  destruct (Z.ltb_spec cp 0x800); [by rewrite utf8_bytes_2 by lia|].
  destruct (Z.ltb_spec cp 0x10000); [by rewrite utf8_bytes_3 by lia|].
  by rewrite utf8_bytes_4 by lia.
Qed.

Definition enc_cp (cp : Z) : jsstr :=
  if unreserved cp then [cp] else concat (map percent (utf8_of cp)).

Lemma percent_decode_safe c s : c <> 37 -> percent_decode (c :: s) = c :: percent_decode s.
Proof. intros Hc. simpl. repeat case_match; congruence. Qed.

Lemma percents_ok bs s : Forall is_byte bs ->
  Forall uri_safe (concat (map percent bs)) /\
  percent_decode (concat (map percent bs) ++ s) = bs ++ percent_decode s.
Proof.
  induction 1 as [|b bs Hb _ [IH1 IH2]]; [by split; [constructor|]|]. simpl map. cbn [concat].
  destruct (percent_ok b (concat (map percent bs) ++ s) Hb) as [H1 H2].
  split; [by apply Forall_app|]. rewrite <-app_assoc, H2, IH2. done.
Qed.

Lemma unreserved_ascii c : unreserved c = true -> 0 <= c < 0x80.
Proof.
  unfold unreserved. rewrite !orb_true_iff, !andb_true_iff, !Z.leb_le, bool_decide_eq_true.
  intros [[[?|?]|?]|Hc]; [lia..|].
  repeat (apply elem_of_cons in Hc as [-> | Hc]; [done|]). by apply elem_of_nil in Hc.
Qed.

Lemma enc_cp_ok cp s : is_scalar cp ->
  Forall uri_safe (enc_cp cp) /\ percent_decode (enc_cp cp ++ s) = utf8_bytes cp ++ percent_decode s.
Proof.
  intros Hs. unfold enc_cp. destruct (unreserved cp) eqn:Eu.
  - pose proof (unreserved_ascii _ Eu). rewrite utf8_bytes_1 by lia. split; [constructor; [by left|constructor]|].
    apply percent_decode_safe. eapply unreserved_ne; [done|]. set_solver.
  - rewrite utf8_of_bytes by done. apply percents_ok. by apply utf8_bytes_byte.
Qed.

(** Encoding a well-formed string, code point by code point. *)
Lemma encodeURIComponent_eq s : Forall is_unit s ->
  encodeURIComponent s =
    if well_formed s then Ret (concat (map enc_cp (stringToCodePoints s)))
    else Throw (JErr URIErr (js "URI malformed")).
Proof.
  induction s as [|c s IH IH2] using jsstr_pair_ind; [done|]. intros [Hc Hs]%Forall_cons_1.
  cbn [encodeURIComponent well_formed]. rewrite s2cp_cons. unfold is_unit in Hc.
  destruct (Z.ltb_spec c 0xD800), (Z.ltb_spec 0xDFFF c); cbn [orb].
  1,2,3: rewrite (proj2 (inRange_false c 0xD800 0xDBFF)), (proj2 (inRange_false c 0xDC00 0xDFFF)),
    (proj2 (inRange_true c 0 0xFFFF)) by lia; cbn [negb andb]; rewrite IH by done;
    by destruct (well_formed s).
  destruct (Z.leb_spec 0xDC00 c).
  { rewrite (proj2 (inRange_false c 0xD800 0xDBFF)), (proj2 (inRange_true c 0xDC00 0xDFFF)) by lia. done. }
  rewrite (proj2 (inRange_true c 0xD800 0xDBFF)) by lia. cbn [andb].
  destruct s as [|d s]; [done|]. change ((0xDC00 <=? d) && (d <=? 0xDFFF)) with (inRange d 0xDC00 0xDFFF).
  destruct (inRange d 0xDC00 0xDFFF) eqn:Ed; [|done]. apply inRange_true in Ed.
  apply Forall_cons_1 in Hs as [Hd Hs]. rewrite (IH2 d s) by done. cbn [andb].
  destruct (well_formed s); [|done]. simpl. do 2 f_equal.
  change (if unreserved ?x then [?x] else _) with (enc_cp x). f_equal.
  change 0x3FF with (Z.ones 10). rewrite !Z.land_ones, Z.shiftl_mul_pow2 by lia.
  Z.to_euclidean_division_equations; lia.
Qed.

(** ** Headers as URL parameters *)

#[local] Opaque URLParamAsHeaderPrefix.

(** The parameter a header becomes. *)
Definition header_part (k v : jsstr) : option jsstr :=
  match encodeURIComponent (URLParamAsHeaderPrefix ++ k), encodeURIComponent v with
  | Ret k, Ret v => Some (k ++ [61] ++ v)
  | _, _ => None
  end.

Lemma encode_safe s e : Forall is_unit s -> encodeURIComponent s = Ret e -> Forall uri_safe e.
Proof.
  intros Hu. rewrite encodeURIComponent_eq by done. destruct (well_formed s); [|done]. intros [= <-].
  induction (s2cp_scalar s Hu) as [|cp cps Hc _ IH]; [constructor|]. simpl. apply Forall_app; split; [|done].
  apply (enc_cp_ok cp [] Hc).
Qed.

Lemma safe_no c e : Forall uri_safe e -> c ∈ [63; 35; 38; 61] -> c ∉ e.
Proof.
  intros He Hc Hin. rewrite Forall_forall in He. apply list_elem_of_In, He in Hin as [Hu|Hp].
  - eapply unreserved_ne; [done| |done]. set_solver.
  - subst. repeat (apply elem_of_cons in Hc as [? | Hc]; [done|]). by apply elem_of_nil in Hc.
Qed.

(** [add_part] on an URL with nothing, a query or a fragment after its base. *)
Lemma add_part_plain part b : 63 ∉ b -> 35 ∉ b -> add_part part b = b ++ [63] ++ part.
Proof. intros H1 H2. unfold add_part, has_unit. by rewrite !bool_decide_false by done. Qed.

Lemma add_part_query part b q : 63 ∉ b -> 63 ∉ q ->
  add_part part (b ++ 63 :: q) = b ++ 63 :: part ++ 38 :: q.
Proof.
  intros Hb Hq. unfold add_part, has_unit, split_nth. rewrite bool_decide_true by set_solver.
  rewrite split_app, split_no_sep by done. done.
Qed.

Lemma add_part_fragment part b f : 63 ∉ b -> 63 ∉ f -> 35 ∉ b -> 35 ∉ f ->
  add_part part (b ++ 35 :: f) = b ++ 63 :: part ++ 35 :: f.
Proof.
  intros Hb Hf Hb' Hf'. unfold add_part, has_unit, split_nth.
  rewrite bool_decide_false by set_solver. rewrite bool_decide_true by set_solver.
  rewrite split_app, split_no_sep by done. done.
Qed.

(** The fold over the headers, from an URL that already has a query. *)
Definition fold_headers (es : list (nat * (jsstr * jsstr))) (url : outcome jsstr) : outcome jsstr :=
  (foldl (fun url '(_, (k, v)) =>
        url ← url;
        k ← encodeURIComponent (URLParamAsHeaderPrefix ++ k);
        v ← encodeURIComponent v;
        Ret (add_part (k ++ [61] ++ v) url)) url es).

Definition unit_header (e : nat * (jsstr * jsstr)) : Prop :=
  Forall is_unit e.2.1 /\ Forall is_unit e.2.2.

Lemma header_part_safe k v p : Forall is_unit k -> Forall is_unit v ->
  header_part k v = Some p ->
  (63 ∉ p) /\ exists ek ev, p = ek ++ 61 :: ev /\
    encodeURIComponent (URLParamAsHeaderPrefix ++ k) = Ret ek /\ encodeURIComponent v = Ret ev /\
    Forall uri_safe ek /\ Forall uri_safe ev.
Proof.
  intros Hk Hv. unfold header_part.
  assert (Hpk : Forall is_unit (URLParamAsHeaderPrefix ++ k)).
  { apply Forall_app; split; [|done]. apply (bool_decide_unpack _). by vm_compute. }
  destruct (encodeURIComponent (_ ++ k)) as [ek| |] eqn:E1; try done.
  destruct (encodeURIComponent v) as [ev| |] eqn:E2; try done. intros [= <-].
  pose proof (encode_safe _ _ Hpk E1) as S1. pose proof (encode_safe _ _ Hv E2) as S2. split.
  - assert (H63 : 63 ∈ [63; 35; 38; 61]) by by left.
    rewrite !not_elem_of_app, not_elem_of_cons. split; [by apply safe_no|]. split; [done|by apply safe_no].
  - eauto 10.
Qed.

Lemma fold_headers_cons i k v es url ek ev :
  encodeURIComponent (URLParamAsHeaderPrefix ++ k) = Ret ek -> encodeURIComponent v = Ret ev ->
  fold_headers ((i, (k, v)) :: es) (Ret url) = fold_headers es (Ret (add_part (ek ++ 61 :: ev) url)).
Proof.
  intros E1 E2. unfold fold_headers. cbn [foldl]. unfold mbind, outcome_bind. by rewrite E1, E2.
Qed.

Lemma fold_headers_query es parts b q :
  Forall unit_header es ->
  Forall2 (fun e p => header_part e.2.1 e.2.2 = Some p) es parts ->
  63 ∉ b -> 63 ∉ q ->
  fold_headers es (Ret (b ++ 63 :: q)) =
    Ret (b ++ 63 :: concat (map (fun p => p ++ [38]) (reverse parts)) ++ q).
Proof.
  intros Hu Hp Hb. revert q Hu. induction Hp as [|[i [k v]] p es parts Hp _ IH]; intros q Hu Hq; [done|].
  apply Forall_cons_1 in Hu as [[Hk Hv] Hu]. simpl in Hp, Hk, Hv.
  destruct (header_part_safe k v p Hk Hv Hp) as (Hp63 & ek & ev & -> & E1 & E2 & _).
  rewrite (fold_headers_cons _ _ _ _ _ _ _ E1 E2), (add_part_query _ _ _ Hb Hq).
  rewrite (IH _ Hu); [|by rewrite not_elem_of_app, not_elem_of_cons]. rewrite reverse_cons, map_app, concat_app.
  simpl. by rewrite app_nil_r, <-!app_assoc.
Qed.

Lemma join_parts a xs x : join [a] (xs ++ [x]) = concat (map (fun p => p ++ [a]) xs) ++ x.
Proof.
  induction xs as [|y xs IH]; [done|]. simpl. rewrite <-!app_assoc, <-IH. by destruct xs.
Qed.

(** The server decodes a component to the UTF-8 of the string. *)
Lemma percent_decode_component s e : Forall is_unit s -> encodeURIComponent s = Ret e ->
  percent_decode e = utf8_concat (stringToCodePoints s).
Proof.
  intros Hu. rewrite encodeURIComponent_eq by done. destruct (well_formed s); [|done]. intros [= <-].
  unfold utf8_concat. induction (s2cp_scalar s Hu) as [|cp cps Hc _ IH]; [done|]. cbn [map concat].
  destruct (enc_cp_ok cp (concat (map enc_cp cps)) Hc) as [_ ->]. by rewrite IH.
Qed.

(** What a parameter says of its header: split at its first '=', both sides
    decode to the UTF-8 of the prefixed name and of the value. *)
Definition reads_header (e : nat * (jsstr * jsstr)) (p : jsstr) : Prop :=
  exists ek ev, p = ek ++ 61 :: ev /\ (61 ∉ ek) /\ Forall (fun c => c ∉ [63; 35; 38; 61]) ev /\
    percent_decode ek = utf8_concat (stringToCodePoints (URLParamAsHeaderPrefix ++ e.2.1)) /\
    percent_decode ev = utf8_concat (stringToCodePoints e.2.2).

Lemma prefix_unit k : Forall is_unit k -> Forall is_unit (URLParamAsHeaderPrefix ++ k).
Proof.
  intros Hk. apply Forall_app; split; [|done]. apply (bool_decide_unpack _). by vm_compute.
Qed.

Lemma header_part_reads e p : unit_header e -> header_part e.2.1 e.2.2 = Some p -> reads_header e p.
Proof.
  intros [Hk Hv] Hp. destruct (header_part_safe _ _ _ Hk Hv Hp) as (_ & ek & ev & -> & E1 & E2 & S1 & S2).
  exists ek, ev. split; [done|]. split; [apply safe_no; [done|set_solver]|]. split.
  - apply Forall_forall. intros c Hc Hin. apply (safe_no c ev S2 Hin). by apply list_elem_of_In.
  - split; [exact (percent_decode_component _ _ (prefix_unit _ Hk) E1)|].
    exact (percent_decode_component _ _ Hv E2).
Qed.

Lemma fold_headers_from i k v p es ps b q u :
  unit_header (i, (k, v)) -> Forall unit_header es -> header_part k v = Some p ->
  Forall2 (fun e p => header_part e.2.1 e.2.2 = Some p) es ps ->
  63 ∉ b -> 63 ∉ q -> add_part p u = b ++ 63 :: q ->
  fold_headers ((i, (k, v)) :: es) (Ret u) = Ret (b ++ 63 :: join [38] (reverse ps ++ [q])).
Proof.
  intros [Hk Hv] Hu Hp Hps Hb Hq Ha.
  destruct (header_part_safe k v p Hk Hv Hp) as (_ & ek & ev & -> & E1 & E2 & _).
  rewrite (fold_headers_cons _ _ _ _ _ _ _ E1 E2), Ha.
  by rewrite (fold_headers_query es ps b q Hu Hps Hb Hq), join_parts.
Qed.

(** Every header reaches the server through the URL: after the base and the
    '?' come the parameters, the last header first, joined by '&', before what
    the URL already had of a query or a fragment; each parameter decodes to its
    header. *)
Theorem headers_in_url hs parts b :
  let url := parseHeadersAsURLParameters (Some hs) in
  jm_ents hs <> [] -> Forall unit_header (jm_ents hs) ->
  Forall2 (fun e p => header_part e.2.1 e.2.2 = Some p) (jm_ents hs) parts ->
  63 ∉ b -> 35 ∉ b ->
  url b = Ret (b ++ 63 :: join [38] (reverse parts)) /\
  (forall q, 63 ∉ q -> url (b ++ 63 :: q) = Ret (b ++ 63 :: join [38] (reverse parts ++ [q]))) /\
  (forall f, 63 ∉ f -> 35 ∉ f -> url (b ++ 35 :: f) = Ret (b ++ 63 :: join [38] (reverse parts) ++ 35 :: f)) /\
  Forall2 reads_header (jm_ents hs) parts.
Proof.
  intros url Hne Hu Hp Hb Hb'.
  assert (Eurl : forall u, url u = fold_headers (jm_ents hs) (Ret u)) by done.
  clearbody url. generalize dependent (jm_ents hs). intros hes Hne Hu Hp Eurl.
  assert (Hreads : Forall2 reads_header hes parts).
  { clear Hne Eurl. induction Hp as [|e p es ps He _ IH]; [constructor|]. apply Forall_cons_1 in Hu as [Hue Hu].
    constructor; [by apply header_part_reads|by apply IH]. }
  destruct Hp as [|[i [k v]] p es ps Hp Hps]; [done|]. apply Forall_cons_1 in Hu as [Hue Hu].
  simpl in Hp. destruct (header_part_safe k v p (proj1 Hue) (proj2 Hue) Hp) as [Hp63 _].
  rewrite reverse_cons. split; [|split; [|split; [|done]]].
  - rewrite Eurl. by apply (fold_headers_from i k v p es ps b p); [done..|apply add_part_plain].
  - intros q Hq. rewrite Eurl, (fold_headers_from i k v p es ps b (p ++ 38 :: q)); try done.
    + rewrite !join_parts, map_app, concat_app, <-!app_assoc. simpl. by rewrite <-!app_assoc.
    + by rewrite not_elem_of_app, not_elem_of_cons.
    + by apply add_part_query.
  - intros f Hf Hf'. rewrite Eurl, (fold_headers_from i k v p es ps b (p ++ 35 :: f)); try done.
    + by rewrite !join_parts, <-!app_assoc.
    + by rewrite not_elem_of_app, not_elem_of_cons.
    + by apply add_part_fragment.
Qed.

Lemma headers_in_url_witness :
  parseHeadersAsURLParameters (Some (<[js "X-Username" := js "a&b"]> jm_new)) (js "ws://h/echo") =
    Ret (js "ws://h/echo?X-Websocket-Header-X-Username=a%26b").
Proof.
  refine (proj1 (headers_in_url (<[js "X-Username" := js "a&b"]> jm_new)
    [js "X-Websocket-Header-X-Username=a%26b"] (js "ws://h/echo") _ _ _ _ _)).
  - done.
  - constructor; [split; apply (bool_decide_unpack _); by vm_compute|constructor].
  - constructor; [by vm_compute|constructor].
  - apply (bool_decide_unpack _). by vm_compute.
  - apply (bool_decide_unpack _). by vm_compute.
Defined.

(** A second '?' of the URL, which a query may contain, cuts the rest off. *)
Theorem second_question_mark_lost part b q1 q2 : 63 ∉ b -> 63 ∉ q1 ->
  add_part part (b ++ 63 :: q1 ++ 63 :: q2) = add_part part (b ++ 63 :: q1).
Proof.
  intros Hb Hq. rewrite (add_part_query part b q1) by done. unfold add_part, has_unit, split_nth.
  rewrite bool_decide_true by set_solver. rewrite !split_app by done. done.
Qed.

Lemma second_question_mark_lost_witness :
  add_part (js "k=v") (js "ws://h/?a?b") = add_part (js "k=v") (js "ws://h/?a").
Proof.
  apply (second_question_mark_lost (js "k=v") (js "ws://h/") (js "a") (js "b"));
    apply (bool_decide_unpack _); by vm_compute.
Defined.

(** ** The handler table *)

(** The namespace a value of the table stands for; a function is none. *)
Definition table (v : handler_value) : option events :=
  match v with HFun _ => None | HMap m => Some m | HObj fields => Some (obj_events fields) end.
Definition is_fun (v : handler_value) : bool := match v with HFun _ => true | _ => false end.

Definition resolve_step : jmap key World.events * World.events * nat -> jsstr * handler_value ->
    jmap key World.events * World.events * nat :=
  fun '(nss, evs, n) '(k, v) =>
    match v with
    | HFun h => (nss, <[Some k := h]> evs, S n)
    | HMap m => (<[Some k := m]> nss, evs, S n)
    | HObj fields => (<[Some k := obj_events fields]> nss, evs, S n)
    end.

Lemma jm_size_insert {K V} `{EqDecision K} (m : jmap K V) k v :
  m !! k = None -> jm_size (<[k := v]> m) = S (jm_size m).
Proof. intros E. unfold insert, jm_insert. rewrite E. unfold jm_size. simpl. rewrite length_app. simpl. lia. Qed.

Lemma elem_snoc {A} (x y : A) l : x ∈ l ++ [y] <-> x ∈ l \/ x = y.
Proof. by rewrite elem_of_app, list_elem_of_singleton. Qed.

Lemma table_snoc_none l (k : jsstr) v (k0 : jsstr) m : table v = None ->
  (exists v, (k0, v) ∈ l /\ table v = Some m) <-> (exists v', (k0, v') ∈ l ++ [(k, v)] /\ table v' = Some m).
Proof.
  intros Hv. split; intros (v' & Hin & Ht); exists v'; rewrite ?elem_snoc in *; [auto|].
  destruct Hin as [?|[= -> ->]]; [auto|congruence].
Qed.

Lemma table_snoc_some l (k : jsstr) v m1 (nss : jmap key World.events) :
  (forall v', (k, v') ∉ l) ->
  (forall k m, nss !! Some k = Some m <-> exists v, (k, v) ∈ l /\ table v = Some m) ->
  table v = Some m1 ->
  forall k0 m, <[Some k := m1]> nss !! Some k0 = Some m <->
    exists v', (k0, v') ∈ l ++ [(k, v)] /\ table v' = Some m.
Proof.
  intros Hf I1 Hv k0 m. rewrite jm_lookup_insert. case_decide as Hd; [simplify_eq|rewrite I1]; split.
  - intros [= <-]. exists v. by rewrite elem_snoc; auto.
  - intros (v' & [Hin|[= ->]]%elem_snoc & Ht); [by destruct (Hf v')|congruence].
  - intros (v' & Hin & Ht). exists v'. rewrite elem_snoc. auto.
  - intros (v' & [Hin|[= -> ->]]%elem_snoc & Ht); [eauto|done].
Qed.

Lemma resolve_fold l nss evs n : NoDup (map fst l) ->
  fold_left resolve_step l (jm_new, jm_new, 0%nat) = (nss, evs, n) ->
  (forall k m, nss !! Some k = Some m <-> exists v, (k, v) ∈ l /\ table v = Some m) /\
  (forall k h, evs !! Some k = Some h <-> (k, HFun h) ∈ l) /\
  n = length l /\ jm_size evs = length (List.filter (fun kv => is_fun kv.2) l) /\ nss !! None = None.
Proof.
  revert nss evs n. induction l as [|[k v] l IH] using rev_ind; intros nss evs n Hnd.
  { intros [= <- <- <-]. split_and!; try done; intros ??; rewrite jm_lookup_new; set_solver. }
  rewrite fold_left_app. destruct (fold_left _ l _) as [[nss0 evs0] n0] eqn:El. simpl.
  rewrite map_app in Hnd. apply list.NoDup_app in Hnd as (Hnd & Hk & _). simpl in Hk.
  destruct (IH nss0 evs0 n0 Hnd eq_refl) as (I1 & I2 & -> & I4 & I5).
  assert (Hfresh : forall v', (k, v') ∉ l).
  { intros v' Hin. apply (Hk k); [|set_solver]. apply list_elem_of_fmap. by exists (k, v'). }
  assert (En : nss0 !! Some k = None).
  { destruct (nss0 !! Some k) as [m|] eqn:E; [|done]. apply I1 in E as (v' & Hv' & _). by destruct (Hfresh v'). }
  assert (Ee : evs0 !! Some k = None).
  { destruct (evs0 !! Some k) as [h|] eqn:E; [|done]. apply I2 in E. by destruct (Hfresh (HFun h)). }
  assert (Hlen : length (l ++ [(k, v)]) = S (length l)) by (rewrite length_app; simpl; lia).
  destruct v as [h|m|fields]; intros [= <- <- <-];
    rewrite Hlen, List.filter_app, length_app; simpl.
  all: split_and!; try done.
  all: try (rewrite jm_size_insert by done; simpl; lia).
  all: try lia; try (rewrite jm_lookup_insert_ne by done; done).
  - intros k0 m. rewrite I1. by apply table_snoc_none.
  - intros k0 h0. rewrite elem_snoc, jm_lookup_insert, <-I2. case_decide; naive_solver.
  - by apply table_snoc_some.
  - intros k0 h. rewrite I2, elem_snoc. naive_solver.
  - by apply table_snoc_some.
  - intros k0 h. rewrite I2, elem_snoc. naive_solver.
Qed.

Lemma resolve_eq obj :
  resolveNamespaces (Some obj) =
    let '(nss, evs, n) := fold_left resolve_step obj (jm_new, jm_new, 0%nat) in
    if (0 <? jm_size evs)%nat then
      if negb (n =? jm_size evs)%nat then inr (mix_error (jm_size evs) n)
      else inl (<[Some [] := evs]> nss)
    else inl nss.
Proof. done. Qed.

Lemma filter_all {A} (f : A -> bool) l :
  length (List.filter f l) = length l <-> Forall (fun x => f x = true) l.
Proof.
  induction l as [|x l IH]; simpl; [done|]. rewrite list.Forall_cons.
  destruct (f x) eqn:E; simpl; [split; [intros [= H]|intros [_ H]; f_equal]; naive_solver|].
  pose proof (List.filter_length_le f l). split; [lia|intros []; done].
Qed.

Lemma filter_none {A} (f : A -> bool) l :
  length (List.filter f l) = 0%nat <-> Forall (fun x => f x = false) l.
Proof.
  induction l as [|x l IH]; simpl; [done|]. rewrite list.Forall_cons.
  destruct (f x) eqn:E; simpl; naive_solver.
Qed.

(** What [dial] makes of its handler table: functions alone are the events of
    the namespace ""; without functions every key is a namespace with its
    events; and a mix is refused. *)
Theorem handler_table obj : NoDup (map fst obj) ->
  match resolveNamespaces (Some obj) with
  | inl nss =>
      (obj <> [] /\ Forall (fun kv => is_fun kv.2 = true) obj /\
       (exists evs, nss !! Some [] = Some evs /\ forall k h, evs !! Some k = Some h <-> (k, HFun h) ∈ obj) /\
       forall n, n <> Some [] -> nss !! n = None) \/
      (Forall (fun kv => is_fun kv.2 = false) obj /\
       forall k m, nss !! Some k = Some m <-> exists v, (k, v) ∈ obj /\ table v = Some m)
  | inr text => (exists k h, (k, HFun h) ∈ obj) /\ exists k v, (k, v) ∈ obj /\ is_fun v = false
  end.
Proof.
  intros Hnd. rewrite resolve_eq.
  destruct (fold_left resolve_step obj _) as [[nss evs] n] eqn:E.
  destruct (resolve_fold obj nss evs n Hnd E) as (I1 & I2 & -> & I4 & I5). rewrite I4.
  destruct (Nat.ltb_spec 0 (length (List.filter (fun kv => is_fun kv.2) obj))) as [Hpos|Hz].
  - destruct (Nat.eqb_spec (length obj) (length (List.filter (fun kv => is_fun kv.2) obj))) as [Heq|Hne];
      cbn [negb].
    + left. symmetry in Heq. apply filter_all in Heq as Hall. split_and!; try done.
      * intros ->. simpl in Hpos. lia.
      * exists evs. by rewrite jm_lookup_insert_eq.
      * intros [k|] Hk; rewrite jm_lookup_insert_ne by congruence; [|done].
        destruct (nss !! Some k) as [m|] eqn:Em; [|done]. apply I1 in Em as (v & Hin & Ht).
        rewrite Forall_forall in Hall. apply list_elem_of_In, Hall in Hin. by destruct v.
    + pose proof (filter_none (fun kv => is_fun kv.2) obj) as Hnone.
      pose proof (filter_all (fun kv => is_fun kv.2) obj) as Hall. split.
      * destruct (List.filter _ obj) as [|[k v] r] eqn:Er; [simpl in Hpos; lia|].
        assert (Hin : In (k, v) (List.filter (fun kv => is_fun kv.2) obj)) by (rewrite Er; by left).
        apply filter_In in Hin as [Hin%list_elem_of_In Hv]. destruct v as [h| |]; try done. eauto.
      * destruct (decide (Exists (fun kv => is_fun kv.2 = false) obj)) as [Hex|Hex].
        -- apply Exists_exists in Hex as ([k v] & Hin%list_elem_of_In & Hv). eauto.
        -- destruct Hne. symmetry. apply Hall. apply Forall_forall. intros kv Hin.
           destruct (is_fun kv.2) eqn:Ek; [done|]. destruct Hex. apply Exists_exists. eauto.
  - right. split; [|done]. apply filter_none. lia.
Qed.
