(* ===== verification/Session.v ===== *)
(** Whole exchanges with the server, run under handlers that only judge the
    message: what each returns or throws is a function of the message, and it
    neither changes the message nor calls the client. (Handlers that do are in
    [System].) *)

From S2P Require Import Prelude JsVal JsMap TextEncoding Message CodecLaws MessageSpec World Conn.
From S2P Require Import ConnInv System ConnSpec.

(** What a call of a handler comes to. *)
Inductive reaction := Returns (v : jsval) | Throws (e : jsval).

(** [a] after the call, or the exception. *)
Definition after {A} (r : reaction) (a : A) : outcome A :=
  match r with Returns _ => Ret a | Throws e => Throw e end.
Definition returns (r : reaction) : bool := match r with Returns _ => true | Throws _ => false end.
(** The call returns no error. *)
Definition accepts (r : reaction) : bool := match r with Returns v => isEmpty v | Throws _ => false end.

Section session.
Context `{TextCodec}.
Variable verdict : handler -> message -> reaction.
Variable clock_of : nat -> clock.
Variable loops : nat.

(** Handlers of this kind: a call reads its message, and returns or throws. *)
Definition pure_env : Env := {|
  callback h ns msg := m ← get_msg msg; match verdict h m with Returns v => mret v | Throws e => throw e end;
  clock_at := clock_of;
  fuel := loops |}.
#[local] Existing Instance pure_env.
Implicit Types (w : world) (m : message) (nsc : nsconn).

(** ** The effects of the primitives *)

Definition fired_also ns m w : world := upd_io (set_fired (io_fired (w_io w) ++ [(ns, m)])) w.
Definition with_msg r f w : world := upd_heap (set_msgs (alter f r (h_msgs (w_heap w)))) w.
Definition with_rooms r f w : world := upd_heap (set_nsconns
  (alter (fun ns => NS (ns_namespace ns) (ns_events ns) (f (ns_rooms ns))) r (h_nsconns (w_heap w)))) w.
Definition with_connected f w : world :=
  upd_conn (set_connectedNamespaces (f (c_connectedNamespaces (w_conn w)))) w.

(** What the handlers of [nsc] do with [m]. *)
Definition judge nsc m : reaction :=
  match ns_events nsc !! Event m with
  | Some h => verdict h m
  | None =>
      match ns_events nsc !! Some OnAnyEvent with
      | Some h => verdict h m
      | None => Returns JNull
      end
  end.

Lemma bind_get_ns {B} r nsc (g : nsconn -> M B) w :
  h_nsconns (w_heap w) !! r = Some nsc -> (get_ns r ≫= g) w = g nsc w.
Proof. intros E. unfold get_ns. run. by rewrite E. Qed.
Lemma bind_get_msg {B} r m (g : message -> M B) w :
  h_msgs (w_heap w) !! r = Some m -> (get_msg r ≫= g) w = g m w.
Proof. intros E. unfold get_msg. run. by rewrite E. Qed.
Lemma bind_upd_msg {B} r f (g : unit -> M B) w : (upd_msg r f ≫= g) w = g tt (with_msg r f w).
Proof. done. Qed.
Lemma bind_upd_rooms {B} r f (g : unit -> M B) w : (upd_rooms r f ≫= g) w = g tt (with_rooms r f w).
Proof. done. Qed.
Lemma bind_connected {B} f (g : unit -> M B) w :
  (upd_connected f ≫= g) w = g tt (with_connected f w).
Proof. done. Qed.
Lemma bind_alloc_msg {B} m (g : msgref -> M B) w :
  (alloc_msg m ≫= g) w = g (length (h_msgs (w_heap w))) (add_msg m w).
Proof. done. Qed.
Lemma bind_namespace {B} n (g : option nsref -> M B) w :
  (namespace n ≫= g) w = g (c_connectedNamespaces (w_conn w) !! n) w.
Proof. done. Qed.

Lemma bind_fire {B} r msg nsc m (g : jsval -> M B) w :
  h_nsconns (w_heap w) !! r = Some nsc -> h_msgs (w_heap w) !! msg = Some m ->
  (fireEvent r msg ≫= g) w =
    match judge nsc m with Returns v => g v (fired_also r m w) | Throws e => (Throw e, fired_also r m w) end.
Proof.
  intros En Em. unfold fireEvent. run. rewrite (bind_get_ns r nsc) by done. run.
  rewrite (bind_get_msg msg m) by done. run. unfold judge.
  assert (Ec : forall h, (callback h r msg ≫= g) (fired_also r m w) =
    match verdict h m with Returns v => g v (fired_also r m w) | Throws e => (Throw e, fired_also r m w) end).
  { intros h. simpl. run. rewrite (bind_get_msg msg m) by by split_world w. by destruct (verdict h m). }
  destruct (ns_events nsc !! Event m); [apply Ec|].
  destruct (ns_events nsc !! Some OnAnyEvent); [apply Ec|done].
Qed.

Lemma bind_reply {B} k (g : unit -> M B) w :
  (writeEmptyReply k ≫= g) w = g tt (sent_also (JStr (genEmptyReplyToWait (default [] k))) w).
Proof. done. Qed.

(** ** Lookups after the primitives *)

Lemma with_msg_eq r f m w : h_msgs (w_heap w) !! r = Some m ->
  h_msgs (w_heap (with_msg r f w)) !! r = Some (f m).
Proof. intros E. split_world w. by rewrite list_lookup_alter_eq, E. Qed.
Lemma with_msg_is r f m m' w : h_msgs (w_heap w) !! r = Some m -> f m = m' ->
  h_msgs (w_heap (with_msg r f w)) !! r = Some m'.
Proof. intros E <-. by apply with_msg_eq. Qed.
Lemma add_msg_eq m w : h_msgs (w_heap (add_msg m w)) !! length (h_msgs (w_heap w)) = Some m.
Proof. split_world w. by rewrite lookup_app_r, Nat.sub_diag by lia. Qed.

(** ** An incoming frame *)

(** A frame that is a message for the namespaces: valid, not native, and not
    the answer to a question. *)
Definition is_event w m : Prop :=
  isInvalid m = false /\ IsNative m && allows_native w = false /\
  (if isWait m then c_waitingMessages (w_conn w) !! wait m else None) = None.

Section incoming.
Context (data : frame) (w : world).
Let m := deserializeMessage data (allows_native w).
Let msg := length (h_msgs (w_heap w)).
Hypothesis Hm : is_event w m.

Ltac incoming :=
  destruct Hm as (Hv & Hn & Hwt); unfold handleMessage, allowNativeMessages; run;
  fold (allows_native w); fold m; rewrite bind_alloc_msg;
  rewrite (bind_get_msg _ m) by apply add_msg_eq; rewrite Hv, Hn; run;
  change (w_conn (add_msg m w)) with (w_conn w); rewrite Hwt, bind_namespace;
  change (w_conn (add_msg m w)) with (w_conn w).

Lemma handle_connect : Event m = Some OnNamespaceConnect ->
  handleMessage data w = (replyConnect msg;; mret JNull) (add_msg m w).
Proof. intros E. incoming. by rewrite E, bool_decide_true by done. Qed.

Lemma handle_disconnect : Event m = Some OnNamespaceDisconnect ->
  handleMessage data w = (replyDisconnect msg;; mret JNull) (add_msg m w).
Proof. intros E. incoming. by rewrite E. Qed.

Lemma handle_room_join r : Event m = Some OnRoomJoin ->
  c_connectedNamespaces (w_conn w) !! Namespace m = Some r ->
  handleMessage data w = (replyRoomJoin r msg;; mret JNull) (add_msg m w).
Proof.
  intros E Hr. incoming. rewrite E.
  by rewrite Hr.
Qed.

Lemma handle_room_leave r : Event m = Some OnRoomLeave ->
  c_connectedNamespaces (w_conn w) !! Namespace m = Some r ->
  handleMessage data w = (replyRoomLeave r msg;; mret JNull) (add_msg m w).
Proof.
  intros E Hr. incoming. rewrite E.
  by rewrite Hr.
Qed.

(** Any other event. *)
Definition ordinary : Prop :=
  Event m ∉ [Some OnNamespaceConnect; Some OnNamespaceDisconnect; Some OnRoomJoin; Some OnRoomLeave].

Lemma handle_ordinary r : ordinary ->
  c_connectedNamespaces (w_conn w) !! Namespace m = Some r ->
  handleMessage data w =
    (upd_msg msg (set_IsLocal false);;
     err ← fireEvent r msg;
     if negb (isEmpty err) then upd_msg msg (set_Err err);; write msg;; mret err
     else mret JNull) (add_msg m w).
Proof.
  intros E Hr. unfold ordinary in E. incoming.
  rewrite Hr.
  rewrite !bool_decide_false by set_solver. done.
Qed.

Lemma handle_unknown :
  Event m <> Some OnNamespaceConnect -> Event m <> Some OnNamespaceDisconnect ->
  c_connectedNamespaces (w_conn w) !! Namespace m = None ->
  handleMessage data w = (Ret ErrBadNamespace, add_msg m w).
Proof.
  intros E1 E2 Hr. incoming.
  rewrite Hr.
  by rewrite !bool_decide_false by done.
Qed.
End incoming.

(** ** The server opens a namespace *)

Definition add_ns nsc w : world := upd_heap (set_nsconns (h_nsconns (w_heap w) ++ [nsc])) w.

(** The world after the client accepted namespace [Namespace m]. *)
Definition ns_opened msg m evs w : world :=
  let r := length (h_nsconns (w_heap w)) in
  fired_also r (set_Event (Some OnNamespaceConnected) m)
    (with_msg msg (set_Event (Some OnNamespaceConnected))
      (sent_also (JStr (genEmptyReplyToWait (default [] (wait m))))
        (with_connected (insert (Namespace m) r) (add_ns (NS (Namespace m) evs jm_new) w)))).

(** Waking the caller of [waitServerConnect]. *)
Definition wake n w : world :=
  match c_notifiers (w_conn w) with
  | Some nn =>
      match nn !! n with
      | Some p =>
          (settle p (Resolve (ResNs (c_connectedNamespaces (w_conn w) !! n)))
            (upd_conn (set_notifiers (Some (delete n nn))) w)).2
      | None => w
      end
  | None => w
  end.

Lemma wake_frame n w :
  c_connectedNamespaces (w_conn (wake n w)) = c_connectedNamespaces (w_conn w) /\
  h_nsconns (w_heap (wake n w)) = h_nsconns (w_heap w) /\ w_io (wake n w) = w_io w.
Proof.
  unfold wake, settle, modify. split_world w. destruct notifiers as [nn|]; [|done].
  destruct (nn !! n) as [p|]; [|done]. simpl. by destruct (promises !! p) as [[]|].
Qed.

Lemma wake_settles n nn p awaits w :
  c_notifiers (w_conn w) = Some nn -> nn !! n = Some p ->
  h_promises (w_heap w) !! p = Some (Pending awaits) ->
  h_promises (w_heap (wake n w)) !! p =
    Some (Settled (Resolve (ResNs (c_connectedNamespaces (w_conn w) !! n)))).
Proof.
  intros En Ep Ea. unfold wake, settle, modify. split_world w. subst. rewrite Ep. simpl. rewrite Ea.
  simpl. apply list_lookup_insert_eq. by eapply lookup_lt_Some.
Qed.

Lemma size_lookup {V} (nn : jmap key V) n p : nn !! n = Some p -> (0 <? jm_size nn)%nat = true.
Proof. destruct nn as [? [|]]; done. Qed.

Lemma replyConnect_new msg m evs w :
  h_msgs (w_heap w) !! msg = Some m ->
  isEmpty (of_key (wait m)) || isNoOp m = false ->
  c_connectedNamespaces (w_conn w) !! Namespace m = None ->
  getEvents (c_namespaces (w_conn w)) (Namespace m) = Some evs ->
  let react := judge (NS (Namespace m) evs jm_new) (set_Event (Some OnNamespaceConnected) m) in
  replyConnect msg w =
    (after react tt, if returns react then wake (Namespace m) (ns_opened msg m evs w) else ns_opened msg m evs w).
Proof.
  intros Em Hw Hc He react. unfold replyConnect.
  rewrite (bind_get_msg msg m), Hw, bind_namespace, Hc by done. run. rewrite He.
  unfold new_NSConn at 1. erewrite bind_ret by done.
  rewrite bind_connected, bind_reply, bind_upd_msg.
  rewrite (bind_fire _ _ (NS (Namespace m) evs jm_new) (set_Event (Some OnNamespaceConnected) m)).
  - fold react. destruct react; [|done].
    erewrite bind_get_msg by (split_world w; by rewrite list_lookup_alter_eq, Em).
    replace (Namespace (set_Event _ m)) with (Namespace m) by (by destruct m).
    run. match goal with |- _ ?X = _ => change X with (ns_opened msg m evs w) end. unfold after, returns, wake.
    destruct (c_notifiers _) as [nn|]; [|done]. destruct (nn !! Namespace m) as [p|] eqn:En.
    + rewrite (size_lookup _ _ _ En). unfold jm_has. rewrite En. cbn [andb].
      rewrite bind_modify, bind_namespace. by split_world w.
    + unfold jm_has. rewrite En. by rewrite andb_false_r.
  - split_world w. by rewrite lookup_app_r, Nat.sub_diag by lia.
  - split_world w. by rewrite list_lookup_alter_eq, Em.
Qed.

Definition reply_frame m : jsval := JStr (genEmptyReplyToWait (default [] (wait m))).

(** C8. The server opens a namespace the client has handlers for: the connection
    is registered with those handlers and no rooms, the server gets one empty
    reply and the connected event fires. If its handler returns, whatever it
    returns, a caller of [waitServerConnect] gets the connection; if it throws,
    the exception leaves [handleMessage] and that caller keeps waiting. *)
Theorem server_opens_namespace data w evs :
  let m := deserializeMessage data (allows_native w) in
  let m' := set_Event (Some OnNamespaceConnected) m in
  let r := length (h_nsconns (w_heap w)) in
  let react := judge (NS (Namespace m) evs jm_new) m' in
  is_event w m -> Event m = Some OnNamespaceConnect ->
  isEmpty (of_key (wait m)) || isNoOp m = false ->
  c_connectedNamespaces (w_conn w) !! Namespace m = None ->
  c_namespaces (w_conn w) !! Namespace m = Some evs ->
  exists w', handleMessage data w = (after react JNull, w') /\
    c_connectedNamespaces (w_conn w') !! Namespace m = Some r /\
    h_nsconns (w_heap w') !! r = Some (NS (Namespace m) evs jm_new) /\
    io_sent (w_io w') = io_sent (w_io w) ++ [reply_frame m] /\
    io_fired (w_io w') = io_fired (w_io w) ++ [(r, m')] /\
    (forall nn p awaits, c_notifiers (w_conn w) = Some nn -> nn !! Namespace m = Some p ->
       h_promises (w_heap w) !! p = Some (Pending awaits) ->
       h_promises (w_heap w') !! p =
         Some (if returns react then Settled (Resolve (ResNs (Some r))) else Pending awaits)).
Proof.
  intros m m' r react He Ec Hw Hc Hn.
  set (w1 := ns_opened (length (h_msgs (w_heap w))) m evs (add_msg m w)).
  assert (E : handleMessage data w = (after react JNull, if returns react then wake (Namespace m) w1 else w1)).
  { rewrite handle_connect by done. unfold mbind at 1, M_bind at 1.
    rewrite (replyConnect_new _ m evs); fold m' react; try done; [by destruct react|apply add_msg_eq|].
    unfold getEvents, jm_has.
    change (w_conn (add_msg _ w)) with (w_conn w). by rewrite Hn. }
  eexists. split; [exact E|]. clear E.
  assert (Hcn : c_connectedNamespaces (w_conn w1) !! Namespace m = Some r).
  { subst w1 r. split_world w. apply jm_lookup_insert_eq. }
  destruct (wake_frame (Namespace m) w1) as (Wc & Wn & Wi).
  assert (Hp : h_promises (w_heap w1) = h_promises (w_heap w)) by (subst w1; by split_world w).
  split; [by destruct react; simpl; rewrite ?Wc|]. split.
  { assert (h_nsconns (w_heap w1) !! r = Some (NS (Namespace m) evs jm_new)).
    { subst w1 r. split_world w. by rewrite lookup_app_r, Nat.sub_diag by lia. }
    by destruct react; simpl; rewrite ?Wn. }
  assert (Hio : w_io (if returns react then wake (Namespace m) w1 else w1) = w_io w1) by by destruct react.
  rewrite Hio. split; [by subst w1; split_world w|]. split; [by subst w1; split_world w|].
  intros nn p awaits Enn Ep Ea. destruct (returns react); [|by rewrite Hp].
  erewrite wake_settles, Hcn; try done; by subst w1; split_world w.
Qed.

(** The server asks for a namespace the client has no handlers for: the answer
    is the message itself, carrying "bad namespace", and nothing is opened. *)
Theorem server_namespace_refused data w d :
  let m := deserializeMessage data (allows_native w) in
  is_event w m -> Event m = Some OnNamespaceConnect ->
  isEmpty (of_key (wait m)) || isNoOp m = false ->
  c_connectedNamespaces (w_conn w) !! Namespace m = None ->
  c_namespaces (w_conn w) !! Namespace m = None -> c_closed (w_conn w) = false ->
  serializeMessage (set_Err ErrBadNamespace m) = Ret d ->
  exists w', handleMessage data w = (Ret JNull, w') /\
    c_connectedNamespaces (w_conn w') = c_connectedNamespaces (w_conn w) /\
    h_nsconns (w_heap w') = h_nsconns (w_heap w) /\
    io_sent (w_io w') = io_sent (w_io w) ++ [d] /\ io_fired (w_io w') = io_fired (w_io w).
Proof.
  intros m He Ec Hw Hc Hn Hcl Hd. eexists. split.
  { rewrite handle_connect by done. erewrite bind_ret; [done|]. unfold replyConnect.
    rewrite (bind_get_msg _ m) by apply add_msg_eq. rewrite Hw, bind_namespace.
    change (w_conn (add_msg _ w)) with (w_conn w). rewrite Hc. run. unfold getEvents, jm_has.
    change (w_conn (add_msg _ w)) with (w_conn w). rewrite Hn, bind_upd_msg.
    erewrite bind_ret; [done|].
    rewrite (write_eq _ _ (set_Err ErrBadNamespace m)) by (apply with_msg_eq, add_msg_eq).
    unfold may_write. change (w_conn (with_msg _ _ _)) with (w_conn w). rewrite Hcl.
    replace (isConnect (set_Err _ m)) with true; [simpl; by rewrite Hd|].
    unfold isConnect. destruct m. simpl in *. by rewrite Ec. }
  by split_world w.
Qed.

(** ** The server puts the client into a room *)

Definition room_message m : Prop := isEmpty (of_key (wait m)) || isNoOp m = false.

(** C9. A server join frame for a room the client is not in, whose handler
    accepts: the room is added, then the joined event fires; if its handler
    returns, the server gets its reply, and if it throws, the room stays, there
    is no reply and the exception leaves [handleMessage]. If the join handler
    itself throws, nothing is added or sent. *)
Theorem server_joins_room data w r nsc :
  let m := deserializeMessage data (allows_native w) in
  let m' := set_Event (Some OnRoomJoined) m in
  let joined := NS (ns_namespace nsc) (ns_events nsc) (<[Room m := Room_ r (Room m)]> (ns_rooms nsc)) in
  is_event w m -> Event m = Some OnRoomJoin -> room_message m ->
  c_connectedNamespaces (w_conn w) !! Namespace m = Some r ->
  h_nsconns (w_heap w) !! r = Some nsc -> ns_rooms nsc !! Room m = None ->
  match judge nsc m with
  | Returns err => isEmpty err = true ->
      exists w', handleMessage data w = (after (judge joined m') JNull, w') /\
        h_nsconns (w_heap w') !! r = Some joined /\
        io_sent (w_io w') = io_sent (w_io w) ++ (if returns (judge joined m') then [reply_frame m] else []) /\
        io_fired (w_io w') = io_fired (w_io w) ++ [(r, m); (r, m')]
  | Throws e =>
      exists w', handleMessage data w = (Throw e, w') /\
        h_nsconns (w_heap w') = h_nsconns (w_heap w) /\ io_sent (w_io w') = io_sent (w_io w) /\
        io_fired (w_io w') = io_fired (w_io w) ++ [(r, m)]
  end.
Proof.
  intros m m' joined He Ec Hw Hc Hn Hr.
  assert (E0 : handleMessage data w = ((fireEvent r (length (h_msgs (w_heap w))) ≫= (fun err =>
    if negb (isEmpty err) then upd_msg (length (h_msgs (w_heap w))) (set_Err err);; write (length (h_msgs (w_heap w)));; mret tt
    else m ← get_msg (length (h_msgs (w_heap w)));
      upd_rooms r (insert (Room m) (Room_ r (Room m)));;
      upd_msg (length (h_msgs (w_heap w))) (set_Event (Some OnRoomJoined));;
      fireEvent r (length (h_msgs (w_heap w)));;
      m ← get_msg (length (h_msgs (w_heap w))); writeEmptyReply (wait m)));; mret JNull) (add_msg m w)).
  { rewrite (handle_room_join _ _ He r) by done. unfold replyRoomJoin. rewrite bind_assoc.
    rewrite (bind_get_msg _ m) by apply add_msg_eq. rewrite Hw, bind_assoc.
    rewrite (bind_get_ns r nsc) by (by split_world w). unfold jm_has. by rewrite Hr. }
  rewrite E0, bind_assoc. rewrite (bind_fire _ _ nsc m) by first [apply add_msg_eq | by split_world w].
  destruct (judge nsc m) as [err|e].
  2:{ eexists. split; [done|]. by split_world w. }
  intros Hj. rewrite Hj. cbn [negb]. rewrite bind_assoc, (bind_get_msg _ m) by apply (add_msg_eq m w).
  rewrite bind_assoc, bind_upd_rooms, bind_assoc, bind_upd_msg, bind_assoc, (bind_fire _ _ joined m').
  2:{ split_world w. by rewrite list_lookup_alter_eq, Hn. }
  2:{ apply (with_msg_eq _ _ m). split_world w. by rewrite lookup_app_r, Nat.sub_diag by lia. }
  eexists. split.
  { instantiate (1 := if returns (judge joined m') then _ else _). destruct (judge joined m'); cbn [returns after]; [|done].
    rewrite bind_assoc. rewrite (bind_get_msg _ m'); [done|]. apply (with_msg_eq _ _ m). split_world w.
    by rewrite lookup_app_r, Nat.sub_diag by lia. }
  assert (Hwait : wait m' = wait m) by (by subst m'; destruct m).
  destruct (returns (judge joined m')); rewrite ?app_nil_r;
    (split; [split_world w; by rewrite list_lookup_alter_eq, Hn|]); (split; [|split_world w; by rewrite <-app_assoc]);
    unfold reply_frame; rewrite ?Hwait; by split_world w.
Qed.

(** The room handler refuses: the client is not in the room, and the server
    gets its message back with the error. *)
Theorem server_join_refused data w r nsc err d :
  let m := deserializeMessage data (allows_native w) in
  is_event w m -> Event m = Some OnRoomJoin -> room_message m ->
  c_connectedNamespaces (w_conn w) !! Namespace m = Some r ->
  h_nsconns (w_heap w) !! r = Some nsc -> ns_rooms nsc !! Room m = None ->
  judge nsc m = Returns err -> isEmpty err = false ->
  c_closed (w_conn w) = false -> serializeMessage (set_Err err m) = Ret d ->
  exists w', handleMessage data w = (Ret JNull, w') /\
    h_nsconns (w_heap w') = h_nsconns (w_heap w) /\
    io_sent (w_io w') = io_sent (w_io w) ++ [d] /\
    io_fired (w_io w') = io_fired (w_io w) ++ [(r, m)].
Proof.
  intros m He Ec Hw Hc Hn Hr Hj Herr Hcl Hd. eexists. split.
  { rewrite (handle_room_join _ _ He r) by done. erewrite bind_ret; [done|]. unfold replyRoomJoin.
    rewrite (bind_get_msg _ m) by apply add_msg_eq. rewrite Hw.
    rewrite (bind_get_ns r nsc) by (by split_world w). unfold jm_has. rewrite Hr.
    rewrite (bind_fire _ _ nsc m) by first [apply add_msg_eq | by split_world w].
    rewrite Hj, Herr. cbn [negb]. rewrite bind_upd_msg. erewrite bind_ret; [done|].
    rewrite (write_eq _ _ (set_Err err m)) by (apply with_msg_eq, (add_msg_eq m w)).
    replace (may_write _ _) with true; [by rewrite Hd|].
    unfold may_write. change (w_conn (with_msg _ _ _)) with (w_conn w). rewrite Hcl.
    replace (isConnect _) with false; [|unfold isConnect; destruct m; simpl in *; by rewrite Ec].
    replace (Namespace (set_Err err m)) with (Namespace m) by (by destruct m). rewrite Hc.
    replace (isRoomJoin _) with true; [by rewrite orb_true_r, ?orb_true_l, ?orb_true_r|].
    unfold isRoomJoin. destruct m. simpl in *. by rewrite Ec. }
  by split_world w.
Qed.

(** ** Ordinary events *)

(** C7. An event in a connected namespace goes to that namespace's handlers, once,
    marked as not local, and changes nothing of the connection or the rooms.
    When the handler returns an error, that error is the result and goes back to
    the server with the message's own fields, if the client may write there;
    when it returns none, nothing is sent; when it throws, nothing is sent and
    the exception leaves [handleMessage]. *)
Theorem event_dispatched data w r nsc :
  let m := deserializeMessage data (allows_native w) in
  let m' := set_IsLocal false m in
  is_event w m -> ordinary data w ->
  c_connectedNamespaces (w_conn w) !! Namespace m = Some r ->
  h_nsconns (w_heap w) !! r = Some nsc ->
  exists o w', handleMessage data w = (o, w') /\
    io_fired (w_io w') = io_fired (w_io w) ++ [(r, m')] /\
    h_nsconns (w_heap w') = h_nsconns (w_heap w) /\ w_conn w' = w_conn w /\
    match judge nsc m' with
    | Throws e => o = Throw e /\ io_sent (w_io w') = io_sent (w_io w)
    | Returns err =>
        if isEmpty err then o = Ret JNull /\ io_sent (w_io w') = io_sent (w_io w)
        else if may_write w (set_Err err m') then
          match serializeMessage (set_Err err m') with
          | Ret d => o = Ret err /\ io_sent (w_io w') = io_sent (w_io w) ++ [d]
          | Throw e => o = Throw e /\ io_sent (w_io w') = io_sent (w_io w)
          | Running => o = Running
          end
        else o = Ret err /\ io_sent (w_io w') = io_sent (w_io w)
    end.
Proof.
  intros m m' He Ho Hc Hn. rewrite (handle_ordinary _ _ He r) by done.
  rewrite bind_upd_msg.
  assert (Em : forall f, h_msgs (w_heap (with_msg (length (h_msgs (w_heap w))) f (add_msg m w)))
                 !! length (h_msgs (w_heap w)) = Some (f m)) by (intros; apply with_msg_eq, add_msg_eq).
  rewrite (bind_fire _ _ nsc m') by first [apply Em | by split_world w].
  destruct (judge nsc m') as [err|e].
  2:{ eexists _, _. split; [done|]. by split_world w. }
  destruct (isEmpty err); cbn [negb].
  { eexists _, _. split; [done|]. by split_world w. }
  rewrite bind_upd_msg.
  set (w1 := with_msg _ _ _).
  assert (E1 : write (length (h_msgs (w_heap w))) w1 =
    if may_write w (set_Err err m') then
      match serializeMessage (set_Err err m') with
      | Ret d => (Ret true, sent_also d w1) | Throw e => (Throw e, w1) | Running => (Running, w1)
      end
    else (Ret false, w1)).
  { rewrite (write_eq _ _ (set_Err err m')).
    - by replace (may_write w1 _) with (may_write w (set_Err err m')) by (by subst w1; split_world w).
    - subst w1. apply with_msg_eq. apply Em. }
  unfold mbind, M_bind, mret, M_ret. rewrite E1.
  destruct (may_write w _); [destruct (serializeMessage _)|]; (eexists _, _; split; [done|]);
    (split; [|split; [|split]]); try (by subst w1; split_world w).
Qed.

(** An event for a namespace that is not connected is refused and nothing
    happens. *)
Theorem unknown_namespace data w :
  let m := deserializeMessage data (allows_native w) in
  is_event w m ->
  Event m <> Some OnNamespaceConnect -> Event m <> Some OnNamespaceDisconnect ->
  c_connectedNamespaces (w_conn w) !! Namespace m = None ->
  handleMessage data w = (Ret ErrBadNamespace, add_msg m w).
Proof. intros m He. by apply handle_unknown. Qed.

(** Text that is no frame, with native messages allowed: the message gets no
    namespace and no native mark, so that the native handler never runs and
    the result is "bad namespace". *)
Theorem native_text_refused s w :
  allows_native w = true -> s <> [] -> (occ messageSeparator s < 5)%nat ->
  c_connectedNamespaces (w_conn w) !! None = None ->
  exists w', handleMessage (Text s) w = (Ret ErrBadNamespace, w') /\
    io_fired (w_io w') = io_fired (w_io w) /\ io_sent (w_io w') = io_sent (w_io w).
Proof.
  intros Ha Hs Ho Hc.
  assert (Em : deserializeMessage (Text s) (allows_native w) =
               set_Body (JStr s) (set_Event (Some OnNativeMessage) new_Message)).
  { rewrite Ha. unfold deserializeMessage. rewrite bool_decide_false by done.
    change (validMessageSepCount - 1)%nat with 6%nat. rewrite length_splitN.
    by destruct (Nat.leb_spec 5 (occ messageSeparator s)); [lia|]. }
  eexists. split.
  - apply handle_unknown; rewrite ?Em; done.
  - by split_world w.
Qed.
End session.
