(* ===== verification/Leave.v ===== *)
(** Leaving: [forceLeaveAll], [close] and the disconnection of a namespace run
    their loops to the end and clear what they should, unless a handler throws:
    then exactly what came before its call is done. *)

From S2P Require Import Prelude JsVal JsMap TextEncoding Message CodecLaws MessageSpec World Conn.
From S2P Require Import ConnInv System ConnSpec Session.

(** ** A loop that deletes each entry it visits *)

Lemma ents_delete_notin {K V} `{EqDecision K} (k : K) (es : list (nat * (K * V))) :
  k ∉ map (fun e => e.2.1) es -> ents_delete k es = es.
Proof.
  induction es as [|[i [k' v]] es IH]; simpl; [done|]. intros Hk.
  rewrite decide_False, IH by set_solver. done.
Qed.

Lemma ents_delete_head {K V} `{EqDecision K} i (k : K) (v : V) es :
  k ∉ map (fun e => e.2.1) es -> ents_delete k ((i, (k, v)) :: es) = es.
Proof. intros Hk. simpl. rewrite decide_True by done. by apply ents_delete_notin. Qed.

Lemma alter_insert {A} (f : A -> A) i x (l : list A) : l !! i = Some x -> alter f i l = <[i := f x]> l.
Proof.
  intros E. apply list_eq. intros j. rewrite list_lookup_alter, list_lookup_insert.
  pose proof (lookup_lt_Some _ _ _ E). repeat case_decide; subst; rewrite ?E; naive_solver lia.
Qed.

(** [a], unless something was thrown. *)
Definition ended {A} (thrown : option jsval) (a : A) : outcome A :=
  match thrown with None => Ret a | Some e => Throw e end.

Section leave.
Context `{TextCodec}.
Variable verdict : handler -> message -> reaction.
Variable clock_of : nat -> clock.
Variable loops : nat.
#[local] Hint Extern 0 Env => exact (pure_env verdict clock_of loops) : typeclass_instances.
Implicit Types (w : world) (m : message) (nsc : nsconn).

Lemma jm_from_head {V} pos nx i (kv : key * V) es :
  (pos <= i)%nat -> jm_from pos (JMap nx ((i, kv) :: es)) = Some (i, kv).
Proof. intros Hi. unfold jm_from. cbn [jm_ents ents_from]. by rewrite decide_True. Qed.

(** The message [forceLeaveAll] shows its handlers. *)
Definition forced_leave nsc (isLocal : bool) (ev : jsstr) (k : key) : message :=
  set_Room k (set_IsLocal isLocal (set_IsForced true
    (set_Event (Some ev) (set_Namespace (ns_namespace nsc) new_Message)))).

Definition leave_events ns nsc isLocal (k : key) : list (nsref * message) :=
  [(ns, forced_leave nsc isLocal OnRoomLeave k); (ns, forced_leave nsc isLocal OnRoomLeft k)].

Definition with_ns_rooms nsc rooms : nsconn := NS (ns_namespace nsc) (ns_events nsc) rooms.

(** From [w] to [w'] only the rooms of [ns], the message [lm] and the history
    of events changed. *)
Record only_rooms (ns lm : nat) nsc' (evs : list (nsref * message)) (w w' : world) : Prop := {
  or_conn : w_conn w' = w_conn w;
  or_nsconns : h_nsconns (w_heap w') = <[ns := nsc']> (h_nsconns (w_heap w));
  or_promises : h_promises (w_heap w') = h_promises (w_heap w);
  or_jobs : h_jobs (w_heap w') = h_jobs (w_heap w);
  or_length : length (h_msgs (w_heap w')) = length (h_msgs (w_heap w));
  or_msgs i : i <> lm -> h_msgs (w_heap w') !! i = h_msgs (w_heap w) !! i;
  or_sent : io_sent (w_io w') = io_sent (w_io w);
  or_open : io_open (w_io w') = io_open (w_io w);
  or_closes : io_closes (w_io w') = io_closes (w_io w);
  or_fired : io_fired (w_io w') = io_fired (w_io w) ++ evs
}.

Lemma only_rooms_trans ns lm nsc1 nsc2 evs1 evs2 w1 w2 w3 :
  only_rooms ns lm nsc1 evs1 w1 w2 -> only_rooms ns lm nsc2 evs2 w2 w3 ->
  only_rooms ns lm nsc2 (evs1 ++ evs2) w1 w3.
Proof.
  intros [] []. split; try congruence.
  - rewrite or_nsconns1, or_nsconns0. apply list_insert_insert_eq.
  - intros i Hi. rewrite or_msgs1, or_msgs0 by done. done.
  - rewrite or_fired1, or_fired0. by rewrite <-app_assoc.
Qed.

(** The body of the loop, with the message it changes in place. *)
Definition leave_room (ns lm : nat) (roomName : key) (_ : room) : M unit :=
  upd_msg lm (set_Room roomName);;
  fireEvent ns lm;;
  upd_rooms ns (delete roomName);;
  upd_msg lm (set_Event (Some OnRoomLeft));;
  fireEvent ns lm;;
  upd_msg lm (set_Event (Some OnRoomLeave)).

Lemma bind_get_rooms {B} r nsc (g : jmap key room -> M B) w :
  h_nsconns (w_heap w) !! r = Some nsc -> (get_rooms r ≫= g) w = g (ns_rooms nsc) w.
Proof. intros E. unfold get_rooms. run. by rewrite (bind_get_ns r nsc). Qed.

(** What the handlers of [nsc] make of leaving the rooms [es], in this order:
    what is thrown, if anything, the rooms that stay, and the events fired. A
    throw of the leave handler keeps its room, one of the left handler does not;
    the rooms after it stay in both cases. *)
Abbreviation entries V := (list (nat * (key * V))).
Fixpoint leaving ns nsc isLocal (es : entries room) : option jsval * entries room * list (nsref * message) :=
  match es with
  | [] => (None, [], [])
  | (_, (k, _)) :: es' =>
      match judge verdict nsc (forced_leave nsc isLocal OnRoomLeave k) with
      | Throws e => (Some e, es, [(ns, forced_leave nsc isLocal OnRoomLeave k)])
      | Returns _ =>
          match judge verdict nsc (forced_leave nsc isLocal OnRoomLeft k) with
          | Throws e => (Some e, es', leave_events ns nsc isLocal k)
          | Returns _ =>
              let '(thrown, rest, evs) := leaving ns nsc isLocal es' in
              (thrown, rest, leave_events ns nsc isLocal k ++ evs)
          end
      end
  end.

(** One round of the loop. *)
Definition left_one ns nsc isLocal rooms (k : key) : option jsval * jmap key room * list (nsref * message) :=
  match judge verdict nsc (forced_leave nsc isLocal OnRoomLeave k) with
  | Throws e => (Some e, rooms, [(ns, forced_leave nsc isLocal OnRoomLeave k)])
  | Returns _ =>
      (match judge verdict nsc (forced_leave nsc isLocal OnRoomLeft k) with Throws e => Some e | Returns _ => None end,
       delete k rooms, leave_events ns nsc isLocal k)
  end.

Lemma leave_room_run ns lm isLocal nsc rooms k rm k0 w :
  h_nsconns (w_heap w) !! ns = Some (with_ns_rooms nsc rooms) ->
  h_msgs (w_heap w) !! lm = Some (forced_leave nsc isLocal OnRoomLeave k0) ->
  let '(thrown, rooms', evs) := left_one ns nsc isLocal rooms k in
  exists w', leave_room ns lm k rm w = (ended thrown tt, w') /\
    (thrown = None -> h_msgs (w_heap w') !! lm = Some (forced_leave nsc isLocal OnRoomLeave k)) /\
    only_rooms ns lm (with_ns_rooms nsc rooms') evs w w'.
Proof.
  intros En Em. unfold left_one, leave_room. rewrite bind_upd_msg.
  rewrite (bind_fire _ _ _ _ _ (with_ns_rooms nsc rooms) (forced_leave nsc isLocal OnRoomLeave k)).
  2:{ by split_world w. } 2:{ by eapply with_msg_is. }
  change (judge _ (with_ns_rooms nsc rooms)) with (judge verdict nsc).
  destruct (judge verdict nsc _).
  2:{ eexists. split; [done|]. split; [done|]. split; split_world w; try done.
      - by rewrite list_insert_id.
      - by rewrite length_alter.
      - intros i Hi. by rewrite list_lookup_alter_ne. }
  rewrite bind_upd_rooms, bind_upd_msg.
  rewrite (bind_fire _ _ _ _ _ (with_ns_rooms nsc (delete k rooms)) (forced_leave nsc isLocal OnRoomLeft k)).
  2:{ split_world w. by rewrite list_lookup_alter_eq, En. }
  2:{ eapply (with_msg_is _ _ (forced_leave nsc isLocal OnRoomLeave k)); [|done]. split_world w.
      by rewrite list_lookup_alter_eq, Em. }
  change (judge _ (with_ns_rooms nsc _)) with (judge verdict nsc).
  destruct (judge verdict nsc _); (eexists; split; [reflexivity|]); (split; [intros Hnone; try done|split]);
    split_world w; rewrite ?list_lookup_alter_eq, ?Em, ?length_alter, <-?app_assoc; try done.
  all: try (by rewrite (alter_insert _ _ (with_ns_rooms nsc rooms))).
  all: intros i Hi; by rewrite !list_lookup_alter_ne by done.
Qed.

Lemma forceLeaveAll_loop ns lm isLocal nsc nx es n pos k0 w :
  ents_wf nx pos es -> (length es < n)%nat ->
  h_nsconns (w_heap w) !! ns = Some (with_ns_rooms nsc (JMap nx es)) ->
  h_msgs (w_heap w) !! lm = Some (forced_leave nsc isLocal OnRoomLeave k0) ->
  let '(thrown, rest, evs) := leaving ns nsc isLocal es in
  exists w', map_forEach n (get_rooms ns) (leave_room ns lm) pos w = (ended thrown tt, w') /\
    only_rooms ns lm (with_ns_rooms nsc (JMap nx rest)) evs w w'.
Proof.
  intros Hwf. revert n k0 w.
  induction Hwf as [pos Hpos|pos i k rm es Hi Hwf IH Hk]; intros [|n] k0 w Hl En Em;
    simpl in Hl; try lia; cbn [leaving]; simpl map_forEach;
    rewrite (bind_get_rooms ns _ _ _ En); cbn [ns_rooms with_ns_rooms].
  - exists w. split; [done|]. split; try done; simpl; [|by rewrite app_nil_r].
    by rewrite list_insert_id.
  - rewrite jm_from_head by done. cbv beta iota.
    pose proof (leave_room_run ns lm isLocal nsc _ k rm k0 w En Em) as Hone. unfold left_one in Hone.
    replace (delete k _) with (JMap nx es) in Hone
      by (unfold delete, jm_delete; simpl jm_ents; by rewrite ents_delete_head).
    destruct (judge verdict nsc (forced_leave nsc isLocal OnRoomLeave k)).
    2:{ destruct Hone as (w1 & E1 & _ & H1). exists w1. by erewrite bind_throw. }
    destruct (judge verdict nsc (forced_leave nsc isLocal OnRoomLeft k)); destruct Hone as (w1 & E1 & Em1 & H1).
    2:{ exists w1. by erewrite bind_throw. }
    specialize (Em1 eq_refl). erewrite bind_ret by done.
    assert (En1 : h_nsconns (w_heap w1) !! ns = Some (with_ns_rooms nsc (JMap nx es))).
    { rewrite (or_nsconns _ _ _ _ _ _ H1). apply list_lookup_insert_eq. by eapply lookup_lt_Some. }
    specialize (IH n k w1 ltac:(lia) En1 Em1). destruct (leaving ns nsc isLocal es) as [[thrown rest] evs].
    destruct IH as (w2 & E2 & H2). exists w2. split; [done|]. by eapply only_rooms_trans.
Qed.

(** The namespace with the rooms [rest] left, and with none. *)
Definition left_with nsc (rest : entries room) : nsconn := with_ns_rooms nsc (JMap (jm_next (ns_rooms nsc)) rest).
Definition cleared nsc : nsconn := with_ns_rooms nsc (jm_clear (ns_rooms nsc)).
Definition all_leave_events ns nsc isLocal : list (nsref * message) :=
  concat (map (leave_events ns nsc isLocal) (jm_keys (ns_rooms nsc))).
(** No handler throws at these events. *)
Definition all_return nsc (evs : list (nsref * message)) : Prop := Forall (fun e => returns (judge verdict nsc e.2) = true) evs.

Lemma leaving_all ns nsc isLocal es :
  all_return nsc (concat (map (fun e => leave_events ns nsc isLocal e.2.1) es)) ->
  leaving ns nsc isLocal es = (None, [], concat (map (fun e => leave_events ns nsc isLocal e.2.1) es)).
Proof.
  induction es as [|[i [k rm]] es IH]; cbn [leaving map concat fst snd]; [done|]. unfold all_return, leave_events.
  rewrite Forall_app, !list.Forall_cons. cbn [snd]. intros [(H1 & H2 & _) H3].
  destruct (judge _ _ _); [|done]. destruct (judge _ _ _); [|done]. by rewrite IH.
Qed.
Lemma leaving_cleared ns nsc isLocal :
  all_return nsc (all_leave_events ns nsc isLocal) ->
  leaving ns nsc isLocal (jm_ents (ns_rooms nsc)) = (None, [], all_leave_events ns nsc isLocal).
Proof. unfold all_leave_events, jm_keys. rewrite map_map. apply leaving_all. Qed.

Lemma forceLeaveAll_run ns isLocal nsc w :
  h_nsconns (w_heap w) !! ns = Some nsc -> jm_wf (ns_rooms nsc) ->
  (jm_size (ns_rooms nsc) < loops)%nat ->
  let '(thrown, rest, evs) := leaving ns nsc isLocal (jm_ents (ns_rooms nsc)) in
  exists w', forceLeaveAll ns isLocal w = (ended thrown tt, w') /\
    only_rooms ns (length (h_msgs (w_heap w))) (left_with nsc rest) evs
      (add_msg (forced_leave nsc isLocal OnRoomLeave None) w) w'.
Proof.
  intros En Hwf Hl. destruct nsc as [name evs [nx es]].
  pose proof (forceLeaveAll_loop ns (length (h_msgs (w_heap w))) isLocal (NS name evs (JMap nx es))
    nx es loops 0 None (add_msg (forced_leave (NS name evs (JMap nx es)) isLocal OnRoomLeave None) w)
    Hwf Hl ltac:(by split_world w) (add_msg_eq _ _)) as Hloop.
  cbn [ns_rooms jm_ents]. destruct (leaving ns _ isLocal es) as [[thrown rest] evs']. destruct Hloop as (w' & E & Ho).
  exists w'. split; [|exact Ho]. unfold forceLeaveAll. by rewrite (bind_get_ns _ _ _ _ En), bind_alloc_msg.
Qed.

(** C12. [forceLeaveAll] ends. When no handler throws it fires the leave and the
    left event of every room in the order they were joined and leaves the
    namespace without rooms; when one throws, the exception leaves it there:
    the rooms before are left, those after are not, and the throwing call's own
    room stays if it was the leave handler's. The connection, the promises and
    the wire are untouched in both cases. *)
Theorem forceLeaveAll_clears ns isLocal nsc w :
  h_nsconns (w_heap w) !! ns = Some nsc -> jm_wf (ns_rooms nsc) ->
  (jm_size (ns_rooms nsc) < loops)%nat ->
  let '(thrown, rest, evs) := leaving ns nsc isLocal (jm_ents (ns_rooms nsc)) in
  (exists w', forceLeaveAll ns isLocal w = (ended thrown tt, w') /\
    h_nsconns (w_heap w') = <[ns := left_with nsc rest]> (h_nsconns (w_heap w)) /\
    io_fired (w_io w') = io_fired (w_io w) ++ evs /\
    io_sent (w_io w') = io_sent (w_io w) /\ w_conn w' = w_conn w /\
    h_promises (w_heap w') = h_promises (w_heap w)) /\
  (all_return nsc (all_leave_events ns nsc isLocal) ->
    thrown = None /\ left_with nsc rest = cleared nsc /\ evs = all_leave_events ns nsc isLocal).
Proof.
  intros En Hwf Hl. pose proof (forceLeaveAll_run ns isLocal nsc w En Hwf Hl) as Hrun.
  pose proof (leaving_cleared ns nsc isLocal) as Hq. destruct (leaving _ _ _ _) as [[thrown rest] evs].
  destruct Hrun as (w' & E & []). split; [|intros Hr; by injection (Hq Hr) as -> -> ->].
  exists w'. split; [done|]. rewrite or_nsconns0, or_fired0, or_sent0, or_conn0, or_promises0.
  by split_world w.
Qed.

(** ** The server disconnects a namespace *)

(** C11. The server disconnects a namespace. When no handler throws, the client
    leaves every room, forgets the namespace, replies and tells its handlers.
    When one throws while the rooms are left, the exception leaves
    [handleMessage] there: the namespace stays connected, with the rooms not yet
    left, and the server gets no reply. When only the disconnect handler throws,
    everything is done by then. *)
Theorem server_disconnects data w r nsc :
  let m := deserializeMessage data (allows_native w) in
  is_event w m -> Event m = Some OnNamespaceDisconnect ->
  isEmpty (of_key (wait m)) || isNoOp m = false ->
  c_connectedNamespaces (w_conn w) !! Namespace m = Some r ->
  h_nsconns (w_heap w) !! r = Some nsc -> jm_wf (ns_rooms nsc) ->
  (jm_size (ns_rooms nsc) < loops)%nat ->
  let '(thrown, rest, evs) := leaving r nsc true (jm_ents (ns_rooms nsc)) in
  (exists w',
    h_nsconns (w_heap w') = <[r := left_with nsc rest]> (h_nsconns (w_heap w)) /\
    match thrown with
    | None =>
        handleMessage data w = (after (judge verdict nsc m) JNull, w') /\
        c_connectedNamespaces (w_conn w') = delete (Namespace m) (c_connectedNamespaces (w_conn w)) /\
        io_sent (w_io w') = io_sent (w_io w) ++ [reply_frame m] /\
        io_fired (w_io w') = io_fired (w_io w) ++ evs ++ [(r, m)]
    | Some e =>
        handleMessage data w = (Throw e, w') /\ w_conn w' = w_conn w /\
        io_sent (w_io w') = io_sent (w_io w) /\ io_fired (w_io w') = io_fired (w_io w) ++ evs
    end) /\
  (all_return nsc (all_leave_events r nsc true) ->
    thrown = None /\ left_with nsc rest = cleared nsc /\ evs = all_leave_events r nsc true).
Proof.
  intros m He Ec Hw Hc En Hwf Hl.
  pose proof (forceLeaveAll_run r true nsc (add_msg m w) ltac:(by split_world w) Hwf Hl) as Hrun.
  pose proof (leaving_cleared r nsc true) as Hq. destruct (leaving _ _ _ _) as [[thrown rest] evs].
  destruct Hrun as (w1 & E1 & []). split; [|intros Hr; by injection (Hq Hr) as -> -> ->].
  assert (E0 : handleMessage data w = ((forceLeaveAll r true;; m0 ← get_msg (length (h_msgs (w_heap w)));
    upd_connected (delete (Namespace m0));; writeEmptyReply (wait m0);;
    fireEvent r (length (h_msgs (w_heap w)));; mret tt);; mret JNull) (add_msg m w)).
  { rewrite handle_disconnect by done. unfold replyDisconnect. rewrite bind_assoc.
    rewrite (bind_get_msg _ m) by apply add_msg_eq. rewrite Hw, bind_assoc, bind_namespace.
    change (w_conn (add_msg _ w)) with (w_conn w). by rewrite Hc. }
  rewrite E0, bind_assoc. destruct thrown as [e|]; cbn [ended] in E1.
  { exists w1. erewrite bind_throw by exact E1. rewrite or_nsconns0, or_conn0, or_sent0, or_fired0. by split_world w. }
  erewrite bind_ret by exact E1. rewrite bind_assoc.
  assert (Em : h_msgs (w_heap w1) !! length (h_msgs (w_heap w)) = Some m).
  { rewrite or_msgs0 by (split_world w; rewrite length_app; simpl; lia).
    split_world w. rewrite !lookup_app_l by (rewrite ?length_app; simpl; lia).
    by rewrite lookup_app_r, Nat.sub_diag by lia. }
  rewrite (bind_get_msg _ m) by done. rewrite bind_assoc, bind_connected, bind_assoc, bind_reply, bind_assoc.
  rewrite (bind_fire _ _ _ _ _ (left_with nsc rest) m).
  2:{ change (w_heap (sent_also _ (with_connected _ w1))) with (w_heap w1). rewrite or_nsconns0.
      apply list_lookup_insert_eq. split_world w. by eapply lookup_lt_Some. }
  2:{ by split_world w1. }
  change (judge _ (left_with nsc rest)) with (judge verdict nsc). eexists.
  split; [|split; [by destruct (judge verdict nsc m)|]].
  all: destruct w1 as [c1 h1 [s1 o1 k1 t1 f1]]; simpl in *; subst; split_world w; try done.
  rewrite <-app_assoc. done.
Qed.

(** ** Closing *)

(** The message [close] shows the handlers of namespace [n]. *)
Definition close_message (n : key) : message :=
  set_Namespace n (set_IsLocal true (set_IsForced true
    (set_Event (Some OnNamespaceDisconnect) new_Message))).

Definition close_events (objs : list nsconn) (n : key) (r : nsref) : list (nsref * message) :=
  match objs !! r with
  | Some nsc => all_leave_events r nsc true ++ [(r, close_message n)]
  | None => []
  end.

(** What the loop of [close] needs of each entry, and keeps for the others. *)
Definition closable (objs : list nsconn) (n : key) (r : nsref) : Prop :=
  exists nsc, objs !! r = Some nsc /\ ns_namespace nsc = n /\ jm_wf (ns_rooms nsc) /\
    (jm_size (ns_rooms nsc) < loops)%nat.

Definition clear_at (objs : list nsconn) (r : nsref) : list nsconn := alter cleared r objs.

Definition close_ns (dm : nat) (_ : key) (ns : nsref) : M unit :=
  forceLeaveAll ns true;;
  nsc ← get_ns ns;
  upd_msg dm (set_Namespace (ns_namespace nsc));;
  fireEvent ns dm;;
  upd_connected (delete (ns_namespace nsc)).

(** From [w] to [w'] the loop of [close] changed the connected namespaces, the
    objects and the history of events as given, and the messages. *)
Record closing (conns' : jmap key nsref) (objs' : list nsconn) (evs : list (nsref * message))
    (w w' : world) : Prop := {
  cl_conn : w_conn w' = set_connectedNamespaces conns' (w_conn w);
  cl_nsconns : h_nsconns (w_heap w') = objs';
  cl_promises : h_promises (w_heap w') = h_promises (w_heap w);
  cl_jobs : h_jobs (w_heap w') = h_jobs (w_heap w);
  cl_sent : io_sent (w_io w') = io_sent (w_io w);
  cl_open : io_open (w_io w') = io_open (w_io w);
  cl_closes : io_closes (w_io w') = io_closes (w_io w);
  cl_fired : io_fired (w_io w') = io_fired (w_io w) ++ evs
}.

(** What closing the namespaces [es], in this order, comes to: what is thrown, if
    anything, the namespaces that stay connected, the objects, and the events
    fired. *)
Fixpoint closing_all (objs : list nsconn) (es : entries nsref)
    : option jsval * entries nsref * list nsconn * list (nsref * message) :=
  match es with
  | [] => (None, [], objs, [])
  | (_, (n, r)) :: es' =>
      match objs !! r with
      | None => (None, es, objs, [])   (* no reference dangles *)
      | Some nsc =>
          let '(thrown, rest, evs) := leaving r nsc true (jm_ents (ns_rooms nsc)) in
          let objs := <[r := left_with nsc rest]> objs in
          match thrown with
          | Some e => (Some e, es, objs, evs)
          | None =>
              let evs := evs ++ [(r, close_message n)] in
              match judge verdict nsc (close_message n) with
              | Throws e => (Some e, es, objs, evs)
              | Returns _ =>
                  let '(thrown, rest, objs, evs') := closing_all objs es' in (thrown, rest, objs, evs ++ evs')
              end
          end
      end
  end.

Lemma close_ns_run dm n r n0 nsc w :
  h_nsconns (w_heap w) !! r = Some nsc -> ns_namespace nsc = n -> jm_wf (ns_rooms nsc) ->
  (jm_size (ns_rooms nsc) < loops)%nat -> h_msgs (w_heap w) !! dm = Some (close_message n0) ->
  let '(thrown, rest, evs) := leaving r nsc true (jm_ents (ns_rooms nsc)) in
  let objs := <[r := left_with nsc rest]> (h_nsconns (w_heap w)) in
  match thrown with
  | Some e => exists w', close_ns dm n r w = (Throw e, w') /\ closing (c_connectedNamespaces (w_conn w)) objs evs w w'
  | None =>
      match judge verdict nsc (close_message n) with
      | Throws e => exists w', close_ns dm n r w = (Throw e, w') /\
          closing (c_connectedNamespaces (w_conn w)) objs (evs ++ [(r, close_message n)]) w w'
      | Returns _ => exists w', close_ns dm n r w = (Ret tt, w') /\
          h_msgs (w_heap w') !! dm = Some (close_message n) /\
          closing (delete n (c_connectedNamespaces (w_conn w))) objs (evs ++ [(r, close_message n)]) w w'
      end
  end.
Proof.
  intros En <- Hwf Hl Em. pose proof (forceLeaveAll_run r true nsc w En Hwf Hl) as Hrun.
  destruct (leaving _ _ _ _) as [[thrown rest] evs]. destruct Hrun as (w1 & E1 & []). cbv zeta.
  assert (Hsame : forall f, w_conn (add_msg f w) = w_conn w) by done.
  unfold close_ns. destruct thrown as [e|]; cbn [ended] in E1.
  { exists w1. erewrite bind_throw by exact E1. split; [done|].
    split; rewrite ?or_conn0, ?or_nsconns0, ?or_promises0, ?or_jobs0, ?or_sent0, ?or_open0, ?or_closes0, ?or_fired0;
      by split_world w. }
  assert (Em1 : h_msgs (w_heap w1) !! dm = Some (close_message n0)).
  { pose proof (lookup_lt_Some _ _ _ Em). rewrite or_msgs0 by lia. split_world w.
    by rewrite lookup_app_l. }
  assert (En1 : h_nsconns (w_heap w1) !! r = Some (left_with nsc rest)).
  { rewrite or_nsconns0. apply list_lookup_insert_eq. split_world w. by eapply lookup_lt_Some. }
  erewrite bind_ret by exact E1. rewrite (bind_get_ns _ _ _ _ En1), bind_upd_msg.
  rewrite (bind_fire _ _ _ _ _ (left_with nsc rest) (close_message (ns_namespace nsc))).
  2:{ by split_world w1. } 2:{ by eapply with_msg_is. }
  change (judge _ (left_with nsc rest)) with (judge verdict nsc).
  destruct (judge verdict nsc _); (eexists; split; [done|]); [split; [split_world w1; by rewrite list_lookup_alter_eq, Em1|]|];
    destruct w1 as [c1 [m1 n1 p1 j1] [s1 o1 k1 t1 f1]]; simpl in *; subst; split_world w;
    split; simpl; try done; by rewrite <-app_assoc.
Qed.

Lemma closable_insert objs n r nsc nsc' n' r' :
  n <> n' -> objs !! r = Some nsc -> ns_namespace nsc = n -> closable objs n' r' ->
  closable (<[r := nsc']> objs) n' r' /\ (<[r := nsc']> objs) !! r' = objs !! r'.
Proof.
  intros Hne En Hn (nsc1 & En' & Hn' & Hrest).
  assert (r <> r') by (intros ->; congruence).
  unfold closable. rewrite list_lookup_insert_ne by done. eauto 10.
Qed.
Lemma closable_rest objs nx i k r nsc nsc' es : objs !! r = Some nsc -> ns_namespace nsc = k ->
  ents_wf nx i ((i, (k, r)) :: es) -> Forall (fun e => closable objs e.2.1 e.2.2) es ->
  Forall (fun e => closable (<[r := nsc']> objs) e.2.1 e.2.2 /\ (<[r := nsc']> objs) !! e.2.2 = objs !! e.2.2) es.
Proof.
  intros En Hn Hwf Hcs. inversion Hwf as [|? ? ? ? ? _ _ Hk]; subst.
  apply Forall_forall. intros [j [n' r']] Hin. cbn. apply (closable_insert _ (ns_namespace nsc) _ nsc); [|done|done|].
  - intros <-. apply Hk. apply list_elem_of_fmap. exists (j, (ns_namespace nsc, r')). split; [done|]. by apply list_elem_of_In.
  - rewrite Forall_forall in Hcs. by apply (Hcs (j, (n', r'))).
Qed.

Lemma closing_trans conns1 conns2 objs1 objs2 evs1 evs2 w1 w2 w3 :
  closing conns1 objs1 evs1 w1 w2 -> closing conns2 objs2 evs2 w2 w3 -> closing conns2 objs2 (evs1 ++ evs2) w1 w3.
Proof.
  intros [] []. split; try congruence.
  - rewrite cl_conn1, cl_conn0. by destruct (w_conn w1).
  - rewrite cl_fired1, cl_fired0. by rewrite <-app_assoc.
Qed.

Lemma close_loop dm nx es n pos n0 w :
  ents_wf nx pos es -> (length es < n)%nat ->
  c_connectedNamespaces (w_conn w) = JMap nx es ->
  Forall (fun e => closable (h_nsconns (w_heap w)) e.2.1 e.2.2) es ->
  h_msgs (w_heap w) !! dm = Some (close_message n0) ->
  let '(thrown, rest, objs, evs) := closing_all (h_nsconns (w_heap w)) es in
  exists w', map_forEach n (gets (fun w => c_connectedNamespaces (w_conn w))) (close_ns dm) pos w
      = (ended thrown tt, w') /\ closing (JMap nx rest) objs evs w w'.
Proof.
  intros Hwf. revert n n0 w.
  induction Hwf as [pos Hpos|pos i k r es Hi Hwf IH Hk]; intros [|n] n0 w Hl Ec Hc Em;
    simpl in Hl; try lia; cbn [closing_all]; simpl map_forEach; run; rewrite Ec.
  - exists w. split; [done|]. split; try done; simpl; [by split_world w; subst|by rewrite app_nil_r].
  - rewrite jm_from_head by done. cbv beta iota.
    apply Forall_cons_1 in Hc as [(nsc & En & Hn & Hrw & Hrl) Hcs]. cbn [fst snd] in *. rewrite En.
    pose proof (close_ns_run dm k r n0 nsc w En Hn Hrw Hrl Em) as Hone. rewrite Ec in Hone.
    destruct (leaving r nsc true _) as [[[e|] rest] evs]; cbv zeta in Hone |- *.
    { destruct Hone as (w1 & E1 & H1). exists w1. by erewrite bind_throw. }
    destruct (judge verdict nsc (close_message k)).
    2:{ destruct Hone as (w1 & E1 & H1). exists w1. by erewrite bind_throw. }
    destruct Hone as (w1 & E1 & Em1 & H1). erewrite bind_ret by exact E1.
    assert (Hothers := closable_rest _ nx i k r nsc (left_with nsc rest) es En Hn
      ltac:(by constructor) Hcs).
    rewrite <-(cl_nsconns _ _ _ _ _ H1) in Hothers |- *.
    specialize (IH n k w1 ltac:(lia)). destruct (closing_all (h_nsconns (w_heap w1)) es) as [[[t rest'] objs'] evs'].
    destruct IH as (w2 & E2 & H2); [|(eapply Forall_impl; [|exact Hothers]; by intros ? [])|done|].
    { transitivity (delete k (JMap nx ((i, (k, r)) :: es))); [rewrite (cl_conn _ _ _ _ _ H1); by destruct (w_conn w)|].
      unfold delete, jm_delete. simpl jm_ents. by rewrite ents_delete_head. }
    exists w2. split; [exact E2|]. by eapply closing_trans.
Qed.

(** When no handler throws, every namespace is cleared. *)
Lemma closing_quiet objs nx pos es :
  (forall h m, returns (verdict h m) = true) -> ents_wf nx pos es -> Forall (fun e => closable objs e.2.1 e.2.2) es ->
  closing_all objs es = (None, [], fold_left clear_at (map (fun e => e.2.2) es) objs,
    concat (map (fun e => close_events objs e.2.1 e.2.2) es)).
Proof.
  intros Hq Hwf. revert objs.
  assert (Hret : forall nsc m, returns (judge verdict nsc m) = true).
  { intros nsc m. unfold judge. destruct (ns_events nsc !! _); [apply Hq|]. destruct (ns_events nsc !! _); [apply Hq|done]. }
  induction Hwf as [|pos i k r es Hi Hwf IH Hk]; intros objs Hc; [done|].
  apply Forall_cons_1 in Hc as [(nsc & En & Hn & Hrw & Hrl) Hcs]. cbn [closing_all fst snd] in *. rewrite En.
  rewrite leaving_cleared by (apply Forall_true; intros; apply Hret). cbv zeta.
  pose proof (Hret nsc (close_message k)). destruct (judge verdict nsc (close_message k)); [|done].
  assert (Hothers := closable_rest _ nx i k r nsc (left_with nsc []) es En Hn ltac:(by constructor) Hcs).
  rewrite IH by (eapply Forall_impl; [|exact Hothers]; by intros ? []).
  assert (Hcl : clear_at objs r = <[r := left_with nsc []]> objs) by (unfold clear_at; by rewrite (alter_insert _ _ nsc)).
  cbn [map fold_left concat fst snd]. rewrite Hcl.
  replace (close_events objs k r) with (all_leave_events r nsc true ++ [(r, close_message k)]) by (unfold close_events; by rewrite En).
  do 3 f_equal.
  apply map_ext_Forall. eapply Forall_impl; [|exact Hothers]. intros [j [n' r']] [_ E']. cbn in *. unfold close_events.
  by rewrite E'.
Qed.

(** Every namespace connection's rooms fit the loop bound. *)
Definition fits w : Prop :=
  (jm_size (c_connectedNamespaces (w_conn w)) < loops)%nat /\
  Forall (fun nsc => (jm_size (ns_rooms nsc) < loops)%nat) (h_nsconns (w_heap w)).

Lemma Inv_closable w : Inv w -> fits w ->
  Forall (fun e => closable (h_nsconns (w_heap w)) e.2.1 e.2.2) (jm_ents (c_connectedNamespaces (w_conn w))).
Proof.
  intros [Hwf Hc _ Hrooms _ _ _ _] [_ Hf]. apply Forall_forall. intros [i [n r]] Hin%list_elem_of_In.
  assert (Hl : c_connectedNamespaces (w_conn w) !! n = Some r) by by eapply ents_wf_get.
  apply Hc in Hl as (nsc & En & Hn & _). exists nsc. simpl. split_and!; try done; eauto.
  rewrite Forall_forall in Hf. apply Hf. apply list_elem_of_In. by eapply list_elem_of_lookup_2.
Qed.

(** C13. [close] on an open connection ends. When no handler throws, every room is
    left and every namespace told, in order; no namespace stays connected and no
    question registered; the connection is closed, and its socket if it was
    open. When a handler throws, the exception leaves [close] there: the
    namespaces before are closed, its own and those after stay connected, and
    neither the connection nor its socket is closed. No promise is settled: what
    was asked and not answered stays pending. *)
Theorem close_clears w :
  Inv w -> fits w -> c_closed (w_conn w) = false ->
  let ents := jm_ents (c_connectedNamespaces (w_conn w)) in
  let '(thrown, rest, objs, evs) := closing_all (h_nsconns (w_heap w)) ents in
  (exists w', close w = (ended thrown tt, w') /\
    c_connectedNamespaces (w_conn w') = JMap (jm_next (c_connectedNamespaces (w_conn w))) rest /\
    h_nsconns (w_heap w') = objs /\ io_fired (w_io w') = io_fired (w_io w) ++ evs /\
    io_sent (w_io w') = io_sent (w_io w) /\
    h_promises (w_heap w') = h_promises (w_heap w) /\ h_jobs (w_heap w') = h_jobs (w_heap w) /\
    match thrown with
    | None => c_closed (w_conn w') = true /\
        c_waitingMessages (w_conn w') = jm_clear (c_waitingMessages (w_conn w)) /\
        io_open (w_io w') = false /\
        io_closes (w_io w') = if io_open (w_io w) then S (io_closes (w_io w)) else io_closes (w_io w)
    | Some _ => c_closed (w_conn w') = false /\
        c_waitingMessages (w_conn w') = c_waitingMessages (w_conn w) /\
        io_open (w_io w') = io_open (w_io w) /\ io_closes (w_io w') = io_closes (w_io w)
    end) /\
  ((forall h m, returns (verdict h m) = true) ->
    thrown = None /\ rest = [] /\ objs = fold_left clear_at (map (fun e => e.2.2) ents) (h_nsconns (w_heap w)) /\
    evs = concat (map (fun e => close_events (h_nsconns (w_heap w)) e.2.1 e.2.2) ents)).
Proof.
  intros Hi Hf Hcl ents. subst ents. pose proof (Inv_closable w Hi Hf) as Hall. destruct (id Hi).
  destruct (c_connectedNamespaces (w_conn w)) as [nx es] eqn:Ec. cbn [jm_ents jm_next] in *.
  pose proof (closing_quiet (h_nsconns (w_heap w)) nx 0 es) as Hq.
  pose proof (close_loop (length (h_msgs (w_heap w))) nx es loops 0 None (add_msg (close_message None) w)) as Hloop.
  change (h_nsconns (w_heap (add_msg _ w))) with (h_nsconns (set_msgs (h_msgs (w_heap w) ++ [close_message None]) (w_heap w))) in Hloop.
  replace (h_nsconns (set_msgs _ _)) with (h_nsconns (w_heap w)) in Hloop by by destruct (w_heap w).
  destruct (closing_all (h_nsconns (w_heap w)) es) as [[[thrown rest] objs1] evs1].
  split; [|intros Hr; by injection (Hq Hr inv_connected_wf Hall) as -> -> -> ->].
  destruct Hloop as (w1 & E1 & H1);
    [done|by destruct Hf as [Hf _]; rewrite Ec in Hf|done|done|apply add_msg_eq|].
  assert (E2 : close w = ((map_forEach loops (gets (fun w => c_connectedNamespaces (w_conn w))) (close_ns (length (h_msgs (w_heap w)))) 0;;
    modify (fun w => upd_conn (set_waitingMessages (jm_clear (c_waitingMessages (w_conn w)))) w);;
    modify (upd_conn (set_closed true));;
    open ← gets (fun w => io_open (w_io w));
    if open : bool then ws_close else mret tt) (add_msg (close_message None) w))).
  { unfold close, isClosed. run. by rewrite Hcl, bind_alloc_msg. }
  rewrite E2. destruct H1. destruct thrown as [e|]; cbn [ended] in E1.
  - exists w1. erewrite bind_throw by exact E1.
    destruct w1 as [c1 [m1 n1 p1 j1] [s1 o1 k1 t1 f1]]. simpl in *. subst. split_world w. by subst.
  - erewrite bind_ret by exact E1. run.
    change (w_io (upd_conn _ (upd_conn _ w1))) with (w_io w1).
    destruct w1 as [c1 [m1 n1 p1 j1] [s1 o1 k1 t1 f1]]. simpl in *. subst. split_world w. subst. by destruct open; eexists.
Qed.
End leave.
