(* ===== verification/Join.v ===== *)
(** Joining a room from the client, from the call to the promise's end, and
    leaving all rooms. *)

From S2P Require Import Prelude JsVal JsMap TextEncoding Message CodecLaws MessageSpec World Conn.
From S2P Require Import ConnInv System ConnSpec Session Leave.

Section join.
Context `{TextCodec}.
Variable verdict : handler -> message -> reaction.
Variable clock_of : nat -> clock.
Variable loops : nat.
#[local] Hint Extern 0 Env => exact (pure_env verdict clock_of loops) : typeclass_instances.
Implicit Types (w : world) (m : message) (nsc : nsconn).

(** The message [askRoomJoin] sends, before it has its token. *)
Definition join_message nsc (k : key) : message :=
  set_IsLocal true (set_Event (Some OnRoomJoin) (set_Room k
    (set_Namespace (ns_namespace nsc) new_Message))).

(** The world after [joinRoom] has sent its question [d] with the token [t]. *)
Definition joining ns nsc k t d w : world :=
  let n := length (h_promises (w_heap w)) in
  let lm := length (h_msgs (w_heap w)) in
  World
    (set_waitingMessages (<[Some t := (n + 2)%nat]> (c_waitingMessages (w_conn w))) (w_conn w))
    (set_msgs (h_msgs (w_heap w) ++ [set_wait (Some t) (join_message nsc k)])
      (set_promises (h_promises (w_heap w) ++
          [Pending []; Pending [AwaitForward n]; Pending [AwaitJoin ns k lm (n + 1)]]) (w_heap w)))
    (set_ticks (S (io_ticks (w_io w))) (set_sent (io_sent (w_io w) ++ [d]) (w_io w))).

Lemma bind_new_promise {B} (g : pid -> M B) w :
  (new_promise ≫= g) w =
    g (length (h_promises (w_heap w)))
      (upd_heap (set_promises (h_promises (w_heap w) ++ [Pending []])) w).
Proof. done. Qed.

Lemma bind_await {B} p a awaits (g : unit -> M B) w :
  h_promises (w_heap w) !! p = Some (Pending awaits) ->
  (await p a ≫= g) w =
    g tt (upd_heap (set_promises (<[p := Pending (awaits ++ [a])]> (h_promises (w_heap w)))) w).
Proof. intros E. unfold await. run. rewrite E. by split_world w. Qed.

Lemma joinRoom_eq ns nsc k w d :
  let t := genWait (clock_of (io_ticks (w_io w))) in
  c_closed (w_conn w) = false ->
  c_connectedNamespaces (w_conn w) !! ns_namespace nsc = Some ns ->
  h_nsconns (w_heap w) !! ns = Some nsc -> ns_rooms nsc !! k = None ->
  serializeMessage (set_wait (Some t) (join_message nsc k)) = Ret d ->
  joinRoom ns k w = (Ret (length (h_promises (w_heap w))), joining ns nsc k t d w).
Proof.
  intros t Hc Hn En Hr Hd. unfold joinRoom, askRoomJoin.
  rewrite bind_new_promise, bind_assoc, bind_new_promise, bind_assoc.
  rewrite (bind_get_ns ns nsc) by by split_world w. rewrite Hr, !bind_assoc, bind_alloc_msg, bind_assoc.
  change (set_IsLocal true _) with (join_message nsc k).
  split_world w. rewrite <-app_assoc. simpl.
  erewrite bind_ret.
  2:{ apply (ask_eq _ _ (join_message nsc k)); simpl.
      - by rewrite lookup_app_r, Nat.sub_diag by lia.
      - unfold may_write. subst. simpl. rewrite Hn. by rewrite orb_true_r.
      - exact Hd. }
  unfold sent_also, asked. simpl. rewrite <-app_assoc, !length_app. simpl.
  erewrite bind_await; simpl.
  2:{ rewrite lookup_app_r by lia. replace (_ - _)%nat with 2%nat by lia. done. }
  run.
  erewrite bind_await; simpl.
  2:{ rewrite list_lookup_insert_ne, lookup_app_r by lia. replace (_ - _)%nat with 1%nat by lia. done. }
  unfold mret, M_ret, joining. simpl.
  rewrite alter_app_r_alt, Nat.sub_diag by lia.
  rewrite !insert_app_r_alt by lia.
  replace (length promises + 1 - length promises)%nat with 1%nat by lia.
  replace (length promises + 2 - length promises)%nat with 2%nat by lia. done.
Qed.

(** How the join ends: the server's error, the join handler's, or the room; an
    exception of a handler is nobody's, and leaves the promise as it is: [None],
    with the room joined if it was the joined handler's. *)
Inductive join_end ns nsc k (m answer : message) :
    option settlement -> nsconn -> list (nsref * message) -> Prop :=
  | join_denied : isError answer = true ->
      join_end ns nsc k m answer (Some (Reject (Err answer))) nsc []
  | join_vetoed v : isError answer = false -> judge verdict nsc m = Returns v -> isEmpty v = false ->
      join_end ns nsc k m answer (Some (Reject v)) nsc [(ns, m)]
  | join_threw e : isError answer = false -> judge verdict nsc m = Throws e ->
      join_end ns nsc k m answer None nsc [(ns, m)]
  | join_done v : isError answer = false -> judge verdict nsc m = Returns v -> isEmpty v = true ->
      join_end ns nsc k m answer
        (if returns (judge verdict nsc (set_Event (Some OnRoomJoined) m)) then Some (Resolve (ResRoom (Room_ ns k))) else None)
        (NS (ns_namespace nsc) (ns_events nsc) (<[k := Room_ ns k]> (ns_rooms nsc)))
        [(ns, m); (ns, set_Event (Some OnRoomJoined) m)].

(** Settling, or not. *)
Definition settle_with (p : pid) (res : option settlement) : M unit :=
  match res with Some s => settle p s | None => mret tt end.

Lemma run_jobs_one n w a s rest w1 :
  h_jobs (w_heap w) = (a, s) :: rest ->
  resume a s (upd_heap (set_jobs rest) w) = (Ret tt, w1) ->
  run_jobs (S n) w = run_jobs n w1.
Proof.
  intros Ej Er. simpl run_jobs. run. rewrite Ej. erewrite bind_ret; [done|]. unfold catch.
  rewrite run_job_eq, Ej. unfold mbind, M_bind, modify. by rewrite Er.
Qed.

Lemma settle_pending p s awaits w :
  h_promises (w_heap w) !! p = Some (Pending awaits) ->
  settle p s w = (Ret tt, settled p s awaits w).
Proof. intros E. unfold settle, modify. by rewrite E. Qed.

Lemma run_jobs_nil n w : h_jobs (w_heap w) = [] -> run_jobs n w = (Ret tt, w).
Proof. intros E. destruct n; simpl; run; by rewrite E. Qed.

(** The continuation of the join, from the server's answer to its end. *)
Lemma resume_join ns nsc k lm out m answer w :
  h_nsconns (w_heap w) !! ns = Some nsc -> h_msgs (w_heap w) !! lm = Some m ->
  forall r, exists res nsc' evs w', join_end ns nsc k m answer res nsc' evs /\
    resume (AwaitJoin ns k lm out) (if isError answer then Reject (Err answer) else Resolve (ResMsg r)) w
      = settle_with out res w' /\
    h_nsconns (w_heap w') = <[ns := nsc']> (h_nsconns (w_heap w)) /\
    w_conn w' = w_conn w /\ h_promises (w_heap w') = h_promises (w_heap w) /\
    h_jobs (w_heap w') = h_jobs (w_heap w) /\
    io_sent (w_io w') = io_sent (w_io w) /\ io_fired (w_io w') = io_fired (w_io w) ++ evs.
Proof.
  intros En Em r. destruct (isError answer) eqn:Ee.
  { eexists _, _, _, w. split; [by apply join_denied|]. rewrite list_insert_id, app_nil_r by done. done. }
  cbn [resume]. unfold swallow, catch. rewrite (bind_fire _ _ _ _ _ nsc m) by done.
  destruct (judge verdict nsc m) as [v|e] eqn:Ej.
  2:{ eexists _, _, _, _. split; [by eapply join_threw|]. split; [done|].
      split_world w. by rewrite list_insert_id. }
  destruct (isEmpty v) eqn:Ev; cbn [negb].
  2:{ eexists _, _, _, (fired_also ns m w). split; [by apply (join_vetoed _ _ _ _ _ v)|].
      split; [unfold settle_with, settle, modify; by destruct (h_promises _ !! out)|].
      split_world w. by rewrite list_insert_id. }
  eexists _, _, _, _. split; [by apply (join_done _ _ _ _ _ v)|].
  rewrite bind_upd_rooms, bind_upd_msg.
  rewrite (bind_fire _ _ _ _ _ (NS (ns_namespace nsc) (ns_events nsc)
    (<[k := Room_ ns k]> (ns_rooms nsc))) (set_Event (Some OnRoomJoined) m)).
  2:{ split_world w. by rewrite list_lookup_alter_eq, En. }
  2:{ apply (with_msg_eq _ _ m). by split_world w. }
  change (judge verdict (NS _ _ _)) with (judge verdict nsc).
  split.
  { destruct (judge verdict nsc (set_Event _ m)); cbn [returns settle_with]; [|done].
    unfold settle, modify. by destruct (h_promises _ !! out). }
  split_world w. split; [by rewrite (alter_insert _ _ nsc)|]. by rewrite <-app_assoc.
Qed.

(** The answer settles the question's promise. *)
Lemma join_answered ns nsc k w d data :
  let t := genWait (clock_of (io_ticks (w_io w))) in
  let p := length (h_promises (w_heap w)) in
  let answer := deserializeMessage data (allows_native w) in
  let w1 := joining ns nsc k t d w in
  let s := if isError answer then Reject (Err answer) else Resolve (ResMsg (length (h_msgs (w_heap w1)))) in
  isInvalid answer = false -> IsNative answer && allows_native w = false -> wait answer = Some t ->
  handleMessage data w1 = (Ret JUndef, settled (p + 2) s [AwaitJoin ns k (length (h_msgs (w_heap w))) (p + 1)] (add_msg answer w1)).
Proof.
  intros t p answer w1 s Hv Hna Hw. assert (Hal : allows_native w1 = allows_native w) by (subst w1; by split_world w).
  set (a := AwaitJoin ns k (length (h_msgs (w_heap w))) (p + 1)).
  pose proof (handle_reply data w1 (p + 2) [a]) as Hh. cbv zeta in Hh. rewrite Hal in Hh.
  apply Hh; try done; [by eapply isWait_genWait| |]; fold answer; rewrite ?Hw.
  - subst w1. split_world w. apply jm_lookup_insert_eq.
  - subst w1 a p. split_world w. rewrite lookup_app_r by lia.
    replace (_ - _)%nat with 2%nat by lia. done.
Qed.
(** The two promises behind it are settled with what the join ended in. *)
Lemma join_forwarded (w0 w3 : world) p sq a res : p = length (h_promises (w_heap w0)) ->
  h_promises (w_heap w3) = <[(p + 2)%nat := sq]> (h_promises (w_heap w0) ++ [Pending []; Pending [AwaitForward p]; Pending [a]]) ->
  settle (p + 1) res w3 = (Ret tt, settled (p + 1) res [AwaitForward p] w3) /\
  let w4 := upd_heap (set_jobs []) (settled (p + 1) res [AwaitForward p] w3) in settle p res w4 = (Ret tt, settled p res [] w4).
Proof.
  intros -> Eprom. split; apply settle_pending.
  - rewrite Eprom, list_lookup_insert_ne, lookup_app_r by lia. replace (_ - _)%nat with 1%nat by lia. done.
  - cbv zeta. split_world w3. subst. rewrite !list_lookup_insert_ne by lia. by rewrite lookup_app_r, Nat.sub_diag by lia.
Qed.

(** The two jobs of the join, or the one when nothing is settled. *)
Lemma run_join_jobs (w0 w2 w3 : world) a s sq res : let p := length (h_promises (w_heap w0)) in
  h_promises (w_heap w3) = <[(p + 2)%nat := sq]> (h_promises (w_heap w0) ++ [Pending []; Pending [AwaitForward p]; Pending [a]]) ->
  h_jobs (w_heap w2) = [(a, s)] -> h_jobs (w_heap w3) = [] ->
  resume a s (upd_heap (set_jobs []) w2) = settle_with (p + 1) res w3 ->
  exists w4, run_jobs 2 w2 = (Ret tt, w4) /\
    h_promises (w_heap w4) !! p = Some (match res with Some s => Settled s | None => Pending [] end) /\
    h_nsconns (w_heap w4) = h_nsconns (w_heap w3) /\ w_io w4 = w_io w3.
Proof.
  intros p Eprom Hj2 Hj3 E3.
  assert (Hlen : (p + 3 = length (h_promises (w_heap w3)))%nat) by (by rewrite Eprom, length_insert, length_app).
  destruct res as [res|]; cbn [settle_with] in E3.
  2:{ exists w3. rewrite (run_jobs_one 1 w2 a s [] _ Hj2 E3). split; [by apply run_jobs_nil|].
      rewrite Eprom, list_lookup_insert_ne by lia. unfold p. by rewrite list_lookup_middle. }
  destruct (join_forwarded w0 w3 p sq a res eq_refl Eprom) as [E4 E5]. rewrite E4 in E3.
  set (w4 := upd_heap (set_jobs []) (settled (p + 1) res [AwaitForward p] w3)).
  exists (settled p res [] w4). split.
  { rewrite (run_jobs_one 1 w2 a s [] _ Hj2 E3).
    rewrite (run_jobs_one 0 _ (AwaitForward p) res [] (settled p res [] w4)).
    - apply run_jobs_nil. clear -Hj3. subst w4. by split_world w3.
    - clear -Hj3. split_world w3. by subst.
    - exact E5. }
  subst w4. clear -Hlen. split_world w3. by rewrite list_lookup_insert_eq by (rewrite length_insert; lia).
Qed.

(** C10. Joining a room the namespace is not in, to the end, when no other promise
    job is waiting. The question leaves; when the server's answer to it arrives
    and the promise jobs have run, the promise [joinRoom] returned is rejected
    with the server's error; or rejected with the join handler's, nothing being
    joined; or resolved with the room, which is then among the namespace's; or,
    when a handler threw, left pending - with the room joined if it was the
    handler of the joined event. *)
Theorem join_completes ns nsc k w d data :
  let t := genWait (clock_of (io_ticks (w_io w))) in
  let p := length (h_promises (w_heap w)) in
  let answer := deserializeMessage data (allows_native w) in
  let m := set_wait (Some t) (join_message nsc k) in
  c_closed (w_conn w) = false -> h_jobs (w_heap w) = [] ->
  c_connectedNamespaces (w_conn w) !! ns_namespace nsc = Some ns ->
  h_nsconns (w_heap w) !! ns = Some nsc -> ns_rooms nsc !! k = None ->
  serializeMessage m = Ret d ->
  isInvalid answer = false -> IsNative answer && allows_native w = false -> wait answer = Some t ->
  exists w1 w2 w3 res nsc' evs,
    joinRoom ns k w = (Ret p, w1) /\ handleMessage data w1 = (Ret JUndef, w2) /\
    run_jobs 2 w2 = (Ret tt, w3) /\ join_end ns nsc k m answer res nsc' evs /\
    h_promises (w_heap w3) !! p = Some (match res with Some s => Settled s | None => Pending [] end) /\
    h_nsconns (w_heap w3) = <[ns := nsc']> (h_nsconns (w_heap w)) /\
    io_sent (w_io w3) = io_sent (w_io w) ++ [d] /\
    io_fired (w_io w3) = io_fired (w_io w) ++ evs.
Proof.
  intros t p answer m Hcl Hj Hn En Hr Hd Hv Hna Hw.
  set (w1 := joining ns nsc k t d w).
  set (s := if isError answer then Reject (Err answer) else Resolve (ResMsg (length (h_msgs (w_heap w1))))).
  set (a := AwaitJoin ns k (length (h_msgs (w_heap w))) (p + 1)).
  set (w2 := settled (p + 2) s [a] (add_msg answer w1)).
  assert (E1 : joinRoom ns k w = (Ret p, w1)) by (by apply joinRoom_eq).
  assert (E2 : handleMessage data w1 = (Ret JUndef, w2)) by (by apply join_answered).
  destruct (resume_join ns nsc k (length (h_msgs (w_heap w))) (p + 1) m answer
    (upd_heap (set_jobs []) w2)) with (r := length (h_msgs (w_heap w1)))
    as (res & nsc' & evs & w3 & Hend & E3 & Ens & _ & Ep & Ejobs & Es & Ef).
  { subst w2 w1. by split_world w. }
  { subst w2 w1. split_world w. rewrite <-app_assoc. by rewrite lookup_app_r, Nat.sub_diag by lia. }
  fold s a in E3.
  assert (Eprom : h_promises (w_heap w3) = <[(p + 2)%nat := Settled s]> (h_promises (w_heap w) ++
    [Pending []; Pending [AwaitForward p]; Pending [a]])).
  { rewrite Ep. subst w2 w1. by split_world w. }
  assert (Hj2 : h_jobs (w_heap w2) = [(a, s)]) by (subst w2 w1; clear -Hj; by split_world w; subst).
  assert (Hj3 : h_jobs (w_heap w3) = []) by (rewrite Ejobs; clear; by split_world w2).
  destruct (run_join_jobs w w2 w3 a s _ res Eprom Hj2 Hj3 E3) as (w4 & Erun & Epr & En4 & Eio).
  exists w1, w2, w4, res, nsc', evs. rewrite En4, Eio, Ens, Es, Ef. repeat split; try done.
  all: subst w2 w1; clear; by split_world w.
Qed.
End join.
