(* ===== verification/Reconnect.v ===== *)
(** The dialer over time: the handshake settles the promise, once; a lost
    connection is dialed again with its tries counted and its namespaces and
    rooms remembered; a closed one is not. *)

From S2P Require Import Prelude JsVal JsMap TextEncoding Message Numbers CodecLaws World Conn.
From S2P Require Import ConnInv ConnSpec Dial System.

(** ** Rebuilding a map entry by entry *)

Lemma fold_insert_lookup {V W} (f : V -> W) (es : list (nat * (key * V))) lo hi (acc : jmap key W) n :
  ents_wf hi lo es ->
  fold_left (fun prev '(_, (k, v)) => <[k := f v]> prev) es acc !! n =
    match ents_get n es with Some v => Some (f v) | None => acc !! n end.
Proof.
  intros Hwf. revert acc. induction Hwf as [|lo i k v es Hi Hes IH Hk]; intros acc; [done|].
  simpl. rewrite IH, jm_lookup_insert. case_decide as H1; case_decide as H2; subst; try done.
  destruct (ents_get n es) as [v'|] eqn:E; [|done].
  destruct Hk. apply ents_get_keys. by exists v'.
Qed.

Section reconnect.
Context `{TextCodec} `{Env}.
Implicit Types (w : world) (a : attempt).

Lemma previously_lookup w n : Inv w ->
  previously w !! n =
    (fun r => match h_nsconns (w_heap w) !! r with Some nsc => jm_keys (ns_rooms nsc) | None => [] end)
      <$> c_connectedNamespaces (w_conn w) !! n.
Proof.
  intros Hi. unfold previously.
  rewrite (fold_insert_lookup _ _ 0 (jm_next (c_connectedNamespaces (w_conn w)))) by apply Hi.
  rewrite jm_lookup_new.
  change (c_connectedNamespaces (w_conn w) !! n) with (ents_get n (jm_ents (c_connectedNamespaces (w_conn w)))).
  by destruct (ents_get n _).
Qed.

(** ** The handshake *)

(** C14. On a fresh attempt: opening the socket sends the one-letter greeting; the
    server's 'A' frame gives the connection its ID and resolves the promise;
    its 'H' frame with a text rejects the promise with that text and closes
    the socket; an 'H' frame without text does neither: the socket is closed
    and the promise stays as it was. *)
Theorem handshake a :
  a_installed a = true -> c_isAcknowledged (w_conn (a_world a)) = false ->
  c_queue (w_conn (a_world a)) = [] -> a_result a = None ->
  io_sent (w_io (a_world (onopen a))) = io_sent (w_io (a_world a)) ++ [JStr (js "M")] /\
  (forall id, let a' := onmessage (Text (js "A" ++ id)) a in
     a_result a' = Some Connected /\ c_ID (w_conn (a_world a')) = JStr id /\
     c_isAcknowledged (w_conn (a_world a')) = true) /\
  (forall text, let a' := onmessage (Text (js "H" ++ text)) a in
     a_result a' = (if text ==? [] then None else Some (Failed (JErr PlainError text))) /\
     c_isAcknowledged (w_conn (a_world a')) = false /\
     io_closes (w_io (a_world a')) = S (io_closes (w_io (a_world a)))).
Proof.
  intros Hin Hack Hq Hr. split; [|split].
  - unfold onopen. simpl. rewrite Hin. destruct a as [w]. simpl. by destruct w as [? ? []].
  - intros i a'. subst a'. unfold onmessage. rewrite Hin, handle_unacknowledged by done.
    destruct a as [w]. simpl in *. subst. by split_world w.
  - intros text a'. subst a'. unfold onmessage. rewrite Hin, handle_unacknowledged by done.
    destruct a as [w]. simpl in *. subst. split_world w. subst. by case_bool_decide.
Qed.

(** The promise of a dial is settled once: whatever happens to the socket
    later, the first result stays. *)
Theorem dial_settles_once a r : a_result a = Some r ->
  (forall data, a_result (onmessage data a) = Some r) /\ a_result (onopen a) = Some r /\
  (forall e, a_result (onerror e a) = Some r) /\ a_result (onclose a).1 = Some r.
Proof.
  assert (Hf : forall x a, a_result a = Some r -> a_result (finish x a) = Some r).
  { intros x b Hb. unfold finish. by rewrite Hb. }
  intros Hr. split; [|split; [|split]]; [intros data| |intros e|].
  - unfold onmessage. destruct (a_installed a); [|done]. destruct (handle data _) as [[err|e|] w]; simpl; [|done..].
    destruct (negb _); [by apply Hf|]. destruct (c_isAcknowledged _); [by apply Hf|done].
  - unfold onopen. simpl. by destruct (a_installed a).
  - unfold onerror. destruct (a_installed a); [|done]. destruct (close _) as [[|?|] w]; [by apply Hf|done..].
  - unfold onclose. destruct (a_installed a); [|done]. destruct (c_closed _); [done|].
    destruct (close _) as [[] w]; by destruct (_ <=? _).
Qed.

(** ** Reconnection *)

Lemma online_after k rest t : whenResourceOnline (replicate k false ++ true :: rest) t = Some (t + Z.of_nat k).
Proof.
  revert t. induction k as [|k IH]; intros t; [simpl; f_equal; lia|].
  change (whenResourceOnline (replicate k false ++ true :: rest) (t + 1) = Some (t + Z.of_nat (S k))).
  rewrite IH. f_equal. lia.
Qed.

Context (isBrowser : bool) (loc : location) (WebSocket_throws : ws_request -> option jsval).

(** C15. A connection lost without [close], with reconnection on: its callbacks are
    off, and then [close] runs. If it returns, the connection's namespaces and
    their rooms are remembered, and after [k] failed checks the same endpoint is
    dialed as try [k + 1], which the request says in the reconnect header and
    the new connection in [reconnectTries]. If a handler throws out of [close],
    nothing is dialed. *)
Theorem lost_connection_redialed a handlers k rest :
  a_installed a = true -> c_closed (w_conn (a_world a)) = false ->
  0 < o_reconnect (a_options a) -> Inv (a_world a) ->
  exists a', (onclose a).1 = a' /\ a_installed a' = false /\
    match (close (upd_io (set_open false) (a_world a))).1 with
    | Ret _ => exists prev, (onclose a).2 = Some prev /\
        (forall n rooms, prev !! n = Some rooms <->
           exists r nsc, c_connectedNamespaces (w_conn (a_world a)) !! n = Some r /\
             h_nsconns (w_heap (a_world a)) !! r = Some nsc /\ rooms = jm_keys (ns_rooms nsc)) /\
        exists b, redial isBrowser loc WebSocket_throws a' handlers (replicate k false ++ true :: rest) = Some b /\
          forall new, b = inl new ->
            c_reconnectTries (w_conn (a_world new)) = Z.of_nat k + 1 /\
            wasReconnected (w_conn (a_world new)) = true /\
            o_headers (a_options new) !! websocketReconnectHeaderKey = Some (num_to_str (Z.of_nat k + 1))
    | _ => (onclose a).2 = None
    end.
Proof.
  intros Hin Hc Hrec Hi. unfold onclose. rewrite Hin.
  change (w_conn (upd_io _ (a_world a))) with (w_conn (a_world a)). rewrite Hc.
  rewrite (proj2 (Z.leb_gt _ _)) by done. destruct (close _) as [[u|e|] w'].
  2,3: eexists; split; [reflexivity|]; split; reflexivity.
  eexists. split; [done|]. split; [done|]. eexists. split; [done|]. split.
  - intros n rooms. change (previously (upd_io _ ?w)) with (previously w).
    rewrite previously_lookup by done. rewrite fmap_Some. split.
    + intros (r & E & ->). destruct (inv_connected _ Hi _ _ E) as (nsc & En & _).
      exists r, nsc. by rewrite En.
    + intros (r & nsc & E & En & ->). exists r. by rewrite En.
  - unfold redial. rewrite online_after. eexists. split; [done|]. intros new. unfold dial_.
    destruct (resolveNamespaces handlers) as [nss|]; [|done]. cbn zeta.
    destruct (makeWebsocketConnection _ _ _) as [req| |]; [|done..].
    destruct (WebSocket_throws req); [done|]. intros [= <-]. simpl.
    split; [lia|]. split; [unfold wasReconnected; simpl; apply Z.ltb_lt; lia|].
    unfold dial_headers. rewrite (proj2 (Z.ltb_lt 0 (1 + Z.of_nat k))) by lia.
    simpl. rewrite (proj2 (Z.ltb_lt 0 _)) by done. simpl. rewrite jm_lookup_insert_eq. do 2 f_equal. lia.
Qed.

(** Nothing is dialed after [close], nor when no reconnection was asked for. *)
Theorem no_redial_after_close a :
  c_closed (w_conn (a_world a)) = true \/ o_reconnect (a_options a) <= 0 ->
  (onclose a).2 = None.
Proof.
  intros Hor. unfold onclose. destruct (a_installed a); [|done].
  change (w_conn (upd_io _ (a_world a))) with (w_conn (a_world a)).
  destruct (c_closed _); [done|]. destruct Hor as [?|Hle]; [done|]. rewrite (proj2 (Z.leb_le _ _)) by done.
  by destruct (close _).
Qed.

(** A first dial never carries the reconnect header, even if its options did. *)
Theorem first_dial_has_no_header endpoint handlers o new :
  dial isBrowser loc WebSocket_throws endpoint handlers o = inl new ->
  o_headers (a_options new) !! websocketReconnectHeaderKey = None /\
  wasReconnected (w_conn (a_world new)) = false.
Proof.
  unfold dial, dial_. destruct (resolveNamespaces handlers) as [nss|]; [|done]. cbn zeta.
  destruct (makeWebsocketConnection _ _ _) as [req| |]; [|done..].
  destruct (WebSocket_throws req); [done|]. intros [= <-]. simpl. split; [|done].
  unfold dial_headers. simpl. destruct (jm_has _ _) eqn:E; simpl.
  - apply jm_lookup_delete_eq.
  - by apply jm_has_false.
Qed.
End reconnect.
