(* ===== verification/Examples.v ===== *)
(** Sessions evaluated from the first frame on, with the bundled codec: the
    client in small, and two things it gets wrong. *)

From stdpp Require Import relations.
From S2P Require Import Prelude JsVal JsMap TextEncoding Message CodecLaws MessageSpec World Conn.
From S2P Require Import ConnInv System ConnSpec Session Leave Join Dial DialSpec Reconnect.

(** ** A client with one namespace whose handlers accept everything *)

Definition chat : key := Some (js "chat").
Definition accept (_ : handler) (_ : nsref) (_ : msgref) : prog := PReturn JNull.
Definition hr (n : nat) : clock := HrTime 7 (Z.of_nat n).
#[local] Instance demo_env : Env := script_env accept hr 10 5.

Definition demo_namespaces : jmap key events :=
  <[chat := <[Some OnAnyEvent := 0%nat]> jm_new]> jm_new.
Definition demo_init : world :=
  World (new_Conn demo_namespaces 0) (Heap [] [] [] []) (Io [] true 0 0 []).

(** The frames of a server: a header of six fields, then the body. *)
Definition server_frame (w n r e : jsstr) : frame :=
  Text (join [messageSeparator] [w; n; r; e; falseString; falseString; []]).

Definition run_all (ms : list (M unit)) (w : world) : world :=
  fold_left (fun w m => (m w).2) ms w.
Definition frame_in (f : frame) : M unit := handle f;; mret tt.

Definition demo_joined : world :=
  run_all [frame_in (Text (js "A42"));
           frame_in (server_frame (js "1") (js "chat") [] OnNamespaceConnect);
           frame_in (server_frame (js "2") (js "chat") (js "red") OnRoomJoin);
           frame_in (server_frame (js "3") (js "chat") (js "blue") OnRoomJoin)] demo_init.

Definition rooms_of (w : world) : list (list key) :=
  map (fun nsc => jm_keys (ns_rooms nsc)) (h_nsconns (w_heap w)).

(** The session reaches the state the frames ask for, and answers each. *)
Example demo_joined_state :
  c_ID (w_conn demo_joined) = JStr (js "42") /\
  jm_ents (c_connectedNamespaces (w_conn demo_joined)) = [(0%nat, (chat, 0%nat))] /\
  rooms_of demo_joined = [[Some (js "red"); Some (js "blue")]] /\
  io_sent (w_io demo_joined) = [JStr (js "1;;;;;;"); JStr (js "2;;;;;;"); JStr (js "3;;;;;;")].
Proof. vm_compute. done. Qed.

(** Leaving all rooms: both questions are sent and both answered. *)
Definition leave_all_answered : world :=
  run_all [(leaveAll 0;; mret tt);
           frame_in (server_frame (genWait (hr 0)) [] [] []);
           frame_in (server_frame (genWait (hr 1)) [] [] []);
           run_jobs 10] demo_joined.

(** [leaveAll] uses one message object for all rooms: when the confirmations
    arrive it names the last room, which is removed twice; the client still has
    the first room, although it asked to leave both and the server agreed to
    both. *)
Theorem leaveAll_keeps_a_room :
  rooms_of leave_all_answered = [[Some (js "red")]] /\
  c_isAcknowledged (w_conn leave_all_answered) = true /\
  h_jobs (w_heap leave_all_answered) = [] /\
  drop 3 (io_sent (w_io leave_all_answered)) =
    [JStr (genWait (hr 0) ++ js ";chat;red;_OnRoomLeft;0;0;");
     JStr (genWait (hr 1) ++ js ";chat;blue;_OnRoomLeft;0;0;")].
Proof. vm_compute. done. Qed.

(** Two questions asked at one reading of the clock - a browser's may stand still
    for a while - get one token: the second takes the place of the first in the
    table, and no frame settles the first one's promise any more. *)
Section still_clock.
#[local] Instance still_env : Env := script_env accept (fun _ => PerformanceNow (js "5")) 10 5.

Definition two_questions : world :=
  run_all [frame_in (Text (js "A42"));
           frame_in (server_frame (js "1") (js "chat") [] OnNamespaceConnect);
           (NSConn_ask 0 (Some (js "q")) (JStr (js "x"));; mret tt);
           (NSConn_ask 0 (Some (js "q")) (JStr (js "y"));; mret tt);
           frame_in (server_frame (genWait (PerformanceNow (js "5"))) [] [] []);
           frame_in (server_frame (genWait (PerformanceNow (js "5"))) [] [] [])] demo_init.
Theorem one_token_for_two_questions :
  h_promises (w_heap two_questions) = [Pending []; Settled (Resolve (ResMsg 3))] /\
  jm_size (c_waitingMessages (w_conn two_questions)) = 1%nat.
Proof. vm_compute. done. Qed.
End still_clock.

(** ** The theorems at work

    Each lemma applies one theorem of the development to a state of the session
    above. *)

Definition greet : frame := server_frame [] (js "chat") [] (js "hi").
Definition yes (_ : handler) (_ : message) : reaction := Returns JNull.
Definition no (_ : handler) (_ : message) : reaction := Returns (JErr PlainError (js "no")).
Definition connected : world :=
  run_all [frame_in (Text (js "A42"));
           frame_in (server_frame (js "1") (js "chat") [] OnNamespaceConnect)] demo_init.
Definition acknowledged : world := run_all [frame_in (Text (js "A42"))] demo_init.
Definition chat_ns (rooms : jmap key room) : nsconn := NS chat (<[Some OnAnyEvent := 0%nat]> jm_new) rooms.
Definition hello : message := set_Event (Some (js "hello")) (set_Namespace chat new_Message).

Ltac by_run := vm_compute; reflexivity.
Ltac eval_event := split; [by_run|split; by_run].

Lemma write_guarded_witness :
  let '(_, w) := alloc_msg hello connected in
  write (length (h_msgs (w_heap connected))) w = (Ret true, sent_also (JStr (js ";chat;;hello;0;0;")) w).
Proof.
  cbv zeta beta iota delta [alloc_msg]. 
  rewrite (write_guarded _ _ hello); by_run.
Defined.

Lemma first_frame_decides_witness :
  handle (Text (js "A" ++ js "42")) demo_init =
    (Ret JUndef, upd_conn (set_isAcknowledged true) (upd_conn (set_ID (JStr (js "42"))) demo_init)).
Proof. apply (first_frame_decides demo_init); by_run. Defined.

Definition asking : world := (NSConn_ask 0 (Some (js "q")) (JStr (js "x")) connected).2.
Lemma reply_settles_witness :
  h_promises (w_heap (handleMessage (server_frame (genWait (hr 0)) [] [] []) asking).2) =
    [Settled (Resolve (ResMsg 2))].
Proof.
  rewrite (reply_settles (server_frame (genWait (hr 0)) [] [] []) asking 0 []); by_run.
Defined.

Lemma ask_answered_witness :
  let w := (alloc_msg hello connected).2 in
  exists w1 w2,
    ask (length (h_msgs (w_heap connected))) w = (Ret 0%nat, w1) /\
    c_waitingMessages (w_conn w1) !! Some (genWait (hr 0)) = Some 0%nat /\
    handleMessage (server_frame (genWait (hr 0)) [] [] []) w1 = (Ret JUndef, w2) /\
    h_promises (w_heap w2) !! 0%nat = Some (Settled (Resolve (ResMsg (length (h_msgs (w_heap w)))))).
Proof.
  destruct (ask_answered (length (h_msgs (w_heap connected))) (alloc_msg hello connected).2 hello)
    as (w1 & H1 & _ & _ & H2); [by_run|by vm_compute|]. cbv zeta in H2.
  replace (c_closed _) with false in H2 by by_run. destruct H2 as [Hw H2].
  replace (may_write _ _) with true in H2 by by_run.
  replace (serializeMessage _) with (Ret (JStr (genWait (hr 0) ++ js ";chat;;hello;0;0;"))) in H2 by by_run.
  destruct H2 as (_ & _ & H2). destruct (H2 (server_frame (genWait (hr 0)) [] [] [])) as (w2 & H3 & H4 & _); [by_run..|].
  exists w1, w2. split; [exact H1|]. split; [rewrite Hw; by_run|]. split; [exact H3|]. exact H4.
Defined.

(** The session's states satisfy the invariant: the frames are steps. *)
Lemma run_frames_Inv fs w : Inv w -> Inv (run_all (map frame_in fs) w).
Proof.
  revert w. induction fs as [|f fs IH]; intros w Hi; [done|]. simpl. apply IH.
  destruct (wp_handle (H1 := script_env_ok accept hr 10 5) f w Hi) as (Hi' & _ & _).
  unfold frame_in, mbind, M_bind. by destruct (handle f w) as [[?|?|] ?].
Qed.
Lemma joined_Inv : Inv demo_joined.
Proof.
  apply (run_frames_Inv [_; _; _; _]). by apply (Inv_init demo_namespaces 0); exists true.
Qed.

(** The namespace with its two rooms. *)
Definition joined_ns : nsconn := default (chat_ns jm_new) (h_nsconns (w_heap demo_joined) !! 0%nat).

Section pure.
#[local] Instance yes_env : Env := pure_env yes hr 5.

Lemma server_opens_namespace_witness :
  exists w', handleMessage (server_frame (js "1") (js "chat") [] OnNamespaceConnect) acknowledged = (Ret JNull, w') /\
    c_connectedNamespaces (w_conn w') !! chat = Some 0%nat /\
    io_sent (w_io w') = [JStr (js "1;;;;;;")].
Proof.
  destruct (server_opens_namespace yes hr 5 (server_frame (js "1") (js "chat") [] OnNamespaceConnect)
    acknowledged (<[Some OnAnyEvent := 0%nat]> jm_new)) as (w' & H1 & H2 & _ & H3 & _);
    [eval_event|by_run..|].
  exists w'. split; [exact H1|]. split; [exact H2|]. exact H3.
Defined.

Lemma server_namespace_refused_witness :
  exists w', handleMessage (server_frame (js "1") (js "nope") [] OnNamespaceConnect) acknowledged = (Ret JNull, w') /\
    io_sent (w_io w') = [JStr (js "1;nope;;_OnNamespaceConnect;1;0;bad namespace")].
Proof.
  destruct (server_namespace_refused yes hr 5 (server_frame (js "1") (js "nope") [] OnNamespaceConnect)
    acknowledged (JStr (js "1;nope;;_OnNamespaceConnect;1;0;bad namespace"))) as (w' & H1 & _ & _ & H3 & _);
    [eval_event|by_run..|].
  exists w'. split; [exact H1|]. exact H3.
Defined.

Lemma server_joins_room_witness :
  exists w', handleMessage (server_frame (js "2") (js "chat") (js "red") OnRoomJoin) connected = (Ret JNull, w') /\
    io_sent (w_io w') = [JStr (js "1;;;;;;"); JStr (js "2;;;;;;")].
Proof.
  destruct (server_joins_room yes hr 5 (server_frame (js "2") (js "chat") (js "red") OnRoomJoin)
    connected 0 (chat_ns jm_new) ltac:(eval_event) ltac:(by_run) ltac:(split; by_run) ltac:(by_run) ltac:(by_run)
    ltac:(by_run) ltac:(by_run)) as (w' & H1 & _ & H3 & _).
  exists w'. split; [exact H1|]. exact H3.
Defined.

Lemma event_dispatched_witness :
  exists o w', handleMessage greet connected = (o, w') /\ o = Ret JNull /\
    io_sent (w_io w') = io_sent (w_io connected).
Proof.
  destruct (event_dispatched yes hr 5 greet connected 0 (chat_ns jm_new)) as (o & w' & H1 & _ & _ & _ & H2);
    [eval_event|refine (bool_decide_unpack _ _); vm_compute; exact I|by_run..|].
  exists o, w'. split; [exact H1|]. exact H2.
Defined.

Lemma unknown_namespace_witness :
  handleMessage (server_frame [] (js "nope") [] (js "hi")) connected =
    (Ret ErrBadNamespace, add_msg (deserializeMessage (server_frame [] (js "nope") [] (js "hi")) false) connected).
Proof.
  apply (unknown_namespace yes hr 5 (server_frame [] (js "nope") [] (js "hi")) connected);
    [eval_event|by vm_compute|by vm_compute|by_run].
Defined.

Lemma native_text_refused_witness :
  let w := World (new_Conn (<[Some [] := <[Some OnNativeMessage := 0%nat]> jm_new]> jm_new) 0)
             (Heap [] [] [] []) (Io [] true 0 0 []) in
  exists w', handleMessage (Text (js "hello")) w = (Ret ErrBadNamespace, w') /\ io_fired (w_io w') = [].
Proof.
  intros w. destruct (native_text_refused yes hr 5 (js "hello") w) as (w' & H1 & H2 & _);
    [by_run|by vm_compute|vm_compute; lia|by_run|].
  exists w'. split; [exact H1|]. exact H2.
Defined.

Lemma joined_leaving : leaving yes 0 joined_ns true (jm_ents (ns_rooms joined_ns)) = (None, [], all_leave_events 0 joined_ns true).
Proof. vm_compute. reflexivity. Qed.
Lemma joined_ns_wf : jm_wf (ns_rooms joined_ns).
Proof. apply (inv_rooms_wf _ joined_Inv 0%nat). by_run. Qed.

Lemma forceLeaveAll_clears_witness :
  exists w', forceLeaveAll 0 true demo_joined = (Ret tt, w') /\ rooms_of w' = [[]].
Proof.
  pose proof (forceLeaveAll_clears yes hr 5 0 true joined_ns demo_joined) as H.
  rewrite joined_leaving in H. destruct H as [(w' & H1 & H2 & _) _]; [by_run|apply joined_ns_wf|vm_compute; lia|].
  exists w'. split; [exact H1|]. unfold rooms_of. rewrite H2. by_run.
Defined.

Lemma server_disconnects_witness :
  exists w', handleMessage (server_frame (js "4") (js "chat") [] OnNamespaceDisconnect) demo_joined = (Ret JNull, w') /\
    rooms_of w' = [[]] /\ jm_ents (c_connectedNamespaces (w_conn w')) = [].
Proof.
  pose proof (server_disconnects yes hr 5 (server_frame (js "4") (js "chat") [] OnNamespaceDisconnect) demo_joined 0 joined_ns) as H.
  cbv zeta in H. rewrite joined_leaving in H.
  destruct H as [(w' & H3 & H1 & H2 & _) _]; [eval_event|by_run..|apply joined_ns_wf|vm_compute; lia|].
  exists w'. split; [exact H1|]. unfold rooms_of. rewrite H2, H3. split; by_run.
Defined.

Lemma close_clears_witness :
  exists w', close demo_joined = (Ret tt, w') /\ c_closed (w_conn w') = true /\ io_closes (w_io w') = 1%nat.
Proof.
  pose proof (close_clears yes hr 5 demo_joined joined_Inv) as H. cbv zeta in H.
  assert (E : closing_all yes (h_nsconns (w_heap demo_joined)) (jm_ents (c_connectedNamespaces (w_conn demo_joined))) =
    (None, [], [cleared joined_ns], all_leave_events 0 joined_ns true ++ [(0%nat, close_message chat)])) by by_run.
  rewrite E in H. destruct H as [(w' & H1 & _ & _ & _ & _ & _ & _ & H2 & _ & _ & H3) _];
    [split; vm_compute; repeat constructor|by_run|].
  exists w'. split; [exact H1|]. split; [exact H2|]. exact H3.
Defined.

Lemma join_completes_witness :
  exists w1 w2 w3 res nsc' evs, joinRoom 0 (Some (js "red")) connected = (Ret 0%nat, w1) /\
    handleMessage (server_frame (genWait (hr 0)) [] [] []) w1 = (Ret JUndef, w2) /\
    run_jobs 2 w2 = (Ret tt, w3) /\
    join_end yes 0 (chat_ns jm_new) (Some (js "red")) (set_wait (Some (genWait (hr 0))) (join_message (chat_ns jm_new) (Some (js "red"))))
      (deserializeMessage (server_frame (genWait (hr 0)) [] [] []) false) res nsc' evs /\
    h_promises (w_heap w3) !! 0%nat = Some (match res with Some s => Settled s | None => Pending [] end).
Proof.
  destruct (join_completes yes hr 5 0 (chat_ns jm_new) (Some (js "red")) connected
    (JStr (genWait (hr 0) ++ js ";chat;red;_OnRoomJoin;0;0;")) (server_frame (genWait (hr 0)) [] [] []))
    as (w1 & w2 & w3 & res & nsc' & evs & H1 & H2 & H3 & H5 & H4 & _); [by_run..|].
  exists w1, w2, w3, res, nsc', evs. repeat split; [exact H1|exact H2|exact H3|exact H5|exact H4].
Defined.
End pure.

Section refusing.
#[local] Instance no_env : Env := pure_env no hr 5.

Lemma server_join_refused_witness :
  exists w', handleMessage (server_frame (js "2") (js "chat") (js "red") OnRoomJoin) connected = (Ret JNull, w') /\
    rooms_of w' = [[]] /\ io_sent (w_io w') = [JStr (js "1;;;;;;"); JStr (js "2;chat;red;_OnRoomJoin;1;0;no")].
Proof.
  destruct (server_join_refused no hr 5 (server_frame (js "2") (js "chat") (js "red") OnRoomJoin)
    connected 0 (chat_ns jm_new) (JErr PlainError (js "no")) (JStr (js "2;chat;red;_OnRoomJoin;1;0;no")))
    as (w' & H1 & H2 & H3 & _); [eval_event|by_run|split; by_run|by_run..|].
  exists w'. split; [exact H1|]. unfold rooms_of. rewrite H2, H3. split; by_run.
Defined.
End refusing.

(** ** The whole system *)

Lemma reachable_invariant_witness :
  c_queue (w_conn (frame_in (Text (js "A42")) demo_init).2) = [] /\
  forall k r, c_connectedNamespaces (w_conn (frame_in (Text (js "A42")) demo_init).2) !! k = Some r ->
    exists nsc, h_nsconns (w_heap (frame_in (Text (js "A42")) demo_init).2) !! r = Some nsc /\ ns_namespace nsc = k.
Proof.
  destruct (reachable_invariant accept hr 10 5 demo_namespaces 0 demo_init
    (frame_in (Text (js "A42")) demo_init).2) as (H1 & _ & H2 & _).
  - by exists true.
  - eapply rtc_l; [apply (step_frame accept hr 10 5 demo_init (Text (js "A42")))|apply rtc_refl].
  - split; [exact H2|]. intros k r Hk. destruct (H1 k r Hk) as (nsc & ? & ? & _). by exists nsc.
Defined.

Lemma nothing_undone_witness :
  exists later, io_sent (w_io (run_op (OConnect chat) acknowledged).2) = io_sent (w_io acknowledged) ++ later.
Proof.
  destruct (nothing_undone accept hr 10 5 demo_namespaces 0 demo_init acknowledged
    (run_op (OConnect chat) acknowledged).2) as (_ & _ & _ & H & _).
  - by exists true.
  - eapply rtc_l; [apply (step_frame accept hr 10 5 demo_init (Text (js "A42")))|apply rtc_refl].
  - eapply rtc_l; [apply (step_call accept hr 10 5 acknowledged (OConnect chat))|apply rtc_refl].
  - exact H.
Defined.

(** ** Frames and the dialer *)

Lemma frame_validity_witness : isInvalid (deserializeMessage (Text (js "a;b")) false) = true.
Proof. apply (proj1 frame_validity (js "a;b")). Defined.

Lemma handler_table_witness :
  match resolveNamespaces (Some [(js "chat", HFun 0%nat)]) with
  | inl nss => exists evs, nss !! Some [] = Some evs /\ evs !! Some (js "chat") = Some 0%nat
  | inr _ => False
  end.
Proof.
  assert (Hnd : NoDup (map fst [(js "chat", HFun 0%nat)])) by (repeat constructor; set_solver).
  pose proof (handler_table [(js "chat", HFun 0%nat)] Hnd) as H.
  destruct (resolveNamespaces _) as [nss|text].
  - destruct H as [(_ & _ & (evs & He & Hk) & _)|[Hf _]].
    + exists evs. split; [exact He|]. apply Hk. apply list_elem_of_here.
    + apply Forall_cons_1 in Hf as [Hf _]. discriminate Hf.
  - destruct H as (_ & k & v & Hin & Hf). apply list_elem_of_singleton in Hin. injection Hin as -> ->. discriminate Hf.
Defined.

Definition browser : location := Location (js "https:") (js "example.com") [].
Definition no_throw (_ : ws_request) : option jsval := None.
Definition dialed : attempt := Attempt demo_init None true (js "ws://a") (Options jm_new None 5).

Lemma handshake_witness :
  a_result (onmessage (Text (js "A" ++ js "7")) dialed) = Some Connected /\
  a_result (onmessage (Text (js "H" ++ [])) dialed) = None.
Proof.
  destruct (handshake dialed) as (_ & H1 & H2); [by_run..|]. split; [apply (H1 (js "7"))|apply (H2 [])].
Defined.

Lemma dial_settles_once_witness :
  a_result (onerror (JErr PlainError (js "late")) (finish Connected dialed)) = Some Connected.
Proof. apply (dial_settles_once (finish Connected dialed)); by_run. Defined.

Lemma lost_connection_redialed_witness :
  exists a' prev b, onclose dialed = (a', Some prev) /\
    redial true browser no_throw a' None [false; false; true] = Some b.
Proof.
  destruct (lost_connection_redialed true browser no_throw dialed None 2 []) as (a' & H1 & _ & H2); [by_run..| |].
  - by apply (Inv_init demo_namespaces 0); exists true.
  - replace (close _).1 with (@Ret unit tt) in H2 by by_run. destruct H2 as (prev & H2 & _ & b & H3 & _).
    exists a', prev, b. split; [rewrite <-H1, <-H2; apply surjective_pairing|exact H3].
Defined.

Lemma no_redial_after_close_witness : (onclose (with_world (close demo_init).2 dialed)).2 = None.
Proof. apply no_redial_after_close. left. by_run. Defined.

Lemma first_dial_has_no_header_witness :
  exists new, dial true browser no_throw (js "/echo") (Some []) (Options jm_new None 5) = inl new /\
    wasReconnected (w_conn (a_world new)) = false.
Proof.
  eexists. split; [reflexivity|].
  eapply (first_dial_has_no_header true browser no_throw (js "/echo") (Some []) (Options jm_new None 5)). reflexivity.
Defined.
