(* ===== verification/LegacySpec.v ===== *)
(** text-encoding, the legacy encodings: what an encoder writes, the decoder of
    the same encoding reads back, whatever the index tables hold. *)

From S2P Require Import Prelude JsVal TextEncoding Utf8Step Utf8Spec Labels Tables Legacy LegacyCjk.
From S2P Require Import Codecs.

(** ** Decoding what a machine is fed *)

(** From state [st], the bytes drive the machine to [st'] and give the code
    points [out], putting nothing back. *)
Inductive feeds (D : decoder) : dec_state D -> list Z -> list Z -> dec_state D -> Prop :=
  | feeds_nil st : feeds D st [] [] st
  | feeds_skip st b st1 bytes out st2 :
      b <> end_of_stream ->
      (forall fatal stream, dec_handler D fatal st stream b = (Ret Continue, st1, stream)) ->
      feeds D st1 bytes out st2 -> feeds D st (b :: bytes) out st2
  | feeds_emit st b st1 o bytes out st2 :
      b <> end_of_stream ->
      (forall fatal stream, dec_handler D fatal st stream b = (Ret (Emit o), st1, stream)) ->
      feeds D st1 bytes out st2 -> feeds D st (b :: bytes) (o ++ out) st2.

Lemma feeds_app D st bytes1 out1 st1 bytes2 out2 st2 :
  feeds D st bytes1 out1 st1 -> feeds D st1 bytes2 out2 st2 ->
  feeds D st (bytes1 ++ bytes2) (out1 ++ out2) st2.
Proof.
  intros H1 H2. induction H1; [done|by eapply feeds_skip; eauto|].
  rewrite <-app_assoc. by eapply feeds_emit; eauto.
Qed.

Lemma decode_loop_feeds D fatal st bytes out st' n acc :
  feeds D st bytes out st' -> (length bytes < n)%nat ->
  decode_loop D fatal n st (Stream bytes) acc = (Ret (acc ++ out), st', []).
Proof.
  intros Hf. revert n acc. induction Hf as [st|st b st1 bytes out st2 Hb Hh _ IH|st b st1 o bytes out st2 Hb Hh _ IH];
    intros [|n] acc Hn; simpl in Hn; try lia; cbn [decode_loop]; unfold Stream; rewrite read_rev.
  - simpl. by rewrite app_nil_r.
  - rewrite (proj2 (Z.eqb_neq b end_of_stream)), Hh by done. apply IH. lia.
  - rewrite (proj2 (Z.eqb_neq b end_of_stream)), Hh by done. rewrite app_assoc. apply IH. lia.
Qed.

(** The machine may stop in its initial state. *)
Definition ends (D : decoder) : Prop := forall fatal stream,
  dec_handler D fatal (dec_new D) stream end_of_stream = (Ret Finished, dec_new D, stream).

Definition bom_names : list jsstr := [js "UTF-8"; js "UTF-16LE"; js "UTF-16BE"].
Definition drop_bom (name s : jsstr) : jsstr :=
  if bool_decide (name ∈ bom_names) then strip_bom s else s.

Lemma strip_bom_cp2s cp cps : is_scalar cp ->
  strip_bom (codePointsToString (cp :: cps)) =
    codePointsToString (if cp =? 0xFEFF then cps else cp :: cps).
Proof.
  intros Hs. cbn [codePointsToString]. destruct (Z.eqb_spec cp 0xFEFF) as [->|Hn]; [done|].
  destruct (Z.leb_spec cp 0xFFFF) as [Hc|Hc]; simpl.
  - rewrite (proj2 (Z.eqb_neq cp 0xFEFF)), (proj2 (Z.leb_le cp 0xFFFF)) by done. done.
  - rewrite (proj2 (Z.leb_gt cp 0xFFFF)) by done.
    rewrite (proj2 (Z.eqb_neq (Z.shiftr (cp - 0x10000) 10 + 0xD800) 0xFEFF)); [done|].
    unfold is_scalar in *. rewrite Z.shiftr_div_pow2 by lia. change (2 ^ 10) with 1024.
    Z.to_euclidean_division_equations; lia.
Qed.

Lemma serialize_any name D fatal dec dnf cps : Forall is_scalar cps ->
  (serializeStream (TextDec name D fatal false dec false dnf) cps).1 =
    drop_bom name (codePointsToString cps).
Proof.
  intros Hs. unfold serializeStream, drop_bom, bom_names. cbn [negb].
  destruct (bool_decide _); [|done]. destruct cps as [|cp cps]; [done|]. inv Hs. simpl andb. cbv iota.
  rewrite strip_bom_cp2s by done. done.
Qed.

Lemma decode_fuel_S bytes : exists n, decode_fuel bytes = S n.
Proof. exists (4 * length bytes + 15)%nat. unfold decode_fuel. lia. Qed.

Lemma decode_feeds name D fatal dec bom bytes cps st :
  feeds D (dec_new D) bytes cps st ->
  (forall stream, dec_handler D fatal st stream end_of_stream = (Ret Finished, st, stream)) ->
  Forall is_scalar cps ->
  (decode (TextDec name D fatal false dec bom false) bytes false).1 =
    Ret (drop_bom name (codePointsToString cps)).
Proof.
  intros Hf He Hs. unfold decode.
  rewrite (decode_loop_feeds D fatal _ _ _ _ _ [] Hf) by (unfold decode_fuel; lia).
  destruct (decode_fuel_S bytes) as [n ->]. cbn [flush_loop].
  change (read []) with (end_of_stream, @nil Z). cbv beta iota. rewrite He. simpl app.
  rewrite (surjective_pairing (serializeStream _ _)). simpl. by rewrite serialize_any.
Qed.

(** ** Encoding with a stateless handler *)

Lemma enc_loop_stateless h cps outs n acc :
  Forall2 (fun cp o => cp <> end_of_stream /\ h cp = Ret (Emit o)) cps outs -> (length cps < n)%nat ->
  enc_loop (stateless h) n tt (Stream cps) acc = Ret (acc ++ concat outs, tt, []).
Proof.
  intros Hf. revert n acc. induction Hf as [|cp o cps outs [Hcp Ho] _ IH]; intros [|n] acc Hn;
    simpl in Hn; try lia; cbn [enc_loop]; unfold Stream; rewrite read_rev.
  - simpl. by rewrite app_nil_r.
  - rewrite (proj2 (Z.eqb_neq cp end_of_stream)) by done. simpl enc_handler. rewrite Ho.
    simpl concat. rewrite app_assoc. apply IH. lia.
Qed.

Lemma enc_loop_throws h cps n acc r :
  (forall cp, cp <> end_of_stream -> (exists o, h cp = Ret (Emit o)) \/ exists e, h cp = Throw e) ->
  Forall (fun cp => cp <> end_of_stream) cps -> (length cps < n)%nat ->
  enc_loop (stateless h) n tt (Stream cps) acc = Ret r ->
  exists outs, Forall2 (fun cp o => cp <> end_of_stream /\ h cp = Ret (Emit o)) cps outs.
Proof.
  intros Hh Hf. revert n acc. induction Hf as [|cp cps Hcp _ IH]; intros [|n] acc Hn;
    simpl in Hn; try lia; cbn [enc_loop]; unfold Stream; rewrite read_rev; [by exists []|].
  rewrite (proj2 (Z.eqb_neq cp end_of_stream)) by done. simpl enc_handler.
  destruct (Hh cp Hcp) as [[o Ho]|[e He]]; [rewrite Ho|by rewrite He].
  intros E. destruct (IH n (acc ++ o)) as [outs Houts]; [lia|done|]. exists (o :: outs). by constructor.
Qed.

Lemma encode_stateless h s outs : h end_of_stream = Ret Finished ->
  Forall2 (fun cp o => cp <> end_of_stream /\ h cp = Ret (Emit o)) (stringToCodePoints s) outs ->
  encode_with (stateless h) s = Ret (map to_uint8 (concat outs)).
Proof.
  intros Hend Hall. unfold encode_with. rewrite (enc_loop_stateless h _ outs) by (done || lia).
  unfold mbind, outcome_bind. rewrite Nat.add_comm. cbn [Nat.add enc_flush].
  change (read []) with (end_of_stream, @nil Z). cbv beta iota. simpl enc_handler. by rewrite Hend.
Qed.

(** An encoder and a decoder fit on the code points [P]. *)
Record fits (D : decoder) (h : Z -> outcome hres) (P : Z -> Prop) : Prop := {
  fits_ends : ends D;
  fits_finished : h end_of_stream = Ret Finished;
  fits_answers cp : cp <> end_of_stream -> (exists o, h cp = Ret (Emit o)) \/ exists e, h cp = Throw e;
  fits_feeds cp out : P cp -> is_scalar cp -> h cp = Ret (Emit out) ->
    Forall is_byte out /\ feeds D (dec_new D) out [cp] (dec_new D)
}.

Lemma encode_emits h s bytes : h end_of_stream = Ret Finished ->
  (forall cp, cp <> end_of_stream -> (exists o, h cp = Ret (Emit o)) \/ exists e, h cp = Throw e) ->
  well_formed s = true -> encode_with (stateless h) s = Ret bytes ->
  exists outs, bytes = map to_uint8 (concat outs) /\
    Forall2 (fun cp o => is_scalar cp /\ h cp = Ret (Emit o)) (stringToCodePoints s) outs.
Proof.
  intros Hend Hans Hw He. pose proof (s2cp_scalar s (well_formed_unit _ Hw)) as Hs.
  assert (Hne : Forall (fun cp => cp <> end_of_stream) (stringToCodePoints s)).
  { eapply Forall_impl; [|exact Hs]. intros cp Hcp ->. unfold is_scalar, end_of_stream in Hcp. lia. }
  pose proof He as He'. unfold encode_with in He'.
  destruct (enc_loop (stateless h) _ _ _ []) as [r|e|] eqn:El; [|done..].
  apply enc_loop_throws in El as [outs Houts]; [|done|done|lia].
  rewrite (encode_stateless h s outs Hend Houts) in He. injection He as <-. exists outs. split; [done|].
  clear -Hs Houts. induction Houts as [|cp o cps outs [_ Ho] _ IH]; [constructor|].
  apply Forall_cons_1 in Hs as [? ?]. constructor; auto.
Qed.

Lemma fits_roundtrip D h P name fatal dec bom s bytes :
  fits D h P -> well_formed s = true -> Forall P (stringToCodePoints s) ->
  encode_with (stateless h) s = Ret bytes ->
  Forall is_byte bytes /\ (decode (TextDec name D fatal false dec bom false) bytes false).1 = Ret (drop_bom name s).
Proof.
  intros Hfit Hw HP He. destruct Hfit as [Hends Hfin Hans Hfeed].
  destruct (encode_emits h s bytes Hfin Hans Hw He) as (outs & -> & Houts).
  assert (Hs : Forall is_scalar (stringToCodePoints s)) by apply s2cp_scalar, well_formed_unit, Hw.
  assert (Hall : Forall is_byte (concat outs) /\
    feeds D (dec_new D) (concat outs) (stringToCodePoints s) (dec_new D)).
  { clear He Hs. induction Houts as [|cp o cps outs [Hc Ho] _ IH]; [split; constructor|].
    apply Forall_cons_1 in HP as [Hp HP]. destruct (Hfeed cp o Hp Hc Ho) as [H1 H2]. destruct (IH HP) as [H3 H4].
    split; [by apply Forall_app|]. apply (feeds_app D _ o [cp] _ _ _ _ H2 H4). }
  destruct Hall as [Hb Hfeeds]. rewrite to_uint8_bytes by done. split; [done|].
  rewrite (decode_feeds name D fatal dec bom _ (stringToCodePoints s) (dec_new D)) by done.
  by rewrite cp2s_s2cp.
Qed.

(** ** Index look-ups *)

Lemma array_get_nat {A} (l : list A) (i : nat) : array_get l (Z.of_nat i) = l !! i.
Proof. unfold array_get. rewrite (proj2 (Z.ltb_ge _ _)) by lia. by rewrite Nat2Z.id. Qed.

Lemma array_get_length {A} (l : list A) p x :
  array_get l p = Some x -> 0 <= p < Z.of_nat (length l).
Proof.
  unfold array_get. destruct (Z.ltb_spec p 0); [done|]. intros E%lookup_lt_Some. lia.
Qed.

Lemma indexOf_spec cp idx i p : indexOf cp i idx = p -> p <> -1 -> 0 <= i ->
  i <= p /\ array_get idx (p - i) = Some (Some cp).
Proof.
  revert i. induction idx as [|e idx IH]; intros i; simpl; [congruence|]. intros E Hp Hi.
  case_bool_decide as He.
  - subst. rewrite Z.sub_diag. split; [lia|done].
  - destruct (IH (i + 1) E Hp) as [H1 H2]; [lia|]. split; [lia|].
    unfold array_get in *. rewrite (proj2 (Z.ltb_ge (p - i) 0)) by lia.
    rewrite (proj2 (Z.ltb_ge (p - (i + 1)) 0)) in H2 by lia.
    replace (Z.to_nat (p - i)) with (S (Z.to_nat (p - (i + 1)))) by lia. done.
Qed.

Lemma lastIndexOf_spec cp idx i p : lastIndexOf cp i idx = p -> p <> -1 -> 0 <= i ->
  i <= p /\ array_get idx (p - i) = Some (Some cp).
Proof.
  revert i p. induction idx as [|e idx IH]; intros i p; simpl; [congruence|]. intros E Hp Hi.
  destruct (Z.eqb_spec (lastIndexOf cp (i + 1) idx) (-1)) as [Hl|Hl].
  - case_bool_decide; [|congruence]. subst. rewrite Z.sub_diag. split; [lia|done].
  - destruct (IH (i + 1) p E Hp) as [H1 H2]; [lia|]. split; [lia|].
    unfold array_get in *. rewrite (proj2 (Z.ltb_ge (p - i) 0)) by lia.
    rewrite (proj2 (Z.ltb_ge (p - (i + 1)) 0)) in H2 by lia.
    replace (Z.to_nat (p - i)) with (S (Z.to_nat (p - (i + 1)))) by lia. done.
Qed.

Lemma indexPointerFor_spec cp idx p : indexPointerFor cp idx = Some p ->
  0 <= p < Z.of_nat (length idx) /\ array_get idx p = Some (Some cp).
Proof.
  unfold indexPointerFor. destruct (Z.eqb_spec (indexOf cp 0 idx) (-1)) as [|Hn]; [done|]. intros [= <-].
  destruct (indexOf_spec cp idx 0 _ eq_refl Hn) as [_ H]; [lia|]. rewrite Z.sub_0_r in H.
  split; [by eapply array_get_length|done].
Qed.

Lemma exclude_get f idx p cp : array_get (exclude f idx) p = Some (Some cp) ->
  array_get idx p = Some (Some cp) /\ f p = false.
Proof.
  unfold array_get, exclude. destruct (Z.ltb_spec p 0); [done|]. rewrite list_lookup_imap.
  destruct (idx !! Z.to_nat p) as [e|]; [|done]. simpl. rewrite Z2Nat.id by lia.
  by destruct (f p).
Qed.

Lemma indexCodePointFor_get p idx cp : array_get idx p = Some (Some cp) -> cp <> 0 ->
  indexCodePointFor p idx = Some cp.
Proof. intros E Hcp. unfold indexCodePointFor. rewrite E. by rewrite (proj2 (Z.eqb_neq _ _)). Qed.

(** ** Encodings of one byte *)

Lemma isASCII_true c : isASCIIByte c = true <-> 0 <= c < 0x80.
Proof. unfold isASCIIByte. rewrite andb_true_iff, !Z.leb_le. lia. Qed.
Lemma isASCII_false c : isASCIIByte c = false <-> ~ (0 <= c < 0x80).
Proof. rewrite <-isASCII_true. by destruct (isASCIIByte c). Qed.

(** One byte, one code point, no state. *)
Lemma feeds_one (D : decoder) b cp :
  b <> end_of_stream ->
  (forall fatal stream, dec_handler D fatal (dec_new D) stream b = (Ret (Emit [cp]), dec_new D, stream)) ->
  feeds D (dec_new D) [b] [cp] (dec_new D).
Proof. intros Hb Hh. apply (feeds_emit D _ b (dec_new D) [cp] [] []); [done|done|constructor]. Qed.

Lemma feeds_two (D : decoder) b1 b2 st cp :
  b1 <> end_of_stream -> b2 <> end_of_stream ->
  (forall fatal stream, dec_handler D fatal (dec_new D) stream b1 = (Ret Continue, st, stream)) ->
  (forall fatal stream, dec_handler D fatal st stream b2 = (Ret (Emit [cp]), dec_new D, stream)) ->
  feeds D (dec_new D) [b1; b2] [cp] (dec_new D).
Proof.
  intros H1 H2 E1 E2. eapply feeds_skip; [done|done|].
  apply (feeds_emit D _ b2 (dec_new D) [cp] [] []); [done|done|constructor].
Qed.

(** Decides the tests of a handler that are facts of arithmetic. *)
Ltac decide_tests :=
  repeat match goal with
  | |- context [isASCIIByte ?c] =>
      first [ rewrite (proj2 (isASCII_true c)) by lia | rewrite (proj2 (isASCII_false c)) by lia ]
  | |- context [inRange ?a ?l ?h] =>
      first [ rewrite (proj2 (inRange_true a l h)) by lia | rewrite (proj2 (inRange_false a l h)) by lia ]
  | |- context [?a =? ?b] =>
      first [ rewrite (proj2 (Z.eqb_eq a b)) by lia | rewrite (proj2 (Z.eqb_neq a b)) by lia ]
  | |- context [?a <? ?b] =>
      first [ rewrite (proj2 (Z.ltb_lt a b)) by lia | rewrite (proj2 (Z.ltb_ge a b)) by lia ]
  end; cbn [negb andb orb].

Lemma single_byte_fits idx : (forall l, idx = Some l -> length l <= 128)%nat ->
  exists h, SingleByteEncoder idx = stateless h /\ fits (SingleByteDecoder idx) h (fun _ => True).
Proof.
  intros Hl. eexists. split; [done|]. split.
  - done.
  - done.
  - intros cp Hcp. rewrite (proj2 (Z.eqb_neq _ _)) by done. unfold isASCIICodePoint.
    destruct (isASCIIByte cp); [eauto|]. destruct idx as [idx|]; [|right; by eexists].
    destruct (indexPointerFor cp idx); [eauto|]. right. by eexists.
  - intros cp out _ Hs. unfold isASCIICodePoint, end_of_stream. unfold is_scalar in Hs.
    rewrite (proj2 (Z.eqb_neq _ _)) by lia. destruct (isASCIIByte cp) eqn:Ea.
    + intros [= <-]. apply isASCII_true in Ea. split; [repeat constructor; unfold is_byte; lia|].
      apply feeds_one; [unfold end_of_stream; lia|]. intros fatal stream. simpl. unfold end_of_stream.
      by decide_tests.
    + destruct idx as [idx|]; [|done]. specialize (Hl idx eq_refl).
      destruct (indexPointerFor cp idx) as [p|] eqn:Ep; [|done]. intros [= <-].
      apply indexPointerFor_spec in Ep as [Hp Hget]. split; [repeat constructor; unfold is_byte; lia|].
      apply feeds_one; [unfold end_of_stream; lia|]. intros fatal stream. simpl. unfold end_of_stream.
      decide_tests. replace (p + 0x80 - 0x80) with p by lia. by rewrite Hget.
Qed.

Lemma x_user_defined_fits :
  exists h, XUserDefinedEncoder = stateless h /\ fits XUserDefinedDecoder h (fun _ => True).
Proof.
  eexists. split; [done|]. split.
  - done.
  - done.
  - intros cp Hcp. rewrite (proj2 (Z.eqb_neq _ _)) by done. unfold isASCIICodePoint.
    destruct (isASCIIByte cp); [eauto|]. destruct (inRange _ _ _); [eauto|]. right. by eexists.
  - intros cp out _ Hs. unfold isASCIICodePoint, end_of_stream. unfold is_scalar in Hs.
    rewrite (proj2 (Z.eqb_neq _ _)) by lia. destruct (isASCIIByte cp) eqn:Ea.
    + intros [= <-]. apply isASCII_true in Ea. split; [repeat constructor; unfold is_byte; lia|].
      apply feeds_one; [unfold end_of_stream; lia|]. intros fatal stream. simpl. unfold end_of_stream.
      by decide_tests.
    + destruct (inRange cp _ _) eqn:Er; [|done]. intros [= <-]. apply inRange_true in Er.
      split; [repeat constructor; unfold is_byte; lia|].
      apply feeds_one; [unfold end_of_stream; lia|]. intros fatal stream. simpl. unfold end_of_stream.
      decide_tests. do 5 f_equal. lia.
Qed.

(** ** UTF-16 *)

Lemma unit_bytes u be : 0 <= u <= 0xFFFF ->
  exists b1 b2, convertCodeUnitToBytes u be = [b1; b2] /\ is_byte b1 /\ is_byte b2 /\
    (if be then Z.shiftl b1 8 + b2 else Z.shiftl b2 8 + b1) = u.
Proof.
  intros Hu. unfold convertCodeUnitToBytes, is_byte. change 0xFF with (Z.ones 8).
  rewrite Z.land_ones, Z.shiftr_div_pow2 by lia. change (2 ^ 8) with 256.
  destruct be; eexists _, _; (split; [reflexivity|]); rewrite Z.shiftl_mul_pow2 by lia; change (2 ^ 8) with 256;
    (split; [|split]); Z.to_euclidean_division_equations; lia.
Qed.

Lemma utf16_fits be : exists h, UTF16Encoder be = stateless h /\ fits (UTF16Decoder be) h (fun _ => True).
Proof.
  eexists. split; [done|]. split.
  - done.
  - done.
  - intros cp Hcp. rewrite (proj2 (Z.eqb_neq _ _)) by done. destruct (inRange _ _ _); eauto.
  - intros cp out _ Hs. unfold is_scalar in Hs. unfold end_of_stream.
    rewrite (proj2 (Z.eqb_neq _ _)) by lia. destruct (inRange cp 0 0xFFFF) eqn:Er.
    + intros [= <-]. apply inRange_true in Er.
      destruct (unit_bytes cp be) as (b1 & b2 & -> & H1 & H2 & Hu); [lia|]. unfold is_byte in *.
      split; [repeat constructor; unfold is_byte; lia|].
      apply (feeds_two (UTF16Decoder be) b1 b2 (Utf16 (Some b1) None)); unfold end_of_stream; try lia;
        intros fatal stream; simpl; unfold end_of_stream; decide_tests; [done|].
      rewrite Hu. by decide_tests.
    + intros [= <-]. apply inRange_false in Er.
      change 0x3FF with (Z.ones 10). rewrite Z.land_ones, Z.shiftr_div_pow2 by lia. change (2 ^ 10) with 1024.
      destruct (unit_bytes ((cp - 0x10000) / 1024 + 0xD800) be) as (b1 & b2 & -> & H1 & H2 & Hu);
        [Z.to_euclidean_division_equations; lia|].
      destruct (unit_bytes ((cp - 0x10000) mod 1024 + 0xDC00) be) as (b3 & b4 & -> & H3 & H4 & Hv);
        [Z.to_euclidean_division_equations; lia|]. unfold is_byte in *.
      split; [repeat constructor; unfold is_byte; lia|].
      assert (Hlead : 0xD800 <= (cp - 0x10000) / 1024 + 0xD800 <= 0xDBFF)
        by (Z.to_euclidean_division_equations; lia).
      assert (Htrail : 0xDC00 <= (cp - 0x10000) mod 1024 + 0xDC00 <= 0xDFFF)
        by (Z.to_euclidean_division_equations; lia).
      assert (Hcp : 0x10000 + ((cp - 0x10000) / 1024 + 0xD800 - 0xD800) * 0x400
                      + ((cp - 0x10000) mod 1024 + 0xDC00 - 0xDC00) = cp)
        by (Z.to_euclidean_division_equations; lia).
      set (lead := (cp - 0x10000) / 1024 + 0xD800) in *. set (trail := (cp - 0x10000) mod 1024 + 0xDC00) in *.
      clearbody lead trail. simpl app.
      eapply (feeds_skip (UTF16Decoder be) _ b1 (Utf16 (Some b1) None)); [unfold end_of_stream; lia| |].
      { intros. simpl. unfold end_of_stream. by decide_tests. }
      eapply (feeds_skip (UTF16Decoder be) _ b2 (Utf16 None (Some lead))); [unfold end_of_stream; lia| |].
      { intros. simpl. unfold end_of_stream. decide_tests. rewrite Hu. by decide_tests. }
      eapply (feeds_skip (UTF16Decoder be) _ b3 (Utf16 (Some b3) (Some lead))); [unfold end_of_stream; lia| |].
      { intros. simpl. unfold end_of_stream. by decide_tests. }
      apply (feeds_emit (UTF16Decoder be) _ b4 (Utf16 None None) [cp] [] []);
        [unfold end_of_stream; lia| |constructor].
      intros. simpl. unfold end_of_stream. decide_tests. rewrite Hv. decide_tests. by rewrite Hcp.
Qed.

(** ** Two-byte encodings over an index *)

Lemma div_rem p n : 0 <= p -> 0 < n -> floor_div p n = p / n /\ js_mod p n = p mod n.
Proof. intros. unfold floor_div, js_mod. by rewrite Z.rem_mod_nonneg. Qed.

Section indexed.
Context `{Indexes}.

Lemma euckr_fits : Z.of_nat (length (index "euc-kr")) <= 23940 ->
  exists h, EUCKREncoder = stateless h /\ fits EUCKRDecoder h (fun _ => True).
Proof.
  intros Hl. eexists. split; [done|]. split.
  - done.
  - done.
  - intros cp Hcp. rewrite (proj2 (Z.eqb_neq _ _)) by done. unfold isASCIICodePoint.
    destruct (isASCIIByte cp); [eauto|]. destruct (indexPointerFor _ _); [eauto|]. right. by eexists.
  - intros cp out _ Hs. unfold isASCIICodePoint, end_of_stream. unfold is_scalar in Hs.
    rewrite (proj2 (Z.eqb_neq _ _)) by lia. destruct (isASCIIByte cp) eqn:Ea.
    + intros [= <-]. apply isASCII_true in Ea. split; [repeat constructor; unfold is_byte; lia|].
      apply feeds_one; [unfold end_of_stream; lia|]. intros fatal stream. simpl.
      unfold euckr_handler, end_of_stream. by decide_tests.
    + destruct (indexPointerFor cp (index "euc-kr")) as [p|] eqn:Ep; [|done]. intros [= <-].
      apply indexPointerFor_spec in Ep as [Hp Hget]. destruct (div_rem p 190) as [-> ->]; [lia..|].
      apply isASCII_false in Ea.
      assert (Hd : 0 <= p / 190 < 126 /\ 0 <= p mod 190 < 190) by (Z.to_euclidean_division_equations; lia).
      split; [repeat constructor; unfold is_byte; lia|].
      apply (feeds_two EUCKRDecoder _ _ (p / 190 + 0x81)); unfold end_of_stream; try lia;
        intros fatal stream; simpl; unfold euckr_handler, end_of_stream; decide_tests; [done|].
      replace ((p / 190 + 0x81 - 0x81) * 190 + (p mod 190 + 0x41 - 0x41)) with p
        by (Z.to_euclidean_division_equations; lia).
      simpl mbind. rewrite (indexCodePointFor_get _ _ cp Hget) by lia. done.
Qed.

(** The steps the East Asian encodings share: the cases of the encoder's answer,
    and the ASCII characters. *)
Ltac answers :=
  let cp := fresh "cp" in let Hcp := fresh "Hcp" in
  intros cp Hcp; rewrite (proj2 (Z.eqb_neq _ _)) by done;
  cbv zeta; repeat case_match; first [by left; eexists | by right; eexists].
Ltac one_byte E unfolding :=
  injection E as <-; split; [once (repeat constructor); unfold is_byte; lia|];
  apply feeds_one; [unfold end_of_stream; lia|]; intros ? ?; simpl;
  unfolding; unfold end_of_stream; by decide_tests.

Lemma gbk_fits : Z.of_nat (length (index "gb18030")) <= 23940 ->
  exists h, GB18030Encoder true = stateless h /\ fits GB18030Decoder h (fun _ => True).
Proof.
  intros Hl. eexists. split; [done|]. split; [done|done|answers|].
  intros cp out _ Hs. unfold isASCIICodePoint, end_of_stream. unfold is_scalar in Hs.
  rewrite (proj2 (Z.eqb_neq cp (-1))) by lia. destruct (isASCIIByte cp) eqn:Ea.
  { intros E. apply isASCII_true in Ea. injection E as <-.
    split; [repeat constructor; unfold is_byte; lia|].
    apply feeds_one; [unfold end_of_stream; lia|]. intros fatal stream. simpl.
    unfold gb18030_handler, gb18030_rest, end_of_stream. by decide_tests. }
  apply isASCII_false in Ea. destruct (cp =? 0xE5E5); [done|]. cbn [andb].
  destruct (Z.eqb_spec cp 0x20AC) as [->|Heuro].
  { intros E. injection E as <-. split; [repeat constructor; unfold is_byte; lia|].
    apply feeds_one; [unfold end_of_stream; lia|]. done. }
  destruct (indexPointerFor cp (index "gb18030")) as [p|] eqn:Ep; [|done]. intros [= <-].
  apply indexPointerFor_spec in Ep as [Hp Hget]. destruct (div_rem p 190) as [-> ->]; [lia..|].
  assert (Hd : 0 <= p / 190 < 126 /\ 0 <= p mod 190 < 190) by (Z.to_euclidean_division_equations; lia).
  assert (Hq : p = (p / 190) * 190 + p mod 190) by (Z.to_euclidean_division_equations; lia).
  set (l := p / 190) in *. set (t := p mod 190) in *. clearbody l t.
  destruct (Z.ltb_spec t 0x3F); (split; [repeat constructor; unfold is_byte; lia|];
    apply (feeds_two GB18030Decoder _ _ (Gb (l + 0x81) 0 0)); unfold end_of_stream; try lia;
    intros fatal stream; simpl; unfold gb18030_handler, gb18030_rest, end_of_stream; decide_tests; [done|]).
  - replace ((l + 0x81 - 0x81) * 190 + (t + 0x40 - 0x40)) with p by lia. simpl mbind.
    rewrite (indexCodePointFor_get _ _ cp Hget) by lia. done.
  - replace ((l + 0x81 - 0x81) * 190 + (t + 0x41 - 0x41)) with p by lia. simpl mbind.
    rewrite (indexCodePointFor_get _ _ cp Hget) by lia. done.
Qed.

Lemma big5_pointer cp p : indexBig5PointerFor cp = Some p -> p <> -1 ->
  0 <= p < Z.of_nat (length (index "big5")) /\ array_get (index "big5") p = Some (Some cp).
Proof.
  unfold indexBig5PointerFor. intros E Hp.
  assert (Hget : array_get (exclude (fun p => p <? (0xA1 - 0x81) * 157) (index "big5")) p = Some (Some cp)).
  { destruct (bool_decide _).
    - injection E as E. destruct (lastIndexOf_spec cp _ 0 p E Hp) as [_ H']; [lia|]. by rewrite Z.sub_0_r in H'.
    - by apply indexPointerFor_spec in E as [_ ?]. }
  apply exclude_get in Hget as [Hget _]. split; [by eapply array_get_length|done].
Qed.

Lemma big5_fits : Z.of_nat (length (index "big5")) <= 19782 ->
  exists h, Big5Encoder = stateless h /\ fits Big5Decoder h (fun _ => True).
Proof.
  intros Hl. eexists. split; [done|]. split; [done|done|answers|].
  intros cp out _ Hs. unfold isASCIICodePoint, end_of_stream. unfold is_scalar in Hs.
  rewrite (proj2 (Z.eqb_neq cp (-1))) by lia. destruct (isASCIIByte cp) eqn:Ea.
  { intros E. apply isASCII_true in Ea. one_byte E ltac:(unfold big5_handler). }
  apply isASCII_false in Ea. destruct (indexBig5PointerFor cp) as [p|] eqn:Ep; [|done].
  destruct (Z.eq_dec p (-1)) as [->|Hp]; [done|].
  destruct (big5_pointer cp p Ep Hp) as [Hr Hget]. destruct (div_rem p 157) as [-> ->]; [lia..|].
  destruct (Z.ltb_spec (p / 157 + 0x81) 0xA1) as [|Hlead]; [done|]. intros [= <-].
  assert (Hd : 0 <= p / 157 < 126 /\ 0 <= p mod 157 < 157) by (Z.to_euclidean_division_equations; lia).
  assert (Hq : p = (p / 157) * 157 + p mod 157) by (Z.to_euclidean_division_equations; lia).
  set (l := p / 157) in *. set (t := p mod 157) in *. clearbody l t.
  destruct (Z.ltb_spec t 0x3F); (split; [repeat constructor; unfold is_byte; lia|];
    apply (feeds_two Big5Decoder _ _ (l + 0x81)); unfold end_of_stream; try lia;
    intros fatal stream; simpl; unfold big5_handler, end_of_stream; decide_tests; [done|]).
  - replace ((l + 0x81 - 0x81) * 157 + (t + 0x40 - 0x40)) with p by lia.
    rewrite !bool_decide_false by (intros [=]; lia). simpl mbind.
    rewrite (indexCodePointFor_get _ _ cp Hget) by lia. done.
  - replace ((l + 0x81 - 0x81) * 157 + (t + 0x62 - 0x62)) with p by lia.
    rewrite !bool_decide_false by (intros [=]; lia). simpl mbind.
    rewrite (indexCodePointFor_get _ _ cp Hget) by lia. done.
Qed.

(** The characters the Japanese encodings map to another: YEN SIGN, OVERLINE,
    MINUS SIGN. *)
Definition not_folded (cp : Z) : Prop := cp ∉ [0xA5; 0x203E; 0x2212].

Lemma not_folded_ne cp : not_folded cp -> cp <> 0xA5 /\ cp <> 0x203E /\ cp <> 0x2212.
Proof. unfold not_folded. set_solver. Qed.

Lemma eucjp_fits : Z.of_nat (length (index "jis0208")) <= 11280 ->
  exists h, EUCJPEncoder = stateless h /\
    fits EUCJPDecoder h (fun cp => not_folded cp /\
      forall p, indexPointerFor cp (index "jis0208") = Some p -> p < 8836).
Proof.
  intros Hl. eexists. split; [done|]. split; [done|done|answers|].
  intros cp out [Hnf Hin] Hs. apply not_folded_ne in Hnf as (H1 & H2 & H3).
  unfold isASCIICodePoint, end_of_stream. unfold is_scalar in Hs.
  rewrite (proj2 (Z.eqb_neq cp (-1))) by lia. destruct (isASCIIByte cp) eqn:Ea.
  { intros E. apply isASCII_true in Ea. one_byte E ltac:(unfold eucjp_handler). }
  apply isASCII_false in Ea. decide_tests. destruct (inRange cp 0xFF61 0xFF9F) eqn:Ek.
  { apply inRange_true in Ek. intros E. injection E as <-. split; [repeat constructor; unfold is_byte; lia|].
    apply (feeds_two EUCJPDecoder _ _ (EucJp false 0x8E)); unfold end_of_stream; try lia;
      intros fatal stream; simpl; unfold eucjp_handler, end_of_stream; decide_tests; [done|].
    do 5 f_equal. lia. }
  destruct (indexPointerFor cp (index "jis0208")) as [p|] eqn:Ep; [|done]. intros [= <-].
  specialize (Hin p eq_refl). apply indexPointerFor_spec in Ep as [Hp Hget].
  destruct (div_rem p 94) as [-> ->]; [lia..|].
  assert (Hd : 0 <= p / 94 < 94 /\ 0 <= p mod 94 < 94) by (Z.to_euclidean_division_equations; lia).
  assert (Hq : p = (p / 94) * 94 + p mod 94) by (Z.to_euclidean_division_equations; lia).
  set (l := p / 94) in *. set (t := p mod 94) in *. clearbody l t.
  split; [repeat constructor; unfold is_byte; lia|].
  apply (feeds_two EUCJPDecoder _ _ (EucJp false (l + 0xA1))); unfold end_of_stream; try lia;
    intros fatal stream; simpl; unfold eucjp_handler, end_of_stream; decide_tests; [done|].
  replace ((l + 0xA1 - 0xA1) * 94 + (t + 0xA1 - 0xA1)) with p by lia.
  rewrite (indexCodePointFor_get _ _ cp Hget) by lia. done.
Qed.

(** The pointers Shift_JIS reserves for private use. *)
Definition sjis_private (p : Z) : bool := inRange p 8836 10715.

Lemma shift_jis_pointer cp p : indexShiftJISPointerFor cp = p -> p <> -1 ->
  0 <= p < Z.of_nat (length (index "jis0208")) /\ array_get (index "jis0208") p = Some (Some cp).
Proof.
  unfold indexShiftJISPointerFor. intros E Hp.
  destruct (indexOf_spec cp _ 0 p E Hp) as [_ Hg]; [lia|]. rewrite Z.sub_0_r in Hg.
  apply exclude_get in Hg as [Hg _]. split; [by eapply array_get_length|done].
Qed.

Lemma shift_jis_fits : Z.of_nat (length (index "jis0208")) <= 11280 ->
  exists h, ShiftJISEncoder = stateless h /\
    fits ShiftJISDecoder h (fun cp => not_folded cp /\
      (~ (cp = 0x80 \/ 0 <= cp < 0x80 \/ 0xFF61 <= cp <= 0xFF9F) ->
       indexShiftJISPointerFor cp <> -1 /\ sjis_private (indexShiftJISPointerFor cp) = false)).
Proof.
  intros Hl. eexists. split; [done|]. split; [done|done|answers|].
  intros cp out [Hnf Hin] Hs. apply not_folded_ne in Hnf as (H1 & H2 & H3).
  unfold isASCIICodePoint, end_of_stream. unfold is_scalar in Hs.
  rewrite (proj2 (Z.eqb_neq cp (-1))) by lia. destruct (isASCIIByte cp) eqn:Ea.
  { intros E. apply isASCII_true in Ea. one_byte E ltac:(unfold shift_jis_handler). }
  apply isASCII_false in Ea. destruct (Z.eqb_spec cp 0x80) as [->|H80].
  { intros E. injection E as <-. split; [repeat constructor; unfold is_byte; lia|].
    by apply feeds_one. }
  decide_tests. destruct (inRange cp 0xFF61 0xFF9F) eqn:Ek.
  { apply inRange_true in Ek. intros E. injection E as <-. split; [repeat constructor; unfold is_byte; lia|].
    apply feeds_one; [unfold end_of_stream; lia|]. intros fatal stream. simpl.
    unfold shift_jis_handler, end_of_stream. decide_tests. do 5 f_equal. lia. }
  apply inRange_false in Ek. destruct Hin as [Hp Hpriv]; [lia|].
  set (p := indexShiftJISPointerFor cp) in *.
  destruct (shift_jis_pointer cp p eq_refl Hp) as [Hr Hget].
  clearbody p. intros E. destruct (div_rem p 188) as [Ed Em]; [lia..|]. rewrite Ed, Em in E.
  injection E as <-. clear Ed Em. unfold sjis_private in Hpriv.
  assert (Hd : 0 <= p / 188 < 60 /\ 0 <= p mod 188 < 188) by (Z.to_euclidean_division_equations; lia).
  assert (Hq : p = (p / 188) * 188 + p mod 188) by (Z.to_euclidean_division_equations; lia).
  set (l := p / 188) in *. set (t := p mod 188) in *. clearbody l t.
  destruct (Z.ltb_spec l 0x1F), (Z.ltb_spec t 0x3F); (split; [repeat constructor; unfold is_byte; lia|]).
  1,2: apply (feeds_two ShiftJISDecoder _ _ (l + 0x81)); unfold end_of_stream; try lia;
    intros fatal stream; simpl; unfold shift_jis_handler, end_of_stream; decide_tests; [done|].
  3,4: apply (feeds_two ShiftJISDecoder _ _ (l + 0xC1)); unfold end_of_stream; try lia;
    intros fatal stream; simpl; unfold shift_jis_handler, end_of_stream; decide_tests; [done|].
  - replace ((l + 0x81 - 0x81) * 188 + (t + 0x40) - 0x40) with p by lia. rewrite Hpriv.
    by rewrite (indexCodePointFor_get _ _ cp Hget) by lia.
  - replace ((l + 0x81 - 0x81) * 188 + (t + 0x41) - 0x41) with p by lia. rewrite Hpriv.
    by rewrite (indexCodePointFor_get _ _ cp Hget) by lia.
  - replace ((l + 0xC1 - 0xC1) * 188 + (t + 0x40) - 0x40) with p by lia. rewrite Hpriv.
    by rewrite (indexCodePointFor_get _ _ cp Hget) by lia.
  - replace ((l + 0xC1 - 0xC1) * 188 + (t + 0x41) - 0x41) with p by lia. rewrite Hpriv.
    by rewrite (indexCodePointFor_get _ _ cp Hget) by lia.
Qed.

(** The characters of the ranges of gb18030: a range ends where the next one's
    pointers start, the last but one where the four-byte codes of the basic plane
    do, and the last with U+10FFFF. U+E7C7 has a pointer of its own, the one the
    ranges would give U+1E3F. *)
Definition range_ends : list Z := map (fun e => if fst e =? 189000 then 39420 else fst e) (tail ranges) ++ [1237576].
Definition in_ranges (cp : Z) : Prop :=
  cp = 0xE7C7 \/
  cp <> 0x1E3F /\ exists i e limit, ranges !! i = Some e /\ range_ends !! i = Some limit /\ snd e <= cp < snd e + (limit - fst e).

(** Tables in increasing order. *)
Fixpoint increasing (sel : Z * Z -> Z) (rs : list (Z * Z)) : bool :=
  match rs with
  | a :: (b :: _) as rs' => (sel a <? sel b) && increasing sel rs'
  | _ => true
  end.
Lemma increasing_tail sel a rs : increasing sel (a :: rs) = true -> increasing sel rs = true.
Proof. destruct rs; [done|]. cbn [increasing]. by intros [_ ?]%andb_true_iff. Qed.
Lemma increasing_head sel a rs i e : increasing sel (a :: rs) = true -> rs !! i = Some e -> sel a < sel e.
Proof.
  revert a i. induction rs as [|b rs IH]; intros a [|i] Hs Ei; try done; cbn [increasing] in Hs;
    apply andb_true_iff in Hs as [Hab%Z.ltb_lt Hs].
  - by injection Ei as ->.
  - specialize (IH b i Hs Ei). lia.
Qed.

Lemma last_range_at sel x rs acc i e : increasing sel rs = true -> rs !! i = Some e -> sel e <= x ->
  (forall e', rs !! S i = Some e' -> x < sel e') -> last_range sel x rs acc = e.
Proof.
  revert i acc. induction rs as [|a rs IH]; intros [|i] acc Hs Ei Hx Hn; try done; cbn [last_range lookup list_lookup] in *.
  - injection Ei as ->. rewrite (proj2 (Z.leb_le _ _)) by done. destruct rs as [|b rs]; [done|].
    cbn [last_range]. specialize (Hn b eq_refl). by rewrite (proj2 (Z.leb_gt _ _)).
  - pose proof (increasing_head sel a rs i e Hs Ei). rewrite (proj2 (Z.leb_le (sel a) x)) by lia.
    apply (IH i); try done. by apply increasing_tail in Hs.
Qed.

(** The facts of the table the look-ups rest on. *)
Definition range_fine (x : Z * Z * Z) : bool :=
  let '(po, off, limit) := x in
  (0 <=? po) && ((limit <=? 39420) || (189000 <=? po) && (limit <=? 1237576)) &&
  ((limit <=? 7457) || (7457 <? po) || (7457 - po + off =? 0x1E3F)).
Definition range_apart (x : Z * Z * Z * (Z * Z)) : bool :=
  let '(po, off, limit, (po', off')) := x in (off + (limit - po) <=? off') && (limit <=? po').
Lemma ranges_fine : increasing fst ranges && increasing snd ranges && forallb range_fine (zip ranges range_ends) &&
  forallb range_apart (zip (zip ranges range_ends) (tail ranges)) = true.
Proof. vm_compute. reflexivity. Qed.

(** The look-ups in the ranges invert one another. *)
Lemma ranges_inverse cp : in_ranges cp ->
  let p := indexGB18030RangesPointerFor cp in 0 <= p <= 1237575 /\ indexGB18030RangesCodePointFor p = Some cp.
Proof.
  unfold indexGB18030RangesPointerFor. intros Hcp. destruct (Z.eqb_spec cp 0xE7C7) as [->|Hne]; [done|].
  destruct Hcp as [?|(H1e & i & [po off] & limit & Ei & El & Hc)]; [done|]. cbn [fst snd] in *.
  pose proof ranges_fine as Hf. rewrite !andb_true_iff in Hf. destruct Hf as (((Hf1 & Hf2) & Hfine) & Hapart).
  assert (Ez : zip ranges range_ends !! i = Some (po, off, limit)) by (apply lookup_zip_with_Some; eauto).
  assert (Hi : range_fine (po, off, limit) = true)
    by (rewrite forallb_forall in Hfine; apply Hfine, list_elem_of_In; by eapply list_elem_of_lookup_2).
  assert (Hn : forall po' off', ranges !! S i = Some (po', off') -> off + (limit - po) <= off' /\ limit <= po').
  { intros po' off' E'. assert (Hin : range_apart (po, off, limit, (po', off')) = true).
    { rewrite forallb_forall in Hapart. apply Hapart, list_elem_of_In. apply (list_elem_of_lookup_2 _ i).
      apply lookup_zip_with_Some. eexists _, _. split; [done|]. split; [done|]. by rewrite lookup_tail. }
    unfold range_apart in Hin. apply andb_true_iff in Hin as [?%Z.leb_le ?%Z.leb_le]. lia. }
  rewrite (last_range_at snd cp ranges (0, 0) i (po, off)) by (done || cbn; try lia; intros [po' off'] E'; apply Hn in E'; cbn; lia).
  unfold range_fine in Hi. set (p := po + cp - off).
  rewrite !andb_true_iff, !orb_true_iff, !andb_true_iff, !Z.leb_le, Z.ltb_lt, Z.eqb_eq in Hi. split; [lia|].
  unfold indexGB18030RangesCodePointFor.
  replace ((39419 <? p) && (p <? 189000) || (1237575 <? p)) with false
    by (symmetry; rewrite orb_false_iff, andb_false_iff, !Z.ltb_ge; lia).
  rewrite (proj2 (Z.eqb_neq p 7457)) by lia.
  rewrite (last_range_at fst p ranges (0, 0) i (po, off)) by (done || cbn; try lia; intros [po' off'] E'; apply Hn in E'; cbn; lia).
  f_equal. lia.
Qed.

Lemma gb18030_fits : Z.of_nat (length (index "gb18030")) <= 23940 ->
  exists h, GB18030Encoder false = stateless h /\
    fits GB18030Decoder h (fun cp => indexPointerFor cp (index "gb18030") = None -> in_ranges cp).
Proof.
  intros Hl. eexists. split; [done|]. split; [done|done|answers|].
  intros cp out Hin Hs. unfold isASCIICodePoint, end_of_stream. unfold is_scalar in Hs.
  rewrite (proj2 (Z.eqb_neq cp (-1))) by lia. destruct (isASCIIByte cp) eqn:Ea.
  { intros E. apply isASCII_true in Ea. one_byte E ltac:(unfold gb18030_handler, gb18030_rest). }
  apply isASCII_false in Ea. destruct (cp =? 0xE5E5); [done|]. cbn [andb].
  destruct (indexPointerFor cp (index "gb18030")) as [p|] eqn:Ep.
  - intros [= <-]. apply indexPointerFor_spec in Ep as [Hp Hget]. clear Hin.
    destruct (div_rem p 190) as [-> ->]; [lia..|].
    assert (Hd : 0 <= p / 190 < 126 /\ 0 <= p mod 190 < 190) by (Z.to_euclidean_division_equations; lia).
    assert (Hq : p = (p / 190) * 190 + p mod 190) by (Z.to_euclidean_division_equations; lia).
    set (l := p / 190) in *. set (t := p mod 190) in *. clearbody l t.
    destruct (Z.ltb_spec t 0x3F); (split; [repeat constructor; unfold is_byte; lia|];
      apply (feeds_two GB18030Decoder _ _ (Gb (l + 0x81) 0 0)); unfold end_of_stream; try lia;
      intros fatal stream; simpl; unfold gb18030_handler, gb18030_rest, end_of_stream; decide_tests; [done|]).
    + replace ((l + 0x81 - 0x81) * 190 + (t + 0x40 - 0x40)) with p by lia. simpl mbind.
      by rewrite (indexCodePointFor_get _ _ cp Hget) by lia.
    + replace ((l + 0x81 - 0x81) * 190 + (t + 0x41 - 0x41)) with p by lia. simpl mbind.
      by rewrite (indexCodePointFor_get _ _ cp Hget) by lia.
  - destruct (ranges_inverse cp (Hin eq_refl)) as [Hp Hr]. clear Hin. set (p := indexGB18030RangesPointerFor cp) in *.
    clearbody p. unfold floor_div. cbv zeta. intros [= <-].
    set (b1 := p / 12600). set (p1 := p - b1 * 10 * 126 * 10). set (b2 := p1 / 1260).
    set (p2 := p1 - b2 * 10 * 126). set (b3 := p2 / 10). set (b4 := p2 - b3 * 10).
    assert (Hb : 0 <= b1 <= 98 /\ 0 <= b2 < 10 /\ 0 <= b3 < 126 /\ 0 <= b4 < 10 /\
      p = ((b1 * 10 + b2) * 126 + b3) * 10 + b4)
      by (subst b1 p1 b2 p2 b3 b4; Z.to_euclidean_division_equations; lia).
    clearbody b1 b2 b3 b4. destruct Hb as (Hb1 & Hb2 & Hb3 & Hb4 & Hpe).
    split; [repeat constructor; unfold is_byte; lia|].
    eapply (feeds_skip GB18030Decoder _ _ (Gb (b1 + 0x81) 0 0)); [unfold end_of_stream; lia| |].
    { intros. simpl. unfold gb18030_handler, gb18030_rest, end_of_stream. by decide_tests. }
    eapply (feeds_skip GB18030Decoder _ _ (Gb (b1 + 0x81) (b2 + 0x30) 0)); [unfold end_of_stream; lia| |].
    { intros. simpl. unfold gb18030_handler, gb18030_rest, end_of_stream. by decide_tests. }
    eapply (feeds_skip GB18030Decoder _ _ (Gb (b1 + 0x81) (b2 + 0x30) (b3 + 0x81)));
      [unfold end_of_stream; lia| |].
    { intros. simpl. unfold gb18030_handler, gb18030_rest, end_of_stream. by decide_tests. }
    apply (feeds_emit GB18030Decoder _ _ (Gb 0 0 0) [cp] [] []); [unfold end_of_stream; lia| |constructor].
    intros. simpl. unfold gb18030_handler, gb18030_rest, end_of_stream. decide_tests.
    replace (_ * 10 + (b4 + 0x30) - 0x30) with p by lia. by rewrite Hr.
Qed.
End indexed.

(** ** The encodings of the registry *)

(** The sizes of the multi-byte index tables, as the source has them. *)
Class IndexSizes `{Indexes} : Prop := {
  gb18030_size : Z.of_nat (length (index "gb18030")) <= 23940;
  big5_size : Z.of_nat (length (index "big5")) <= 19782;
  jis0208_size : Z.of_nat (length (index "jis0208")) <= 11280;
  euckr_size : Z.of_nat (length (index "euc-kr")) <= 23940
}.

(** The characters an encoding keeps, when it encodes them at all: the Japanese
    ones fold three characters, and need the character's pointer to be in the
    part of the table they use; gb18030 needs the character in its table or in a
    range. *)
Definition keeps `{Indexes} (name : string) (cp : Z) : Prop :=
  if String.eqb name "EUC-JP" then
    not_folded cp /\ forall p, indexPointerFor cp (index "jis0208") = Some p -> p < 8836
  else if String.eqb name "Shift_JIS" then
    not_folded cp /\
      (~ (cp = 0x80 \/ 0 <= cp < 0x80 \/ 0xFF61 <= cp <= 0xFF9F) ->
       indexShiftJISPointerFor cp <> -1 /\ sjis_private (indexShiftJISPointerFor cp) = false)
  else if String.eqb name "gb18030" then
    indexPointerFor cp (index "gb18030") = None -> in_ranges cp
  else True.

Lemma single_byte_table name l : single_byte_index name = Some l -> In (name, l) single_byte_tables.
Proof.
  unfold single_byte_index. destruct (List.find _ _) as [[n l']|] eqn:E; [|done]. intros [= ->].
  apply List.find_some in E as [Hin Heq]. simpl in Heq. apply String.eqb_eq in Heq. by subst.
Qed.

Lemma single_byte_size name l : single_byte_index name = Some l -> (length l <= 128)%nat.
Proof.
  intros Hin%single_byte_table.
  assert (Hall : forallb (fun e => Nat.leb (length e.2) 128) single_byte_tables = true) by (vm_compute; reflexivity).
  rewrite forallb_forall in Hall. specialize (Hall _ Hin). by apply Nat.leb_le in Hall.
Qed.

Lemma codec_fits `{IndexSizes} name D E :
  codecs name = Some (D, E) -> name <> "UTF-8"%string -> name <> "ISO-2022-JP"%string ->
  exists h, E = stateless h /\ fits D h (keeps name).
Proof.
  unfold codecs. intros Hc H1 H2.
  destruct (existsb (String.eqb name) single_byte_names) eqn:Es.
  - apply existsb_exists in Es as (n & Hin & ->%String.eqb_eq). injection Hc as <- <-.
    destruct (single_byte_fits (single_byte_index (lower_string n))) as (h & -> & Hf).
    { intros l. apply single_byte_size. }
    exists h. split; [done|]. destruct Hf. split; try done. intros cp out _. by apply fits_feeds0.
  - destruct (List.find _ other_codecs) as [[n p]|] eqn:Ef; [|done]. injection Hc as ->.
    apply List.find_some in Ef as [Hin Heq]. apply String.eqb_eq in Heq. simpl in Heq. subst n.
    simpl in Hin. repeat (destruct Hin as [[= <- <- <-]|Hin]; [|]); try done.
    all: unfold keeps; simpl String.eqb; cbv iota.
    + apply gbk_fits, gb18030_size.
    + apply gb18030_fits, gb18030_size.
    + apply big5_fits, big5_size.
    + apply eucjp_fits, jis0208_size.
    + apply shift_jis_fits, jis0208_size.
    + apply euckr_fits, euckr_size.
    + apply utf16_fits.
    + apply utf16_fits.
    + apply x_user_defined_fits.
Qed.

