(* ===== verification/EncodingSpec.v ===== *)
(** text-encoding: looking an encoding up by its label, constructing a
    TextDecoder, and what single encodings do with the characters they do not
    have. *)

From S2P Require Import Prelude JsVal TextEncoding Utf8Step Utf8Spec Labels Legacy LegacyCjk Codecs.
From S2P Require Import LegacySpec.

(** ** Labels *)

Lemma js_inj s t : js s = js t -> s = t.
Proof.
  revert t. induction s as [|a s IH]; intros [|b t]; simpl; try done. intros [= Hab Hst].
  f_equal; [|by apply IH]. rewrite <-(ascii_nat_embedding a), <-(ascii_nat_embedding b). f_equal. lia.
Qed.

Lemma lookup_last l label : NoDup (map fst l) ->
  forall e, fold_left (fun r '(k, v) => if k ==? label then Some v else r) l None = Some e
    <-> (label, e) ∈ (l : list (jsstr * encoding)).
Proof.
  intros Hnd.
  assert (Hin : forall l (r : option encoding), (label ∉ map fst l) ->
    fold_left (fun r '(k, v) => if k ==? label then Some v else r) l r = r).
  { clear. induction l as [|[k v] l IH]; intros r Hn; [done|]. simpl in *.
    rewrite IH by set_solver. rewrite bool_decide_false; [done|]. set_solver. }
  assert (Hgen : forall r e, fold_left (fun r '(k, v) => if k ==? label then Some v else r) l r = Some e <->
    ((label, e) ∈ l) \/ ((label ∉ map fst l) /\ r = Some e)).
  { induction l as [|[k v] l IH]; intros r e; simpl in *.
    - split; [intros ->; right; set_solver|intros [?|[_ ?]]; set_solver].
    - apply list.NoDup_cons in Hnd as [Hk Hnd]. specialize (IH Hnd). case_bool_decide as Hkl.
      + subst k. rewrite Hin by done. split.
        * intros [= ->]. left. set_solver.
        * intros [H|[H _]]; [|set_solver]. apply elem_of_cons in H as [[= ->]|H]; [done|].
          destruct Hk. apply list_elem_of_fmap. by exists (label, e).
      + rewrite IH. set_solver. }
  intros e. rewrite Hgen. split; [intros [?|[_ ?]]; done|auto].
Qed.

Lemma labels_distinct : NoDup (map fst label_to_encoding).
Proof. apply (bool_decide_unpack (NoDup _)). vm_compute. exact I. Qed.

Lemma elem_of_concat_map {A B} (f : A -> list B) (l : list A) y :
  (y ∈ concat (map f l)) <-> exists x, (x ∈ l) /\ y ∈ f x.
Proof.
  induction l as [|a l IH]; simpl; [set_solver|]. rewrite elem_of_app, IH. set_solver.
Qed.

Lemma label_entry label e : (label, e) ∈ label_to_encoding <->
  exists c l, (c ∈ encodings) /\ (e ∈ cat_encodings c) /\ (l ∈ enc_labels e) /\ label = js l.
Proof.
  unfold label_to_encoding. rewrite elem_of_concat_map. setoid_rewrite elem_of_concat_map.
  setoid_rewrite list_elem_of_fmap. split.
  - intros (c & Hc & e' & He & l & [= -> ->] & Hl). by exists c, l.
  - intros (c & l & Hc & He & Hl & ->). exists c. split; [done|]. exists e. split; [done|]. by exists l.
Qed.

(** getEncoding finds an encoding exactly when the trimmed, lower-cased label is one
    of its labels in the table. *)
Theorem label_lookup label e : getEncoding label = Some e <->
  exists c l, (c ∈ encodings) /\ (e ∈ cat_encodings c) /\ (l ∈ enc_labels e) /\ toLowerCase (trim label) = js l.
Proof.
  unfold getEncoding, own_property. rewrite (lookup_last _ _ labels_distinct). apply label_entry.
Qed.

(** ** TextDecoder *)

(** Every encoding of the table has its codecs, "replacement" apart. *)
Lemma codecs_complete `{Indexes} label e : getEncoding label = Some e ->
  enc_name e <> "replacement"%string -> exists D E, codecs (enc_name e) = Some (D, E).
Proof.
  unfold getEncoding, own_property. rewrite (lookup_last _ _ labels_distinct). intros Hin Hn.
  assert (Hall : Forall (fun x : jsstr * encoding =>
    enc_name x.2 = "replacement"%string \/
    existsb (String.eqb (enc_name x.2)) (single_byte_names ++ map fst other_codecs) = true) label_to_encoding).
  { apply list.Forall_forall. intros x Hx.
    assert (Hb : forallb (fun x : jsstr * encoding => String.eqb (enc_name x.2) "replacement" ||
      existsb (String.eqb (enc_name x.2)) (single_byte_names ++ map fst other_codecs)) label_to_encoding = true)
      by (vm_compute; reflexivity).
    rewrite forallb_forall in Hb. apply list_elem_of_In in Hx. specialize (Hb x Hx).
    apply orb_true_iff in Hb as [Hb%String.eqb_eq|Hb]; auto. }
  rewrite list.Forall_forall in Hall. destruct (Hall _ Hin) as [|Hex]; [done|]. cbn [snd] in Hex.
  unfold codecs. rewrite existsb_app in Hex.
  destruct (existsb _ single_byte_names); [eauto|]. rewrite orb_false_l in Hex.
  apply existsb_exists in Hex as (n & Hn' & Heq). apply list_elem_of_In, list_elem_of_fmap in Hn' as ([m [D E]] & -> & Hm).
  destruct (List.find _ other_codecs) as [[m' [D' E']]|] eqn:Ef; [simpl; eauto|].
  apply list_elem_of_In in Hm. pose proof (List.find_none _ _ Ef _ Hm) as Hne. simpl in *.
  apply String.eqb_eq in Heq. subst. by rewrite String.eqb_refl in Hne.
Qed.

(** new TextDecoder throws a RangeError exactly on unknown labels and the replacement
    encoding; every other label of the table has its decoder. *)
Theorem TextDecoder_accepts `{Indexes} label fatal ignoreBOM :
  match getEncoding label with
  | Some e =>
      if String.eqb (enc_name e) "replacement" then
        TextDecoder (Some label) fatal ignoreBOM = range_error (js "Unknown encoding: " ++ label)
      else exists D E, codecs (enc_name e) = Some (D, E) /\
        TextDecoder (Some label) fatal ignoreBOM =
          Ret (TextDec (js (enc_name e)) D fatal ignoreBOM None false false)
  | None => TextDecoder (Some label) fatal ignoreBOM = range_error (js "Unknown encoding: " ++ label)
  end.
Proof.
  unfold TextDecoder, unknown_encoding, decoders. change (default (js "utf-8") (Some label)) with label. destruct (getEncoding label) as [e|] eqn:Eg; [|done].
  destruct (String.eqb_spec (enc_name e) "replacement") as [|Hn]; [done|].
  destruct (codecs_complete label e Eg Hn) as (D & E & Hc). exists D, E. by rewrite Hc.
Qed.

Theorem kelvin_sign_is_a_k : getEncoding (0x212A :: js "oi8-r") = getEncoding (js "koi8-r")
  /\ exists e, getEncoding (js "koi8-r") = Some e /\ enc_name e = "KOI8-R"%string.
Proof. split; [reflexivity|]. eexists. split; reflexivity. Qed.

(** ** Characters an encoding does not have *)

(** The characters Shift_JIS writes without its index. *)
Definition sjis_plain (cp : Z) : Prop :=
  0 <= cp <= 0x80 \/ cp = 0xA5 \/ cp = 0x203E \/ 0xFF61 <= cp <= 0xFF9F.

Lemma indexOf_exclude cp f idx : forall i,
  (forall p, array_get idx p <> Some (Some cp)) -> indexOf cp i (exclude f idx) = -1.
Proof.
  intros i Hn. assert (Hx : forall p, array_get (exclude f idx) p <> Some (Some cp)).
  { intros p Hp. by apply exclude_get in Hp as [? _]; apply (Hn p). }
  clear Hn. revert i Hx. generalize (exclude f idx). clear. intros l.
  induction l as [|e l IH]; intros i Hx; [done|]. simpl. rewrite bool_decide_false.
  - apply IH. intros p Hp. apply (Hx (p + 1)). unfold array_get in *.
    destruct (Z.ltb_spec p 0); [done|]. rewrite (proj2 (Z.ltb_ge _ _)) by lia.
    by replace (Z.to_nat (p + 1)) with (S (Z.to_nat p)) by lia.
  - intros ->. by apply (Hx 0).
Qed.

Theorem shift_jis_never_refuses `{Indexes} s cp :
  stringToCodePoints s = [cp] -> is_scalar cp -> ~ sjis_plain cp -> cp <> 0x2212 ->
  (forall p, array_get (index "jis0208") p <> Some (Some cp)) ->
  encode_with ShiftJISEncoder s = Ret [0x80; 0x3F].
Proof.
  intros Hs Hsc Hp Hm Hi. unfold sjis_plain in Hp. unfold is_scalar in Hsc.
  unfold ShiftJISEncoder. rewrite (encode_stateless _ s [[0x80; 0x3F]]); [done|done|].
  rewrite Hs. repeat constructor; unfold end_of_stream; [lia|]. unfold isASCIICodePoint. decide_tests.
  unfold indexShiftJISPointerFor. by rewrite indexOf_exclude.
Qed.

(** ** ASCII *)

(** The ASCII characters but the two shifts and the escape, which ISO-2022-JP
    does not read as themselves. *)
Definition plain_ascii (c : Z) : Prop := 0 <= c < 0x80 /\ c <> 0x0E /\ c <> 0x0F /\ c <> 0x1B.

(** A decoder and an encoder that leave plain ASCII as it is. *)
Definition plain_codec (D : decoder) (E : encoder) : Prop :=
  (forall c fatal stream, plain_ascii c ->
     dec_handler D fatal (dec_new D) stream c = (Ret (Emit [c]), dec_new D, stream)) /\
  (forall c stream, plain_ascii c -> enc_handler E (enc_new E) stream c = (Ret (Emit [c]), enc_new E, stream)) /\
  ends D /\ forall stream, enc_handler E (enc_new E) stream end_of_stream = (Ret Finished, enc_new E, stream).

Ltac plain_branch :=
  intros; match goal with H : plain_ascii _ |- _ => destruct H as (? & ? & ? & ?) end; simpl;
  unfold utf8_handler, utf8_lead, utf8_encode_handler, gb18030_handler, gb18030_rest, big5_handler, eucjp_handler,
    shift_jis_handler, euckr_handler, iso_single, iso_ascii, iso2022jp_encode, isASCIICodePoint, end_of_stream;
  decide_tests; reflexivity.

Lemma codec_plain `{Indexes} name D E : codecs name = Some (D, E) ->
  name <> "UTF-16BE"%string -> name <> "UTF-16LE"%string -> plain_codec D E.
Proof.
  unfold codecs. intros Hc H1 H2. destruct (existsb _ single_byte_names).
  - injection Hc as <- <-. repeat split; try done; plain_branch.
  - destruct (List.find _ other_codecs) as [[n p]|] eqn:Ef; [|done]. injection Hc as ->.
    apply List.find_some in Ef as [Hin Heq]. apply String.eqb_eq in Heq. simpl in Heq. subst n. simpl in Hin.
    repeat (destruct Hin as [[= <- <- <-]|Hin]; [|]); try done; repeat split; try done; plain_branch.
Qed.

Lemma plain_not_end c : plain_ascii c -> c <> end_of_stream.
Proof. unfold plain_ascii, end_of_stream. lia. Qed.

Lemma feeds_plain D E s : plain_codec D E -> Forall plain_ascii s -> feeds D (dec_new D) s s (dec_new D).
Proof.
  intros (Hd & _). induction 1 as [|c s Hc _ IH]; [constructor|].
  apply (feeds_emit D _ c (dec_new D) [c]); [by apply plain_not_end|by intros; apply Hd|done].
Qed.

Lemma enc_loop_plain D E s n acc : plain_codec D E -> Forall plain_ascii s -> (length s < n)%nat ->
  enc_loop E n (enc_new E) (Stream s) acc = Ret (acc ++ s, enc_new E, []).
Proof.
  intros (_ & He & _) Hs. revert n acc. induction Hs as [|c s Hc _ IH]; intros [|n] acc Hn; simpl in Hn;
    try lia; cbn [enc_loop]; unfold Stream; rewrite read_rev.
  - simpl. by rewrite app_nil_r.
  - rewrite (proj2 (Z.eqb_neq c end_of_stream)) by (by apply plain_not_end). rewrite He by done.
    unfold Stream in IH. rewrite IH by lia. by rewrite <-app_assoc.
Qed.

Lemma plain_s2cp s : Forall plain_ascii s -> stringToCodePoints s = s /\ codePointsToString s = s.
Proof.
  induction 1 as [|c s (Hc & _) _ [IH1 IH2]]; [done|]. cbn [stringToCodePoints codePointsToString].
  rewrite (proj2 (Z.ltb_lt c 0xD800)), (proj2 (Z.leb_le c 0xFFFF)) by lia. simpl. by rewrite IH1, IH2.
Qed.

(** In every encoding but UTF-16, printable ASCII text is encoded to and decoded from
    its own bytes. *)
Theorem ascii_transparent `{Indexes} name D E fatal dec bom s :
  codecs name = Some (D, E) -> name <> "UTF-16BE"%string -> name <> "UTF-16LE"%string ->
  Forall plain_ascii s ->
  encode_with E s = Ret s /\ (decode (TextDec (js name) D fatal false dec bom false) s false).1 = Ret s.
Proof.
  intros Hc H1 H2 Hs. pose proof (codec_plain name D E Hc H1 H2) as Hp.
  destruct (plain_s2cp s Hs) as [Hcp Hst]. split.
  - unfold encode_with. rewrite Hcp, (enc_loop_plain D E s) by (done || lia). cbn [mbind outcome_bind].
    rewrite Nat.add_comm. cbn [Nat.add enc_flush]. change (read []) with (end_of_stream, @nil Z).
    destruct Hp as (_ & _ & _ & ->). simpl app. cbn [mbind outcome_bind]. rewrite to_uint8_bytes; [done|].
    eapply Forall_impl; [|exact Hs]. unfold plain_ascii, is_byte. lia.
  - rewrite (decode_feeds _ D fatal dec bom s s (dec_new D)).
    + rewrite Hst. f_equal. unfold drop_bom. case_bool_decide; [|done]. destruct Hs as [|c s (Hc' & _) _]; [done|].
      simpl. by rewrite (proj2 (Z.eqb_neq c 0xFEFF)) by lia.
    + by eapply feeds_plain.
    + intros stream. by apply Hp.
    + eapply Forall_impl; [|exact Hs]. unfold plain_ascii, is_scalar. lia.
Qed.

(** ** An encoding without its index *)

Theorem hebrew_logical_unusable `{Indexes} fatal b : 0x80 <= b <= 0xFF ->
  exists td, TextDecoder (Some (js "iso-8859-8-i")) fatal false = Ret td /\
    (decode td [b] false).1 = no_index /\
    encode_with (SingleByteEncoder (single_byte_index "iso-8859-8-i")) [0x5D0] = no_index.
Proof.
  intros Hb. eexists. split; [reflexivity|]. split; [|reflexivity].
  unfold decode. destruct (decode_fuel_S [b]) as [n ->]. cbn [decode_loop]. change (read (Stream [b])) with (b, @nil Z).
  cbv beta iota. unfold end_of_stream. rewrite (proj2 (Z.eqb_neq b (-1))) by lia.
  simpl dec_handler. unfold end_of_stream. by decide_tests.
Qed.
