(* ===== verification/WireSpec.v ===== *)
(** Facts about the wire format's pieces: a variable-length integer and a
    string are read back, at any place of a message, as they were written. *)

From S2P Require Import Prelude JsVal Int32 TextEncoding Utf8Step Utf8Spec Wire WireReader.

(** ** Bits as arithmetic *)

Lemma land_mask x n : 0 <= n -> Z.land x (Z.ones n) = x mod 2 ^ n.
Proof. apply Z.land_ones. Qed.
Lemma land_255 x : Z.land x 255 = x mod 256. Proof. apply (land_mask x 8). lia. Qed.
Lemma lor_shiftl a b n : 0 <= n -> 0 <= b < 2 ^ n -> Z.lor b (Z.shiftl a n) = b + a * 2 ^ n.
Proof. intros. rewrite Z.lor_comm, Z.shiftl_mul_pow2, lor_add_disjoint by lia. lia. Qed.
Lemma lor_shiftl' a b n : 0 <= n -> 0 <= b < 2 ^ n -> Z.lor (Z.shiftl a n) b = a * 2 ^ n + b.
Proof. intros. rewrite Z.shiftl_mul_pow2, lor_add_disjoint by lia. lia. Qed.

(** The masks of the code, as remainders. *)
Lemma land_7 x : Z.land x 7 = x mod 8. Proof. apply (land_mask x 3). lia. Qed.
Lemma land_15 x : Z.land x 15 = x mod 16. Proof. apply (land_mask x 4). lia. Qed.
Lemma land_31 x : Z.land x 31 = x mod 32. Proof. apply (land_mask x 5). lia. Qed.
Lemma land_63 x : Z.land x 63 = x mod 64. Proof. apply (land_mask x 6). lia. Qed.
Lemma land_127 x : Z.land x 127 = x mod 128. Proof. apply (land_mask x 7). lia. Qed.
Lemma land_1023 x : Z.land x 1023 = x mod 1024. Proof. apply (land_mask x 10). lia. Qed.
Ltac masks := rewrite ?land_7, ?land_15, ?land_31, ?land_63, ?land_127, ?land_1023.
Lemma mod_high x : (x mod 128 + 128) mod 128 = x mod 128.
Proof. by rewrite <-(Z.mul_1_l 128) at 2; rewrite Z_mod_plus_full, Z.mod_mod by lia. Qed.
Ltac euclid := Z.to_euclidean_division_equations; lia.

(** ** Variable-length integers *)

(** The bytes of [a]: seven bits each, the high bit on all but the last. *)
Definition varint (a : Z) : list Z := varint_loop varint_fuel a.

Lemma varint_loop_step f b : 0 <= b < 2 ^ 32 ->
  varint_loop (S f) b = if 127 <? b then b mod 128 + 128 :: varint_loop f (b / 128) else [b].
Proof.
  intros. cbn [varint_loop]. destruct (127 <? b); [|done].
  unfold shr. rewrite u32_id, Z.shiftr_div_pow2 by lia. f_equal.
  masks. change 128 with (1 * 2 ^ 7) at 2.
  rewrite Z.lor_comm, lor_add_disjoint; [lia|lia|]. apply Z.mod_pos_bound. lia.
Qed.

Lemma varint_byte f b : 0 <= b < 2 ^ 32 -> Forall is_byte (varint_loop f b).
Proof.
  revert b. induction f as [|f IH]; intros b Hb; [constructor|].
  rewrite varint_loop_step by done. destruct (Z.ltb_spec 127 b).
  - constructor; [unfold is_byte; euclid|]. apply IH. euclid.
  - constructor; [unfold is_byte; lia|constructor].
Qed.

(** The five shapes a 32-bit integer takes. *)
Lemma varint_cases (P : list Z -> Prop) a : 0 <= a < 2 ^ 32 ->
  (a < 2 ^ 7 -> P [a]) ->
  (2 ^ 7 <= a < 2 ^ 14 -> P [a mod 128 + 128; a / 128]) ->
  (2 ^ 14 <= a < 2 ^ 21 -> P [a mod 128 + 128; a / 128 mod 128 + 128; a / 128 / 128]) ->
  (2 ^ 21 <= a < 2 ^ 28 ->
     P [a mod 128 + 128; a / 128 mod 128 + 128; a / 128 / 128 mod 128 + 128; a / 128 / 128 / 128]) ->
  (2 ^ 28 <= a ->
     P [a mod 128 + 128; a / 128 mod 128 + 128; a / 128 / 128 mod 128 + 128;
        a / 128 / 128 / 128 mod 128 + 128; a / 128 / 128 / 128 / 128]) ->
  P (varint a).
Proof.
  pow_norm. intros Ha H1 H2 H3 H4 H5. unfold varint, varint_fuel.
  rewrite varint_loop_step by lia. destruct (Z.ltb_spec 127 a); [|by apply H1; lia].
  rewrite varint_loop_step by euclid. destruct (Z.ltb_spec 127 (a / 128)); [|apply H2; euclid].
  rewrite varint_loop_step by euclid. destruct (Z.ltb_spec 127 (a / 128 / 128)); [|apply H3; euclid].
  rewrite varint_loop_step by euclid.
  destruct (Z.ltb_spec 127 (a / 128 / 128 / 128)); [|apply H4; euclid].
  rewrite varint_loop_step by euclid.
  destruct (Z.ltb_spec 127 (a / 128 / 128 / 128 / 128)); [exfalso; euclid|]. apply H5. euclid.
Qed.

Lemma varint_length a : 0 <= a < 2 ^ 32 -> (1 <= length (varint a) <= 5)%nat.
Proof. intros. apply varint_cases; simpl; lia. Qed.

(** ** A decoder in the middle of a message *)

(** The decoder that has read [p] and has [s] to read. *)
Definition dec (p s : list Z) : decoder :=
  BinaryDecoder (p ++ s) 0 (Z.of_nat (length (p ++ s))) (Z.of_nat (length p)) false.

Lemma set_cursor_dec p x s :
  set_cursor (Z.of_nat (length p) + Z.of_nat (length x)) (dec p (x ++ s)) = dec (p ++ x) s.
Proof. unfold dec, set_cursor. simpl. rewrite app_assoc. f_equal. rewrite length_app. lia. Qed.

Lemma advance_dec p x s :
  advance (Z.of_nat (length x)) (dec p (x ++ s)) = Ret (tt, dec (p ++ x) s).
Proof.
  unfold advance, modify_, get_, assert_, mbind, ST_bind. simpl cursor_. rewrite set_cursor_dec.
  simpl. rewrite (proj2 (Z.leb_le _ _)); [done|]. rewrite !length_app. lia.
Qed.

(** A byte of the part still to read. *)
Lemma at_dec p s i : 0 <= i -> at_ (bytes_ (dec p s)) (cursor_ (dec p s) + i) = at_ s i.
Proof. apply at_app_off. Qed.
Lemma at_0 b s : at_ (b :: s) 0 = Some b.
Proof. done. Qed.
Lemma at_S b s i : 0 < i -> at_ (b :: s) i = at_ s (i - 1).
Proof.
  intros. unfold at_. destruct (Z.ltb_spec i 0), (Z.ltb_spec (i - 1) 0); try lia.
  destruct (Z.to_nat i) as [|n] eqn:E; [lia|]. simpl. f_equal. lia.
Qed.

Lemma u32_lor_shl c b : 0 <= c < 2 ^ 28 -> 0 <= b < 16 ->
  u32 (i32 (Z.lor c (shl b 28))) = c + b * 2 ^ 28.
Proof.
  intros. rewrite u32_i32. unfold shl. rewrite (i32_id b) by lia.
  replace (u32 (Z.lor c (i32 (Z.shiftl b 28)))) with (u32 (Z.lor c (Z.shiftl b 28))).
  - rewrite lor_shiftl by lia. apply u32_id. lia.
  - unfold u32. rewrite <-!Z.land_ones, !Z.land_lor_distr_l by lia. f_equal.
    rewrite !Z.land_ones by lia. symmetry. apply u32_i32.
Qed.

(** Read the bytes of the goal's decoder one by one. *)
Ltac read_bytes :=
  rewrite ?at_dec by lia; cbn [app]; rewrite ?at_0;
  repeat (rewrite at_S by lia; change (1 - 1) with 0; change (2 - 1) with 1;
          change (3 - 1) with 2; change (4 - 1) with 3; rewrite ?at_0);
  cbn [band lt_].

(** Disjoint fields combined by [|], innermost first, as a sum. *)
Ltac lor_sum :=
  rewrite ?mod_high;
  repeat match goal with |- context [Z.lor ?b (Z.shiftl ?a ?n)] =>
    lazymatch b with
    | context [Z.lor] => fail
    | _ => rewrite (lor_shiftl a b n) by (pow_norm; euclid); pow_norm
    end end.

Lemma read_varint p a s : 0 <= a < 2 ^ 32 ->
  readUnsignedVarint32 (dec p (varint a ++ s)) = Ret (a, dec (p ++ varint a) s).
Proof.
  intros Ha. unfold readUnsignedVarint32. cbv zeta.
  assert (Hd : forall v n, n = Z.of_nat (length (varint a)) -> v = a ->
    (advance n;; mret v) (dec p (varint a ++ s)) = Ret (a, dec (p ++ varint a) s)).
  { intros v n -> ->. unfold mbind, ST_bind. by rewrite advance_dec. }
  revert Hd. pattern (varint a). apply varint_cases; [done|..]; pow_norm; intros Hc Hd;
    read_bytes; masks;
    repeat match goal with |- context [if ?x <? 128 then _ else _] =>
      first [rewrite (proj2 (Z.ltb_lt x 128)) by euclid | rewrite (proj2 (Z.ltb_ge x 128)) by euclid] end;
    lor_sum; first [rewrite u32_lor_shl by (pow_norm; euclid)|idtac]; pow_norm;
    apply Hd; first [done|euclid].
Qed.

(** ** Strings *)

(** Decide the comparisons in the goal. *)
Ltac tests :=
  repeat match goal with
  | |- context [?a <? ?b] =>
      first [rewrite (proj2 (Z.ltb_lt a b)) by euclid | rewrite (proj2 (Z.ltb_ge a b)) by euclid]
  | |- context [?a <=? ?b] =>
      first [rewrite (proj2 (Z.leb_le a b)) by euclid | rewrite (proj2 (Z.leb_gt a b)) by euclid]
  end; cbn [andb orb negb].

Lemma cont_byte x : 0 <= x < 64 -> Z.lor x 128 = 0x80 + x.
Proof. intros. rewrite Z.lor_comm. apply lor_cont. lia. Qed.
Lemma lead_byte x k n : 0 <= n -> 0 <= x < 2 ^ n -> Z.lor x (k * 2 ^ n) = k * 2 ^ n + x.
Proof. intros. rewrite Z.lor_comm. by apply lor_add_disjoint. Qed.

(** The four patterns of bytes the writer pushes. *)
Lemma push_2 d : 0x80 <= d < 0x800 ->
  [Z.lor (Z.shiftr d 6) 192; Z.lor (Z.land d 63) 128] = utf8_bytes d.
Proof.
  intros. rewrite utf8_bytes_2, Z.shiftr_div_pow2 by lia. masks. pow_norm.
  rewrite cont_byte by euclid. change 192 with (6 * 2 ^ 5) at 1.
  rewrite lead_byte by (pow_norm; euclid). pow_norm. done.
Qed.
Lemma push_3 d : 0x800 <= d < 0x10000 ->
  [Z.lor (Z.shiftr d 12) 224; Z.lor (Z.land (Z.shiftr d 6) 63) 128; Z.lor (Z.land d 63) 128]
  = utf8_bytes d.
Proof.
  intros. rewrite utf8_bytes_3, !Z.shiftr_div_pow2 by lia. masks. pow_norm.
  rewrite !cont_byte by euclid. change 224 with (14 * 2 ^ 4) at 1.
  rewrite lead_byte by (pow_norm; euclid). pow_norm. done.
Qed.
Lemma push_4 d : 0x10000 <= d < 0x110000 ->
  [Z.lor (Z.shiftr d 18) 240; Z.lor (Z.land (Z.shiftr d 12) 63) 128;
   Z.lor (Z.land (Z.shiftr d 6) 63) 128; Z.lor (Z.land d 63) 128] = utf8_bytes d.
Proof.
  intros. rewrite utf8_bytes_4, !Z.shiftr_div_pow2 by lia. masks. pow_norm.
  rewrite !cont_byte by euclid. change 240 with (30 * 2 ^ 3) at 1.
  rewrite lead_byte by (pow_norm; euclid). pow_norm. done.
Qed.

(** The two units of a code point beyond the basic plane. *)
Lemma surrogates cp : 0x10000 <= cp < 0x110000 ->
  exists h l, (forall cps, codePointsToString (cp :: cps) = h :: l :: codePointsToString cps) /\
    0xD800 <= h <= 0xDBFF /\ 0xDC00 <= l <= 0xDFFF /\
    cp = 1024 * (h - 0xD800) + l - 0xDC00 + 0x10000.
Proof.
  intros. eexists _, _. split.
  { intros cps. cbn [codePointsToString]. tests. reflexivity. }
  change 0x3FF with 1023. masks. rewrite Z.shiftr_div_pow2 by lia. pow_norm.
  repeat split; euclid.
Qed.

(** On strings without lone surrogates, the writer writes UTF-8. *)
Lemma writeString_utf8 cps : Forall is_scalar cps ->
  encoder_writeString (codePointsToString cps) = utf8_concat cps.
Proof.
  induction 1 as [|cp cps Hs _ IH]; [done|]. change (utf8_concat (cp :: cps)) with
    (utf8_bytes cp ++ utf8_concat cps). rewrite <-IH. unfold is_scalar in Hs.
  destruct (Z.leb_spec 0x10000 cp).
  - destruct (surrogates cp) as (h & l & E & Hh & Hl & Hc); [lia|]. rewrite E.
    cbn [encoder_writeString]. tests. rewrite bool_decide_false by done. cbn [negb].
    replace (1024 * (h - 55296) + l - 56320 + 65536) with cp by lia.
    by rewrite <-push_4 by lia.
  - cbn [codePointsToString]. tests. cbn [encoder_writeString].
    destruct (Z.ltb_spec cp 128); [by rewrite utf8_bytes_1 by lia|].
    destruct (Z.ltb_spec cp 2048); [by rewrite <-push_2 by lia|].
    replace ((55296 <=? cp) && (cp <=? 56319)) with false; [by rewrite <-push_3 by lia|].
    destruct (Z.leb_spec 55296 cp), (Z.leb_spec cp 56319); lia || done.
Qed.

(** One round of the reader takes one code point. *)
Lemma read_char p cp s : is_scalar cp ->
  readString_step (p ++ utf8_bytes cp ++ s) (Z.of_nat (length p)) =
  (codePointsToString [cp], Z.of_nat (length (p ++ utf8_bytes cp))).
Proof.
  intros Hs. unfold readString_step. rewrite length_app.
  replace (at_ (p ++ utf8_bytes cp ++ s) (Z.of_nat (length p))) with (at_ (utf8_bytes cp ++ s) 0)
    by (rewrite <-(Z.add_0_r (Z.of_nat (length p))), at_app_off by lia; done).
  cbv zeta. rewrite !at_app_off by lia.
  pattern (utf8_bytes cp). apply utf8_bytes_cases; [done|..]; intros Hc;
    cbn [app length]; rewrite ?at_0;
    repeat (rewrite at_S by lia; change (1 - 1) with 0; change (2 - 1) with 1;
          change (3 - 1) with 2; rewrite ?at_0); cbn [band codePointsToString]; tests.
  - f_equal. lia.
  - f_equal; [|lia]. f_equal. masks.
    replace ((192 + cp / 64) mod 32) with (cp / 64) by euclid.
    replace ((128 + cp mod 64) mod 64) with (cp mod 64) by euclid.
    rewrite lor_shiftl' by (pow_norm; euclid). pow_norm. euclid.
  - f_equal; [|lia]. f_equal. masks.
    replace ((224 + cp / 4096) mod 16) with (cp / 4096) by euclid.
    replace ((128 + (cp / 64) mod 64) mod 64) with ((cp / 64) mod 64) by euclid.
    replace ((128 + cp mod 64) mod 64) with (cp mod 64) by euclid.
    rewrite <-Z.lor_assoc. rewrite !lor_shiftl' by (rewrite ?lor_shiftl'; pow_norm; euclid).
    pow_norm. euclid.
  - f_equal; [|lia]. masks.
    replace ((240 + cp / 262144) mod 8) with (cp / 262144) by euclid.
    replace ((128 + (cp / 4096) mod 64) mod 64) with ((cp / 4096) mod 64) by euclid.
    replace ((128 + (cp / 64) mod 64) mod 64) with ((cp / 64) mod 64) by euclid.
    replace ((128 + cp mod 64) mod 64) with (cp mod 64) by euclid.
    rewrite <-!Z.lor_assoc.
    rewrite !lor_shiftl' by (rewrite ?lor_shiftl'; rewrite ?lor_shiftl'; pow_norm; euclid).
    rewrite !Z.shiftr_div_pow2 by lia. pow_norm. repeat (f_equal; try euclid).
Qed.

Lemma fromCharCode_unit d : Forall is_unit d -> fromCharCode d = d.
Proof.
  induction 1 as [|u d Hu _ IH]; [done|].
  unfold fromCharCode in *. cbn [map]. rewrite IH, Z.mod_small; [done|].
  unfold is_unit in Hu. lia.
Qed.

Lemma cp2s_unit cps : Forall is_scalar cps -> Forall is_unit (codePointsToString cps).
Proof. intros. by apply well_formed_unit, well_formed_cp2s. Qed.
Lemma cp2s_app c1 c2 : codePointsToString (c1 ++ c2) = codePointsToString c1 ++ codePointsToString c2.
Proof.
  induction c1 as [|c c1 IH]; [done|]. cbn [app codePointsToString].
  destruct (c <=? 65535); by rewrite IH.
Qed.
Lemma utf8_bytes_length cp : is_scalar cp -> (1 <= length (utf8_bytes cp))%nat.
Proof. intros Hs. pattern (utf8_bytes cp). by apply utf8_bytes_cases; [|simpl; lia..]. Qed.

(** The reader's loop decodes UTF-8 up to the end it is given. *)
Lemma read_chars cps : Forall is_scalar cps -> forall fuel p s d e,
  Forall is_unit d -> (length (utf8_concat cps) <= fuel)%nat ->
  readString_loop fuel (p ++ utf8_concat cps ++ s) (Z.of_nat (length p))
    (Z.of_nat (length p) + Z.of_nat (length (utf8_concat cps))) d e
  = (e ++ d ++ codePointsToString cps, Z.of_nat (length (p ++ utf8_concat cps))).
Proof.
  induction 1 as [|cp cps Hs Hcps IH]; intros fuel p s d e Hd Hf.
  - cbn [utf8_concat map concat length codePointsToString].
    destruct fuel; cbn [readString_loop]; rewrite (proj2 (Z.ltb_ge _ _)) by (simpl; lia);
      by rewrite fromCharCode_unit, !app_nil_r.
  - change (utf8_concat (cp :: cps)) with (utf8_bytes cp ++ utf8_concat cps) in *.
    pose proof (utf8_bytes_length cp Hs) as Hl. rewrite length_app in Hf.
    destruct fuel as [|fuel]; [lia|].
    cbn [readString_loop]. rewrite (proj2 (Z.ltb_lt _ _)) by (rewrite length_app; lia).
    rewrite <-!app_assoc, read_char by done. rewrite !app_assoc, <-(app_assoc _ (utf8_concat cps)).
    assert (Hu : Forall is_unit (d ++ codePointsToString [cp])).
    { apply Forall_app. split; [done|]. apply cp2s_unit. by constructor. }
    replace (Z.of_nat (length p) + Z.of_nat (length (utf8_bytes cp ++ utf8_concat cps)))
      with (Z.of_nat (length (p ++ utf8_bytes cp)) + Z.of_nat (length (utf8_concat cps)))
      by (rewrite !length_app; lia).
    change (cp :: cps) with ([cp] ++ cps). rewrite cp2s_app.
    case_match; rewrite IH by (done || lia || constructor).
    + by rewrite fromCharCode_unit, <-!app_assoc.
    + by rewrite <-!app_assoc.
Qed.

Lemma read_string p cps s : Forall is_scalar cps ->
  decoder_readString (Z.of_nat (length (utf8_concat cps))) (dec p (utf8_concat cps ++ s))
  = Ret (codePointsToString cps, dec (p ++ utf8_concat cps) s).
Proof.
  intros Hs. unfold decoder_readString.
  change (bytes_ (dec p (utf8_concat cps ++ s))) with (p ++ utf8_concat cps ++ s).
  change (cursor_ (dec p (utf8_concat cps ++ s))) with (Z.of_nat (length p)).
  rewrite Nat2Z.id, read_chars by (done || constructor).
  rewrite length_app, Nat2Z.inj_add, set_cursor_dec. done.
Qed.
