(* ===== verification/WirePoolSpec.v ===== *)
(** A decoder or reader from the cache is as a new one, and no two users hold
    the same, as long as nobody frees what he does not hold. *)

From stdpp Require Import gmap.
From S2P Require Import Prelude JsVal Wire WireReader WirePool.

Lemma new_decoder_whole a : new_decoder (option_map (fun bytes => Block bytes None None) a) = new_BinaryDecoder a.
Proof. by destruct a. Qed.

(** ** The users *)

(** The decoders and the readers that somebody holds; a decoder of a reader is
    held through the reader. *)
Record held := Held { held_decoders : gset nat; held_readers : gset nat }.
Inductive action :=
  | AllocDecoder (b : option block) | FreeDecoder (i : nat) | UseDecoder (i : nat) (d : decoder)
  | AllocReader (b : option block) | FreeReader (r : nat) | UseReader (r : nat) (v : reader) | RegisterCallback (r : nat) (a : Z).
Inductive step : pool * held -> action -> pool * held -> Prop :=
  | step_alloc_decoder p hd hr b i p' : decoder_alloc b p = (i, p') -> step (p, Held hd hr) (AllocDecoder b) (p', Held ({[i]} ∪ hd) hr)
  | step_free_decoder p hd hr i : i ∈ hd -> step (p, Held hd hr) (FreeDecoder i) (decoder_free i p, Held (hd ∖ {[i]}) hr)
  | step_use_decoder p hd hr i d : i ∈ hd -> step (p, Held hd hr) (UseDecoder i d) (update_decoder i (fun _ => d) p, Held hd hr)
  | step_alloc_reader p hd hr b r p' : reader_alloc b p = (r, p') -> step (p, Held hd hr) (AllocReader b) (p', Held hd ({[r]} ∪ hr))
  | step_free_reader p hd hr r : r ∈ hr -> step (p, Held hd hr) (FreeReader r) (reader_free r p, Held hd (hr ∖ {[r]}))
  | step_use_reader p hd hr r v : r ∈ hr -> step (p, Held hd hr) (UseReader r v) (store_view r v p, Held hd hr)
  | step_register p hd hr r a p' : r ∈ hr -> registerReadCallback r a p = Ret p' -> step (p, Held hd hr) (RegisterCallback r a) (p', Held hd hr).
Inductive reachable : pool * held -> Prop :=
  | reachable_start : reachable (Pool [] [] [] [], Held ∅ ∅)
  | reachable_step s a s' : reachable s -> step s a s' -> reachable s'.

(** ** The invariant *)

Record Inv (p : pool) (hd hr : gset nat) : Prop := {
  i_cache : NoDup (decoder_cache p);
  i_cached i : i ∈ decoder_cache p -> i ∉ hd /\ decoders p !! i = Some cleared;
  i_held i : i ∈ hd -> is_Some (decoders p !! i);
  i_owned r o : readers p !! r = Some o -> is_Some (decoders p !! o_decoder o) /\ o_decoder o ∉ hd /\ o_decoder o ∉ decoder_cache p;
  i_own r r' o o' : readers p !! r = Some o -> readers p !! r' = Some o' -> o_decoder o = o_decoder o' -> r = r';
  i_rcache : NoDup (reader_cache p);
  i_rcached r : r ∈ reader_cache p -> r ∉ hr /\ exists o, readers p !! r = Some o /\ o = cleared_reader o /\ decoders p !! o_decoder o = Some cleared;
  i_rheld r : r ∈ hr -> is_Some (readers p !! r) }.

Lemma alter_lookup {A} (f : A -> A) (i j : nat) (l : list A) : alter f i l !! j = if decide (i = j) then f <$> l !! j else l !! j.
Proof. case_decide as E; [subst; apply list_lookup_alter_eq|by apply list_lookup_alter_ne]. Qed.
Lemma elem_of_keep i j c : j ∈ keep i c -> j = i \/ j ∈ c.
Proof. unfold keep. destruct (_ <? _)%nat; set_solver. Qed.
Lemma NoDup_keep i c : i ∉ c -> NoDup c -> NoDup (keep i c).
Proof. unfold keep. destruct (_ <? _)%nat; [|done]. intros. by constructor. Qed.

(** A held decoder is changed. *)
Lemma Inv_update p hd hr i f : Inv p hd hr -> i ∈ hd -> Inv (update_decoder i f p) hd hr.
Proof.
  intros [I1 I2 I3 I4 I5 I6 I7 I8] Hi. split; cbn; try done.
  - intros j Hj. destruct (I2 j Hj) as [Hn E]. split; [done|]. rewrite alter_lookup, decide_False; [done|]. by intros <-.
  - intros j Hj. rewrite alter_lookup. destruct (I3 j Hj) as [d ->]. case_decide; by eexists.
  - intros r o E. destruct (I4 r o E) as ([d Ed] & Hn & Hc). split; [|done]. rewrite alter_lookup, Ed. case_decide; by eexists.
  - intros r Hr. destruct (I7 r Hr) as (Hn & o & E & Eo & Ed). split; [done|]. exists o. split; [done|]. split; [done|].
    rewrite alter_lookup, decide_False; [done|]. intros ->. by destruct (I4 r o E) as (_ & Hh & _).
Qed.
(** So is the decoder of a reader that nobody has put into the cache. *)
Lemma Inv_update_owned p hd hr r f : Inv p hd hr -> is_Some (readers p !! r) -> r ∉ reader_cache p -> Inv (update_decoder (owned r p) f p) hd hr.
Proof.
  intros [I1 I2 I3 I4 I5 I6 I7 I8] [o Er] Hr. unfold owned. rewrite Er. destruct (I4 r o Er) as (_ & Hoh & Hoc). split; cbn; try done.
  - intros j Hj. destruct (I2 j Hj) as [Hn E]. split; [done|]. rewrite alter_lookup, decide_False; [done|]. by intros <-.
  - intros j Hj. rewrite alter_lookup. destruct (I3 j Hj) as [d ->]. case_decide; by eexists.
  - intros r' o' E. destruct (I4 r' o' E) as ([d Ed] & Hn & Hc). split; [|done]. rewrite alter_lookup, Ed. case_decide; by eexists.
  - intros r' Hr'. destruct (I7 r' Hr') as (Hn & o' & E & Eo & Ed). split; [done|]. exists o'. split; [done|]. split; [done|].
    rewrite alter_lookup, decide_False; [done|]. intros Eq. by rewrite (I5 _ _ _ _ Er E Eq) in Hr.
Qed.
(** And the reader itself, which keeps its decoder. *)
Lemma Inv_reader p hd hr r g : Inv p hd hr -> r ∉ reader_cache p -> (forall o, o_decoder (g o) = o_decoder o) -> Inv (set_readers (alter g r) p) hd hr.
Proof.
  intros [I1 I2 I3 I4 I5 I6 I7 I8] Hr Hg.
  assert (Hlook : forall r' o, alter g r (readers p) !! r' = Some o -> exists o0, readers p !! r' = Some o0 /\ o_decoder o = o_decoder o0).
  { intros r' o. rewrite alter_lookup. case_decide; [|by exists o]. destruct (readers p !! r') as [o0|]; [|done]. intros [= <-]. by exists o0. }
  split; cbn; try done.
  - intros r' o (o0 & E & ->)%Hlook. by apply (I4 r').
  - intros r1 r2 o1 o2 (a & Ea & ->)%Hlook (b & Eb & ->)%Hlook. by apply I5.
  - intros r' Hr'. destruct (I7 r' Hr') as (Hn & o & E & Eo & Ed). split; [done|]. exists o. split; [|done].
    rewrite alter_lookup, decide_False; [done|]. by intros <-.
  - intros r' Hr'. rewrite alter_lookup. destruct (I8 r' Hr') as [o ->]. case_decide; by eexists.
Qed.

(** ** Taking a decoder *)

(** What an allocation of a decoder gives, from the cache or not. *)
Record taken (p : pool) (hd : gset nat) (b : option block) (i : nat) (p' : pool) : Prop := {
  t_new : decoders p' !! i = Some (new_decoder b);
  t_others j : j <> i -> decoders p' !! j = decoders p !! j;
  t_readers : readers p' = readers p;
  t_rcache : reader_cache p' = reader_cache p;
  t_cache : NoDup (decoder_cache p');
  t_sub j : j ∈ decoder_cache p' -> j ∈ decoder_cache p;
  t_out : i ∉ decoder_cache p';
  t_free : i ∉ hd;
  t_unowned r o : readers p !! r = Some o -> o_decoder o <> i }.

Lemma set_block_of_new i b p : decoders p !! i = Some cleared -> decoders (set_block_of i b p) !! i = Some (new_decoder b).
Proof. destruct b; cbn; intros E; [|done]. by rewrite alter_lookup, decide_True, E. Qed.
Lemma set_block_of_others i b p j : j <> i -> decoders (set_block_of i b p) !! j = decoders p !! j.
Proof. destruct b; cbn; intros Hj; [|done]. by rewrite alter_lookup, decide_False. Qed.
Lemma set_block_of_rest i b p : decoder_cache (set_block_of i b p) = decoder_cache p /\ readers (set_block_of i b p) = readers p /\ reader_cache (set_block_of i b p) = reader_cache p.
Proof. by destruct b. Qed.

Lemma alloc_taken p hd hr b i p' : Inv p hd hr -> decoder_alloc b p = (i, p') -> taken p hd b i p'.
Proof.
  intros [I1 I2 I3 I4 I5 I6 I7 I8]. unfold decoder_alloc. destruct (decoder_cache p) as [|i0 c] eqn:Ec; intros [= <- <-].
  - split; cbn; try done.
    + by rewrite list_lookup_middle.
    + intros j Hj. destruct (decide (j < length (decoders p))%nat); [by apply lookup_app_l|].
      rewrite !lookup_ge_None_2; [done|lia|rewrite length_app; cbn; lia].
    + by rewrite Ec.
    + rewrite Ec. apply not_elem_of_nil.
    + intros H%I3. apply lookup_lt_is_Some in H. lia.
    + intros r o E Eo. destruct (I4 r o E) as [H%lookup_lt_is_Some _]. lia.
  - apply list.NoDup_cons in I1 as [Hi Hc]. destruct (I2 i0) as [Hh Hd]; [set_solver|].
    destruct (set_block_of_rest i0 b (set_decoder_cache c p)) as (R1 & R2 & R3). split; try done.
    + by apply set_block_of_new.
    + intros j Hj. by rewrite set_block_of_others.
    + by rewrite R1.
    + intros j. rewrite R1, Ec. cbn. set_solver.
    + by rewrite R1.
    + intros r o E Eo. destruct (I4 r o E) as (_ & _ & H). apply H. rewrite Eo. by left.
Qed.

Lemma Inv_taken p hd hr b i p' : Inv p hd hr -> taken p hd b i p' -> Inv p' ({[i]} ∪ hd) hr.
Proof.
  intros [I1 I2 I3 I4 I5 I6 I7 I8] [T1 T2 T3 T4 T5 T6 T7 T8 T9]. split; rewrite ?T3, ?T4; try done.
  - intros j Hj. destruct (I2 j (T6 j Hj)) as [Hn E]. assert (j <> i) by (by intros ->). split; [set_solver|]. by rewrite T2.
  - intros j Hj. destruct (decide (j = i)) as [->|Hn]; [by rewrite T1|]. rewrite T2 by done. apply I3. set_solver.
  - intros r o E. destruct (I4 r o E) as (Hs & Hh & Hc). specialize (T9 r o E). rewrite T2 by done. split; [done|]. set_solver.
  - intros r Hr. destruct (I7 r Hr) as (Hn & o & E & Eo & Ed). split; [done|]. exists o. split; [done|]. split; [done|].
    rewrite T2; [done|]. by apply (T9 r).
Qed.

(** A decoder that is let go, into the cache or not. *)
Lemma Inv_decoder_free p hd hr i : Inv p hd hr -> i ∈ hd -> Inv (decoder_free i p) (hd ∖ {[i]}) hr.
Proof.
  intros H Hi. pose proof (Inv_update p hd hr i (fun _ => cleared) H Hi) as [J1 J2 J3 J4 J5 J6 J7 J8].
  assert (Hc : i ∉ decoder_cache p) by (intros Hc; by apply (i_cached _ _ _ H) in Hc as [? _]).
  split; cbn in *; try done.
  - by apply NoDup_keep.
  - intros j [->|Hj]%elem_of_keep.
    + split; [set_solver|]. rewrite alter_lookup, decide_True by done. by destruct (i_held _ _ _ H i Hi) as [d ->].
    + destruct (J2 j Hj). split; [set_solver|done].
  - intros j Hj. apply J3. set_solver.
  - intros r o E. destruct (J4 r o E) as (Hs & Hh & Hn). split; [done|]. split; [set_solver|].
    intros [Eo|?]%elem_of_keep; [by rewrite Eo in Hh|done].
Qed.

(** ** Taking a reader *)

(** A new reader takes a decoder for itself. *)
Lemma Inv_new_reader p hd hr b r p' : Inv p hd hr -> new_reader b p = (r, p') -> Inv p' hd ({[r]} ∪ hr).
Proof.
  intros H. unfold new_reader. destruct (decoder_alloc b p) as [i q] eqn:Ea. intros [= <- <-].
  pose proof (alloc_taken _ _ _ _ _ _ H Ea) as T. destruct (Inv_taken _ _ _ _ _ _ H T) as [J1 J2 J3 J4 J5 J6 J7 J8].
  destruct T as [T1 T2 T3 T4 T5 T6 T7 T8 T9]. rewrite T3 in *. rewrite T4 in *.
  set (o' := ReaderObject _ _ _ _ _ _). split; cbn; rewrite ?T3, ?T4; try done.
  - intros j Hj. destruct (J2 j Hj). split; [set_solver|done].
  - intros j Hj. apply J3. set_solver.
  - intros r o [E|[_ [_ <-]%list_lookup_singleton_Some]]%lookup_app_Some; [|cbn; rewrite T1; by eauto].
    destruct (J4 r o E) as (Hs & Hh & Hn). split; [done|]. set_solver.
  - intros r r' a a' [E|[? [? <-]%list_lookup_singleton_Some]]%lookup_app_Some [E'|[? [? <-]%list_lookup_singleton_Some]]%lookup_app_Some Eq; [by eapply J5| | |lia].
    + by destruct (T9 _ _ E).
    + by destruct (T9 _ _ E').
  - intros r Hr. destruct (J7 r Hr) as (Hn & o & E & Eo & Ed). split.
    + apply lookup_lt_Some in E. set_solver by lia.
    + exists o. split; [by apply lookup_app_l_Some|done].
  - intros r [->%elem_of_singleton|Hr]%elem_of_union; [rewrite list_lookup_middle; [by eexists|done]|].
    destruct (J8 r Hr) as [o Eo]. exists o. by apply lookup_app_l_Some.
Qed.

Lemma Inv_pop_reader p hd hr r c : Inv p hd hr -> reader_cache p = r :: c -> Inv (set_reader_cache c p) hd ({[r]} ∪ hr) /\ r ∉ c.
Proof.
  intros [I1 I2 I3 I4 I5 I6 I7 I8] Ec. rewrite Ec in *. apply list.NoDup_cons in I6 as [Hr Hc]. split; [|done]. split; cbn; try done.
  - intros r' Hr'. destruct (I7 r') as [Hn Ho]; [by right|]. split; [|done]. assert (r' <> r) by (by intros ->). set_solver.
  - intros r' [->%elem_of_singleton|Hr']%elem_of_union; [|by apply I8]. destruct (I7 r) as (_ & o & Eo & _); [by left|]. by exists o.
Qed.

Lemma Inv_reader_alloc p hd hr b r p' : Inv p hd hr -> reader_alloc b p = (r, p') -> Inv p' hd ({[r]} ∪ hr).
Proof.
  intros H. unfold reader_alloc. destruct (reader_cache p) as [|r0 c] eqn:Ec; [by eapply Inv_new_reader|]. intros [= <- <-].
  destruct (Inv_pop_reader _ _ _ _ _ H Ec) as [J Hc]. destruct b as [b|]; [|done]. cbn.
  apply (Inv_update_owned _ _ _ r0 _ J); [|done]. apply (i_rheld _ _ _ J). set_solver.
Qed.

Lemma Inv_reader_free p hd hr r : Inv p hd hr -> r ∈ hr -> Inv (reader_free r p) hd (hr ∖ {[r]}).
Proof.
  intros H Hr. assert (Hc : r ∉ reader_cache p) by (intros Hc; by apply (i_rcached _ _ _ H) in Hc as [? _]).
  destruct (i_rheld _ _ _ H r Hr) as [o Eo]. destruct (i_owned _ _ _ H r o Eo) as ([d Ed] & _).
  assert (J : Inv (set_readers (alter cleared_reader r) (update_decoder (owned r p) (fun _ => cleared) p)) hd hr)
    by (apply Inv_reader; [by apply Inv_update_owned; [|by eexists|]|done|done]).
  destruct J as [J1 J2 J3 J4 J5 J6 J7 J8]. split; cbn in *; try done.
  - by apply NoDup_keep.
  - intros r' [->|Hr']%elem_of_keep; [|destruct (J7 r' Hr'); split; [set_solver|done]].
    split; [set_solver|]. exists (cleared_reader o). rewrite alter_lookup, decide_True, Eo by done. split; [done|]. split; [done|].
    unfold owned. rewrite Eo. cbn. by rewrite alter_lookup, decide_True, Ed by done.
  - intros r' Hr'. apply J8. set_solver.
Qed.

Lemma pool_step_Inv p hd hr a p' hd' hr' : Inv p hd hr -> step (p, Held hd hr) a (p', Held hd' hr') -> Inv p' hd' hr'.
Proof.
  intros H S. inversion S; subst.
  - eapply Inv_taken; [done|]. by eapply alloc_taken.
  - by apply Inv_decoder_free.
  - by apply Inv_update.
  - by eapply Inv_reader_alloc.
  - by apply Inv_reader_free.
  - apply Inv_reader; [|by intros Hc; apply (i_rcached _ _ _ H) in Hc as [? _]|done]. apply Inv_update_owned; [done|by apply (i_rheld _ _ _ H)|].
    by intros Hc; apply (i_rcached _ _ _ H) in Hc as [? _].
  - match goal with R : registerReadCallback _ _ _ = _ |- _ => unfold registerReadCallback in R; destruct (readers p !! r); [case_decide; [done|]|]; injection R as <- end; [|done].
    apply Inv_reader; [done|by intros Hc; apply (i_rcached _ _ _ H) in Hc as [? _]|done].
Qed.
Lemma reachable_Inv s : reachable s -> Inv (fst s) (held_decoders (snd s)) (held_readers (snd s)).
Proof.
  induction 1 as [|[p [hd hr]] a [p' [hd' hr']] _ IH Hs]; [|by eapply pool_step_Inv].
  split; cbn; [constructor|set_solver..| |constructor| |]; try set_solver. all: intros r; set_solver.
Qed.

(** ** What the others see *)

Definition touches_decoder (a : action) (i : nat) : Prop := match a with FreeDecoder j | UseDecoder j _ => j = i | _ => False end.
Definition touches_reader (a : action) (r : nat) : Prop := match a with FreeReader r' | UseReader r' _ | RegisterCallback r' _ => r' = r | _ => False end.
(** A reader with its decoder and its callbacks. *)
Definition reader_seen (p : pool) (r : nat) : option reader * option (list Z) := (reader_view p r, callbacks <$> readers p !! r).

Lemma reader_seen_same p p' r o : readers p !! r = Some o -> readers p' !! r = Some o -> decoders p' !! o_decoder o = decoders p !! o_decoder o -> reader_seen p' r = reader_seen p r.
Proof. intros E E' Ed. unfold reader_seen, reader_view. rewrite E, E'. cbn. by rewrite Ed. Qed.
(** A change of one decoder that no reader owns. *)
Lemma frame_decoder p p' hd hr i : Inv p hd hr -> (forall r o, readers p !! r = Some o -> o_decoder o <> i) -> readers p' = readers p ->
  (forall j, j <> i -> decoders p' !! j = decoders p !! j) -> forall r, r ∈ hr -> reader_seen p' r = reader_seen p r.
Proof.
  intros H Hi Hr Hd r Hin. destruct (i_rheld _ _ _ H r Hin) as [o Eo]. eapply reader_seen_same; [done|by rewrite Hr|]. by eapply Hd, Hi.
Qed.
(** A change of one reader and its decoder. *)
Lemma frame_reader p p' hd hr r o : Inv p hd hr -> readers p !! r = Some o ->
  (forall r', r' <> r -> readers p' !! r' = readers p !! r') -> (forall j, j <> o_decoder o -> decoders p' !! j = decoders p !! j) ->
  (forall j, j ∈ hd -> decoders p' !! j = decoders p !! j) /\ forall r', r' ∈ hr -> r' <> r -> reader_seen p' r' = reader_seen p r'.
Proof.
  intros H Eo Hr Hd. split.
  - intros j Hj. apply Hd. intros ->. by destruct (i_owned _ _ _ H r o Eo) as (_ & Hn & _).
  - intros r' Hin Hne. destruct (i_rheld _ _ _ H r' Hin) as [o' Eo']. eapply reader_seen_same; [done|by rewrite Hr|].
    apply Hd. intros E. by apply Hne, (i_own _ _ _ H r' r o' o).
Qed.
Lemma held_unowned p hd hr i : Inv p hd hr -> i ∈ hd -> forall r o, readers p !! r = Some o -> o_decoder o <> i.
Proof. intros H Hi r o E <-. by destruct (i_owned _ _ _ H r o E) as (_ & Hn & _). Qed.

(** The field's cursor of an allocated reader: a new one has the start of its
    block, one from the cache what its last user left. *)
Definition allocated_cursor (b : option block) (p : pool) : Z :=
  match reader_cache p with
  | r :: _ => match readers p !! r with Some o => o_fieldCursor o | None => 0 end
  | [] => cursor_ (new_decoder b)
  end.

(** What an allocated reader is, and that the others do not notice. *)
Lemma reader_alloc_seen p hd hr b r p' : Inv p hd hr -> reader_alloc b p = (r, p') ->
  r ∉ hr /\ reader_seen p' r = (Some (BinaryReader (new_decoder b) (allocated_cursor b p) (-1) INVALID false), Some []) /\
  (forall j, j ∈ hd -> decoders p' !! j = decoders p !! j) /\ (forall r', r' ∈ hr -> reader_seen p' r' = reader_seen p r').
Proof.
  intros H. unfold reader_alloc, allocated_cursor. destruct (reader_cache p) as [|r0 c] eqn:Ec; intros E.
  - unfold new_reader in E. destruct (decoder_alloc b p) as [i q] eqn:Ea. injection E as <- <-.
    destruct (alloc_taken _ _ _ _ _ _ H Ea) as [T1 T2 T3 T4 T5 T6 T7 T8 T9].
    assert (Hfresh : forall r, r ∈ hr -> (r < length (readers p))%nat) by (intros r' [o Eo]%(i_rheld _ _ _ H); by eapply lookup_lt_Some).
    rewrite T3, T1. split; [intros Hr%Hfresh; lia|]. split; [|split].
    + unfold reader_seen, reader_view. cbn. rewrite T3, list_lookup_middle by done. cbn. by rewrite T1.
    + intros j Hj. apply T2. by intros ->.
    + intros r' Hr. destruct (i_rheld _ _ _ H r' Hr) as [o Eo]. eapply reader_seen_same; [done| |].
      * cbn. rewrite T3. by apply lookup_app_l_Some.
      * apply T2. by eapply T9.
  - injection E as <- <-. destruct (i_rcached _ _ _ H r0) as (Hn & o & Eo & Ecl & Ed); [rewrite Ec; by left|].
    unfold owned. cbn. rewrite Eo. set (q := set_block_of _ _ _).
    destruct (set_block_of_rest (o_decoder o) b (set_reader_cache c p)) as (R1 & R2 & R3).
    destruct (frame_reader p q hd hr r0 o H Eo) as [F1 F2].
    { intros r' _. by unfold q; rewrite R2. }
    { intros j Hj. by unfold q; rewrite set_block_of_others. }
    split; [done|]. split; [|split; [done|]; intros r' Hr; apply F2; [done|by intros ->]].
    unfold reader_seen, reader_view, q. rewrite R2. cbn. rewrite Eo. cbn.
    rewrite set_block_of_new by done. cbn. by rewrite Ecl.
Qed.

Lemma frame_held_reader p p' hd hr r : Inv p hd hr -> r ∈ hr ->
  (forall r', r' <> r -> readers p' !! r' = readers p !! r') -> (forall j, j <> owned r p -> decoders p' !! j = decoders p !! j) ->
  (forall j, j ∈ hd -> ~ False -> decoders p' !! j = decoders p !! j) /\ forall r', r' ∈ hr -> ~ r = r' -> reader_seen p' r' = reader_seen p r'.
Proof.
  intros H Hr F G. destruct (i_rheld _ _ _ H r Hr) as [o Eo]. unfold owned in G. rewrite Eo in G.
  destruct (frame_reader _ _ _ _ _ _ H Eo F G) as [A B]. split; [by auto|]. intros r' Hr' Hne. by apply B; [|intros ->].
Qed.
Lemma alter_others {A} (f : A -> A) (i j : nat) (l : list A) : j <> i -> alter f i l !! j = l !! j.
Proof. intros. by rewrite alter_lookup, decide_False. Qed.
Lemma store_view_seen p hd hr r v : Inv p hd hr -> r ∈ hr -> reader_view (store_view r v p) r = Some v.
Proof.
  intros H Hr. destruct (i_rheld _ _ _ H r Hr) as [o Eo]. destruct (i_owned _ _ _ H r o Eo) as ([d Ed] & _).
  unfold reader_view, store_view, owned. cbn. rewrite Eo, alter_lookup, decide_True, Eo by done. cbn.
  rewrite alter_lookup, decide_True, Ed by done. cbn. by destruct v.
Qed.
Lemma registerReadCallback_frame r a p p' : registerReadCallback r a p = Ret p' -> decoders p' = decoders p /\ forall r', r' <> r -> readers p' !! r' = readers p !! r'.
Proof.
  unfold registerReadCallback. destruct (readers p !! r); [case_decide; [done|]|]; intros [= <-]; [|done].
  split; [done|]. intros r' Hr. by apply alter_others.
Qed.

(** C23. Freed decoders and readers are handed out again. In every state that
    users reach who free only what they hold, an allocated decoder or reader is
    held by nobody else and is as a new one over the block asked for - no field,
    no error, no read callback - whatever its last user left in it, but for one
    thing: the field's cursor of a recycled reader is the one its last user
    left. No step of one user changes what any other sees of the decoders and
    readers he holds, though each reader shares the store with the decoder it
    owns. *)
Theorem pool_transparent p hd hr a p' hd' hr' :
  reachable (p, Held hd hr) -> step (p, Held hd hr) a (p', Held hd' hr') ->
  (forall i, i ∈ hd -> ~ touches_decoder a i -> decoders p' !! i = decoders p !! i) /\
  (forall r, r ∈ hr -> ~ touches_reader a r -> reader_seen p' r = reader_seen p r) /\
  match a with
  | AllocDecoder b => exists i, i ∉ hd /\ hd' = {[i]} ∪ hd /\ decoders p' !! i = Some (new_decoder b)
  | AllocReader b => exists r, r ∉ hr /\ hr' = {[r]} ∪ hr /\
      reader_seen p' r = (Some (BinaryReader (new_decoder b) (allocated_cursor b p) (-1) INVALID false), Some [])
  | UseDecoder i d => decoders p' !! i = Some d
  | UseReader r v => reader_view p' r = Some v
  | _ => True
  end.
Proof.
  intros H%reachable_Inv S. cbn in H. inversion S; subst; cbn [touches_decoder touches_reader].
  - pose proof (alloc_taken _ _ _ _ _ _ H ltac:(eassumption)) as T. split; [intros j Hj _; apply (t_others _ _ _ _ _ T); intros ->; by destruct (t_free _ _ _ _ _ T)|].
    split; [|by exists i; destruct T]. intros r Hr _. eapply (frame_decoder _ _ _ _ i H); [apply T..|done].
  - split; [intros j Hj Hn; apply alter_others; by intros ->|]. split; [|done].
    intros r Hr _. apply (frame_decoder _ _ _ _ i H); [by eapply held_unowned|done| |done]. intros j Hj. by apply alter_others.
  - split; [intros j Hj Hn; apply alter_others; by intros ->|].
    split; [|destruct (i_held _ _ _ H i) as [d' Ed]; [done|]; cbn; by rewrite alter_lookup, decide_True, Ed].
    intros r Hr _. apply (frame_decoder _ _ _ _ i H); [by eapply held_unowned|done| |done]. intros j Hj. by apply alter_others.
  - destruct (reader_alloc_seen _ _ _ _ _ _ H ltac:(eassumption)) as (A & B & C & D). split; [by auto|]. split; [by auto|]. by exists r.
  - apply and_assoc. split; [|done]. apply (frame_held_reader _ _ _ _ r H); [done| |]; intros j Hj; by apply alter_others.
  - apply and_assoc. split; [|by eapply store_view_seen]. apply (frame_held_reader _ _ _ _ r H); [done| |]; intros j Hj; by apply alter_others.
  - apply and_assoc. split; [|done]. destruct (registerReadCallback_frame _ _ _ _ ltac:(eassumption)) as [A B].
    apply (frame_held_reader _ _ _ _ r H); [done|done|]. intros j _. by rewrite A.
Qed.

(** A reader of two bytes, moved on to its second field and freed; the next user
    gets the same object. *)
Definition first_block : block := Block [8; 1; 16; 2] None None.
Definition first_view : reader := BinaryReader (BinaryDecoder [8; 1; 16; 2] 0 4 3 true) 2 2 VARINT true.
Definition pool1 : pool := snd (reader_alloc (Some first_block) (Pool [] [] [] [])).
Definition pool3 : pool := reader_free 0 (store_view 0 first_view pool1).
Lemma pool3_reachable : reachable (pool3, Held ∅ (({[0%nat]} ∪ ∅) ∖ {[0%nat]})).
Proof.
  eapply reachable_step; [|apply step_free_reader; set_solver].
  eapply reachable_step; [|apply step_use_reader; set_solver].
  eapply reachable_step; [apply reachable_start|]. by apply step_alloc_reader with (b := Some first_block).
Qed.
Definition second_block : block := Block [24; 7; 9] (Some 1) (Some 2).
Lemma pool_transparent_witness :
  reader_alloc (Some second_block) pool3 = (0%nat, snd (reader_alloc (Some second_block) pool3)) /\
  exists r, r ∉ ({[0%nat]} ∪ ∅) ∖ ({[0%nat]} : gset nat) /\ {[0%nat]} ∪ (({[0%nat]} ∪ ∅) ∖ ({[0%nat]} : gset nat)) = {[r]} ∪ (({[0%nat]} ∪ ∅) ∖ {[0%nat]}) /\
    reader_seen (snd (reader_alloc (Some second_block) pool3)) r = (Some (BinaryReader (BinaryDecoder [24; 7; 9] 1 3 1 false) 2 (-1) INVALID false), Some []).
Proof.
  split; [reflexivity|].
  refine (proj2 (proj2 (pool_transparent pool3 ∅ (({[0%nat]} ∪ ∅) ∖ {[0%nat]}) (AllocReader (Some second_block)) (snd (reader_alloc (Some second_block) pool3))
    ∅ ({[0%nat]} ∪ (({[0%nat]} ∪ ∅) ∖ {[0%nat]})) pool3_reachable _))).
  by apply step_alloc_reader.
Defined.

(** ** What a recycled reader does not forget *)

(** [free] leaves the field's cursor, so [getFieldCursor] of the next user's
    reader is the last field of the previous one, where a new reader has the
    start of its block. *)
Lemma recycled_field_cursor :
  option_map fieldCursor_ (reader_view (snd (reader_alloc (Some second_block) pool3)) 0) = Some 2 /\
  option_map fieldCursor_ (reader_view (snd (new_reader (Some second_block) pool3)) 1) = Some 1.
Proof. split; reflexivity. Qed.
(** An object freed twice is handed to two users: the hypothesis on what users
    free is needed. *)
Lemma keep_room i c : (length c < 100)%nat -> keep i c = i :: c.
Proof. unfold keep. intros H%Nat.ltb_lt. by rewrite H. Qed.
Lemma double_free_shared p i : (length (decoder_cache p) < 99)%nat ->
  let '(j, p') := decoder_alloc None (decoder_free i (decoder_free i p)) in j = i /\ fst (decoder_alloc None p') = i.
Proof.
  intros Hl. unfold decoder_free. cbn [decoder_cache update_decoder set_decoder_cache set_decoders].
  rewrite (keep_room i (decoder_cache p)) by lia. by rewrite keep_room by (cbn; lia).
Qed.
