(* ===== verification/Int64.v ===== *)
(** The 64-bit integers of google-protobuf (bundle.js 7119-7133 and 7233-7241):
    the language's numbers hold 53 bits, so the library keeps two halves of 32
    bits and computes on them, and it prints and reads them as decimal numerals
    and as strings of eight characters ("hashes").

    Numbers are integers; those above [2 ^ 53] are rounded where the code
    computes one. *)

From S2P Require Import Prelude JsVal Int32 TextEncoding Labels.

(** ** jspb.arith.UInt64 and Int64 *)

Record UInt64 := UInt64_ { lo : Z; hi : Z }.
#[global] Instance UInt64_eq_dec : EqDecision UInt64.
Proof. solve_decision. Defined.

Definition cmp (x a : UInt64) : Z :=
  if (hi x <? hi a) || ((hi x =? hi a) && (lo x <? lo a)) then -1
  else if (hi x =? hi a) && (lo x =? lo a) then 0 else 1.
Definition rightShift (x : UInt64) : UInt64 :=
  UInt64_ (u32 (Z.lor (shr (lo x) 1) (shl (Z.land (hi x) 1) 31))) (u32 (shr (hi x) 1)).
Definition leftShift (x : UInt64) : UInt64 :=
  UInt64_ (u32 (shl (lo x) 1)) (u32 (Z.lor (shl (hi x) 1) (shr (lo x) 31))).
Definition msb (x : UInt64) : bool := negb (Z.land (hi x) 2147483648 =? 0).
Definition lsb (x : UInt64) : bool := negb (Z.land (lo x) 1 =? 0).
Definition zero (x : UInt64) : bool := (lo x =? 0) && (hi x =? 0).
Definition add (x a : UInt64) : UInt64 :=
  UInt64_ (u32 (u32 (lo x + lo a)))
    (u32 (u32 (hi x + hi a) + (if 4294967296 <=? lo x + lo a then 1 else 0))).
Definition sub (x a : UInt64) : UInt64 :=
  UInt64_ (u32 (u32 (lo x - lo a)))
    (u32 (u32 (hi x - hi a) - (if lo x - lo a <? 0 then 1 else 0))).

(** [for (...; 4294967296 <= b;) b -= 4294967296, c += 1]: [b] is the sum of
    three products below 2^32, so two rounds at most are made. *)
Fixpoint carry (fuel : nat) (b c : Z) : Z * Z :=
  match fuel with
  | O => (b, c)
  | S f => if 4294967296 <=? b then carry f (b - 4294967296) (c + 1) else (b, c)
  end.
Definition mul32x32 (a b : Z) : UInt64 :=
  let c := Z.land a 65535 in
  let a := shr a 16 in
  let d := Z.land b 65535 in
  let e := shr b 16 in
  let b := c * d + 65536 * Z.land (c * e) 65535 + 65536 * Z.land (a * d) 65535 in
  let '(b, c) := carry 2 b (a * e + shr (c * e) 16 + shr (a * d) 16) in
  UInt64_ (u32 b) (u32 c).
Definition mul (x : UInt64) (a : Z) : UInt64 :=
  let b := mul32x32 (lo x) a in
  let a := mul32x32 (hi x) a in
  add b (UInt64_ 0 (lo a)).

(** [for (; !a.msb();) a = a.leftShift(), d = d.leftShift()]. *)
Fixpoint align (fuel : nat) (a d : UInt64) : option (UInt64 * UInt64) :=
  if msb a then Some (a, d)
  else match fuel with O => None | S f => align f (leftShift a) (leftShift d) end.
(** [for (; !d.zero();) 0 >= a.cmp(c) && (b = b.add(d), c = c.sub(a)), ...]. *)
Fixpoint divide (fuel : nat) (a b c d : UInt64) : option (UInt64 * UInt64) :=
  if zero d then Some (b, c)
  else
    match fuel with
    | O => None
    | S f =>
        let '(b, c) := if cmp a c <=? 0 then (add b d, sub c a) else (b, c) in
        divide f (rightShift a) b c (rightShift d)
    end.
(** Quotient and remainder; [Ret None] is the empty array of a division by 0.
    A divisor of 32 bits reaches the top in 63 shifts at most. *)
Definition div (x : UInt64) (a : Z) : outcome (option (UInt64 * UInt64)) :=
  if a =? 0 then Ret None
  else
    match align 63 (UInt64_ a 0) (UInt64_ 1 0) with
    | None => Running
    | Some (a, d) =>
        match divide 64 a (UInt64_ 0 0) x d with
        | None => Running
        | Some r => Ret (Some r)
        end
    end.

(** The loop of [toString]: a digit per round, twenty at most. *)
Fixpoint digits (fuel : nat) (b : UInt64) (a : jsstr) : outcome jsstr :=
  if zero b then Ret a
  else
    match fuel with
    | O => Running
    | S f =>
        r ← div b 10;
        match r with
        | Some (q, r) => digits f q (num_to_str (lo r) ++ a)
        | None => type_error (js "Cannot read properties of undefined (reading 'lo')")
        end
    end.
Definition UInt64_toString (x : UInt64) : outcome jsstr :=
  a ← digits 20 x []; Ret (if a ==? [] then js "0" else a).

(** [fromString]: None is null. *)
Fixpoint from_digits (a : jsstr) (b : UInt64) : option UInt64 :=
  match a with
  | [] => Some b
  | d :: a =>
      if (d <? 48) || (57 <? d) then None
      else from_digits a (add (mul b 10) (UInt64_ (d - 48) 0))
  end.
Definition UInt64_fromString (a : jsstr) : option UInt64 := from_digits a (UInt64_ 0 0).

(** Int64 has the same halves and the same [add] and [sub]. *)
Definition Int64_toString (x : UInt64) : outcome jsstr :=
  let a := negb (Z.land (hi x) 2147483648 =? 0) in
  let b := if a then sub (UInt64_ 0 0) x else x in
  s ← UInt64_toString b; Ret ((if a then js "-" else []) ++ s).
Definition Int64_fromString (a : jsstr) : option UInt64 :=
  let '(b, a) := match a with 45 :: a => (true, a) | _ => (false, a) end in
  a ← UInt64_fromString a; Some (if b : bool then sub (UInt64_ 0 0) a else a).

(** ** jspb.utils: numbers and halves

    The splitters leave the halves in [split64Low] and [split64High]; here they
    return them. *)

(** [~x] *)
Definition bnot (x : Z) : Z := Z.lnot (i32 x).

Definition splitUint64 (a : Z) : Z * Z :=
  let b := u32 a in (b, u32 ((a - b) / 4294967296)).
Definition splitInt64 (a : Z) : Z * Z :=
  let b := a <? 0 in
  let a := Z.abs a in
  let c := u32 a in
  let a := u32 ((a - c) / 4294967296) in
  if b then
    let a := u32 (bnot a) in
    let c := u32 (bnot c) + 1 in
    if 4294967295 <? c then (0, if 4294967295 <? a + 1 then 0 else a + 1) else (c, a)
  else (c, a).
Definition splitZigzag64 (a : Z) : Z * Z :=
  let b := a <? 0 in
  let '(a, c) := splitUint64 (2 * Z.abs a) in
  if b then
    if a =? 0 then (if c =? 0 then (4294967295, 4294967295) else (4294967295, c - 1)) else (a - 1, c)
  else (a, c).

(** The sum is rounded to a double; [b] times 2^32 is one. *)
Definition joinUint64 (a b : Z) : Z := dbl (b * 4294967296 + u32 a).
Definition joinInt64 (a b : Z) : Z :=
  let c := negb (Z.land b 2147483648 =? 0) in
  let '(a, b) :=
    if c then
      let a := u32 (bnot a + 1) in
      let b := u32 (bnot b) in
      (a, if a =? 0 then u32 (b + 1) else b)
    else (a, b) in
  let a := joinUint64 a b in
  if c then - a else a.

Definition toZigzag64 {A} (a b : Z) (c : Z -> Z -> A) : A :=
  let d := sar b 31 in
  c (Z.lxor (shl a 1) d) (Z.lxor (i32 (Z.lor (shl b 1) (shr a 31))) d).
Definition fromZigzag64 {A} (a b : Z) (c : Z -> Z -> A) : A :=
  let d := - Z.land a 1 in
  c (Z.lxor (i32 (Z.lor (shr a 1) (shl b 31))) d) (Z.lxor (shr b 1) d).
Definition joinZigzag64 (a b : Z) : Z := fromZigzag64 a b joinInt64.

(** ** Hashes: the eight bytes, lowest first, as characters *)

(** [a.charCodeAt(i)]; None is NaN. *)
Definition splitHash64 (a : jsstr) : Z * Z :=
  let c i := default 0 (at_ a i) in
  let half i := match at_ a i with
                | Some b => u32 (b + shl (c (i + 1)) 8 + shl (c (i + 2)) 16 + shl (c (i + 3)) 24)
                | None => 0
                end in
  (half 0, half 4).
Definition joinHash64 (a b : Z) : jsstr :=
  [Z.land (shr a 0) 255; Z.land (shr a 8) 255; Z.land (shr a 16) 255; Z.land (shr a 24) 255;
   Z.land (shr b 0) 255; Z.land (shr b 8) 255; Z.land (shr b 16) 255; Z.land (shr b 24) 255].
Definition hash64ToNumber (a : jsstr) (b : bool) : Z :=
  let '(a, c) := splitHash64 a in if b then joinInt64 a c else joinUint64 a c.
Definition numberToHash64 (a : Z) : jsstr := let '(a, b) := splitInt64 a in joinHash64 a b.

(** ** Decimal numerals *)

(** The inner function [c]: seven digits if [b], nothing for 0 otherwise. *)
Definition seven (a : Z) (b : bool) : jsstr :=
  let s := if a =? 0 then [] else num_to_str a in
  if b then skipn (length s) (js "0000000") ++ s else s.
Definition joinUnsignedDecimalString (a b : Z) : jsstr :=
  if b <=? 2097151 then num_to_str (dbl (4294967296 * b + a))
  else
    let d := Z.land (u32 (Z.lor (shr a 24) (shl b 8))) 16777215 in
    let b := Z.land (sar b 16) 65535 in
    let a := Z.land a 16777215 + 6777216 * d + 6710656 * b in
    let d := d + 8147497 * b in
    let b := b * 2 in
    let '(a, d) := if 10000000 <=? a then (Z.rem a 10000000, d + a / 10000000) else (a, d) in
    let '(d, b) := if 10000000 <=? d then (Z.rem d 10000000, b + d / 10000000) else (d, b) in
    seven b false ++ seven d (negb (b =? 0)) ++ seven a true.
Definition joinSignedDecimalString (a b : Z) : jsstr :=
  let c := negb (Z.land b 2147483648 =? 0) in
  let '(a, b) :=
    if c then let a := u32 (bnot a + 1) in (a, u32 (bnot b + (if a =? 0 then 1 else 0))) else (a, b) in
  let a := joinUnsignedDecimalString a b in
  if c then js "-" ++ a else a.
Definition hash64ToDecimalString (a : jsstr) (b : bool) : jsstr :=
  let '(a, c) := splitHash64 a in
  if b then joinSignedDecimalString a c else joinUnsignedDecimalString a c.
Definition hash64ArrayToDecimalStrings (a : list jsstr) (b : bool) : list jsstr :=
  map (fun x => hash64ToDecimalString x b) a.

(** The inner function [b]: the bytes [e] times [a] plus [b]. *)
Fixpoint muladd (a b : Z) (e : list Z) : list Z :=
  match e with
  | [] => []
  | x :: e =>
      if negb (a =? 1) || (0 <? b) then
        let b := a * x + b in Z.land b 255 :: muladd a (shr b 8) e
      else x :: e
  end.
Definition decimalStringToHash64 (a : jsstr) : outcome jsstr :=
  if a ==? [] then Throw (JErr AssertionErr (js "Assertion failed"))
  else
    let '(d, a) := match a with 45 :: a => (true, a) | _ => (false, a) end in
    let e := fold_left (fun e c => muladd 10 (c - 48) e) a (replicate 8 0) in
    Ret (if d : bool then muladd 1 1 (map (fun x => Z.land (Z.lnot x) 255) e) else e).
Definition splitDecimalString (a : jsstr) : outcome (Z * Z) :=
  h ← decimalStringToHash64 a; Ret (splitHash64 h).

(** ** Hexadecimal numerals *)

Definition toHexDigit_ (a : Z) : Z := (if a <? 10 then 48 + a else 97 - 10 + a) mod 65536.
Definition fromHexCharCode_ (a : Z) : Z := if 97 <=? a then a - 97 + 10 else a - 48.
Definition hash64ToHexString (a : jsstr) : jsstr :=
  js "0x" ++ concat (map (fun c => let d := default 0 (at_ a (7 - c)) in
                                   [toHexDigit_ (sar d 4); toHexDigit_ (Z.land d 15)])
                         [0; 1; 2; 3; 4; 5; 6; 7]).
Definition hexStringToHash64 (a : jsstr) : outcome jsstr :=
  let a := toLowerCase a in
  let c i := default 0 (at_ a i) in
  if (Z.of_nat (length a) =? 18) && (c 0 =? 48) && (c 1 =? 120) then
    Ret (map (fun i => (16 * fromHexCharCode_ (c (2 * i + 2)) + fromHexCharCode_ (c (2 * i + 3))) mod 65536)
             [7; 6; 5; 4; 3; 2; 1; 0])
  else Throw (JErr AssertionErr (js "Assertion failed")).

(** ** Counting varints *)

(** The bytes of a block that end a varint: those without their top bit. *)
Definition countVarints (a : list Z) (b c : Z) : Z :=
  let d := fold_left (fun d x => d + sar x 7) (firstn (Z.to_nat (c - b)) (skipn (Z.to_nat b) a)) 0 in
  c - b - d.
