(* ===== verification/Int64Spec.v ===== *)
(** 64-bit integers on two halves: the library's arithmetic is arithmetic modulo
    [2 ^ 64], its long division is division, its printers write the decimal
    numeral, its readers read it back, and the halves, hashes and zigzag codes
    are so many representations of one number. *)

From S2P Require Import Prelude JsVal Int32 TextEncoding Labels Utf8Step Wire WireReader WireSpec Message Numbers Int64.

Definition W32 : Z := 4294967296.

(** The number, and the halves of a number. *)
Definition int_of (x : UInt64) : Z := lo x + W32 * hi x.
Definition ok (x : UInt64) : Prop := 0 <= lo x < W32 /\ 0 <= hi x < W32.
Definition of_int (n : Z) : UInt64 := UInt64_ (n mod W32) (n / W32 mod W32).

Lemma land_1 x : Z.land x 1 = x mod 2. Proof. apply (land_mask x 1). lia. Qed.
Lemma land_16 x : Z.land x 65535 = x mod 65536. Proof. apply (land_mask x 16). lia. Qed.
Lemma land_24 x : Z.land x 16777215 = x mod 16777216. Proof. apply (land_mask x 24). lia. Qed.
Lemma u32_W z : u32 z = z mod W32. Proof. done. Qed.
Lemma of_value_ok n : ok (of_int n).
Proof. split; apply Z.mod_pos_bound; done. Qed.
Lemma int_of_of n : int_of (of_int n) = n mod (W32 * W32).
Proof. unfold int_of, of_int, W32. cbn. rewrite Z.rem_mul_r by lia. lia. Qed.
Lemma value_bound x : ok x -> 0 <= int_of x < W32 * W32.
Proof. unfold ok, int_of, W32. lia. Qed.
Lemma of_value_value x : ok x -> of_int (int_of x) = x.
Proof.
  destruct x as [l h]. unfold ok, of_int, int_of, W32. cbn. intros [Hl Hh]. f_equal; euclid.
Qed.
Lemma value_inj x y : ok x -> ok y -> int_of x = int_of y -> x = y.
Proof. intros Hx Hy E. by rewrite <-(of_value_value x), <-(of_value_value y), E. Qed.
Lemma of_value_mod n : of_int (n mod (W32 * W32)) = of_int n.
Proof. apply value_inj; [apply of_value_ok..|]. rewrite !int_of_of. by apply Z.mod_mod. Qed.
Lemma halves_of l h n : l = n mod W32 -> h = n / W32 mod W32 -> UInt64_ l h = of_int n.
Proof. by intros -> ->. Qed.

(** ** Sums, differences, shifts, order *)

Lemma add_value x y : ok x -> ok y -> add x y = of_int (int_of x + int_of y).
Proof.
  destruct x as [l h], y as [l' h']. unfold ok, add, int_of. cbn. intros [Hl Hh] [Hl' Hh'].
  apply halves_of; rewrite !u32_W; unfold W32 in *; [euclid|].
  destruct (Z.leb_spec 4294967296 (l + l')); euclid.
Qed.
Lemma sub_value x y : ok x -> ok y -> sub x y = of_int (int_of x - int_of y).
Proof.
  destruct x as [l h], y as [l' h']. unfold ok, sub, int_of. cbn. intros [Hl Hh] [Hl' Hh'].
  apply halves_of; rewrite !u32_W; unfold W32 in *; [euclid|].
  destruct (Z.ltb_spec (l - l') 0); euclid.
Qed.
Lemma cmp_value x y : ok x -> ok y ->
  cmp x y = if int_of x <? int_of y then -1 else if int_of x =? int_of y then 0 else 1.
Proof.
  destruct x as [l h], y as [l' h']. unfold ok, cmp, int_of, W32. cbn. intros [Hl Hh] [Hl' Hh'].
  bdestr; cbn; lia.
Qed.
Lemma zero_value x : ok x -> zero x = (int_of x =? 0).
Proof.
  destruct x as [l h]. unfold ok, zero, int_of, W32. cbn. intros [Hl Hh]. bdestr; cbn; lia.
Qed.

(** The top bit of a half. *)
Lemma top_bit z : 0 <= z < W32 -> Z.land z 2147483648 = if z <? 2147483648 then 0 else 2147483648.
Proof.
  intros Hz. unfold W32 in Hz. change 2147483648 with (2 ^ 31). rewrite <-(Z.shiftl_1_l 31).
  apply Z.bits_inj'. intros k Hk. rewrite Z.land_spec, Z.shiftl_1_l, Z.pow2_bits_eqb by lia.
  destruct (Z.eqb_spec 31 k) as [<-|].
  - rewrite andb_true_r. destruct (Z.ltb_spec z (2 ^ 31)).
    + rewrite Z.bits_0. destruct (Z.eq_dec z 0) as [->|]; [apply Z.bits_0|].
      apply Z.bits_above_log2; [lia|]. apply Z.log2_lt_pow2; lia.
    + rewrite Z.pow2_bits_true by lia. apply Z.testbit_true; [lia|].
      replace (z / 2 ^ 31) with 1 by euclid. done.
  - rewrite andb_false_r. destruct (Z.ltb_spec z (2 ^ 31)); [by rewrite Z.bits_0|].
    rewrite Z.pow2_bits_false by done. done.
Qed.
Lemma msb_value x : ok x -> msb x = (W32 * W32 / 2 <=? int_of x).
Proof.
  destruct x as [l h]. unfold ok, msb, int_of. cbn. intros [Hl Hh]. rewrite top_bit by done.
  unfold W32 in *. destruct (Z.ltb_spec h 2147483648), (Z.leb_spec (4294967296 * 4294967296 / 2) (l + 4294967296 * h)); cbn; first [done|euclid].
Qed.

(** The words of the shifts. *)
Lemma u32_land z : u32 z = Z.land z (Z.ones 32).
Proof. rewrite Z.land_ones by lia. done. Qed.
Lemma u32_lor a b : u32 (Z.lor a b) = Z.lor (u32 a) (u32 b).
Proof. rewrite !u32_land. apply Z.land_lor_distr_l. Qed.
Lemma u32_lxor a b : u32 (Z.lxor a b) = Z.lxor (u32 a) (u32 b).
Proof.
  rewrite !u32_land. apply Z.bits_inj'. intros k _.
  rewrite !Z.lxor_spec, !Z.land_spec, !Z.lxor_spec. destruct (Z.testbit (Z.ones 32) k); by rewrite ?andb_true_r, ?andb_false_r.
Qed.
Lemma u32_shl a n : 0 <= n -> u32 (shl a n) = a * 2 ^ n mod W32.
Proof.
  intros Hn. unfold shl. rewrite u32_i32, u32_W, Z.shiftl_mul_pow2 by done.
  rewrite <-(Z.mul_mod_idemp_l (i32 a)), <-(Z.mul_mod_idemp_l a) by done. do 2 f_equal. apply u32_i32.
Qed.
Lemma shr_div a n : 0 <= n -> shr a n = a mod W32 / 2 ^ n.
Proof. intros Hn. unfold shr. by rewrite Z.shiftr_div_pow2. Qed.
Lemma u32_shr a n : 0 <= n -> u32 (shr a n) = a mod W32 / 2 ^ n.
Proof.
  intros Hn. rewrite shr_div by done. apply u32_id. pose proof (Z.mod_pos_bound a W32 ltac:(done)).
  split; [apply Z.div_pos; [lia|by apply Z.pow_pos_nonneg]|].
  eapply Z.le_lt_trans; [apply Z.div_le_upper_bound with (q := a mod W32); [by apply Z.pow_pos_nonneg|]|apply H].
  assert (0 < 2 ^ n) by (by apply Z.pow_pos_nonneg). nia.
Qed.

Lemma leftShift_value x : ok x -> leftShift x = of_int (2 * int_of x).
Proof.
  destruct x as [l h]. unfold ok, leftShift, int_of. cbn [lo hi]. intros [Hl Hh].
  rewrite u32_lor, !u32_shl, u32_shr by lia. apply halves_of; pow_norm; unfold W32 in *; [euclid|].
  replace (h * 2 mod 4294967296) with (h mod 2147483648 * 2 ^ 1) by (pow_norm; euclid).
  rewrite lor_add_disjoint; pow_norm; euclid.
Qed.
Lemma rightShift_value x : ok x -> rightShift x = of_int (int_of x / 2).
Proof.
  destruct x as [l h]. unfold ok, rightShift, int_of. cbn [lo hi]. intros [Hl Hh].
  rewrite u32_lor, u32_shl, !u32_shr by lia. apply halves_of; pow_norm; unfold W32 in *; [|euclid].
  rewrite land_1, Z.lor_comm.
  replace (h mod 2 * 2147483648 mod 4294967296) with (h mod 2 * 2 ^ 31) by (pow_norm; euclid).
  rewrite lor_add_disjoint; pow_norm; euclid.
Qed.

(** ** Products *)

Lemma carry_value b c : 0 <= b < 3 * W32 -> carry 2 b c = (b mod W32, c + b / W32).
Proof.
  unfold W32. intros Hb. cbn [carry]. destruct (Z.leb_spec 4294967296 b); [|f_equal; euclid].
  destruct (Z.leb_spec 4294967296 (b - 4294967296)); f_equal; euclid.
Qed.
Lemma mul32x32_value a b : 0 <= a < W32 -> 0 <= b < W32 -> mul32x32 a b = of_int (a * b).
Proof.
  intros Ha Hb. unfold mul32x32. rewrite !land_16, !shr_div by lia. change (2 ^ 16) with 65536.
  rewrite (Z.mod_small a W32), (Z.mod_small b W32) by done.
  set (a0 := a mod 65536). set (a1 := a / 65536). set (b0 := b mod 65536). set (b1 := b / 65536).
  assert (Ea : a = a0 + 65536 * a1 /\ 0 <= a0 < 65536 /\ 0 <= a1 < 65536) by (unfold W32 in Ha; subst a0 a1; euclid).
  assert (Eb : b = b0 + 65536 * b1 /\ 0 <= b0 < 65536 /\ 0 <= b1 < 65536) by (unfold W32 in Hb; subst b0 b1; euclid).
  clearbody a0 a1 b0 b1. destruct Ea as (-> & Ha0 & Ha1), Eb as (-> & Hb0 & Hb1).
  assert (Hlt : forall x y, 0 <= x < 65536 -> 0 <= y < 65536 -> 0 <= x * y < W32 - 65536) by (unfold W32; intros; nia).
  pose proof (Hlt _ _ Ha0 Hb0) as H00. pose proof (Hlt _ _ Ha0 Hb1) as H01.
  pose proof (Hlt _ _ Ha1 Hb0) as H10. pose proof (Hlt _ _ Ha1 Hb1) as H11.
  rewrite (Z.mod_small (a0 * b1) W32), (Z.mod_small (a1 * b0) W32) by lia.
  replace ((a0 + 65536 * a1) * (b0 + 65536 * b1)) with (a0 * b0 + 65536 * (a0 * b1) + 65536 * (a1 * b0) + W32 * (a1 * b1)) by (unfold W32; lia).
  generalize dependent (a0 * b0). intros p00 H00. generalize dependent (a0 * b1). intros p01 H01.
  generalize dependent (a1 * b0). intros p10 H10. generalize dependent (a1 * b1). intros p11 H11.
  rewrite carry_value by (unfold W32 in *; euclid). apply halves_of; rewrite u32_W; unfold W32 in *; euclid.
Qed.
Lemma mul_value x a : ok x -> 0 <= a < W32 -> mul x a = of_int (int_of x * a).
Proof.
  intros Hx Ha. unfold mul. rewrite !mul32x32_value by (done || apply Hx).
  rewrite add_value by (first [apply of_value_ok | split; cbn; [unfold W32; lia|apply Z.mod_pos_bound; done]]).
  rewrite int_of_of, <-of_value_mod, <-(of_value_mod (int_of x * a)). f_equal. unfold int_of, of_int. cbn.
  rewrite Z.add_mod_idemp_l by done.
  replace ((lo x + W32 * hi x) * a) with (lo x * a + W32 * (hi x * a)) by lia.
  rewrite (Z.div_mod (hi x * a) W32) at 2 by done.
  replace (lo x * a + W32 * (W32 * (hi x * a / W32) + hi x * a mod W32))
    with (lo x * a + (0 + W32 * (hi x * a mod W32)) + hi x * a / W32 * (W32 * W32)) by lia.
  by rewrite Z.mod_add.
Qed.

(** ** Long division *)

Lemma value_0 : int_of (UInt64_ 0 0) = 0. Proof. done. Qed.
Lemma value_one : int_of (UInt64_ 1 0) = 1. Proof. done. Qed.
Lemma value_small n : 0 <= n < W32 * W32 -> int_of (of_int n) = n.
Proof. intros. rewrite int_of_of. by apply Z.mod_small. Qed.

Lemma align_value v k : forall fuel a d, 1 <= v -> ok a -> ok d ->
  int_of a = v * 2 ^ k -> int_of d = 2 ^ k -> 0 <= k -> k + Z.of_nat fuel = 63 ->
  exists k' a' d', align fuel a d = Some (a', d') /\ ok a' /\ ok d' /\ k <= k' <= 63 /\
    int_of a' = v * 2 ^ k' /\ int_of d' = 2 ^ k' /\ W32 * W32 / 2 <= int_of a'.
Proof.
  intros fuel. revert k. induction fuel as [|f IH]; intros k a d Hv Oa Od Ea Ed Hk Hf; cbn [align].
  - replace k with 63 in * by lia. rewrite msb_value by done.
    assert (W32 * W32 / 2 <= int_of a) by (rewrite Ea; unfold W32; change (4294967296 * 4294967296 / 2) with (2 ^ 63); nia).
    rewrite (proj2 (Z.leb_le _ _)) by done. exists 63, a, d. naive_solver lia.
  - rewrite msb_value by done. destruct (Z.leb_spec (W32 * W32 / 2) (int_of a)) as [H|H].
    + exists k, a, d. naive_solver lia.
    + change (W32 * W32 / 2) with (2 ^ 63) in H. change (W32 * W32) with (2 * 2 ^ 63).
      assert (0 < 2 ^ k) by (apply Z.pow_pos_nonneg; lia).
      assert (int_of d <= int_of a) by (rewrite Ea, Ed; nia).
      pose proof (value_bound a Oa). pose proof (value_bound d Od).
      destruct (IH (k + 1) (leftShift a) (leftShift d)) as (k' & a' & d' & E & R); try lia;
        rewrite ?leftShift_value by done; try apply of_value_ok.
      * rewrite value_small, Ea, Z.pow_add_r by (change (W32 * W32) with (2 * 2 ^ 63); lia). lia.
      * rewrite value_small, Ed, Z.pow_add_r by (change (W32 * W32) with (2 * 2 ^ 63); lia). lia.
      * exists k', a', d'. rewrite <-!leftShift_value by done. split; [exact E|]. naive_solver lia.
Qed.

(** One round: the divisor is taken off when it fits. *)
Lemma divide_step v a b c d p : 1 <= v -> ok a -> ok b -> ok c -> ok d -> 0 < p ->
  int_of a = v * p -> int_of d = p -> int_of c < 2 * int_of a -> int_of b * v + int_of c < W32 * W32 ->
  exists b' c', (if cmp a c <=? 0 then (add b d, sub c a) else (b, c)) = (b', c') /\ ok b' /\ ok c' /\
    int_of b' * v + int_of c' = int_of b * v + int_of c /\ int_of c' < int_of a.
Proof.
  intros Hv Oa Ob Oc Od Hp Ea Ed Hc Hn. rewrite cmp_value by done.
  pose proof (value_bound a Oa). pose proof (value_bound b Ob). pose proof (value_bound c Oc).
  destruct (Z.leb_spec (int_of a) (int_of c)) as [Hle|Hlt].
  - exists (add b d), (sub c a). rewrite add_value, sub_value by done.
    assert (int_of b + int_of d < W32 * W32) by (rewrite Ed; nia).
    rewrite !value_small by lia.
    split; [by destruct (Z.ltb_spec (int_of a) (int_of c)), (Z.eqb_spec (int_of a) (int_of c)); (lia || done)|].
    split; [apply of_value_ok|]. split; [apply of_value_ok|]. split; [rewrite Ea, Ed; lia|lia].
  - exists b, c. rewrite (proj2 (Z.ltb_ge _ _)), (proj2 (Z.eqb_neq _ _)) by lia. done.
Qed.

Lemma divide_value v : 1 <= v -> forall k fuel a b c d, (k < fuel)%nat -> ok a -> ok b -> ok c -> ok d ->
  int_of a = v * 2 ^ Z.of_nat k -> int_of d = 2 ^ Z.of_nat k -> int_of c < 2 * int_of a ->
  int_of b * v + int_of c < W32 * W32 ->
  exists q r, divide fuel a b c d = Some (q, r) /\ ok q /\ ok r /\
    int_of q * v + int_of r = int_of b * v + int_of c /\ int_of r < v.
Proof.
  intros Hv. induction k as [|k IH]; intros [|f] a b c d Hf Oa Ob Oc Od Ea Ed Hc Hn; try lia; cbn [divide].
  all: pose proof (value_bound a Oa); pose proof (value_bound d Od).
  all: assert (0 < int_of d) by (rewrite Ed; apply Z.pow_pos_nonneg; lia).
  all: rewrite zero_value, (proj2 (Z.eqb_neq (int_of d) 0)) by (done || lia).
  all: destruct (divide_step v a b c d (int_of d)) as (b' & c' & -> & Ob' & Oc' & Hs & Hr); try done; try congruence.
  - assert (E0 : zero (rightShift d) = true).
    { rewrite rightShift_value, zero_value, Ed by (done || apply of_value_ok). done. }
    exists b', c'. destruct f; cbn [divide]; rewrite E0; (split; [done|]); (split; [done|]); (split; [done|]);
      (split; [done|]); change (2 ^ Z.of_nat 0) with 1 in Ea; lia.
  - rewrite !Nat2Z.inj_succ, Z.pow_succ_r in Ea, Ed by lia.
    assert (Ea' : int_of (rightShift a) = v * 2 ^ Z.of_nat k).
    { rewrite rightShift_value, value_small, Ea by (done || (split; [apply Z.div_pos|apply Z.div_lt_upper_bound]; lia)).
      replace (v * (2 * 2 ^ Z.of_nat k)) with (v * 2 ^ Z.of_nat k * 2) by lia. by apply Z.div_mul. }
    assert (Ed' : int_of (rightShift d) = 2 ^ Z.of_nat k).
    { rewrite rightShift_value, value_small, Ed by (done || (split; [apply Z.div_pos|apply Z.div_lt_upper_bound]; lia)).
      rewrite Z.mul_comm. by apply Z.div_mul. }
    rewrite <-Hs. apply IH; try done; [lia| | |lia|lia]; rewrite rightShift_value by done; apply of_value_ok.
Qed.

Lemma div_value x a : ok x -> 1 <= a < W32 ->
  exists q r, div x a = Ret (Some (q, r)) /\ ok q /\ ok r /\
    int_of q = int_of x / a /\ int_of r = int_of x mod a.
Proof.
  intros Ox Ha. pose proof (value_bound x Ox) as Bx. unfold div. rewrite (proj2 (Z.eqb_neq a 0)) by lia.
  assert (Oa : ok (UInt64_ a 0)) by (split; cbn; unfold W32 in *; lia).
  assert (O1 : ok (UInt64_ 1 0)) by (split; cbn; unfold W32; lia).
  destruct (align_value a 0 63 (UInt64_ a 0) (UInt64_ 1 0)) as (k & a' & d' & -> & Oa' & Od' & Hk & Ea & Ed & Htop);
    first [done|lia|unfold int_of; cbn; lia|idtac].
  destruct (divide_value a ltac:(lia) (Z.to_nat k) 64 a' (UInt64_ 0 0) x d') as (q & r & -> & Oq & Or & E & Hr);
    rewrite ?Z2Nat.id, ?value_0 by lia; first [done|lia|change (W32 * W32) with (2 * (W32 * W32 / 2)) in Bx; lia|idtac].
  exists q, r. do 3 (split; [done|]). rewrite value_0 in E.
  pose proof (value_bound r Or).
  split; [apply Z.div_unique with (int_of r)|apply Z.mod_unique with (int_of q)]; lia.
Qed.

(** ** Decimal numerals *)

(** A numeral's last is_digit. *)
Lemma dec_digits_acc fuel : forall n acc, dec_digits fuel n acc = dec_digits fuel n [] ++ acc.
Proof.
  induction fuel as [|f IH]; intros n acc; cbn [dec_digits]; [done|].
  destruct (n <? 10); [done|]. by rewrite IH, (IH _ [_]), <-app_assoc.
Qed.
Lemma dec_digits_fuel f : forall g n, 0 <= n < 2 ^ Z.of_nat f -> n < 2 ^ Z.of_nat g -> (0 < f)%nat -> (0 < g)%nat ->
  dec_digits f n [] = dec_digits g n [].
Proof.
  induction f as [|f IH]; intros [|g] n Hf Hg Pf Pg; try lia. cbn [dec_digits].
  destruct (Z.ltb_spec n 10) as [Hs|Hs]; [done|]. rewrite !(dec_digits_acc _ (n / 10) [_]). f_equal.
  rewrite Nat2Z.inj_succ, Z.pow_succ_r in Hf, Hg by lia.
  assert (H4 : (0 < f)%nat /\ (0 < g)%nat).
  { split; [destruct f|destruct g]; try lia; change (2 * 2 ^ Z.of_nat 0) with 2 in *; lia. }
  apply IH; try tauto; euclid.
Qed.
Lemma num_to_str_last n : 10 <= n -> num_to_str n = num_to_str (n / 10) ++ [48 + n mod 10].
Proof.
  intros Hn. unfold num_to_str. assert (1 <= n / 10) by euclid. rewrite !(proj2 (Z.ltb_ge _ 0)) by lia.
  cbn [dec_digits]. rewrite (proj2 (Z.ltb_ge n 10)), dec_digits_acc by lia. f_equal.
  pose proof (Z.log2_spec n ltac:(lia)) as L. pose proof (Z.log2_nonneg n).
  assert (0 < Z.log2 n) by (apply Z.log2_pos; lia).
  change (dec_digits (Z.to_nat (Z.log2 n)) (n / 10) [] = dec_digits (S (Z.to_nat (Z.log2 (n / 10)))) (n / 10) []).
  pose proof (Z.log2_spec (n / 10) ltac:(lia)) as L'. pose proof (Z.log2_nonneg (n / 10)).
  apply dec_digits_fuel; try lia.
  - rewrite Z2Nat.id by lia. rewrite Z.pow_succ_r in L by lia. euclid.
  - rewrite Nat2Z.inj_succ, Z2Nat.id by lia. apply L'.
Qed.
Lemma num_to_str_digit n : 0 <= n < 10 -> num_to_str n = [48 + n].
Proof.
  intros Hn. unfold num_to_str. rewrite (proj2 (Z.ltb_ge n 0)) by lia. cbn [dec_digits].
  rewrite (proj2 (Z.ltb_lt n 10)), Z.mod_small by lia. done.
Qed.

Lemma digits_numeral fuel : forall b a, ok b -> 0 < int_of b < 10 ^ Z.of_nat fuel ->
  digits fuel b a = Ret (num_to_str (int_of b) ++ a).
Proof.
  induction fuel as [|f IH]; intros b a Ob Hb.
  { change (10 ^ Z.of_nat 0) with 1 in Hb. lia. }
  cbn [digits]. rewrite zero_value, (proj2 (Z.eqb_neq _ 0)) by (done || lia).
  destruct (div_value b 10 Ob) as (q & r & -> & Oq & Or & Eq & Er); [done|]. cbn [mbind outcome_bind].
  assert (Elo : lo r = int_of b mod 10).
  { destruct Or as [Hlo Hhi]. rewrite <-Er. unfold int_of, W32 in *. pose proof (Z.mod_pos_bound (lo b + 4294967296 * hi b) 10). lia. }
  rewrite Elo, num_to_str_digit by (apply Z.mod_pos_bound; lia).
  rewrite Nat2Z.inj_succ, Z.pow_succ_r in Hb by lia.
  destruct (Z.lt_ge_cases (int_of b) 10) as [Hs|Hs].
  - rewrite num_to_str_digit, (Z.mod_small (int_of b)) by lia.
    destruct f; cbn [digits]; rewrite zero_value, Eq, Z.div_small by (done || lia); done.
  - rewrite IH by (done || (rewrite Eq; euclid)). rewrite Eq, (num_to_str_last (int_of b)), <-app_assoc by lia. done.
Qed.
Lemma UInt64_numeral x : ok x -> UInt64_toString x = Ret (num_to_str (int_of x)).
Proof.
  intros Ox. pose proof (value_bound x Ox) as Bx. unfold UInt64_toString.
  destruct (Z.eq_dec (int_of x) 0) as [E|E].
  - cbn [digits]. rewrite zero_value, E by done. done.
  - rewrite digits_numeral by (done || (split; [lia|]; eapply Z.lt_trans; [apply Bx|done])).
    cbn [mbind outcome_bind]. rewrite app_nil_r. case_bool_decide as H; [|done].
    destruct (num_to_str_spec (int_of x)) as (_ & _ & [Hl|Hl]); [lia|by rewrite H in Hl|].
    destruct (num_to_str_spec (int_of x)) as (_ & Hlt & _); [lia|]. rewrite H in Hlt. cbn in Hlt. lia.
Qed.

Definition is_digit (c : Z) : bool := (48 <=? c) && (c <=? 57).
Lemma from_digits_value a : forall b, ok b ->
  from_digits a b =
    if forallb is_digit a then Some (of_int (int_of b * 10 ^ Z.of_nat (length a) + dec_val a)) else None.
Proof.
  induction a as [|d a IH]; intros b Ob; cbn [from_digits forallb length].
  - rewrite Z.mul_1_r. unfold dec_val. cbn. by rewrite Z.add_0_r, of_value_value.
  - unfold is_digit at 1. destruct (Z.ltb_spec d 48), (Z.ltb_spec 57 d), (Z.leb_spec 48 d), (Z.leb_spec d 57);
      cbn [orb andb]; try lia; try done.
    assert (O1 : ok (UInt64_ (d - 48) 0)) by (split; cbn; unfold W32; lia).
    rewrite IH by (rewrite add_value; (apply of_value_ok || by rewrite ?mul_value; try apply of_value_ok)).
    destruct (forallb is_digit a); [|done]. f_equal.
    rewrite mul_value, add_value by (first [done|apply of_value_ok]). rewrite !int_of_of.
    rewrite <-of_value_mod, <-(of_value_mod (int_of b * 10 ^ Z.of_nat (S (length a)) + dec_val (d :: a))). f_equal.
    change (int_of (UInt64_ (d - 48) 0)) with (d - 48 + W32 * 0).
    rewrite Z.add_mod_idemp_l, <-Z.add_mod_idemp_l, Z.mul_mod_idemp_l, Z.add_mod_idemp_l by done.
    f_equal. change (d :: a) with ([d] ++ a). rewrite dec_val_app.
    change (dec_val [d]) with (0 * 10 + (d - 48)). rewrite Nat2Z.inj_succ, Z.pow_succ_r by lia. lia.
Qed.

Lemma dec_digits_digit fuel : forall n acc, 0 <= n -> forallb is_digit acc = true -> forallb is_digit (dec_digits fuel n acc) = true.
Proof.
  induction fuel as [|f IH]; intros n acc Hn Ha; cbn [dec_digits]; [done|].
  assert (Hd : forallb is_digit (48 + n mod 10 :: acc) = true).
  { cbn [forallb]. rewrite Ha, andb_true_r. unfold is_digit. pose proof (Z.mod_pos_bound n 10).
    by rewrite !(proj2 (Z.leb_le _ _)) by lia. }
  destruct (n <? 10); [done|]. apply IH; [|done]. apply Z.div_pos; lia.
Qed.
Lemma num_to_str_digits n : 0 <= n -> forallb is_digit (num_to_str n) = true.
Proof. intros Hn. unfold num_to_str. rewrite (proj2 (Z.ltb_ge n 0)) by lia. by apply dec_digits_digit. Qed.
Lemma num_to_str_val n : 0 <= n -> dec_val (num_to_str n) = n.
Proof. intros Hn. by destruct (num_to_str_spec n Hn). Qed.
Lemma num_to_str_neg n : n < 0 -> num_to_str n = 45 :: num_to_str (- n).
Proof. intros Hn. unfold num_to_str. by rewrite (proj2 (Z.ltb_lt n 0)), (proj2 (Z.ltb_ge (- n) 0)) by lia. Qed.
Lemma num_to_str_head n : 0 <= n -> exists c s, num_to_str n = c :: s /\ c <> 45.
Proof.
  intros Hn. pose proof (num_to_str_digits n Hn) as Hd. destruct (num_to_str n) as [|c s] eqn:E.
  - destruct (num_to_str_spec n Hn) as (_ & _ & [Hl|Hl]); [by rewrite E in Hl|].
    destruct (num_to_str_spec n Hn) as (_ & Hlt & _). rewrite E in Hlt. cbn in Hlt.
    rewrite E in Hl. cbn in Hl. replace n with 0 in E by lia. done.
  - exists c, s. split; [done|]. cbn in Hd. apply andb_true_iff in Hd as [Hd _]. unfold is_digit in Hd. lia.
Qed.

(** ** The signed reading *)

Definition signed64 (n : Z) : Z := if n mod (W32 * W32) <? W32 * W32 / 2 then n mod (W32 * W32) else n mod (W32 * W32) - W32 * W32.
Lemma signed_id n : - (W32 * W32 / 2) <= n < W32 * W32 / 2 -> signed64 n = n.
Proof.
  unfold signed64, W32. change (4294967296 * 4294967296 / 2) with 9223372036854775808.
  change (4294967296 * 4294967296) with 18446744073709551616. intros Hn. destruct (Z.lt_ge_cases n 0).
  - replace (n mod 18446744073709551616) with (n + 18446744073709551616) by euclid.
    rewrite (proj2 (Z.ltb_ge _ _)); lia.
  - rewrite Z.mod_small, (proj2 (Z.ltb_lt _ _)); lia.
Qed.
Lemma signed_small n : 0 <= n < W32 * W32 -> signed64 n = if n <? W32 * W32 / 2 then n else n - W32 * W32.
Proof. intros. unfold signed64. by rewrite Z.mod_small. Qed.
Lemma of_value_signed n : of_int (signed64 n) = of_int n.
Proof.
  unfold signed64. destruct (_ <? _); [apply of_value_mod|]. rewrite <-of_value_mod.
  rewrite <-(Z_mod_plus_full _ 1), Z.mul_1_l, Z.sub_add, Z.mod_mod by done. apply of_value_mod.
Qed.
Lemma negative_value x : ok x -> negb (Z.land (hi x) 2147483648 =? 0) = (signed64 (int_of x) <? 0).
Proof.
  intros Ox. change (negb (Z.land (hi x) 2147483648 =? 0)) with (msb x). rewrite msb_value by done.
  pose proof (value_bound x Ox). unfold signed64. rewrite Z.mod_small by done. unfold W32 in *.
  destruct (Z.leb_spec (4294967296 * 4294967296 / 2) (int_of x)), (Z.ltb_spec (int_of x) (4294967296 * 4294967296 / 2));
    lia.
Qed.
Lemma signed_neg x : ok x -> signed64 (int_of x) < 0 -> int_of (sub (UInt64_ 0 0) x) = - signed64 (int_of x).
Proof.
  intros Ox Hs. pose proof (value_bound x Ox) as Bx.
  rewrite sub_value, int_of_of, value_0 by (done || (split; cbn; unfold W32; lia)).
  rewrite signed_small in * by done. destruct (Z.ltb_spec (int_of x) (W32 * W32 / 2)); [lia|]. unfold W32 in *. euclid.
Qed.
Lemma signed_nonneg x : ok x -> 0 <= signed64 (int_of x) -> signed64 (int_of x) = int_of x.
Proof.
  intros Ox Hs. pose proof (value_bound x Ox) as Bx. rewrite signed_small in * by done.
  destruct (Z.ltb_spec (int_of x) (W32 * W32 / 2)); lia.
Qed.

Lemma Int64_numeral x : ok x -> Int64_toString x = Ret (num_to_str (signed64 (int_of x))).
Proof.
  intros Ox. unfold Int64_toString. rewrite negative_value by done. cbv zeta.
  destruct (Z.ltb_spec (signed64 (int_of x)) 0) as [H|H].
  - rewrite UInt64_numeral by (rewrite sub_value by (done || (split; cbn; unfold W32; lia)); apply of_value_ok).
    rewrite signed_neg by done. cbn [mbind outcome_bind]. by rewrite (num_to_str_neg (signed64 _)).
  - rewrite UInt64_numeral by done. cbn [mbind outcome_bind]. by rewrite signed_nonneg.
Qed.

(** ** The printer that works in base 10^7 *)

Fixpoint last_digits (k : nat) (r : Z) : jsstr :=
  match k with O => [] | S k => last_digits k (r / 10) ++ [48 + r mod 10] end.
Lemma num_to_str_split k : forall m r, 0 < m -> 0 <= r < 10 ^ Z.of_nat k ->
  num_to_str (m * 10 ^ Z.of_nat k + r) = num_to_str m ++ last_digits k r.
Proof.
  induction k as [|k IH]; intros m r Hm Hr; cbn [last_digits].
  - change (10 ^ Z.of_nat 0) with 1 in *. rewrite app_nil_r. f_equal. lia.
  - rewrite Nat2Z.inj_succ, Z.pow_succ_r in * by lia. assert (0 < 10 ^ Z.of_nat k) by (apply Z.pow_pos_nonneg; lia).
    rewrite num_to_str_last by nia. rewrite app_assoc. rewrite <-(IH m (r / 10)) by (try done; euclid). f_equal; f_equal.
    + replace (m * (10 * 10 ^ Z.of_nat k) + r) with (m * 10 ^ Z.of_nat k * 10 + r) by lia. by rewrite Z.div_add_l.
    + replace (m * (10 * 10 ^ Z.of_nat k) + r) with (r + m * 10 ^ Z.of_nat k * 10) by lia. by rewrite Z.mod_add.
Qed.
Lemma last_digits_pad k : forall r, 0 <= r < 10 ^ Z.of_nat k ->
  let s := if r =? 0 then [] else num_to_str r in
  last_digits k r = replicate (k - length s) 48 ++ s /\ (length s <= k)%nat.
Proof.
  induction k as [|k IH]; intros r Hr; cbn [last_digits].
  - change (10 ^ Z.of_nat 0) with 1 in Hr. by replace r with 0 by lia.
  - rewrite Nat2Z.inj_succ, Z.pow_succ_r in Hr by lia.
    destruct (IH (r / 10)) as [-> Hl]; [euclid|]. destruct (Z.lt_ge_cases r 10) as [Hs|Hs].
    + rewrite Z.div_small, Z.mod_small by lia. rewrite (num_to_str_digit r) by lia. cbn [Z.eqb].
      destruct (Z.eqb_spec r 0) as [->|]; cbn [length].
      * rewrite app_nil_r, <-replicate_cons_app. split; [by rewrite app_nil_r, Nat.sub_0_r|lia].
      * rewrite app_nil_r. split; [do 2 f_equal; lia|lia].
    + assert (r / 10 <> 0) by euclid. rewrite !(proj2 (Z.eqb_neq _ 0)) in * by lia.
      rewrite (num_to_str_last r), length_app, <-app_assoc by lia. cbn [length]. split; [do 2 f_equal; lia|lia].
Qed.
Lemma seven_digits r : 0 <= r < 10 ^ 7 -> seven r true = last_digits 7 r.
Proof.
  intros Hr. destruct (last_digits_pad 7 r Hr) as [-> Hl]. unfold seven. cbv zeta. f_equal.
  set (s := if r =? 0 then [] else num_to_str r) in *. clearbody s.
  do 8 (destruct s as [|? s]; [done|]). cbn in Hl. lia.
Qed.

Lemma joinUnsigned_numeral a b : 0 <= a < W32 -> 0 <= b < W32 -> joinUnsignedDecimalString a b = num_to_str (a + W32 * b).
Proof.
  unfold W32. intros Ha Hb. unfold joinUnsignedDecimalString. destruct (Z.leb_spec b 2097151) as [Hs|Hs].
  { f_equal. rewrite dbl_id by lia. lia. }
  rewrite land_24, u32_lor, u32_shr, u32_shl, land_24 by lia. rewrite (Z.mod_small a W32) by (unfold W32; lia).
  unfold sar. rewrite land_16, Z.shiftr_div_pow2 by lia. pow_norm.
  set (a0 := a mod 16777216).
  assert (Ed : Z.lor (a / 16777216) (b * 256 mod W32) mod 16777216 = a / 16777216 + 256 * (b mod 65536)).
  { rewrite Z.lor_comm. replace (b * 256 mod W32) with (b mod 16777216 * 2 ^ 8) by (unfold W32; pow_norm; euclid).
    rewrite lor_add_disjoint by (pow_norm; euclid). pow_norm. euclid. }
  rewrite Ed. set (d0 := a / 16777216 + 256 * (b mod 65536)).
  assert (Eb : (i32 b / 65536) mod 65536 = b / 65536).
  { unfold i32. pow_norm. euclid. }
  rewrite Eb. set (b0 := b / 65536).
  assert (En : a + 4294967296 * b = a0 + 16777216 * d0 + 281474976710656 * b0 /\ 0 <= a0 < 16777216 /\ 0 <= d0 < 16777216 /\ 32 <= b0 < 65536)
    by (subst a0 d0 b0; euclid).
  clearbody a0 d0 b0. destruct En as (-> & Ha0 & Hd0 & Hb0).
  set (A := a0 + 6777216 * d0 + 6710656 * b0). set (D := d0 + 8147497 * b0).
  replace (a0 + 16777216 * d0 + 281474976710656 * b0) with (A + 10000000 * (D + 10000000 * (b0 * 2))) by (subst A D; lia).
  assert (HA : 0 <= A < 2 ^ 53) by (subst A; lia). assert (HD : 0 <= D < 2 ^ 53) by (subst D; lia).
  clearbody A D.
  assert (E1 : (if 10000000 <=? A then (Z.rem A 10000000, D + A / 10000000) else (A, D)) = (A mod 10000000, D + A / 10000000)).
  { destruct (Z.leb_spec 10000000 A); [by rewrite Z.rem_mod_nonneg by lia|]. f_equal; euclid. }
  rewrite E1. set (D' := D + A / 10000000).
  assert (HD' : 0 <= D') by (subst D'; euclid).
  assert (E2 : (if 10000000 <=? D' then (Z.rem D' 10000000, b0 * 2 + D' / 10000000) else (D', b0 * 2)) = (D' mod 10000000, b0 * 2 + D' / 10000000)).
  { destruct (Z.leb_spec 10000000 D'); [by rewrite Z.rem_mod_nonneg by lia|]. f_equal; euclid. }
  rewrite E2. assert (0 <= D' / 10000000) by euclid.
  rewrite (proj2 (Z.eqb_neq (b0 * 2 + D' / 10000000) 0)) by lia. cbn [negb].
  rewrite !seven_digits by (pow_norm; euclid). unfold seven. cbv zeta. rewrite (proj2 (Z.eqb_neq (b0 * 2 + D' / 10000000) 0)) by lia.
  rewrite app_assoc, <-!num_to_str_split by (pow_norm; euclid || lia). change (10 ^ Z.of_nat 7) with 10000000.
  f_equal. subst D'. euclid.
Qed.

Lemma u32_bnot x k : u32 (bnot x + k) = (k - 1 - x) mod W32.
Proof.
  unfold bnot, Z.lnot. rewrite u32_W. replace (Z.pred (- i32 x) + k) with (k - 1 - i32 x) by lia.
  rewrite <-(Zminus_mod_idemp_r _ (i32 x)), <-(Zminus_mod_idemp_r _ x). do 2 f_equal. apply u32_i32.
Qed.
Lemma u32_bnot_0 x : u32 (bnot x) = (- 1 - x) mod W32.
Proof. rewrite <-(Z.add_0_r (bnot x)). apply u32_bnot. Qed.
(** The halves of the number with the sign changed, as the printers and
    [joinInt64] compute them. *)
Lemma negated_halves a b : 0 <= a < W32 -> 0 <= b < W32 ->
  let a' := u32 (bnot a + 1) in
  UInt64_ a' (u32 (bnot b + (if a' =? 0 then 1 else 0))) = sub (UInt64_ 0 0) (UInt64_ a b) /\
  (if a' =? 0 then u32 (u32 (bnot b) + 1) else u32 (bnot b)) = u32 (bnot b + (if a' =? 0 then 1 else 0)).
Proof.
  intros Ha Hb a'. subst a'. rewrite sub_value by (split; cbn; unfold W32 in *; lia).
  unfold int_of. cbn [lo hi]. rewrite !u32_bnot, !u32_bnot_0. split.
  - apply halves_of; unfold W32 in *; [euclid|]. destruct (Z.eqb_spec ((1 - 1 - a) mod 4294967296) 0); euclid.
  - destruct (_ =? 0); [|done]. rewrite u32_W, Z.add_mod_idemp_l by done. f_equal. lia.
Qed.

Lemma joinSigned_numeral x : ok x -> joinSignedDecimalString (lo x) (hi x) = num_to_str (signed64 (int_of x)).
Proof.
  intros Ox. unfold joinSignedDecimalString. rewrite negative_value by done. cbv zeta.
  destruct (Z.ltb_spec (signed64 (int_of x)) 0) as [H|H].
  - destruct (negated_halves (lo x) (hi x)) as [E _]; [apply Ox..|]. cbv zeta in E.
    set (a' := u32 (bnot (lo x) + 1)) in *. set (b' := u32 (bnot (hi x) + (if a' =? 0 then 1 else 0))) in *.
    destruct x as [l h]. cbn [lo hi] in *.
    assert (Oy : ok (UInt64_ a' b')) by (rewrite E, sub_value by (done || (split; cbn; unfold W32; lia)); apply of_value_ok).
    rewrite joinUnsigned_numeral by apply Oy. change (a' + W32 * b') with (int_of (UInt64_ a' b')).
    rewrite E, signed_neg by done. by rewrite (num_to_str_neg (signed64 _)).
  - rewrite joinUnsigned_numeral by apply Ox. by rewrite signed_nonneg.
Qed.

(** ** Reading a numeral into a hash *)

(** A number as its bytes, lowest first. *)
Fixpoint le (e : list Z) : Z := match e with [] => 0 | x :: e => x + 256 * le e end.
Lemma le_bound e : Forall is_byte e -> 0 <= le e < 256 ^ Z.of_nat (length e).
Proof.
  induction 1 as [|x e Hx _ IH]; cbn [le length]; [done|]. unfold is_byte in Hx.
  rewrite Nat2Z.inj_succ, Z.pow_succ_r by lia. lia.
Qed.
Lemma low_byte_i32 z : Z.land (i32 z) 255 = z mod 256.
Proof. rewrite land_255. unfold i32. pow_norm. euclid. Qed.

Lemma muladd_value a e : 1 <= a < 2 ^ 16 -> forall b, Forall is_byte e -> 0 <= b < 2 ^ 16 ->
  let e' := muladd a b e in
  length e' = length e /\ Forall is_byte e' /\ le e' = (a * le e + b) mod 256 ^ Z.of_nat (length e).
Proof.
  intros Ha. induction e as [|x e IH]; intros b He Hb; cbn [muladd].
  - split; [done|]. split; [done|]. cbn. by rewrite Z.mod_1_r.
  - apply Forall_cons_1 in He as [Hx He]. unfold is_byte in Hx. pose proof (le_bound e He) as Bl.
    destruct (negb (a =? 1) || (0 <? b)) eqn:Eg.
    + assert (Hab : 0 <= a * x + b < 2 ^ 32) by nia.
      rewrite land_255, shr_div, (Z.mod_small _ W32) by (done || lia). change (2 ^ 8) with 256.
      destruct (IH ((a * x + b) / 256)) as (Hl & Hf & E); [done|split; [apply Z.div_pos; lia|]; apply Z.div_lt_upper_bound; nia|].
      split; [cbn; by rewrite Hl|]. split; [constructor; [apply Z.mod_pos_bound; lia|done]|].
      cbn [le length]. rewrite E, Nat2Z.inj_succ, Z.pow_succ_r, Z.rem_mul_r by (try apply Z.pow_pos_nonneg; lia).
      replace (a * (x + 256 * le e) + b) with (a * x + b + a * le e * 256) by lia.
      rewrite Z.mod_add, Z.div_add by lia. f_equal. f_equal. f_equal. lia.
    + apply orb_false_iff in Eg as [E1 E2]. apply negb_false_iff, Z.eqb_eq in E1. apply Z.ltb_ge in E2. subst a.
      split; [done|]. split; [by constructor|]. replace b with 0 by lia. rewrite Z.add_0_r, Z.mul_1_l.
      symmetry. apply Z.mod_small, (le_bound (x :: e)). by constructor.
Qed.
Lemma le_complement e : Forall is_byte e ->
  let e' := map (fun x => Z.land (Z.lnot x) 255) e in
  Forall is_byte e' /\ le e' = 256 ^ Z.of_nat (length e) - 1 - le e.
Proof.
  induction 1 as [|x e Hx _ [IHf IHe]]; cbn [map le length]; [done|].
  assert (E : Z.land (Z.lnot x) 255 = 255 - x) by (rewrite land_255; unfold Z.lnot, is_byte in *; euclid).
  rewrite E. split; [constructor; [unfold is_byte in *; lia|done]|].
  cbv zeta in IHe. rewrite IHe, Nat2Z.inj_succ, Z.pow_succ_r by lia. lia.
Qed.

(** A hash is eight bytes; the halves and the hash are one number. *)
Definition hash_of (n : Z) : jsstr := joinHash64 (n mod W32) (n / W32 mod W32).
Lemma half_byte a n : 0 <= a < W32 -> 0 <= n -> Z.land (shr a n) 255 = a / 2 ^ n mod 256.
Proof. intros Ha Hn. rewrite land_255, shr_div by done. by rewrite (Z.mod_small a W32). Qed.
Lemma joinHash64_le a b : 0 <= a < W32 -> 0 <= b < W32 ->
  le (joinHash64 a b) = a + W32 * b /\ Forall is_byte (joinHash64 a b).
Proof.
  intros Ha Hb. unfold joinHash64. rewrite !half_byte by (done || lia). pow_norm. cbn [le]. split.
  - unfold W32 in *. euclid.
  - repeat constructor; apply Z.mod_pos_bound; lia.
Qed.
Lemma le_8_inj e e' : Forall is_byte e -> Forall is_byte e' -> length e = length e' -> le e = le e' -> e = e'.
Proof.
  intros He. revert e'. induction He as [|x e Hx _ IH]; intros [|y e'] He' Hl E; try done.
  apply Forall_cons_1 in He' as [Hy He']. cbn [le length] in *. unfold is_byte in *. assert (x = y) by lia. subst y.
  f_equal. apply IH; [done|lia|lia].
Qed.
Lemma bytes_half b0 b1 b2 b3 : is_byte b0 -> is_byte b1 -> is_byte b2 -> is_byte b3 ->
  u32 (b0 + shl b1 8 + shl b2 16 + shl b3 24) = b0 + 256 * (b1 + 256 * (b2 + 256 * b3)).
Proof.
  unfold is_byte, shl. intros. rewrite (i32_id b1), (i32_id b2), (i32_id b3), !Z.shiftl_mul_pow2, !(i32_id (_ * 2 ^ 8)), !(i32_id (_ * 2 ^ 16)) by lia.
  unfold i32, u32. pow_norm. euclid.
Qed.
Lemma splitHash64_le e : Forall is_byte e -> length e = 8%nat -> splitHash64 e = (le e mod W32, le e / W32).
Proof.
  intros He Hl. destruct e as [|e0 [|e1 [|e2 [|e3 [|e4 [|e5 [|e6 [|e7 [|]]]]]]]]]; try discriminate Hl.
  repeat (apply Forall_cons_1 in He as [? He]). unfold splitHash64. cbv zeta.
  change ((u32 (e0 + shl e1 8 + shl e2 16 + shl e3 24), u32 (e4 + shl e5 8 + shl e6 16 + shl e7 24)) = 
          (le [e0; e1; e2; e3; e4; e5; e6; e7] mod W32, le [e0; e1; e2; e3; e4; e5; e6; e7] / W32)).
  rewrite !bytes_half by done. cbn [le]. unfold is_byte, W32 in *. f_equal; euclid.
Qed.
Lemma joinHash64_of n : splitHash64 (hash_of n) = (n mod W32, n / W32 mod W32) /\ Forall is_byte (hash_of n).
Proof.
  destruct (joinHash64_le (n mod W32) (n / W32 mod W32)) as [E Hb]; try apply Z.mod_pos_bound; try done.
  split; [|done]. unfold hash_of. rewrite splitHash64_le by done. rewrite E. unfold W32. f_equal; euclid.
Qed.
Lemma hash_of_le e : Forall is_byte e -> length e = 8%nat -> e = hash_of (le e).
Proof.
  intros He Hl. pose proof (le_bound e He) as B. rewrite Hl in B. change (256 ^ Z.of_nat 8) with (W32 * W32) in B.
  destruct (joinHash64_le (le e mod W32) (le e / W32 mod W32)) as [E Hb]; try apply Z.mod_pos_bound; try done.
  apply le_8_inj; [done|done|by rewrite Hl|]. unfold hash_of. rewrite E. unfold W32 in *. euclid.
Qed.
Lemma hash_of_mod n : hash_of (n mod (W32 * W32)) = hash_of n.
Proof.
  unfold hash_of, W32. f_equal.
  - rewrite <-(Z.add_0_r n) at 2. rewrite Z.rem_mul_r by done. rewrite Z.mul_comm, Z.mod_add, Z.mod_mod by done. f_equal. lia.
  - rewrite Z.rem_mul_r by done. rewrite Z.mul_comm, Z.div_add by done.
    rewrite (Z.div_small (n mod _)) by (by apply Z.mod_pos_bound). by rewrite Z.add_0_l, Z.mod_mod.
Qed.

(** The digits, one after the other. *)
Lemma muladd_digits a : forallb is_digit a = true -> forall e, Forall is_byte e ->
  let e' := fold_left (fun e c => muladd 10 (c - 48) e) a e in
  length e' = length e /\ Forall is_byte e' /\
  le e' = (le e * 10 ^ Z.of_nat (length a) + dec_val a) mod 256 ^ Z.of_nat (length e).
Proof.
  induction a as [|d a IH]; intros Ha e He; cbn [fold_left].
  - split; [done|]. split; [done|]. cbn. rewrite Z.mul_1_r, Z.add_0_r. symmetry. by apply Z.mod_small, le_bound.
  - cbn [forallb] in Ha. apply andb_true_iff in Ha as [Hd Ha]. unfold is_digit in Hd.
    destruct (muladd_value 10 e ltac:(lia) (d - 48) He ltac:(lia)) as (Hl & Hf & E).
    destruct (IH Ha (muladd 10 (d - 48) e) Hf) as (Hl' & Hf' & E').
    split; [congruence|]. split; [done|]. cbv zeta in *. rewrite E', E, Hl.
    rewrite <-Z.add_mod_idemp_l, Z.mul_mod_idemp_l, Z.add_mod_idemp_l by (apply Z.pow_nonzero; lia). f_equal.
    change (d :: a) with ([d] ++ a). rewrite dec_val_app.
    change (dec_val [d]) with (0 * 10 + (d - 48)). rewrite length_app, Nat2Z.inj_add, Z.pow_add_r by lia. cbn [length]. change (10 ^ Z.of_nat 1) with 10. lia.
Qed.
Lemma not_minus (a : jsstr) : forallb is_digit a = true ->
  (match a with 45 :: a => (true, a) | _ => (false, a) end) = (false, a).
Proof.
  destruct a as [|c a]; [done|]. intros Hd. destruct (Z.eq_dec c 45) as [->|Hc]; [done|].
  destruct c as [|p|p]; try done. do 6 (destruct p as [p|p|]; try done).
Qed.
Lemma decimal_hash_digits a : a <> [] -> forallb is_digit a = true -> decimalStringToHash64 a = Ret (hash_of (dec_val a)).
Proof.
  intros Hn Ha. unfold decimalStringToHash64.
  destruct (a ==? []) eqn:E0; [by apply bool_decide_eq_true in E0|]. rewrite not_minus by done.
  destruct (muladd_digits a Ha (replicate 8 0)) as (Hl & Hf & E); [by repeat constructor|]. f_equal.
  cbv zeta in *. rewrite (hash_of_le _ Hf Hl), E. apply (hash_of_mod (dec_val a)).
Qed.
Lemma decimal_hash_neg a : forallb is_digit a = true -> decimalStringToHash64 (45 :: a) = Ret (hash_of (- dec_val a)).
Proof.
  intros Ha. unfold decimalStringToHash64. cbn [app].
  destruct (muladd_digits a Ha (replicate 8 0)) as (Hl & Hf & E); [by repeat constructor|].
  set (e := fold_left _ _ _) in *. destruct (le_complement e Hf) as (Hf' & E'). set (e' := map _ e) in *.
  assert (Hl' : length e' = 8%nat) by (unfold e'; by rewrite length_map).
  destruct (muladd_value 1 e' ltac:(lia) 1 Hf' ltac:(lia)) as (Hl2 & Hf2 & E2). cbv zeta in *.
  rewrite E', E, Hl' in E2. change (length (replicate 8 0)) with 8%nat in *. rewrite Hl in E2.
  change (_ ==? []) with false. cbv iota. f_equal.
  rewrite (hash_of_le _ Hf2 ltac:(congruence)), E2. change (256 ^ Z.of_nat 8) with (W32 * W32).
  rewrite hash_of_mod, <-hash_of_mod, <-(hash_of_mod (- dec_val a)). f_equal. cbn [le replicate]. unfold W32. euclid.
Qed.

(** ** Numbers and halves *)

Definition halves (x : UInt64) : Z * Z := (lo x, hi x).
Lemma splitUint64_halves n : splitUint64 n = halves (of_int n).
Proof. unfold splitUint64, halves, of_int. cbn. rewrite !u32_W. unfold W32. f_equal. euclid. Qed.
Lemma splitInt64_halves n : splitInt64 n = halves (of_int n).
Proof.
  unfold splitInt64, halves, of_int. cbn [lo hi]. destruct (Z.ltb_spec n 0) as [Hn|Hn].
  - rewrite Z.abs_neq, !u32_bnot_0, !u32_W by lia. unfold W32.
    destruct (Z.ltb_spec 4294967295 ((-1 - - n mod 4294967296) mod 4294967296 + 1)) as [H|H]; [|f_equal; euclid].
    match goal with |- (0, if ?c then _ else _) = _ => destruct c eqn:Ec end; f_equal; euclid.
  - rewrite Z.abs_eq, !u32_W by lia. unfold W32. f_equal. euclid.
Qed.

(** The zigzag code: 0, -1, 1, -2, ... as 0, 1, 2, 3, ... *)
Definition zigzag (n : Z) : Z := if n <? 0 then - 2 * n - 1 else 2 * n.
Definition unzigzag (u : Z) : Z := if Z.even u then u / 2 else - (u / 2) - 1.
Lemma unzigzag_zigzag n : unzigzag (zigzag n) = n.
Proof.
  unfold unzigzag, zigzag. destruct (Z.ltb_spec n 0).
  - replace (- 2 * n - 1) with (1 + 2 * (- n - 1)) by lia. rewrite Z.even_add_mul_2. cbn. euclid.
  - rewrite Z.even_mul. cbn. euclid.
Qed.
Lemma zigzag_bound n : - (W32 * W32 / 2) <= n < W32 * W32 / 2 -> 0 <= zigzag n < W32 * W32.
Proof.
  unfold zigzag, W32. change (4294967296 * 4294967296 / 2) with 9223372036854775808. destruct (Z.ltb_spec n 0); lia.
Qed.
Lemma splitZigzag64_halves n : splitZigzag64 n = halves (of_int (zigzag n)).
Proof.
  unfold splitZigzag64. rewrite splitUint64_halves. unfold halves, of_int, zigzag, W32. cbn [lo hi].
  destruct (Z.ltb_spec n 0) as [Hn|Hn]; [rewrite Z.abs_neq by lia|by rewrite Z.abs_eq by lia].
  match goal with |- context [?x =? 0] => destruct (Z.eqb_spec x 0) end; [|f_equal; euclid].
  match goal with |- context [?x =? 0] => destruct (Z.eqb_spec x 0) end; f_equal; euclid.
Qed.

Lemma sar_31 b : 0 <= b < W32 -> sar b 31 = if b <? 2147483648 then 0 else -1.
Proof.
  unfold W32. intros Hb. unfold sar, i32. rewrite Z.shiftr_div_pow2 by lia. pow_norm.
  destruct (Z.ltb_spec b 2147483648); euclid.
Qed.
Lemma u32_lnot z : u32 (Z.lnot z) = (- 1 - z mod W32) mod W32.
Proof. rewrite u32_W, Zminus_mod_idemp_r. f_equal. unfold Z.lnot. lia. Qed.

(** Halves as words, of either sign. *)
Definition words (a b : Z) : UInt64 := UInt64_ (u32 a) (u32 b).

Lemma toZigzag64_value x : ok x -> toZigzag64 (lo x) (hi x) words = of_int (zigzag (signed64 (int_of x))).
Proof.
  destruct x as [l h]. intros Ox. pose proof (value_bound _ Ox) as B. rewrite signed_small by done.
  destruct Ox as [Hl Hh]. unfold int_of in *. cbn [lo hi] in *. unfold toZigzag64, words. rewrite sar_31 by done.
  assert (Eh : u32 (i32 (Z.lor (shl h 1) (shr l 31))) = (h * 2) mod W32 + l / 2147483648).
  { rewrite u32_i32, u32_lor, u32_shl, u32_shr, (Z.mod_small l) by (done || lia). pow_norm. unfold W32 in *.
    replace (h * 2 mod 4294967296) with (h mod 2147483648 * 2 ^ 1) by (pow_norm; euclid).
    rewrite lor_add_disjoint; pow_norm; euclid. }
  assert (El : u32 (shl l 1) = (l * 2) mod W32) by (rewrite u32_shl by lia; done).
  cbv zeta. unfold W32 in *. destruct (Z.ltb_spec h 2147483648), (Z.ltb_spec (l + 4294967296 * h) (4294967296 * 4294967296 / 2)); try (exfalso; euclid).
  - rewrite !Z.lxor_0_r, El, Eh. unfold zigzag. rewrite (proj2 (Z.ltb_ge _ _)) by lia. apply halves_of; unfold W32; euclid.
  - rewrite !Z.lxor_m1_r, !u32_lnot. unfold W32. rewrite <-!u32_W, El, Eh. unfold zigzag.
    rewrite (proj2 (Z.ltb_lt _ _)), !u32_W by lia. apply halves_of; unfold W32; [euclid|].
    replace ((-2 * (l + 4294967296 * h - 4294967296 * 4294967296) - 1) / 4294967296)
      with (- 1 - l / 2147483648 + 2 * (4294967296 - h)) by euclid. euclid.
Qed.

Lemma fromZigzag64_value x : ok x -> fromZigzag64 (lo x) (hi x) words = of_int (unzigzag (int_of x)).
Proof.
  destruct x as [l h]. unfold ok. cbn [lo hi]. intros [Hl Hh]. unfold fromZigzag64, words. rewrite land_1.
  assert (El : u32 (i32 (Z.lor (shr l 1) (shl h 31))) = l / 2 + h mod 2 * 2147483648).
  { rewrite u32_i32, u32_lor, u32_shl, u32_shr, (Z.mod_small l), Z.lor_comm by (done || lia). pow_norm. unfold W32 in *.
    replace (h * 2147483648 mod 4294967296) with (h mod 2 * 2 ^ 31) by (pow_norm; euclid).
    rewrite lor_add_disjoint; pow_norm; euclid. }
  assert (Eh : u32 (shr h 1) = h / 2) by (rewrite u32_shr, Z.mod_small by (done || lia); done).
  unfold int_of, unzigzag. cbn [lo hi]. rewrite Zeven_mod.
  replace ((l + W32 * h) mod 2) with (l mod 2) by (unfold W32; euclid). cbv zeta. unfold W32 in *.
  destruct (Z.eqb_spec (l mod 2) 0) as [E|E].
  - rewrite E. change (- 0) with 0. rewrite !Z.lxor_0_r, El, Eh. apply halves_of; unfold W32; euclid.
  - replace (- (l mod 2)) with (-1) by euclid. rewrite !Z.lxor_m1_r, !u32_lnot, <-!u32_W, El, Eh, !u32_W.
    apply halves_of; unfold W32; euclid.
Qed.

Lemma i32_u32 z : i32 (u32 z) = i32 z.
Proof. unfold i32, u32. by rewrite Zplus_mod_idemp_l. Qed.
Lemma bnot_u32 z : bnot (u32 z) = bnot z.
Proof. unfold bnot. by rewrite i32_u32. Qed.
Lemma joinUint64_value a b : joinUint64 a b = dbl (u32 a + W32 * b).
Proof. unfold joinUint64, W32. f_equal. lia. Qed.
Lemma joinInt64_value a b : - 2 ^ 31 <= b < W32 -> let s := signed64 (int_of (words a b)) in
  joinInt64 a b = if s <? 0 then - dbl (- s) else dbl s.
Proof.
  intros Hb. cbv zeta. set (x := words a b).
  assert (Ox : ok x) by (split; apply u32_bound). unfold joinInt64.
  assert (Et : negb (Z.land b 2147483648 =? 0) = (signed64 (int_of x) <? 0)).
  { rewrite <-negative_value by done. do 2 f_equal. cbn [x words hi].
    rewrite u32_land. rewrite <-Z.land_assoc. done. }
  rewrite Et. destruct (Z.ltb_spec (signed64 (int_of x)) 0) as [H|H].
  - destruct (negated_halves (lo x) (hi x)) as [E1 E2]; [apply Ox..|]. cbn [x words lo hi] in E1, E2. rewrite !bnot_u32 in E1, E2.
    cbv zeta in *. rewrite E2, joinUint64_value. f_equal. f_equal.
    rewrite <-(signed_neg x) by done. unfold x, words. rewrite <-E1. unfold int_of. cbn [lo hi]. f_equal. apply u32_id, u32_bound.
  - rewrite joinUint64_value. f_equal. rewrite signed_nonneg by done. unfold x, int_of, words. cbn [lo hi]. do 2 f_equal.
    symmetry. apply u32_id. pose proof (negative_value x Ox) as En. rewrite (proj2 (Z.ltb_ge _ _) H) in En.
    destruct (Z.lt_ge_cases b 0); [|unfold W32 in *; lia]. exfalso. cbn [x words hi] in En. rewrite top_bit in En by apply u32_bound.
    destruct (Z.ltb_spec (u32 b) 2147483648) as [Hu|]; [|done]. rewrite u32_W in Hu. unfold W32 in *. euclid.
Qed.

(** Exact below 2^53. *)
Lemma joinInt64_exact a b n : - 2 ^ 31 <= b < W32 -> words a b = of_int n -> Z.abs n < 2 ^ 53 -> joinInt64 a b = n.
Proof.
  intros Hb E Hn. rewrite joinInt64_value by done. rewrite E, int_of_of.
  assert (Es : signed64 (n mod (W32 * W32)) = n).
  { unfold signed64. rewrite Z.mod_mod by done. apply signed_id. unfold W32. change (4294967296 * 4294967296 / 2) with 9223372036854775808. lia. }
  rewrite Es. destruct (Z.ltb_spec n 0); rewrite dbl_id by lia; lia.
Qed.
Lemma words_ok x : ok x -> words (lo x) (hi x) = x.
Proof. destruct x as [l h]. unfold ok, words. cbn. intros [Hl Hh]. by rewrite !u32_id by (unfold W32 in *; lia). Qed.

(** ** Hexadecimal numerals *)

Definition hex_pair (d : Z) : list Z := [toHexDigit_ (sar d 4); toHexDigit_ (Z.land d 15)].
Definition hex_ok (d : Z) : bool :=
  match hex_pair d with
  | [h; l] => (lower_unit h =? h) && (lower_unit l =? l) && ((16 * fromHexCharCode_ h + fromHexCharCode_ l) mod 65536 =? d)
  | _ => false
  end.
Lemma hex_byte d : is_byte d -> hex_ok d = true.
Proof.
  unfold is_byte. intros Hd. assert (H : forallb hex_ok (seqZ 0 256) = true) by (by vm_compute).
  eapply forallb_forall in H; [exact H|]. apply list_elem_of_In, elem_of_seqZ. lia.
Qed.
Lemma hex_hash e : Forall is_byte e -> length e = 8%nat -> hexStringToHash64 (hash64ToHexString e) = Ret e.
Proof.
  intros He Hl. destruct e as [|e0 [|e1 [|e2 [|e3 [|e4 [|e5 [|e6 [|e7 [|]]]]]]]]]; try discriminate Hl.
  repeat (apply Forall_cons_1 in He as [?%hex_byte He]). unfold hex_ok, hex_pair in *.
  repeat match goal with H : _ && _ && _ = true |- _ =>
    apply andb_true_iff in H as [[?%Z.eqb_eq ?%Z.eqb_eq]%andb_true_iff ?%Z.eqb_eq] end.
  change (hash64ToHexString _) with (48 :: 120 :: concat (map hex_pair [e7; e6; e5; e4; e3; e2; e1; e0])).
  unfold hex_pair. cbn [map concat app].
  repeat match goal with |- context [toHexDigit_ ?x] => let h := fresh "h" in set (h := toHexDigit_ x) in *; clearbody h end.
  unfold hexStringToHash64, toLowerCase. cbn [map]. change (lower_unit 48) with 48. change (lower_unit 120) with 120.
  repeat match goal with H : lower_unit _ = _ |- _ => rewrite H; clear H end.
  transitivity (Ret (map (fun p => (16 * fromHexCharCode_ p.1 + fromHexCharCode_ p.2) mod 65536)
    [(h13, h14); (h11, h12); (h9, h10); (h7, h8); (h5, h6); (h3, h4); (h1, h2); (h, h0)])); [reflexivity|].
  cbn [map fst snd]. congruence.
Qed.

(** ** Every numeral, read: numbers that do not fit wrap *)

Lemma fromString_unsigned n : 0 <= n -> UInt64_fromString (num_to_str n) = Some (of_int n).
Proof.
  intros Hn. unfold UInt64_fromString. rewrite from_digits_value, num_to_str_digits, num_to_str_val by (done || (split; cbn; unfold W32; lia)).
  by rewrite value_0.
Qed.
Lemma fromString_signed n : Int64_fromString (num_to_str n) = Some (of_int n).
Proof.
  unfold Int64_fromString. destruct (Z.lt_ge_cases n 0) as [Hn|Hn].
  - rewrite num_to_str_neg, fromString_unsigned by lia. cbn [mbind option_bind].
    rewrite sub_value by (apply of_value_ok || (split; cbn; unfold W32; lia)).
    rewrite int_of_of, value_0, <-of_value_mod, Zminus_mod_idemp_r, of_value_mod. do 2 f_equal. lia.
  - by rewrite not_minus, fromString_unsigned by first [done|by apply num_to_str_digits].
Qed.
Lemma decimal_hash n : decimalStringToHash64 (num_to_str n) = Ret (hash_of n).
Proof.
  destruct (Z.lt_ge_cases n 0) as [Hn|Hn].
  - rewrite num_to_str_neg, decimal_hash_neg, num_to_str_val by (lia || apply num_to_str_digits; lia). do 2 f_equal. lia.
  - rewrite decimal_hash_digits, num_to_str_val by first [done|by apply num_to_str_digits
      |destruct (num_to_str_head n Hn) as (c & s & -> & _); done]. done.
Qed.
Lemma splitDecimal_halves n : splitDecimalString (num_to_str n) = Ret (halves (of_int n)).
Proof.
  unfold splitDecimalString. rewrite decimal_hash. cbn [mbind outcome_bind]. by destruct (joinHash64_of n) as [-> _].
Qed.
Lemma hash_of_halves n : hash_of n = joinHash64 (lo (of_int n)) (hi (of_int n)).
Proof. done. Qed.
Lemma hash_of_int x : ok x -> hash_of (int_of x) = joinHash64 (lo x) (hi x).
Proof. intros. by rewrite hash_of_halves, of_value_value. Qed.

Lemma joinInt64_split n : Z.abs n < 2 ^ 53 -> joinInt64 (lo (of_int n)) (hi (of_int n)) = n.
Proof.
  intros Hn. destruct (of_value_ok n) as [Hl Hh]. apply joinInt64_exact; [lia|apply words_ok, of_value_ok|done].
Qed.
Lemma fromZigzag64_pair A a b (c : Z -> Z -> A) :
  exists l h, fromZigzag64 a b c = c l h /\ fromZigzag64 a b words = words l h /\ (0 <= b < W32 -> - 2 ^ 31 <= h < W32).
Proof.
  unfold fromZigzag64. eexists _, _. split; [reflexivity|]. split; [reflexivity|]. intros Hb. rewrite land_1.
  assert (E : shr b 1 = b / 2) by (rewrite shr_div, Z.mod_small by (done || lia); done). rewrite E. unfold W32 in *.
  destruct (Z.eqb_spec (a mod 2) 0) as [->|Ha].
  - change (- 0) with 0. rewrite Z.lxor_0_r. euclid.
  - replace (- (a mod 2)) with (-1) by euclid. rewrite Z.lxor_m1_r. unfold Z.lnot. euclid.
Qed.
Lemma joinZigzag64_split n : Z.abs n < 2 ^ 53 ->
  let x := of_int (zigzag n) in joinZigzag64 (lo x) (hi x) = n.
Proof.
  intros Hn. cbv zeta. set (x := of_int (zigzag n)). assert (Ox : ok x) by apply of_value_ok.
  destruct (fromZigzag64_pair _ (lo x) (hi x) joinInt64) as (l & h & E & Ew & Hb). unfold joinZigzag64. rewrite E.
  apply joinInt64_exact; [apply Hb, Ox| |done]. rewrite <-Ew, fromZigzag64_value by done. f_equal. unfold x.
  rewrite value_small, unzigzag_zigzag; [done|]. apply zigzag_bound. unfold W32.
  change (4294967296 * 4294967296 / 2) with 9223372036854775808. lia.
Qed.
Lemma signed_range x : ok x -> - (W32 * W32 / 2) <= signed64 (int_of x) < W32 * W32 / 2.
Proof.
  intros Ox. pose proof (value_bound x Ox) as B. rewrite signed_small by done. unfold W32 in *.
  change (4294967296 * 4294967296 / 2) with 9223372036854775808 in *.
  destruct (Z.ltb_spec (int_of x) 9223372036854775808); lia.
Qed.
Lemma unzigzag_range x : ok x -> - (W32 * W32 / 2) <= unzigzag (int_of x) < W32 * W32 / 2.
Proof.
  intros Ox. pose proof (value_bound x Ox) as B. unfold unzigzag, W32 in *.
  change (4294967296 * 4294967296 / 2) with 9223372036854775808. destruct (Z.even (int_of x)); euclid.
Qed.
Lemma zigzag_unzigzag u : 0 <= u -> zigzag (unzigzag u) = u.
Proof.
  intros Hu. unfold zigzag, unzigzag. rewrite Zeven_mod. destruct (Z.eqb_spec (u mod 2) 0);
    match goal with |- context [?x <? 0] => destruct (Z.ltb_spec x 0) end; euclid.
Qed.

(** ** The properties *)

(** A number given as its two halves. *)
Definition same_order (c : Z) (m n : Z) : Prop := c = match m ?= n with Lt => -1 | Eq => 0 | Gt => 1 end.

(** C28. The arithmetic of jspb.arith.UInt64 is arithmetic modulo [2 ^ 64]: sums,
    differences, products with a word, doubling, halving and the order; its
    long division by a word always ends, with the quotient and the remainder,
    and divides nothing by zero. *)
Theorem arithmetic_modulo x y a : ok x -> ok y -> 0 <= a < W32 ->
  add x y = of_int (int_of x + int_of y) /\ sub x y = of_int (int_of x - int_of y) /\
  mul x a = of_int (int_of x * a) /\
  leftShift x = of_int (2 * int_of x) /\ rightShift x = of_int (int_of x / 2) /\
  same_order (cmp x y) (int_of x) (int_of y) /\
  div x a = Ret (if a =? 0 then None else Some (of_int (int_of x / a), of_int (int_of x mod a))).
Proof.
  intros Ox Oy Ha. rewrite add_value, sub_value, mul_value, leftShift_value, rightShift_value, cmp_value by done.
  do 5 (split; [done|]). split.
  - unfold same_order. destruct (Z.compare_spec (int_of x) (int_of y)), (Z.ltb_spec (int_of x) (int_of y)), (Z.eqb_spec (int_of x) (int_of y)); (done || lia).
  - destruct (Z.eqb_spec a 0) as [->|]; [done|]. destruct (div_value x a) as (q & r & -> & Oq & Or & Eq & Er); [done|lia|].
    by rewrite <-Eq, <-Er, !of_value_value.
Qed.
Lemma arithmetic_modulo_witness :
  div (of_int (2 ^ 64 - 1)) 10 = Ret (Some (of_int 1844674407370955161, of_int 5)) /\
  add (of_int (2 ^ 64 - 1)) (of_int 1) = UInt64_ 0 0.
Proof.
  destruct (arithmetic_modulo (of_int (2 ^ 64 - 1)) (of_int 1) 10) as (E & _ & _ & _ & _ & _ & D);
    [by vm_compute|by vm_compute|by vm_compute|]. split; [exact D|exact E].
Defined.

(** C29. All the ways to a decimal numeral agree, and all the ways back: the printer
    in base 10^7 of jspb.utils and the long division of jspb.arith write the
    decimal numeral of the number, unsigned or signed (two's complement); the
    readers of both read it back. *)
Theorem decimal_numerals x : ok x ->
  (let s := num_to_str (int_of x) in
   joinUnsignedDecimalString (lo x) (hi x) = s /\ UInt64_toString x = Ret s /\
   UInt64_fromString s = Some x /\ splitDecimalString s = Ret (lo x, hi x)) /\
  (let s := num_to_str (signed64 (int_of x)) in
   joinSignedDecimalString (lo x) (hi x) = s /\ Int64_toString x = Ret s /\
   Int64_fromString s = Some x /\ splitDecimalString s = Ret (lo x, hi x)).
Proof.
  intros Ox. pose proof (value_bound x Ox) as B. cbv zeta.
  rewrite joinUnsigned_numeral, UInt64_numeral, joinSigned_numeral, Int64_numeral by (done || apply Ox).
  rewrite fromString_unsigned, fromString_signed, !splitDecimal_halves by lia.
  by rewrite of_value_signed, of_value_value.
Qed.
Lemma decimal_numerals_witness :
  joinSignedDecimalString 0 2147483648 = js "-9223372036854775808" /\
  splitDecimalString (js "-9223372036854775808") = Ret (0, 2147483648).
Proof.
  destruct (decimal_numerals (UInt64_ 0 2147483648)) as (_ & E & _ & _ & D); [by vm_compute|]. split; [exact E|exact D].
Defined.

(** Numbers of the language and their halves: every integer below [2 ^ 53] in
    size is split into the halves of its two's complement, or of its zigzag
    code, and joined from them exactly, directly, from its hash or from its
    code; joining halves that hold more gives the double nearest to their
    number. *)
Theorem halves_bounds n : Z.abs n < 2 ^ 53 ->
  splitInt64 n = halves (of_int n) /\
  (let '(a, b) := splitInt64 n in joinInt64 a b = n /\ (0 <= n -> splitUint64 n = (a, b) /\ joinUint64 a b = n)) /\
  hash64ToNumber (numberToHash64 n) true = n /\
  splitZigzag64 n = halves (of_int (zigzag n)) /\
  (let '(a, b) := splitZigzag64 n in joinZigzag64 a b = n) /\
  (forall x, ok x -> joinUint64 (lo x) (hi x) = dbl (int_of x) /\
     joinInt64 (lo x) (hi x) = let s := signed64 (int_of x) in if s <? 0 then - dbl (- s) else dbl s).
Proof.
  intros Hn. unfold hash64ToNumber, numberToHash64. rewrite splitInt64_halves, splitZigzag64_halves.
  change (let '(a, b) := halves (of_int n) in joinHash64 a b) with (hash_of n). destruct (joinHash64_of n) as [-> _].
  split; [done|]. split; [|split; [|split; [done|split]]].
  - split; [by apply joinInt64_split|]. intros H0. rewrite splitUint64_halves. split; [done|].
    rewrite joinUint64_value, u32_id by apply of_value_ok. change (_ + _) with (int_of (of_int n)).
    rewrite value_small, dbl_id; unfold W32; lia.
  - by apply (joinInt64_split n).
  - by apply joinZigzag64_split.
  - intros x Ox. split.
    + destruct (proj1 Ox) as [Ll Lu]. rewrite joinUint64_value, u32_id by (split; [exact Ll|exact Lu]). unfold int_of. reflexivity.
    + rewrite joinInt64_value by (destruct Ox; unfold W32 in *; lia). by rewrite words_ok.
Qed.
Lemma halves_bounds_witness :
  splitInt64 (-5) = (4294967291, 4294967295) /\ splitZigzag64 (-5) = (9, 0) /\ joinUint64 1 2097152 = 2 ^ 53.
Proof.
  destruct (halves_bounds (-5)) as (E & _ & _ & Z & _ & J); [by vm_compute|]. split; [exact E|]. split; [exact Z|].
  destruct (J (UInt64_ 1 2097152)) as [E' _]; [by vm_compute|exact E'].
Defined.

(** The zigzag code on halves: [toZigzag64] and [fromZigzag64] are inverse to
    one another on every 64-bit number, and compute its code; and the eight
    characters of a hash hold the number whole, its hexadecimal and decimal
    numerals being read back to the same eight. *)
Theorem zigzag_hash_inverse x : ok x ->
  (let z := toZigzag64 (lo x) (hi x) words in
   ok z /\ int_of z = zigzag (signed64 (int_of x)) /\ fromZigzag64 (lo z) (hi z) words = x) /\
  (let z := fromZigzag64 (lo x) (hi x) words in toZigzag64 (lo z) (hi z) words = x) /\
  (let h := joinHash64 (lo x) (hi x) in
   splitHash64 h = (lo x, hi x) /\ hexStringToHash64 (hash64ToHexString h) = Ret h /\
   forall b, decimalStringToHash64 (hash64ToDecimalString h b) = Ret h).
Proof.
  intros Ox. pose proof (value_bound x Ox) as B. rewrite toZigzag64_value, fromZigzag64_value by done. cbv zeta. split; [|split].
  - rewrite fromZigzag64_value, value_small by (apply of_value_ok || by apply zigzag_bound, signed_range).
    rewrite unzigzag_zigzag, of_value_signed, of_value_value by done. split; [apply of_value_ok|done].
  - rewrite toZigzag64_value by apply of_value_ok. rewrite int_of_of.
    assert (E : signed64 (unzigzag (int_of x) mod (W32 * W32)) = unzigzag (int_of x)).
    { unfold signed64. rewrite Z.mod_mod by done. by apply signed_id, unzigzag_range. }
    rewrite E, zigzag_unzigzag, of_value_value by (done || lia). done.
  - rewrite <-hash_of_int by done. destruct (joinHash64_of (int_of x)) as [E Hb].
    change (int_of x mod W32, int_of x / W32 mod W32) with (halves (of_int (int_of x))) in E. rewrite of_value_value in E by done.
    split; [done|]. split; [by apply hex_hash|]. intros b. unfold hash64ToDecimalString. rewrite E. unfold halves.
    destruct b; [rewrite joinSigned_numeral by done|rewrite joinUnsigned_numeral by apply Ox]; rewrite decimal_hash;
      [|done]. by rewrite !hash_of_halves, of_value_signed.
Qed.
Lemma zigzag_hash_inverse_witness :
  toZigzag64 4294967295 4294967295 words = UInt64_ 1 0 /\ fromZigzag64 1 0 words = UInt64_ 4294967295 4294967295.
Proof.
  destruct (zigzag_hash_inverse (UInt64_ 4294967295 4294967295)) as ((_ & _ & E) & _ & _); [by vm_compute|]. 
  split; [by vm_compute|exact E].
Defined.
