(* ===== verification/WireFields.v ===== *)
(** The contract of the wire writer: a message is a list of fields, [encode]
    says what bytes the format gives it, and the writer, whose header blocks
    are completed after what follows them, produces exactly those. *)

From S2P Require Import Prelude JsVal Int32 TextEncoding Utf8Step Utf8Spec Wire WireReader WireSpec.

(** ** The format *)

(** The fields a writer's methods write; a 64-bit value is a number here and
    two halves in the program. *)
Inductive field :=
  | FUint32 (n v : Z)
  | FVarint64 (n v : Z)
  | FFixed32 (n v : Z)
  | FFixed64 (n v : Z)
  | FBytes (n : Z) (b : list Z)
  | FString (n : Z) (s : jsstr)
  | FMessage (n : Z) (fs : list field)
  | FGroup (n : Z) (fs : list field).

(** Base-128 digits, least significant first, all but the last marked. *)
Fixpoint leb128 (fuel : nat) (v : Z) : list Z :=
  match fuel with
  | O => []
  | S f => if v <? 128 then [v] else v mod 128 + 128 :: leb128 f (v / 128)
  end.
Definition leb (v : Z) : list Z := leb128 10 v.
Fixpoint le_bytes (k : nat) (v : Z) : list Z :=
  match k with O => [] | S k => v mod 256 :: le_bytes k (v / 256) end.
Definition tag (n t : Z) : list Z := leb (8 * n + t).
Definition delimited (n : Z) (b : list Z) : list Z :=
  tag n DELIMITED ++ leb (Z.of_nat (length b)) ++ b.
Definition utf8 (s : jsstr) : list Z := utf8_concat (stringToCodePoints s).

Fixpoint encode_field (f : field) : list Z :=
  match f with
  | FUint32 n v | FVarint64 n v => tag n VARINT ++ leb v
  | FFixed32 n v => tag n FIXED32 ++ le_bytes 4 v
  | FFixed64 n v => tag n FIXED64 ++ le_bytes 8 v
  | FBytes n b => delimited n b
  | FString n s => delimited n (utf8 s)
  | FMessage n fs => delimited n (concat (map encode_field fs))
  | FGroup n fs => tag n START_GROUP ++ concat (map encode_field fs) ++ tag n END_GROUP
  end.
Definition encode_fields (fs : list field) : list Z := concat (map encode_field fs).

(** Field numbers, values and lengths within the format's bounds. *)
Definition number_ok (n : Z) : bool := (1 <=? n) && (n <? 2 ^ 29).
Definition size_ok (b : list Z) : bool := Z.of_nat (length b) <? 2 ^ 32.
Fixpoint valid_field (f : field) : bool :=
  match f with
  | FUint32 n v | FFixed32 n v => number_ok n && in_u32 v
  | FVarint64 n v | FFixed64 n v => number_ok n && (0 <=? v) && (v <? 2 ^ 64)
  | FBytes n b => number_ok n && size_ok b && forallb (fun x => bool_decide (is_byte x)) b
  | FString n s => number_ok n && well_formed s && size_ok (utf8 s)
  | FMessage n fs => number_ok n && forallb valid_field fs && size_ok (concat (map encode_field fs))
  | FGroup n fs => number_ok n && forallb valid_field fs
  end.

(** The calls that write a field. *)
Definition write_all (ms : list (W unit)) : W unit := foldr (fun m k => m;; k) (mret tt) ms.
Fixpoint write_field (f : field) : W unit :=
  match f with
  | FUint32 n v => writeUint32 n (Some v)
  | FVarint64 n v => writeSplitVarint64 n (v mod 2 ^ 32) (v / 2 ^ 32)
  | FFixed32 n v => writeFixed32 n (Some v)
  | FFixed64 n v => writeSplitFixed64 n (v mod 2 ^ 32) (v / 2 ^ 32)
  | FBytes n b => writeBytes n (Some b)
  | FString n s => writeString n (Some s)
  | FMessage n fs => writeMessage n (Some (write_all (map write_field fs)))
  | FGroup n fs => writeGroup n (Some (write_all (map write_field fs)))
  end.
Definition write_fields (fs : list field) : W unit := write_all (map write_field fs).

Lemma field_ind' (P : field -> Prop)
  (H1 : forall n v, P (FUint32 n v)) (H2 : forall n v, P (FVarint64 n v))
  (H3 : forall n v, P (FFixed32 n v)) (H4 : forall n v, P (FFixed64 n v))
  (H5 : forall n b, P (FBytes n b)) (H6 : forall n s, P (FString n s))
  (H7 : forall n fs, Forall P fs -> P (FMessage n fs))
  (H8 : forall n fs, Forall P fs -> P (FGroup n fs)) f : P f.
Proof.
  revert f. fix IH 1. intros f.
  assert (HF : forall fs : list field, Forall P fs).
  { fix IHl 1. intros [|g gs]; [constructor|]. constructor; [apply IH|apply IHl]. }
  destruct f; [apply H1|apply H2|apply H3|apply H4|apply H5|apply H6|apply H7, HF|apply H8, HF].
Qed.

(** ** What the writer has written *)

(** [w'] is [w] with the bytes [bs] written: whole blocks were added and the
    encoder's buffer holds the rest. *)
Definition written (w w' : writer) (bs : list Z) : Prop :=
  exists extra, blocks_ w' = blocks_ w ++ extra /\
    concat extra ++ encoder_ w' = encoder_ w ++ bs /\
    totalLength_ w' = totalLength_ w + Z.of_nat (length (concat extra)) /\
    bookmarks_ w' = bookmarks_ w.
Definition writes (m : W unit) (bs : list Z) : Prop :=
  forall w, exists w', m w = Ret (tt, w') /\ written w w' bs.

Lemma writes_nothing w : written w w [].
Proof. exists []. rewrite !app_nil_r. simpl. repeat split; lia. Qed.
Lemma written_after w1 w2 w3 b1 b2 : written w1 w2 b1 -> written w2 w3 b2 -> written w1 w3 (b1 ++ b2).
Proof.
  intros (x1 & B1 & C1 & T1 & K1) (x2 & B2 & C2 & T2 & K2). exists (x1 ++ x2).
  rewrite B2, B1, T2, T1, K2, K1, concat_app, length_app, <-!app_assoc, C2.
  rewrite (app_assoc (concat x1)), C1, <-app_assoc. repeat split. lia.
Qed.

Lemma writes_ret : writes (mret tt) [].
Proof. intros w. exists w. split; [done|apply writes_nothing]. Qed.
Lemma writes_bind m k b1 b2 : writes m b1 -> writes k b2 -> writes (m;; k) (b1 ++ b2).
Proof.
  intros Hm Hk w. destruct (Hm w) as (w1 & E1 & X1), (Hk w1) as (w2 & E2 & X2).
  exists w2. unfold mbind, ST_bind. rewrite E1, E2. eauto using written_after.
Qed.
Lemma writes_assert b : b = true -> writes (assert_ b) [].
Proof. intros -> w. exists w. split; [done|apply writes_nothing]. Qed.
Lemma writes_encoder f bs : (forall e, f e = Ret (e ++ bs)) -> writes (on_encoder f) bs.
Proof.
  intros Hf w. unfold on_encoder. rewrite Hf. eexists. split; [reflexivity|].
  exists []. simpl. rewrite app_nil_r. repeat split; lia.
Qed.
Lemma writes_append b : writes (appendUint8Array_ b) b.
Proof.
  intros w. eexists. split; [reflexivity|]. exists [encoder_ w; b]. simpl.
  rewrite <-app_assoc, !app_nil_r, length_app. repeat split; lia.
Qed.
#[export] Hint Resolve writes_ret writes_bind writes_assert writes_encoder writes_append : ws.

Lemma writes_all (fs : list field) :
  Forall (fun f => valid_field f = true -> writes (write_field f) (encode_field f)) fs ->
  forallb valid_field fs = true ->
  writes (write_all (map write_field fs)) (concat (map encode_field fs)).
Proof.
  induction 1; cbn [forallb write_all map foldr concat]; [eauto with ws|].
  intros []%andb_true_iff. auto with ws.
Qed.

(** ** The bytes of the pieces *)

Lemma leb128_step f v : 0 <= v ->
  leb128 (S f) v = if v <? 128 then [v] else v mod 128 + 128 :: leb128 f (v / 128).
Proof. done. Qed.

(** More digits than a number has change nothing. *)
Lemma leb128_more k f v : 0 <= v < 128 ^ Z.of_nat (S f) -> leb128 (S f + k) v = leb128 (S f) v.
Proof.
  revert v. induction f as [|f IH]; intros v Hv.
  - change (128 ^ Z.of_nat 1) with 128 in Hv. cbn. by rewrite (proj2 (Z.ltb_lt v 128)) by lia.
  - cbn [leb128 Nat.add]. destruct (v <? 128) eqn:E; [done|]. apply Z.ltb_ge in E.
    f_equal. apply (IH (v / 128)). split; [euclid|].
    apply Z.div_lt_upper_bound; [lia|]. rewrite <-Z.pow_succ_r by lia.
    replace (Z.succ (Z.of_nat (S f))) with (Z.of_nat (S (S f))) by lia. lia.
Qed.

Lemma varint_leb a : 0 <= a < 2 ^ 32 -> varint a = leb a.
Proof.
  intros Ha. unfold leb. change 10%nat with (5 + 5)%nat.
  rewrite leb128_more by (change (128 ^ Z.of_nat 5) with (2 ^ 35); lia).
  pattern (varint a). apply varint_cases; [done|..]; pow_norm; intros Hc; cbn [leb128];
    repeat match goal with |- context [?x <? 128] =>
      first [rewrite (proj2 (Z.ltb_lt x 128)) by euclid | rewrite (proj2 (Z.ltb_ge x 128)) by euclid] end;
    done.
Qed.

(** The two halves of a 64-bit number, shifted together. *)
Lemma split_shift a b : 0 <= a < 2 ^ 32 -> 0 <= b < 2 ^ 32 ->
  u32 (Z.lor (shr a 7) (shl b 25)) + shr b 7 * 2 ^ 32 = (a + b * 2 ^ 32) / 128.
Proof.
  intros Ha Hb. unfold shr, shl. rewrite !(u32_id a), !(u32_id b) by lia.
  rewrite !Z.shiftr_div_pow2 by lia.
  replace (u32 (Z.lor (a / 2 ^ 7) (i32 (Z.shiftl (i32 b) 25)))) with (a / 2 ^ 7 + b mod 128 * 2 ^ 25).
  { pow_norm. euclid. }
  unfold u32 at 1. rewrite <-Z.land_ones, Z.land_lor_distr_l, !Z.land_ones by lia.
  fold (u32 (i32 (Z.shiftl (i32 b) 25))). rewrite u32_i32.
  rewrite (Z.mod_small (a / 2 ^ 7)) by (pow_norm; euclid).
  replace (u32 (Z.shiftl (i32 b) 25)) with (Z.shiftl (b mod 128) 25).
  { rewrite lor_shiftl by (pow_norm; euclid). done. }
  rewrite !Z.shiftl_mul_pow2 by lia. unfold u32, i32. pow_norm. euclid.
Qed.
Lemma split_digit f a b : 0 <= a < 2 ^ 32 -> 0 <= b < 2 ^ 32 ->
  splitVarint64_loop f a b = leb128 f (a + b * 2 ^ 32).
Proof.
  revert a b. induction f as [|f IH]; intros a b Ha Hb; [done|].
  cbn [splitVarint64_loop leb128].
  destruct (Z.ltb_spec (a + b * 2 ^ 32) 128).
  - rewrite (proj2 (Z.ltb_ge 0 b)), (proj2 (Z.ltb_ge 127 a)) by lia. cbn. f_equal. lia.
  - replace ((0 <? b) || (127 <? a)) with true
      by (destruct (Z.ltb_spec 0 b), (Z.ltb_spec 127 a); cbn; lia || done).
    f_equal.
    + rewrite land_127, (lead_byte _ 1 7) by (pow_norm; euclid). pow_norm. euclid.
    + rewrite IH, split_shift; [done|done|done|apply u32_bound|].
      unfold shr. rewrite u32_id, Z.shiftr_div_pow2 by lia. pow_norm. euclid.
Qed.

(** ** The calls *)

Lemma in_u32_true v : 0 <= v < 2 ^ 32 -> in_u32 v = true.
Proof. intros. apply andb_true_iff. rewrite Z.leb_le, Z.ltb_lt. lia. Qed.
#[export] Hint Resolve in_u32_true : ws.
Lemma number_ok_iff n : number_ok n = true <-> 1 <= n < 2 ^ 29.
Proof. unfold number_ok. rewrite andb_true_iff, Z.leb_le, Z.ltb_lt. done. Qed.

Lemma writes_varint v : 0 <= v < 2 ^ 32 -> writes (on_encoder (writeUnsignedVarint32 v)) (leb v).
Proof.
  intros Hv. apply writes_encoder. intros e. unfold writeUnsignedVarint32.
  rewrite <-varint_leb by done. fold (in_u32 v). by rewrite in_u32_true.
Qed.
Lemma writes_header n t : 1 <= n < 2 ^ 29 -> 0 <= t < 8 -> writes (writeFieldHeader_ n t) (tag n t).
Proof.
  intros Hn Ht. unfold writeFieldHeader_. rewrite <-(app_nil_l (tag n t)).
  apply writes_bind; [apply writes_assert, Z.leb_le; lia|]. apply writes_varint. lia.
Qed.

Lemma le_byte_bytes v : 0 <= v < 2 ^ 32 ->
  [Z.land (shr v 0) 255; Z.land (shr v 8) 255; Z.land (shr v 16) 255; Z.land (shr v 24) 255]
  = le_bytes 4 v.
Proof.
  intros Hv. unfold shr. rewrite u32_id, !Z.shiftr_div_pow2 by lia.
  change 255 with (Z.ones 8). rewrite !land_mask by lia. pow_norm. cbn [le_bytes].
  rewrite !Z.div_div, Z.div_1_r by lia. done.
Qed.
Lemma writes_uint32 v : 0 <= v < 2 ^ 32 -> writes (on_encoder (encoder_writeUint32 v)) (le_bytes 4 v).
Proof.
  intros Hv. apply writes_encoder. intros e. unfold encoder_writeUint32.
  by rewrite in_u32_true, le_byte_bytes.
Qed.
Lemma le_bytes_split k j v : 0 <= v ->
  le_bytes (k + j) v = le_bytes k v ++ le_bytes j (v / 256 ^ Z.of_nat k).
Proof.
  revert v. induction k as [|k IH]; intros v Hv; cbn [Nat.add le_bytes app].
  - by rewrite Z.div_1_r.
  - rewrite IH by (apply Z.div_pos; lia). rewrite Z.div_div by lia.
    by rewrite <-Z.pow_succ_r, Nat2Z.inj_succ by lia.
Qed.
Lemma le_bytes_mod k v : 0 <= v -> le_bytes k (v mod 256 ^ Z.of_nat k) = le_bytes k v.
Proof.
  revert v. induction k as [|k IH]; intros v Hv; [done|]. cbn [le_bytes].
  replace (256 ^ Z.of_nat (S k)) with (256 * 256 ^ Z.of_nat k)
    by (rewrite <-Z.pow_succ_r, Nat2Z.inj_succ by lia; done).
  rewrite Z.rem_mul_r by lia.
  replace (v mod 256 + 256 * ((v / 256) mod 256 ^ Z.of_nat k))
    with (v mod 256 + ((v / 256) mod 256 ^ Z.of_nat k) * 256) by lia.
  rewrite Z_mod_plus_full, Z.mod_mod, Z.div_add by lia.
  rewrite (Z.div_small (v mod 256)) by (apply Z.mod_pos_bound; lia).
  rewrite Z.add_0_l, IH by (apply Z.div_pos; lia). done.
Qed.

(** A delimited field: what its body writes, after its length. *)
Lemma writes_delimited n m bs : 1 <= n < 2 ^ 29 -> Z.of_nat (length bs) < 2 ^ 32 -> writes m bs ->
  writes (i ← beginDelimited_ n; m;; endDelimited_ i) (delimited n bs).
Proof.
  intros Hn Hl Hm w. destruct (writes_header n DELIMITED Hn ltac:(done) w) as (w1 & E1 & X1).
  unfold beginDelimited_, mbind, ST_bind. rewrite E1. cbn.
  set (w2 := BinaryWriter _ _ _ _). destruct (Hm w2) as (w3 & E3 & X3). rewrite E3.
  destruct X1 as (x1 & B1 & C1 & T1 & K1), X3 as (x3 & B3 & C3 & T3 & K3).
  unfold w2 in *; clear w2. cbn [blocks_ totalLength_ encoder_ bookmarks_] in *.
  rewrite length_app, Nat.add_comm in *. cbn [length Nat.add Nat.pred] in *.
  set (total := totalLength_ w1 + Z.of_nat (length (encoder_ w1))) in *.
  rewrite alter_app_r_alt, Nat.sub_diag, <-app_assoc in B3 by lia. cbn [alter list_alter app] in B3.
  unfold endDelimited_. rewrite B3, list_lookup_middle by done.
  rewrite last_last, removelast_last, T3. cbn [app] in C3.
  assert (Hd : (length (concat x3) + length (encoder_ w3) = length bs)%nat)
    by (rewrite <-length_app, C3; done).
  replace (total + Z.of_nat (length (concat x3)) + Z.of_nat (length (encoder_ w3)) - total)
    with (Z.of_nat (length bs)) by lia.
  rewrite (proj2 (Z.leb_le 0 _)) by lia. fold (varint (Z.of_nat (length bs))).
  rewrite varint_leb by lia. eexists. split; [reflexivity|].
  rewrite insert_app_r_alt, Nat.sub_diag by lia. cbn [app insert list_insert].
  exists (x1 ++ (encoder_ w1 ++ leb (Z.of_nat (length bs))) :: x3).
  cbn [blocks_ totalLength_ encoder_ bookmarks_]. rewrite B1, K3, K1, <-app_assoc.
  split; [done|]. rewrite !concat_app. cbn [concat]. rewrite <-!app_assoc, C3.
  split; [|split; [|done]].
  - rewrite app_assoc, C1, <-!app_assoc. done.
  - rewrite !length_app. unfold total. rewrite T1. lia.
Qed.

Lemma in_u32_iff v : in_u32 v = true <-> 0 <= v < 2 ^ 32.
Proof. unfold in_u32. rewrite andb_true_iff, Z.leb_le, Z.ltb_lt. done. Qed.
Lemma size_ok_iff b : size_ok b = true <-> Z.of_nat (length b) < 2 ^ 32.
Proof. apply Z.ltb_lt. Qed.

(** The conditions of [valid_field], as propositions. *)
Ltac valid_hyps :=
  cbn [valid_field] in *;
  repeat first
    [ rewrite !andb_true_iff in * | rewrite number_ok_iff in * | rewrite in_u32_iff in *
    | rewrite size_ok_iff in * | rewrite Z.leb_le in * | rewrite Z.ltb_lt in * ];
  destruct_and?.

(** A header, then what else the call writes. *)
Lemma writes_tagged n t m bs : 1 <= n < 2 ^ 29 -> 0 <= t < 8 -> writes m bs ->
  writes (writeFieldHeader_ n t;; m) (tag n t ++ bs).
Proof. intros. by apply writes_bind; [apply writes_header|]. Qed.

Lemma writes_split_varint n v : 1 <= n < 2 ^ 29 -> 0 <= v < 2 ^ 64 ->
  writes (writeSplitVarint64 n (v mod 2 ^ 32) (v / 2 ^ 32)) (tag n VARINT ++ leb v).
Proof.
  intros Hn Hv. apply writes_tagged; [done|done|]. apply writes_encoder. intros e.
  assert (0 <= v mod 2 ^ 32 < 2 ^ 32 /\ 0 <= v / 2 ^ 32 < 2 ^ 32) as [] by (pow_norm; euclid).
  unfold encoder_writeSplitVarint64. rewrite !in_u32_true, split_digit by done. cbn [andb].
  do 2 f_equal. unfold leb. f_equal. pow_norm. euclid.
Qed.
Lemma writes_split_fixed n v : 1 <= n < 2 ^ 29 -> 0 <= v < 2 ^ 64 ->
  writes (writeSplitFixed64 n (v mod 2 ^ 32) (v / 2 ^ 32)) (tag n FIXED64 ++ le_bytes 8 v).
Proof.
  intros Hn Hv. apply writes_tagged; [done|done|]. apply writes_encoder. intros e.
  assert (0 <= v mod 2 ^ 32 < 2 ^ 32 /\ 0 <= v / 2 ^ 32 < 2 ^ 32) as [] by (pow_norm; euclid).
  unfold encoder_writeSplitFixed64, encoder_writeUint32.
  rewrite !in_u32_true by done. cbn [andb mbind outcome_bind]. rewrite !le_byte_bytes by done.
  rewrite <-app_assoc. change 8%nat with (4 + 4)%nat. rewrite le_bytes_split by lia.
  change (256 ^ Z.of_nat 4) with (2 ^ 32).
  rewrite <-(le_bytes_mod 4 v) by lia. done.
Qed.
Lemma writes_bytes n b : 1 <= n < 2 ^ 29 -> Z.of_nat (length b) < 2 ^ 32 ->
  writes (writeBytes n (Some b)) (delimited n b).
Proof.
  intros. apply writes_tagged; [done|done|].
  apply writes_bind; [apply writes_varint; lia|apply writes_append].
Qed.
Lemma writes_string n s : 1 <= n < 2 ^ 29 -> well_formed s = true -> Z.of_nat (length (utf8 s)) < 2 ^ 32 ->
  writes (writeString n (Some s)) (delimited n (utf8 s)).
Proof.
  intros Hn (cps & Hc & ->)%well_formed_scalars Hl. apply writes_delimited; [done|done|].
  unfold utf8. rewrite s2cp_cp2s by done. apply writes_encoder. intros e.
  by rewrite writeString_utf8.
Qed.

(** Every call writes its field. *)
Lemma writes_field f : valid_field f = true -> writes (write_field f) (encode_field f).
Proof.
  induction f as [n v|n v|n v|n v|n b|n s|n fs IH|n fs IH] using field_ind';
    cbn [write_field encode_field]; intros Hv; valid_hyps.
  - rewrite <-(app_nil_l (_ ++ _)). apply writes_bind; [by apply writes_assert, in_u32_iff|].
    apply writes_tagged; [done|done|]. by apply writes_varint.
  - by apply writes_split_varint.
  - rewrite <-(app_nil_l (_ ++ _)). apply writes_bind; [by apply writes_assert, in_u32_iff|].
    apply writes_tagged; [done|done|]. by apply writes_uint32.
  - by apply writes_split_fixed.
  - by apply writes_bytes.
  - by apply writes_string.
  - apply writes_delimited; [done|done|]. by apply writes_all.
  - apply writes_tagged; [done|done|]. apply writes_bind; [|by apply writes_header].
    by apply writes_all.
Qed.
Lemma writes_fields fs : forallb valid_field fs = true -> writes (write_fields fs) (encode_fields fs).
Proof. apply writes_all, list.Forall_forall. intros f _. apply writes_field. Qed.

(** ** The result *)

Lemma set_blocks_fits bs a d : (d + length (concat bs) <= length a)%nat ->
  set_blocks a d bs = Ret (take d a ++ map to_uint8 (concat bs) ++ drop (d + length (concat bs)) a,
                           (d + length (concat bs))%nat).
Proof.
  revert a d. induction bs as [|f bs IH]; intros a d Hl; cbn [set_blocks concat].
  - cbn [length map app]. by rewrite Nat.add_0_r, take_drop.
  - cbn [concat] in Hl. rewrite length_app in Hl. rewrite decide_True by lia.
    assert (Ht : length (take d a) = d) by (rewrite length_take; lia).
    assert (Hf : length (map to_uint8 f) = length f) by apply length_map.
    rewrite IH by (rewrite !length_app, length_drop, Ht, Hf; lia).
    rewrite length_app, map_app, Nat.add_assoc. do 2 f_equal.
    rewrite !app_assoc. f_equal; [f_equal|].
    + rewrite take_app_length'; [done|]. rewrite length_app. lia.
    + rewrite drop_app_ge by (rewrite length_app; lia).
      rewrite length_app, Ht, Hf, drop_drop. f_equal. lia.
Qed.

(** A writer that starts empty ends with the bytes it was made to write. *)
Lemma result_written m bs : writes m bs -> Forall is_byte bs ->
  exists w, (m;; getResultBuffer) new_BinaryWriter = Ret (bs, w).
Proof.
  intros Hm Hb. destruct (Hm new_BinaryWriter) as (w & E & x & B & C & T & K).
  cbn in B, C, T, K. unfold mbind, ST_bind. rewrite E. unfold getResultBuffer.
  rewrite decide_True by done.
  assert (Hl : Z.to_nat (totalLength_ w + Z.of_nat (length (encoder_ w))) = length bs).
  { rewrite <-C, length_app, T. lia. }
  assert (Hc : concat (blocks_ w ++ [encoder_ w]) = bs).
  { rewrite concat_app, B. cbn. by rewrite app_nil_r. }
  rewrite Hl, set_blocks_fits; rewrite Hc; [|by rewrite length_replicate].
  cbn [mbind outcome_bind fst snd]. rewrite decide_True by done.
  eexists. rewrite to_uint8_bytes, drop_ge by (rewrite ?length_replicate; done).
  by rewrite app_nil_r.
Qed.

(** ** The result is the format *)

Lemma leb128_byte f v : 0 <= v -> Forall is_byte (leb128 f v).
Proof.
  revert v. induction f as [|f IH]; intros v Hv; [constructor|]. cbn [leb128].
  destruct (Z.ltb_spec v 128).
  - constructor; [unfold is_byte; lia|constructor].
  - constructor; [unfold is_byte; euclid|]. apply IH. euclid.
Qed.
Lemma le_bytes_byte k v : Forall is_byte (le_bytes k v).
Proof.
  revert v. induction k as [|k IH]; intros v; [constructor|]. cbn. constructor; [|done].
  apply Z.mod_pos_bound. lia.
Qed.
Lemma leb_byte v : 0 <= v -> Forall is_byte (leb v).
Proof. apply leb128_byte. Qed.
Lemma wire_type_cases t : wire_type_ok t = true -> 0 <= t < 8.
Proof.
  unfold wire_type_ok. rewrite !orb_true_iff, !Z.eqb_eq.
  unfold VARINT, FIXED32, FIXED64, DELIMITED, START_GROUP, END_GROUP. lia.
Qed.
Lemma tag_byte n t : 1 <= n -> wire_type_ok t = true -> Forall is_byte (tag n t).
Proof. intros ? ?%wire_type_cases. apply leb_byte. lia. Qed.
Lemma delimited_byte n b : 1 <= n -> Forall is_byte b -> Forall is_byte (delimited n b).
Proof.
  intros. unfold delimited. rewrite !Forall_app. split; [by apply tag_byte|].
  split; [apply leb128_byte; lia|done].
Qed.
Lemma utf8_byte s : well_formed s = true -> Forall is_byte (utf8 s).
Proof.
  intros (cps & Hc & ->)%well_formed_scalars. unfold utf8. rewrite s2cp_cp2s by done.
  by apply utf8_concat_byte.
Qed.
Lemma all_bytes (fs : list field) :
  Forall (fun f => valid_field f = true -> Forall is_byte (encode_field f)) fs ->
  forallb valid_field fs = true -> Forall is_byte (concat (map encode_field fs)).
Proof.
  induction 1; cbn [forallb map concat]; [constructor|]. intros []%andb_true_iff.
  apply Forall_app. auto.
Qed.
Lemma encode_field_byte f : valid_field f = true -> Forall is_byte (encode_field f).
Proof.
  induction f as [n v|n v|n v|n v|n b|n s|n fs IH|n fs IH] using field_ind';
    cbn [encode_field]; intros Hv; valid_hyps; rewrite ?Forall_app;
    auto 6 using tag_byte, le_bytes_byte, delimited_byte, utf8_byte, all_bytes, leb_byte with lia.
  apply delimited_byte; [lia|].
  match goal with H : forallb _ b = true |- _ =>
    rewrite forallb_forall in H; apply list.Forall_forall; intros x Hx;
    apply (bool_decide_eq_true_1 _ (H x (proj1 (list_elem_of_In _ _) Hx))) end.
Qed.
Lemma encode_fields_byte fs : forallb valid_field fs = true -> Forall is_byte (encode_fields fs).
Proof. apply all_bytes, list.Forall_forall. intros f _. apply encode_field_byte. Qed.

(** C17. The writer implements the format: whatever fields are written, nested to
    any depth, the result is their encoding. *)
Theorem writer_implements_format fs :
  forallb valid_field fs = true ->
  exists w, (write_fields fs;; getResultBuffer) new_BinaryWriter = Ret (encode_fields fs, w).
Proof. intros Hv. by apply result_written; [apply writes_fields|apply encode_fields_byte]. Qed.

Lemma writer_implements_format_witness :
  let fs := [FMessage 3 [FString 1 (js "a"); FGroup 2 [FVarint64 7 (2 ^ 40)]]; FFixed32 5 77] in
  exists w, (write_fields fs;; getResultBuffer) new_BinaryWriter = Ret (encode_fields fs, w).
Proof. apply (writer_implements_format [FMessage 3 [FString 1 (js "a"); FGroup 2 [FVarint64 7 (2 ^ 40)]]; FFixed32 5 77]). reflexivity. Defined.
