(* ===== verification/UserMessageSpec.v ===== *)
(** The generated class over the wire format: what [deserializeBinary] makes of
    any well-formed message, the round trip with [serializeBinary], and where
    it throws. *)

From S2P Require Import Prelude JsVal Int32 TextEncoding Utf8Step Utf8Spec Wire WireReader WireSpec.
From S2P Require Import WireFields GoogBase64 UserMessage.

(** ** A reader in the middle of a message *)

Definition rdr (p s : list Z) (fc n t : Z) : reader := BinaryReader (dec p s) fc n t false.

Lemma on_decoder_rdr {A} (m : D A) p s fc n t a p' s' :
  m (dec p s) = Ret (a, dec p' s') ->
  on_decoder m (rdr p s fc n t) = Ret (a, rdr p' s' fc n t).
Proof. intros E. unfold on_decoder, rdr. cbn [decoder_]. by rewrite E. Qed.

Lemma nextField_end p fc n t : nextField (rdr p [] fc n t) = Ret (false, rdr p [] fc n t).
Proof.
  unfold nextField, rdr, atEnd, dec. cbn [decoder_ cursor_ end_]. rewrite app_nil_r.
  by rewrite Z.eqb_refl.
Qed.

Lemma leb_length v : 0 <= v -> (1 <= length (leb v))%nat.
Proof. intros. unfold leb. cbn [leb128]. destruct (v <? 128); simpl; lia. Qed.
Lemma tag_length n t : 1 <= n -> 0 <= t -> (1 <= length (tag n t))%nat.
Proof. intros. apply leb_length. lia. Qed.

(** The next field's header is read. *)
Lemma nextField_tag p n t s fc n0 t0 : 1 <= n < 2 ^ 29 -> wire_type_ok t = true ->
  nextField (rdr p (tag n t ++ s) fc n0 t0)
  = Ret (true, rdr (p ++ tag n t) s (Z.of_nat (length p)) n t).
Proof.
  intros Hn Ht. pose proof (wire_type_cases t Ht) as Hb. pose proof (tag_length n t ltac:(lia) ltac:(lia)).
  unfold nextField, rdr, atEnd, reader_getError, getError.
  cbn [decoder_ reader_error_ dec cursor_ end_ error_ orb].
  rewrite (proj2 (Z.eqb_neq _ _)) by (rewrite !length_app; lia).
  rewrite (proj2 (Z.ltb_ge _ 0)), (proj2 (Z.ltb_ge _ _)) by (rewrite ?length_app; lia). cbn [orb].
  fold (dec p (tag n t ++ s)). unfold tag. rewrite <-varint_leb, read_varint by lia.
  rewrite land_7. replace ((8 * n + t) mod 8) with t by euclid. rewrite Ht.
  unfold shr. rewrite u32_id, Z.shiftr_div_pow2 by lia. pow_norm.
  by replace ((8 * n + t) / 8) with n by euclid.
Qed.

Lemma read_leb p v s fc n t : 0 <= v < 2 ^ 32 ->
  on_decoder readUnsignedVarint32 (rdr p (leb v ++ s) fc n t) = Ret (v, rdr (p ++ leb v) s fc n t).
Proof. intros. apply on_decoder_rdr. by rewrite <-varint_leb, read_varint. Qed.

Lemma expect_ok t r : nextWireType_ r = t -> expect_wire t r = Ret (tt, r).
Proof.
  intros <-. unfold expect_wire, get_, assert_, mbind, ST_bind. by rewrite Z.eqb_refl.
Qed.

Lemma expect_fails t r : nextWireType_ r <> t ->
  expect_wire t r = Throw (JErr AssertionErr (js "Assertion failed")).
Proof.
  intros Ht. unfold expect_wire, get_, assert_, mbind, ST_bind. by rewrite (proj2 (Z.eqb_neq _ t)).
Qed.

(** A length and the string it announces. *)
Lemma readString_delimited p cps s fc n : Forall is_scalar cps ->
  Z.of_nat (length (utf8_concat cps)) < 2 ^ 32 ->
  let b := leb (Z.of_nat (length (utf8_concat cps))) ++ utf8_concat cps in
  readString (rdr p (b ++ s) fc n DELIMITED)
  = Ret (codePointsToString cps, rdr (p ++ b) s fc n DELIMITED).
Proof.
  intros Hs Hl b. unfold readString, mbind, ST_bind. rewrite expect_ok by done.
  unfold b. rewrite <-app_assoc, read_leb by lia.
  rewrite (on_decoder_rdr _ _ _ _ _ _ _ _ _ (read_string _ cps s Hs)). by rewrite <-app_assoc.
Qed.

(** ** Skipping *)

Lemma band_128 b : 0 <= b < 256 -> (Z.land b 128 =? 0) = (b <? 128).
Proof.
  intros. destruct (Z.ltb_spec b 128).
  - apply Z.eqb_eq. rewrite <-(Z.mod_small b (2 ^ 7)), <-Z.land_ones by lia.
    rewrite <-Z.land_assoc. change (Z.land (Z.ones 7) 128) with 0. apply Z.land_0_r.
  - apply Z.eqb_neq. intros E. assert (Z.testbit (Z.land b 128) 7 = false) as Hb by (by rewrite E).
    rewrite Z.land_spec, andb_true_r, Z.testbit_odd, Z.shiftr_div_pow2 in Hb by lia.
    replace (b / 2 ^ 7) with 1 in Hb by (pow_norm; euclid). done.
Qed.

Lemma snoc_app {A} (p : list A) x l : p ++ x :: l = (p ++ [x]) ++ l.
Proof. by rewrite <-app_assoc. Qed.

Lemma skip_leb f : forall v p s fuel, 0 <= v < 128 ^ Z.of_nat (S f) ->
  (length (leb128 (S f) v) <= fuel)%nat ->
  skipVarint_loop fuel (p ++ leb128 (S f) v ++ s) (Z.of_nat (length p))
  = Some (Z.of_nat (length (p ++ leb128 (S f) v))).
Proof.
  induction f as [|f IH]; intros v p s fuel Hv.
  - change (128 ^ Z.of_nat 1) with 128 in Hv. cbn [leb128].
    rewrite (proj2 (Z.ltb_lt v 128)) by lia. destruct fuel; cbn [length]; [lia|]. intros _.
    cbn [skipVarint_loop app]. rewrite at_app_mid. cbn [band]. rewrite band_128 by lia.
    rewrite (proj2 (Z.ltb_lt v 128)) by lia. f_equal. rewrite length_app. cbn. lia.
  - rewrite leb128_step by lia. destruct (Z.ltb_spec v 128).
    + destruct fuel; cbn [length]; [lia|]. intros _.
      cbn [skipVarint_loop app]. rewrite at_app_mid. cbn [band]. rewrite band_128 by lia.
      rewrite (proj2 (Z.ltb_lt v 128)) by lia. f_equal. rewrite length_app. cbn. lia.
    + destruct fuel; cbn [length]; [lia|]. intros Hf. cbn [skipVarint_loop app].
      rewrite at_app_mid. cbn [band]. rewrite band_128 by euclid.
      rewrite (proj2 (Z.ltb_ge _ 128)) by euclid.
      rewrite (snoc_app p _ (leb128 (S f) (v / 128) ++ s)), (snoc_app p _ (leb128 (S f) (v / 128))).
      replace (Z.of_nat (length p) + 1)
        with (Z.of_nat (length (p ++ [v mod 128 + 128]))) by (rewrite length_app; cbn; lia).
      apply IH; [|lia].
      split; [euclid|]. apply Z.div_lt_upper_bound; [lia|].
      rewrite <-Z.pow_succ_r by lia. replace (Z.succ (Z.of_nat (S f))) with (Z.of_nat (S (S f))) by lia. lia.
Qed.

Lemma read_over {A} (m : D A) a p x s fc n t :
  m (dec p (x ++ s)) = Ret (a, dec (p ++ x) s) ->
  on_decoder m (rdr p (x ++ s) fc n t) = Ret (a, rdr (p ++ x) s fc n t).
Proof. apply on_decoder_rdr. Qed.

Lemma skip_varint p v s : 0 <= v < 2 ^ 64 ->
  skipVarint (dec p (leb v ++ s)) = Ret (tt, dec (p ++ leb v) s).
Proof.
  intros Hv. unfold skipVarint. cbn [bytes_ cursor_ dec]. unfold leb. rewrite skip_leb.
  - fold (dec p (leb128 10 v ++ s)). rewrite length_app, Nat2Z.inj_add. by rewrite set_cursor_dec.
  - change (128 ^ Z.of_nat 10) with (2 ^ 70). lia.
  - rewrite !length_app. lia.
Qed.

(** Number, wire type and body of a field. *)
Definition num (f : field) : Z :=
  match f with
  | FUint32 n _ | FVarint64 n _ | FFixed32 n _ | FFixed64 n _ | FBytes n _ | FString n _
  | FMessage n _ | FGroup n _ => n
  end.
Definition wire (f : field) : Z :=
  match f with
  | FUint32 _ _ | FVarint64 _ _ => VARINT
  | FFixed32 _ _ => FIXED32
  | FFixed64 _ _ => FIXED64
  | FBytes _ _ | FString _ _ | FMessage _ _ => DELIMITED
  | FGroup _ _ => START_GROUP
  end.
Definition body (f : field) : list Z := drop (length (tag (num f) (wire f))) (encode_field f).

Lemma encode_body f : encode_field f = tag (num f) (wire f) ++ body f.
Proof. by destruct f; unfold body; cbn [encode_field num wire]; unfold delimited; rewrite drop_app_length. Qed.
Lemma num_ok f : valid_field f = true -> 1 <= num f < 2 ^ 29.
Proof. destruct f; intros; valid_hyps; cbn; lia. Qed.
Lemma wire_ok f : wire_type_ok (wire f) = true.
Proof. by destruct f. Qed.

Lemma advance_by p x s k : k = Z.of_nat (length x) ->
  advance k (dec p (x ++ s)) = Ret (tt, dec (p ++ x) s).
Proof. intros ->. apply advance_dec. Qed.
Lemma le_bytes_length k v : length (le_bytes k v) = k.
Proof. revert v. induction k; intros; cbn; congruence. Qed.

(** Skipping a length and what it announces. *)
Lemma skip_delimited p b s fc n : Z.of_nat (length b) < 2 ^ 32 ->
  skipDelimitedField (rdr p ((leb (Z.of_nat (length b)) ++ b) ++ s) fc n DELIMITED)
  = Ret (tt, rdr (p ++ leb (Z.of_nat (length b)) ++ b) s fc n DELIMITED).
Proof.
  intros Hl. unfold skipDelimitedField, mbind, ST_bind. rewrite <-app_assoc, read_leb by lia.
  rewrite (read_over _ tt) by by apply advance_dec. by rewrite <-app_assoc.
Qed.

(** The field is passed over, and nothing else. *)
Definition skips (f : field) : Prop := forall fuel p s fc,
  (length (encode_field f) <= fuel)%nat ->
  exists fc' n' t', skipField fuel (rdr p (body f ++ s) fc (num f) (wire f))
                    = Ret (tt, rdr (p ++ body f) s fc' n' t').

Lemma skips_one f : (forall fuel p s fc,
    skipField (S fuel) (rdr p (body f ++ s) fc (num f) (wire f))
    = Ret (tt, rdr (p ++ body f) s fc (num f) (wire f))) ->
  valid_field f = true -> skips f.
Proof.
  intros H Hv [|fuel] p s fc Hf; [|by eauto].
  rewrite encode_body, length_app in Hf. pose proof (num_ok f Hv).
  pose proof (wire_type_cases _ (wire_ok f)). pose proof (tag_length (num f) (wire f)). lia.
Qed.

Lemma skips_group fs : Forall (fun f => valid_field f = true -> skips f) fs ->
  forallb valid_field fs = true -> forall fuel p s fc n n0 t0, 1 <= n < 2 ^ 29 ->
  (length (encode_fields fs) < fuel)%nat ->
  exists fc', skipGroup fuel n (rdr p ((encode_fields fs ++ tag n END_GROUP) ++ s) fc n0 t0)
  = Ret (tt, rdr (p ++ encode_fields fs ++ tag n END_GROUP) s fc' n END_GROUP).
Proof.
  induction 1 as [|f fs Hf _ IH]; cbn [forallb]; intros Hv fuel p s fc n n0 t0 Hn Hl.
  - destruct fuel; [lia|]. cbn [skipGroup encode_fields map concat app].
    unfold mbind, ST_bind. rewrite nextField_tag by done. cbn [get_ nextWireType_ rdr nextField_].
    rewrite !Z.eqb_refl. by eexists.
  - apply andb_true_iff in Hv as [Hv Hvs]. specialize (Hf Hv).
    change (encode_fields (f :: fs)) with (encode_field f ++ encode_fields fs) in *.
    rewrite length_app in Hl. destruct fuel; [lia|].
    assert (1 <= length (encode_field f))%nat.
    { rewrite encode_body, length_app. pose proof (num_ok f Hv).
      pose proof (wire_type_cases _ (wire_ok f)). pose proof (tag_length (num f) (wire f)). lia. }
    cbn [skipGroup]. rewrite encode_body, <-!app_assoc. unfold mbind, ST_bind.
    rewrite nextField_tag by auto using num_ok, wire_ok. cbn [get_ nextWireType_ rdr].
    replace (wire f =? END_GROUP) with false by by destruct f.
    destruct (Hf fuel (p ++ tag (num f) (wire f)) (encode_fields fs ++ tag n END_GROUP ++ s)
                (Z.of_nat (length p)) ltac:(lia)) as (fc' & n' & t' & E).
    fold (rdr (p ++ tag (num f) (wire f)) (body f ++ encode_fields fs ++ tag n END_GROUP ++ s)
            (Z.of_nat (length p)) (num f) (wire f)). rewrite E.
    destruct (IH Hvs fuel ((p ++ tag (num f) (wire f)) ++ body f) s fc' n n' t' Hn ltac:(lia))
      as (fc'' & E').
    rewrite <-!app_assoc in *. rewrite E'. by eexists.
Qed.

Lemma skips_field f : valid_field f = true -> skips f.
Proof.
  induction f as [n v|n v|n v|n v|n b|n s|n fs IH|n fs IH] using field_ind'; intros Hv.
  1-7: apply skips_one; [|done]; intros fuel p' s' fc; unfold body; cbn [encode_field num wire];
    unfold delimited; rewrite drop_app_length; valid_hyps.
  - apply read_over, skip_varint. lia.
  - apply read_over, skip_varint. lia.
  - apply read_over, advance_by. by rewrite le_bytes_length.
  - apply read_over, advance_by. by rewrite le_bytes_length.
  - by apply skip_delimited.
  - by apply skip_delimited.
  - by apply skip_delimited.
  - intros [|fuel] p s fc; unfold body; cbn [encode_field num wire]; rewrite drop_app_length;
      valid_hyps; rewrite !length_app.
    { pose proof (tag_length n START_GROUP ltac:(lia) ltac:(done)). lia. }
    intros Hl. pose proof (tag_length n START_GROUP ltac:(lia) ltac:(done)).
    pose proof (tag_length n END_GROUP ltac:(lia) ltac:(done)).
    destruct (skips_group fs IH ltac:(done) fuel p s fc n n START_GROUP ltac:(lia)) as (fc' & E).
    { unfold encode_fields. lia. }
    eexists fc', n, END_GROUP. exact E.
Qed.

(** ** The class *)

(** What a field does to the message being read: its own two strings are set,
    every other field is ignored. *)
Definition apply_field (m : pb_message) (f : field) : pb_message :=
  match f with
  | FString n s =>
      if n =? 1 then setUsername m (JStr s) else if n =? 2 then setText m (JStr s) else m
  | _ => m
  end.
(** Fields 1 and 2, where present, are strings. *)
Definition own_field (f : field) : bool :=
  match f with
  | FString _ _ => true
  | _ => negb (num f =? 1) && negb (num f =? 2)
  end.

Lemma readString_field p n s rest fc : valid_field (FString n s) = true ->
  readString (rdr p (body (FString n s) ++ rest) fc n DELIMITED)
  = Ret (s, rdr (p ++ body (FString n s)) rest fc n DELIMITED).
Proof.
  intros Hv. valid_hyps. destruct (well_formed_scalars s) as (cps & Hc & ->); [done|].
  unfold body. cbn [encode_field num wire]. unfold delimited, utf8 in *.
  rewrite s2cp_cp2s in * by done. rewrite drop_app_length. by apply readString_delimited.
Qed.

Lemma field_length f : valid_field f = true -> (1 <= length (encode_field f))%nat.
Proof.
  intros Hv. rewrite encode_body, length_app. pose proof (num_ok f Hv).
  pose proof (wire_type_cases _ (wire_ok f)). pose proof (tag_length (num f) (wire f)). lia.
Qed.
Lemma fields_length fs : forallb valid_field fs = true -> (length fs <= length (encode_fields fs))%nat.
Proof.
  unfold encode_fields. induction fs as [|f fs IH]; cbn [forallb map concat length]; [lia|].
  intros [Hv Hvs]%andb_true_iff. rewrite length_app. pose proof (field_length f Hv).
  pose proof (IH Hvs). lia.
Qed.

(** One round of the loop, once the next header is read. *)
Lemma deserialize_round fuel m r r1 : nextField r = Ret (true, r1) ->
  deserializeBinaryFromReader (S fuel) m r =
    if nextWireType_ r1 =? END_GROUP then Ret (m, r1)
    else if nextField_ r1 =? 1 then
      (value ← readString; deserializeBinaryFromReader fuel (setUsername m (JStr value))) r1
    else if nextField_ r1 =? 2 then
      (value ← readString; deserializeBinaryFromReader fuel (setText m (JStr value))) r1
    else (skipField fuel;; deserializeBinaryFromReader fuel m) r1.
Proof.
  intros E. cbn [deserializeBinaryFromReader]. unfold mbind at 1, ST_bind at 1. rewrite E.
  unfold isEndGroup, getFieldNumber, get_, mbind, ST_bind.
  destruct (nextWireType_ r1 =? END_GROUP), (nextField_ r1 =? 1), (nextField_ r1 =? 2); done.
Qed.

(** The fields at the front of what is left are applied, one round each. *)
Lemma deserialize_prefix fs : forallb valid_field fs = true -> forallb own_field fs = true ->
  forall fuel m p s fc n t, (length (encode_fields fs) < fuel)%nat ->
  exists fc' n' t', deserializeBinaryFromReader fuel m (rdr p (encode_fields fs ++ s) fc n t)
    = deserializeBinaryFromReader (fuel - length fs) (foldl apply_field m fs)
        (rdr (p ++ encode_fields fs) s fc' n' t').
Proof.
  induction fs as [|f fs IH]; cbn [forallb]; intros Hv Ho fuel m p s fc n t Hl.
  - exists fc, n, t. change (encode_fields []) with (@nil Z). cbn [length foldl app].
    by rewrite Nat.sub_0_r, app_nil_r.
  - apply andb_true_iff in Hv as [Hv Hvs], Ho as [Ho Hos].
    change (encode_fields (f :: fs)) with (encode_field f ++ encode_fields fs) in *.
    rewrite length_app in Hl. destruct fuel; [lia|]. pose proof (field_length f Hv).
    cbn [foldl length Nat.sub]. rewrite encode_body, <-!app_assoc.
    erewrite deserialize_round by (apply nextField_tag; auto using num_ok, wire_ok).
    cbn [nextWireType_ nextField_ rdr].
    replace (wire f =? END_GROUP) with false by by destruct f. unfold mbind, ST_bind.
    assert (Hstep : forall fc' n' t', exists fc'' n'' t'',
      deserializeBinaryFromReader fuel (apply_field m f)
        (rdr ((p ++ tag (num f) (wire f)) ++ body f) (encode_fields fs ++ s) fc' n' t')
      = deserializeBinaryFromReader (fuel - length fs) (foldl apply_field (apply_field m f) fs)
        (rdr (p ++ tag (num f) (wire f) ++ body f ++ encode_fields fs) s fc'' n'' t'')).
    { intros. rewrite !app_assoc. apply IH; [done|done|lia]. }
    destruct (Z.eqb_spec (num f) 1) as [E1|E1], (Z.eqb_spec (num f) 2) as [E2|E2];
      cbv beta iota.
    1: lia.
    3: { destruct (skips_field f Hv fuel (p ++ tag (num f) (wire f)) (encode_fields fs ++ s)
           (Z.of_nat (length p)) ltac:(lia)) as (fc' & n' & t' & E). rewrite E.
         assert (Em : apply_field m f = m); [|rewrite Em in *; apply Hstep].
         destruct f; try done. cbn in E1, E2. cbn.
         by rewrite (proj2 (Z.eqb_neq _ _) E1), (proj2 (Z.eqb_neq _ _) E2). }
    all: destruct f as [| | | | |k str| |]; cbn [own_field num] in *;
      try (rewrite ?E1, ?E2 in Ho; discriminate); subst k;
      change (wire (FString _ _)) with DELIMITED in *; rewrite readString_field by done; apply Hstep.
Qed.

Lemma deserialize_end fuel m p fc n t :
  deserializeBinaryFromReader (S fuel) m (rdr p [] fc n t) = Ret (m, rdr p [] fc n t).
Proof. cbn [deserializeBinaryFromReader]. unfold mbind, ST_bind. by rewrite nextField_end. Qed.

(** A message that starts with well-formed fields is read from there on. *)
Lemma deserialize_from fs s fuel : forallb valid_field fs = true -> forallb own_field fs = true ->
  encode_fields fs ++ s <> [] -> (length (encode_fields fs) < fuel)%nat ->
  exists fc n t, deserializeBinary fuel (JBytes (encode_fields fs ++ s)) =
    (x ← deserializeBinaryFromReader (fuel - length fs) (foldl apply_field (UserMessage None) fs)
           (rdr (encode_fields fs) s fc n t); Ret x.1).
Proof.
  intros Hv Ho Hne Hl. unfold deserializeBinary, reader_of.
  cbn [truthy byteSourceToUint8Array mbind outcome_bind].
  change (new_BinaryReader (Some ?b)) with (rdr [] b 0 (-1) INVALID).
  destruct (deserialize_prefix fs Hv Ho fuel (UserMessage None) [] s 0 (-1) INVALID Hl)
    as (fc & n & t & E). exists fc, n, t. by rewrite E.
Qed.

(** A message read to its end. *)
Lemma deserialize_fields fs fuel :
  forallb valid_field fs = true -> forallb own_field fs = true ->
  (length (encode_fields fs) < fuel)%nat ->
  deserializeBinary fuel (JBytes (encode_fields fs)) = Ret (foldl apply_field (UserMessage None) fs).
Proof.
  intros Hv Ho Hl. unfold deserializeBinary, reader_of.
  cbn [truthy byteSourceToUint8Array mbind outcome_bind].
  change (new_BinaryReader (Some ?b)) with (rdr [] b 0 (-1) INVALID).
  rewrite <-(app_nil_r (encode_fields fs)).
  destruct (deserialize_prefix fs Hv Ho fuel (UserMessage None) [] [] 0 (-1) INVALID Hl)
    as (fc & n & t & E). rewrite E. pose proof (fields_length fs Hv).
  destruct (fuel - length fs)%nat eqn:Ef; [lia|]. by rewrite deserialize_end.
Qed.

(** C18. Reading any well-formed message, in whatever order its fields come, with
    repeated fields and with fields the class does not know, sets each string
    to its last occurrence and skips the rest. *)
Theorem deserialize_any_message fs fuel :
  forallb valid_field fs = true -> forallb own_field fs = true ->
  (length (encode_fields fs) < fuel)%nat ->
  deserializeBinary fuel (JBytes (encode_fields fs)) = Ret (foldl apply_field (UserMessage None) fs).
Proof. apply deserialize_fields. Qed.

Definition mixed_fields : list field :=
  [FString 2 (js "old"); FGroup 9 [FString 1 (js "hidden"); FVarint64 1 (2 ^ 50)];
   FString 1 (js "kataras"); FFixed64 4 12; FString 2 (js "new")].
Lemma deserialize_any_message_witness :
  (length (encode_fields mixed_fields) < 100)%nat /\
  deserializeBinary 100 (JBytes (encode_fields mixed_fields))
  = Ret (foldl apply_field (UserMessage None) mixed_fields).
Proof.
  assert (H : (length (encode_fields mixed_fields) < 100)%nat) by (apply Nat.ltb_lt; reflexivity).
  split; [exact H|]. apply (deserialize_any_message mixed_fields 100); [reflexivity|reflexivity|exact H].
Defined.

(** ** The round trip *)

(** The fields [serializeBinaryToWriter] writes. *)
Definition message_fields (u t : jsstr) : list field :=
  (if decide (u = []) then [] else [FString 1 u]) ++ (if decide (t = []) then [] else [FString 2 t]).

Lemma write_string_ok n s : well_formed s = true -> Z.of_nat (length (utf8 s)) < 2 ^ 32 ->
  1 <= n < 2 ^ 29 ->
  writes (write_string_field n (JStr s)) (encode_fields (if decide (s = []) then [] else [FString n s])).
Proof.
  intros Hs Hl Hn. unfold write_string_field. case_decide as E.
  - subst s. cbn. apply writes_ret.
  - rewrite (proj2 (Z.ltb_lt 0 _)) by (destruct s; [done|cbn; lia]).
    unfold encode_fields. cbn [map concat encode_field]. rewrite app_nil_r. by apply writes_string.
Qed.

Lemma message_fields_valid u t : well_formed u = true -> well_formed t = true ->
  Z.of_nat (length (utf8 u)) < 2 ^ 32 -> Z.of_nat (length (utf8 t)) < 2 ^ 32 ->
  forallb valid_field (message_fields u t) = true.
Proof.
  intros Hu Ht Lu Lt. unfold message_fields. rewrite forallb_app.
  repeat case_decide; cbn [forallb valid_field andb]; unfold size_ok;
    rewrite ?Hu, ?Ht, ?(proj2 (Z.ltb_lt _ _) Lu), ?(proj2 (Z.ltb_lt _ _) Lt); done.
Qed.
Lemma message_fields_own u t : forallb own_field (message_fields u t) = true.
Proof. unfold message_fields. rewrite forallb_app. by repeat case_decide. Qed.

Lemma encode_fields_app l1 l2 : encode_fields (l1 ++ l2) = encode_fields l1 ++ encode_fields l2.
Proof. unfold encode_fields. by rewrite map_app, concat_app. Qed.

(** What [serializeBinary] returns: the non-empty strings, in order. *)
Lemma serializeBinary_bytes m u t : getUsername m = JStr u -> getText m = JStr t ->
  well_formed u = true -> well_formed t = true ->
  Z.of_nat (length (utf8 u)) < 2 ^ 32 -> Z.of_nat (length (utf8 t)) < 2 ^ 32 ->
  serializeBinary m = Ret (encode_fields (message_fields u t)).
Proof.
  intros Eu Et Hu Ht Lu Lt. unfold serializeBinary, serializeBinaryToWriter. rewrite Eu, Et.
  destruct (result_written (write_string_field 1 (JStr u);; write_string_field 2 (JStr t))
              (encode_fields (message_fields u t))) as (w & E).
  - unfold message_fields. rewrite encode_fields_app.
    by apply writes_bind; apply write_string_ok.
  - by apply encode_fields_byte, message_fields_valid.
  - by rewrite E.
Qed.

Lemma array_set_eq i c a : array_set i c a !! i = Some c.
Proof.
  unfold array_set. apply list_lookup_insert_eq. rewrite length_app, length_replicate. lia.
Qed.
Lemma array_set_ne i j c a : i <> j -> default JUndef (array_set i c a !! j) = default JUndef (a !! j).
Proof.
  intros Hij. unfold array_set. rewrite list_lookup_insert_ne by done.
  destruct (decide (j < length a)%nat); [by rewrite lookup_app_l|].
  rewrite lookup_app_r, (lookup_ge_None_2 a) by lia.
  destruct (replicate _ _ !! _) eqn:E; [|done].
  apply lookup_replicate in E as [-> _]. done.
Qed.

(** A string field gives back what it was set to; setting one leaves the
    others. *)
Lemma get_set_eq m b s :
  getFieldWithDefault (setProto3StringField m b (JStr s)) b (JStr []) = JStr s.
Proof.
  unfold getFieldWithDefault, setProto3StringField, setFieldIgnoringDefault_, getField, setField, getIndex_.
  case_decide as E; cbn [arrayIndexOffset_ array]; rewrite array_set_eq; [done|].
  cbn. by destruct (decide (JStr s = JStr [])) as [->|].
Qed.
Lemma get_set_ne m b b' v d : Z.to_nat (getIndex_ m b) <> Z.to_nat (getIndex_ m b') ->
  getFieldWithDefault (setProto3StringField m b v) b' d = getFieldWithDefault m b' d.
Proof.
  intros Hb. unfold getFieldWithDefault, setProto3StringField, setFieldIgnoringDefault_, getField, setField.
  case_decide; unfold getIndex_ in *; cbn [arrayIndexOffset_ array]; by rewrite array_set_ne.
Qed.
Lemma offset_set m b v : arrayIndexOffset_ (setProto3StringField m b v) = arrayIndexOffset_ m.
Proof. unfold setProto3StringField, setFieldIgnoringDefault_. by case_decide. Qed.

(** The accessors of a message of the class. *)
Lemma username_set m v : getUsername (setUsername m (JStr v)) = JStr v.
Proof. apply get_set_eq. Qed.
Lemma text_set m v : getText (setText m (JStr v)) = JStr v.
Proof. apply get_set_eq. Qed.
Lemma username_set_text m v : arrayIndexOffset_ m = -1 -> getUsername (setText m v) = getUsername m.
Proof. intros Ho. apply get_set_ne. unfold getIndex_. by rewrite Ho. Qed.
Lemma text_set_username m v : arrayIndexOffset_ m = -1 -> getText (setUsername m v) = getText m.
Proof. intros Ho. apply get_set_ne. unfold getIndex_. by rewrite Ho. Qed.
Lemma fields_read u t :
  let m := foldl apply_field (UserMessage None) (message_fields u t) in
  getUsername m = JStr u /\ getText m = JStr t.
Proof.
  unfold message_fields. repeat case_decide; subst; cbn [app foldl apply_field Z.eqb Pos.eqb]; try done.
  - by rewrite username_set_text, text_set.
  - by rewrite username_set, text_set_username.
  - by rewrite username_set_text, username_set, text_set by apply offset_set.
Qed.

(** C19. What [serializeBinary] writes, [deserializeBinary] reads back: for every
    message whose two strings have no lone surrogates, with fuel to spare. *)
Theorem user_message_roundtrip m u t :
  getUsername m = JStr u -> getText m = JStr t ->
  well_formed u = true -> well_formed t = true ->
  Z.of_nat (length (utf8 u)) < 2 ^ 32 -> Z.of_nat (length (utf8 t)) < 2 ^ 32 ->
  exists bytes m', serializeBinary m = Ret bytes /\ Forall is_byte bytes /\
    deserializeBinary (reader_fuel bytes) (JBytes bytes) = Ret m' /\ toObject m' = toObject m.
Proof.
  intros Eu Et Hu Ht Lu Lt. destruct (fields_read u t) as [Fu Ft].
  exists (encode_fields (message_fields u t)), (foldl apply_field (UserMessage None) (message_fields u t)).
  pose proof (message_fields_valid u t Hu Ht Lu Lt) as Hv. split; [by apply serializeBinary_bytes|].
  split; [by apply encode_fields_byte|]. split.
  - apply deserialize_fields; [done|apply message_fields_own|unfold reader_fuel; lia].
  - unfold toObject. by rewrite Eu, Et, Fu, Ft.
Qed.

Definition demo_message : pb_message :=
  setText (setUsername (UserMessage None) (JStr (js "kataras")))
    (JStr (js "hi " ++ [0xD83D; 0xDE00; 0xE9; 0x20AC])).
Lemma user_message_roundtrip_witness :
  exists bytes m', serializeBinary demo_message = Ret bytes /\ Forall is_byte bytes /\
    deserializeBinary (reader_fuel bytes) (JBytes bytes) = Ret m' /\
    toObject m' = toObject demo_message.
Proof.
  apply (user_message_roundtrip demo_message (js "kataras") (js "hi " ++ [0xD83D; 0xDE00; 0xE9; 0x20AC]));
    reflexivity.
Defined.

(** ** Errors *)

Definition is_assertion (v : jsval) : Prop := exists m, v = JErr AssertionErr m.

(** Each round of the string reader moves the cursor. *)
Lemma readString_step_moves bytes c : c + 1 <= (readString_step bytes c).2.
Proof. unfold readString_step. repeat case_match; cbn; lia. Qed.
Lemma readString_loop_reaches fuel bytes c a d e : a - c <= Z.of_nat fuel ->
  a <= (readString_loop fuel bytes c a d e).2 /\ c <= (readString_loop fuel bytes c a d e).2.
Proof.
  revert c d e. induction fuel as [|fuel IH]; intros c d e Hf; cbn [readString_loop];
    destruct (Z.ltb_spec c a); cbn [snd]; try lia.
  pose proof (readString_step_moves bytes c). destruct (readString_step bytes c) as [us c'].
  cbn [snd] in *.
  case_match; match goal with |- context [readString_loop fuel bytes c' a ?x ?y] =>
    pose proof (IH c' x y ltac:(lia)) end; lia.
Qed.

(** A cursor past the end is noticed by the next call. *)
Lemma nextField_past r : cursor_ (decoder_ r) > end_ (decoder_ r) ->
  exists m, nextField r = Throw (JErr AssertionErr m).
Proof.
  intros H. unfold nextField, atEnd, reader_getError, getError.
  rewrite (proj2 (Z.eqb_neq _ _)), (proj2 (Z.ltb_lt (end_ _) _)), !orb_true_r by lia. by eexists.
Qed.
Lemma deserialize_past fuel m r : cursor_ (decoder_ r) > end_ (decoder_ r) ->
  exists msg, deserializeBinaryFromReader (S fuel) m r = Throw (JErr AssertionErr msg).
Proof.
  intros (msg & E)%nextField_past. exists msg. cbn [deserializeBinaryFromReader].
  unfold mbind, ST_bind. by rewrite E.
Qed.

(** Field 1 is Username, field 2 Text. *)
Definition set_own (n : Z) (m : pb_message) (value : jsstr) : pb_message :=
  if n =? 1 then setUsername m (JStr value) else setText m (JStr value).
Lemma deserialize_own fuel m p s fc k t n : n = 1 \/ n = 2 ->
  deserializeBinaryFromReader (S fuel) m (rdr p (tag n DELIMITED ++ s) fc k t)
  = (value ← readString; deserializeBinaryFromReader fuel (set_own n m value))
      (rdr (p ++ tag n DELIMITED) s (Z.of_nat (length p)) n DELIMITED).
Proof. intros [-> | ->]; by erewrite deserialize_round by by apply nextField_tag. Qed.

(** C25. A string that announces more bytes than the message has is not returned
    cut short: in either of the class's two fields, after any well-formed fields,
    reading it throws an AssertionError. *)
Theorem cut_string_throws fs f n b fuel : f = 1 \/ f = 2 ->
  forallb valid_field fs = true -> forallb own_field fs = true ->
  Z.of_nat (length b) < n < 2 ^ 32 ->
  (S (length (encode_fields fs)) < fuel)%nat ->
  exists m, deserializeBinary fuel (JBytes (encode_fields fs ++ tag f DELIMITED ++ leb n ++ b))
            = Throw (JErr AssertionErr m).
Proof.
  intros Hf Hv Ho Hn Hl. pose proof (fields_length fs Hv).
  destruct (deserialize_from fs (tag f DELIMITED ++ leb n ++ b) fuel) as (fc & k & t & ->); try done.
  { destruct Hf as [-> | ->]; intros []%app_nil; done. }
  { lia. }
  destruct (fuel - length fs)%nat as [|[|g]] eqn:Ef; [lia|lia|].
  rewrite deserialize_own by done. unfold readString, mbind, ST_bind.
  rewrite expect_ok, read_leb by (done || lia). unfold on_decoder. cbn [decoder_ rdr].
  unfold decoder_readString. cbn [bytes_ cursor_ dec].
  set (p := (encode_fields fs ++ tag f DELIMITED) ++ leb n).
  pose proof (readString_loop_reaches (Z.to_nat n) (p ++ b) (Z.of_nat (length p))
                (Z.of_nat (length p) + n) [] [] ltac:(lia)) as [Hc _].
  destruct (readString_loop _ _ _ _ _ _) as [str c]. unfold mbind, outcome_bind, ST_bind.
  cbn [snd fieldCursor_ nextField_ nextWireType_ reader_error_ rdr] in *.
  match goal with |- context [deserializeBinaryFromReader (S g) ?m ?r] =>
    destruct (deserialize_past g m r) as (msg & E) end.
  - cbn [decoder_ set_cursor cursor_ end_ dec]. rewrite length_app. lia.
  - exists msg. by rewrite E.
Qed.

Lemma cut_string_throws_witness :
  exists m, deserializeBinary 40 (JBytes (encode_fields [FString 1 (js "hi")] ++ tag 2 DELIMITED ++ leb 3 ++ js "ab"))
            = Throw (JErr AssertionErr m).
Proof.
  apply (cut_string_throws [FString 1 (js "hi")] 2 3 (js "ab"));
    [by right|reflexivity|reflexivity|split; reflexivity|apply Nat.ltb_lt; reflexivity].
Defined.

(** A field the class reads as a string but the message has as something else
    fails the reader's assertion. *)
Lemma wrong_wire_throws fs t s fuel n : forallb valid_field fs = true -> forallb own_field fs = true ->
  (length (encode_fields fs) < fuel)%nat -> n = 1 \/ n = 2 ->
  wire_type_ok t = true -> t <> DELIMITED -> t <> END_GROUP ->
  deserializeBinary fuel (JBytes (encode_fields fs ++ tag n t ++ s))
  = Throw (JErr AssertionErr (js "Assertion failed")).
Proof.
  intros Hv Ho Hl Hn Ht Hd He. pose proof (fields_length fs Hv).
  destruct (deserialize_from fs (tag n t ++ s) fuel) as (fc & k & t' & ->); try done.
  { intros [_ [Hnil _]%app_nil]%app_nil. pose proof (wire_type_cases t Ht).
    pose proof (tag_length n t ltac:(lia) ltac:(lia)) as Hl'. rewrite Hnil in Hl'. cbn in Hl'. lia. }
  destruct (fuel - length fs)%nat as [|f] eqn:Ef; [lia|].
  erewrite deserialize_round by (apply nextField_tag; [lia|done]).
  cbn [nextWireType_ nextField_ rdr]. rewrite (proj2 (Z.eqb_neq t END_GROUP)) by done.
  unfold readString, mbind, ST_bind. destruct Hn as [-> | ->]; cbn [Z.eqb Pos.eqb]; by rewrite expect_fails.
Qed.

(** ** A message that is read for ever *)

(** A varint of more than five bytes is taken as a signed number, and a field
    to skip may so have a negative length: here it leads back to the start. *)
Definition looping_message : list Z := [26; 0xF5; 0xFF; 0xFF; 0xFF; 0xFF; 0xFF; 0xFF; 0xFF; 0xFF; 0x01].

(** Skipping the field of [looping_message] goes back to its start. *)
Lemma looping_step fc n t : exists fc',
  nextField (rdr [] looping_message fc n t) = Ret (true, rdr [26] (drop 1 looping_message) fc' 3 DELIMITED) /\
  forall f, skipField (S f) (rdr [26] (drop 1 looping_message) fc' 3 DELIMITED)
            = Ret (tt, rdr [] looping_message fc' 3 DELIMITED).
Proof. eexists. split; [reflexivity|]. intros f. reflexivity. Qed.

(** [deserializeBinary] does not return on this message of eleven bytes. *)
Theorem deserialize_loops fuel : deserializeBinary fuel (JBytes looping_message) = Running.
Proof.
  unfold deserializeBinary, reader_of. cbn [truthy byteSourceToUint8Array mbind outcome_bind].
  change (new_BinaryReader (Some ?b)) with (rdr [] b 0 (-1) INVALID).
  enough (H : forall f fc n t m, deserializeBinaryFromReader f m (rdr [] looping_message fc n t) = Running)
    by by rewrite H.
  induction f as [|f IH]; intros fc n t m; [done|].
  destruct (looping_step fc n t) as (fc' & En & Es). rewrite (deserialize_round _ _ _ _ En).
  cbn [nextWireType_ nextField_ rdr]. cbn [Z.eqb Pos.eqb DELIMITED END_GROUP].
  destruct f as [|f]; [done|]. unfold mbind, ST_bind. rewrite Es. apply IH.
Qed.

(** ** Three oddities of the format's implementation *)

(** A high surrogate that no low one follows is dropped by the encoder. *)
Example high_surrogate_dropped : encoder_writeString (js "a" ++ [0xD83D] ++ js "b") = js "ab".
Proof. reflexivity. Qed.

(** The last character of a string may reach past the announced length: the
    byte 18, the next field's header, is taken as its continuation. *)
Example string_overruns :
  decoder_readString 1 (BinaryDecoder [0xC3; 18; 1; 65] 0 4 0 false)
  = Ret ([0xD2], BinaryDecoder [0xC3; 18; 1; 65] 0 4 2 false).
Proof. reflexivity. Qed.

(** The result of a writer can be taken once. *)
Example second_result_throws w bs : (writeUint32 1 (Some 5);; getResultBuffer) new_BinaryWriter = Ret (bs, w) ->
  bs = [8; 5] /\ exists m, getResultBuffer w = Throw (JErr RangeErr m).
Proof. intros [= <- <-]. split; [done|]. by eexists. Qed.
