(* ===== verification/WireScalar.v ===== *)
(** The scalar fields of the wire format (bundle.js 7145-7192, 7242-7310): the
    encoder's and the decoder's methods for integers of every width and kind,
    as numbers, as decimal numerals and as hashes, and the reader's and the
    writer's methods for the fields made of them, single, repeated and packed.

    A null argument is None: nothing is written. Numbers are integers; the
    assertions that they are hold. *)

From S2P Require Import Prelude JsVal Int32 TextEncoding Labels Wire WireReader Int64.

(** [parseInt(s, 10)]: None is NaN. *)
Fixpoint dec_digits_value (s : jsstr) (acc : option Z) : option Z :=
  match s with
  | c :: s => if (48 <=? c) && (c <=? 57) then dec_digits_value s (Some (10 * default 0 acc + (c - 48))) else acc
  | [] => acc
  end.
Definition parseInt10 (s : jsstr) : option Z :=
  let s := trim_start s in
  let '(sign, s) := match s with 45 :: s => (-1, s) | 43 :: s => (1, s) | _ => (1, s) end in
  option_map (fun n => dbl (sign * n)) (dec_digits_value s None).

Definition in_i32 (a : Z) : bool := (-2147483648 <=? a) && (a <? 2147483648).
Definition in_i64 (a : Z) : bool := (-9223372036854775808 <=? a) && (a <? 9223372036854775808).
Definition in_u64 (a : Z) : bool := (0 <=? a) && (a <? 18446744073709551616).
Definition asserted {A} (b : bool) (k : outcome A) : outcome A :=
  if b then k else Throw (JErr AssertionErr (js "Assertion failed")).
Definition no_lo {A} : outcome A := type_error (js "Cannot read properties of null (reading 'lo')").

(** ** The encoder: each method from the buffer to the buffer *)

Definition Put (A : Type) : Type := A -> list Z -> outcome (list Z).

Fixpoint negative_varint (n : nat) (a : Z) : list Z :=
  match n with O => [1] | S n => Z.lor (Z.land a 127) 128 :: negative_varint n (sar a 7) end.
Definition encoder_writeSignedVarint32 : Put Z := fun a e =>
  asserted (in_i32 a) (if 0 <=? a then writeUnsignedVarint32 a e else Ret (e ++ negative_varint 9 a)).
Definition encoder_writeUnsignedVarint64 : Put Z := fun a e =>
  asserted (in_u64 a) (let '(l, h) := splitInt64 a in encoder_writeSplitVarint64 l h e).
Definition encoder_writeSignedVarint64 : Put Z := fun a e =>
  asserted (in_i64 a) (let '(l, h) := splitInt64 a in encoder_writeSplitVarint64 l h e).
Definition encoder_writeZigzagVarint32 : Put Z := fun a e =>
  asserted (in_i32 a) (writeUnsignedVarint32 (u32 (Z.lxor (shl a 1) (sar a 31))) e).
Definition encoder_writeZigzagVarint64 : Put Z := fun a e =>
  asserted (in_i64 a) (let '(l, h) := splitZigzag64 a in encoder_writeSplitVarint64 l h e).
Definition encoder_writeZigzagVarintHash64 : Put jsstr := fun a e =>
  let '(l, h) := splitHash64 a in
  toZigzag64 l h (fun a d => encoder_writeSplitVarint64 (u32 a) (u32 d) e).
Definition encoder_writeZigzagVarint64String : Put jsstr := fun a e =>
  h ← decimalStringToHash64 a; encoder_writeZigzagVarintHash64 h e.
Definition encoder_writeUint8 : Put Z := fun a e =>
  asserted ((0 <=? a) && (a <? 256)) (Ret (e ++ [Z.land (shr a 0) 255])).
Definition encoder_writeUint16 : Put Z := fun a e =>
  asserted ((0 <=? a) && (a <? 65536)) (Ret (e ++ [Z.land (shr a 0) 255; Z.land (shr a 8) 255])).
Definition encoder_writeUint64 : Put Z := fun a e =>
  asserted (in_u64 a) (let '(l, h) := splitUint64 a in e ← encoder_writeUint32 l e; encoder_writeUint32 h e).
Definition encoder_writeInt8 : Put Z := fun a e =>
  asserted ((-128 <=? a) && (a <? 128)) (Ret (e ++ [Z.land (shr a 0) 255])).
Definition encoder_writeInt16 : Put Z := fun a e =>
  asserted ((-32768 <=? a) && (a <? 32768)) (Ret (e ++ [Z.land (shr a 0) 255; Z.land (shr a 8) 255])).
Definition encoder_writeInt32 : Put Z := fun a e =>
  asserted (in_i32 a)
    (Ret (e ++ [Z.land (shr a 0) 255; Z.land (shr a 8) 255; Z.land (shr a 16) 255; Z.land (shr a 24) 255])).
Definition encoder_writeInt64 : Put Z := fun a e =>
  asserted (in_i64 a) (let '(l, h) := splitInt64 a in encoder_writeSplitFixed64 l h e).
(** A boolean, or a number in its place. *)
Definition encoder_writeBool : Put (bool + Z) := fun a e =>
  Ret (e ++ [if match a with inl b => b | inr n => negb (n =? 0) end then 1 else 0]).
Definition encoder_writeEnum : Put Z := fun a e => asserted (in_i32 a) (encoder_writeSignedVarint32 a e).
Definition encoder_writeBytes : Put (list Z) := fun a e => Ret (e ++ a).
Definition encoder_writeVarintHash64 : Put jsstr := fun a e =>
  let '(l, h) := splitHash64 a in encoder_writeSplitVarint64 l h e.
Definition encoder_writeFixedHash64 : Put jsstr := fun a e =>
  let '(l, h) := splitHash64 a in e ← encoder_writeUint32 l e; encoder_writeUint32 h e.

(** What the writer's methods hand the encoder of a numeral. *)
Definition put_parsed (put : Put Z) : Put jsstr := fun a e =>
  match parseInt10 a with Some n => put n e | None => Throw (JErr AssertionErr (js "Assertion failed")) end.
Definition put_split (put : Z -> Z -> list Z -> outcome (list Z)) (read : jsstr -> option UInt64) : Put jsstr := fun a e =>
  match read a with Some x => put (lo x) (hi x) e | None => no_lo end.

(** ** The decoder *)

Definition decoder_readSplitZigzagVarint64 {A} (a : Z -> Z -> A) : D A :=
  readSplitVarint64 (fun b c => fromZigzag64 b c a).
Definition decoder_readSplitFixed64 {A} (a : Z -> Z -> A) : D A := fun d =>
  let c := cursor_ d in
  let b i := default 0 (at_ (bytes_ d) i) in
  let half o := fold_left (fun v f => Z.lor (shl v 8) (b (c + f + o))) [7; 6; 5; 4; 3; 2; 1; 0] 0 in
  Ret (a (half 0) (half 4), set_cursor (c + 8) d).
(** [for (; 128 < a;) cursor_--, a >>>= 7; cursor_--]: five rounds at most. *)
Fixpoint unskip_loop (fuel : nat) (a c : Z) : Z :=
  match fuel with
  | O => c
  | S f => if 128 <? a then unskip_loop f (shr a 7) (c - 1) else c
  end.
Definition unskipVarint (a : Z) : D unit := modify_ (fun d => set_cursor (unskip_loop 5 a (cursor_ d) - 1) d).
Definition readSignedVarint32 : D Z := readUnsignedVarint32.
Definition readUnsignedVarint32String : D jsstr := a ← readUnsignedVarint32; mret (num_to_str a).
Definition readSignedVarint32String : D jsstr := a ← readSignedVarint32; mret (num_to_str a).
Definition readZigzagVarint32 : D Z := a ← readUnsignedVarint32; mret (Z.lxor (i32 (shr a 1)) (- Z.land a 1)).
Definition readUnsignedVarint64 : D Z := readSplitVarint64 joinUint64.
Definition readUnsignedVarint64String : D jsstr := readSplitVarint64 joinUnsignedDecimalString.
Definition readSignedVarint64 : D Z := readSplitVarint64 joinInt64.
Definition readSignedVarint64String : D jsstr := readSplitVarint64 joinSignedDecimalString.
Definition readZigzagVarint64 : D Z := readSplitVarint64 joinZigzag64.
Definition readZigzagVarintHash64 : D jsstr := decoder_readSplitZigzagVarint64 joinHash64.
Definition readZigzagVarint64String : D jsstr := decoder_readSplitZigzagVarint64 joinSignedDecimalString.

(** [n] bytes as numbers, [undefined] as 0, and the cursor behind them. *)
Definition take_bytes (n : nat) : D (list Z) := fun d =>
  let a := map (fun i => default 0 (at_ (bytes_ d) (cursor_ d + Z.of_nat i))) (seq 0 n) in
  (advance (Z.of_nat n);; mret a) d.
Definition byte (a : list Z) (i : nat) : Z := nth i a 0.
(** None is [undefined]: the end of a block may lie behind the bytes. *)
Definition decoder_readUint8 : D (option Z) := fun d =>
  let a := at_ (bytes_ d) (cursor_ d) in (advance 1;; mret a) d.
Definition decoder_readUint16 : D Z :=
  a ← take_bytes 2; mret (Z.lor (shl (byte a 0) 0) (shl (byte a 1) 8)).
Definition decoder_readUint64 : D Z := a ← decoder_readUint32; b ← decoder_readUint32; mret (joinUint64 a b).
Definition decoder_readUint64String : D jsstr :=
  a ← decoder_readUint32; b ← decoder_readUint32; mret (joinUnsignedDecimalString a b).
Definition decoder_readInt8 : D Z := a ← take_bytes 1; mret (sar (shl (byte a 0) 24) 24).
Definition decoder_readInt16 : D Z :=
  a ← take_bytes 2; mret (sar (shl (Z.lor (shl (byte a 0) 0) (shl (byte a 1) 8)) 16) 16).
Definition decoder_readInt32 : D Z :=
  a ← take_bytes 4;
  mret (Z.lor (Z.lor (Z.lor (shl (byte a 0) 0) (shl (byte a 1) 8)) (shl (byte a 2) 16)) (shl (byte a 3) 24)).
Definition decoder_readInt64 : D Z := a ← decoder_readUint32; b ← decoder_readUint32; mret (joinInt64 a b).
Definition decoder_readInt64String : D jsstr :=
  a ← decoder_readUint32; b ← decoder_readUint32; mret (joinSignedDecimalString a b).
Definition decoder_readBool : D bool := fun d =>
  Ret (negb (default 0 (at_ (bytes_ d) (cursor_ d)) =? 0), set_cursor (cursor_ d + 1) d).
Definition decoder_readEnum : D Z := readSignedVarint32.
Definition readStringWithLength : D jsstr := a ← readUnsignedVarint32; decoder_readString a.
Definition decoder_readVarintHash64 : D jsstr := readSplitVarint64 joinHash64.
Definition decoder_readFixedHash64 : D jsstr := fun d =>
  Ret (fromCharCode (map (fun i => default 0 (at_ (bytes_ d) (cursor_ d + i))) [0; 1; 2; 3; 4; 5; 6; 7]),
       set_cursor (cursor_ d + 8) d).

(** ** The reader *)

Definition reading_as {A} (t : Z) (m : D A) : R A := expect_wire t;; on_decoder m.
Definition readInt32 : R Z := reading_as VARINT readSignedVarint32.
Definition readInt32String : R jsstr := reading_as VARINT readSignedVarint32String.
Definition readInt64 : R Z := reading_as VARINT readSignedVarint64.
Definition readInt64String : R jsstr := reading_as VARINT readSignedVarint64String.
Definition readUint32String : R jsstr := reading_as VARINT readUnsignedVarint32String.
Definition readUint64 : R Z := reading_as VARINT readUnsignedVarint64.
Definition readUint64String : R jsstr := reading_as VARINT readUnsignedVarint64String.
Definition readSint32 : R Z := reading_as VARINT readZigzagVarint32.
Definition readSint64 : R Z := reading_as VARINT readZigzagVarint64.
Definition readSint64String : R jsstr := reading_as VARINT readZigzagVarint64String.
Definition readFixed64 : R Z := reading_as FIXED64 decoder_readUint64.
Definition readFixed64String : R jsstr := reading_as FIXED64 decoder_readUint64String.
Definition readSfixed32 : R Z := reading_as FIXED32 decoder_readInt32.
Definition readSfixed32String : R jsstr := reading_as FIXED32 (a ← decoder_readInt32; mret (num_to_str a)).
Definition readSfixed64 : R Z := reading_as FIXED64 decoder_readInt64.
Definition readSfixed64String : R jsstr := reading_as FIXED64 decoder_readInt64String.
Definition readBool : R bool := reading_as VARINT (a ← readUnsignedVarint32; mret (negb (a =? 0))).
Definition readEnum : R Z := reading_as VARINT readSignedVarint64.
Definition readVarintHash64 : R jsstr := reading_as VARINT decoder_readVarintHash64.
Definition readSintHash64 : R jsstr := reading_as VARINT readZigzagVarintHash64.
Definition readSplitZigzagVarint64 {A} (a : Z -> Z -> A) : R A :=
  reading_as VARINT (readSplitVarint64 (fun b c => fromZigzag64 b c a)).
Definition readFixedHash64 : R jsstr := reading_as FIXED64 decoder_readFixedHash64.
Definition readSplitFixed64 {A} (a : Z -> Z -> A) : R A := reading_as FIXED64 (decoder_readSplitFixed64 a).

(** [readPackedField_]: every method moves the cursor, so there are no more
    rounds than announced bytes. *)
Fixpoint packed_loop {A} (fuel : nat) (a : D A) (b : Z) : D (list A) := fun d =>
  if cursor_ d <? b then
    match fuel with
    | O => Running
    | S f => (x ← a; c ← packed_loop f a b; mret (x :: c)) d
    end
  else Ret ([], d).
Definition readPackedField_ {A} (a : D A) : R (list A) :=
  expect_wire DELIMITED;;
  on_decoder (b ← readUnsignedVarint32; c ← get_ cursor_; packed_loop (Z.to_nat b) a (c + b)).
Definition readPackedInt32 := readPackedField_ readSignedVarint32.
Definition readPackedInt32String := readPackedField_ readSignedVarint32String.
Definition readPackedInt64 := readPackedField_ readSignedVarint64.
Definition readPackedInt64String := readPackedField_ readSignedVarint64String.
Definition readPackedUint32 := readPackedField_ readUnsignedVarint32.
Definition readPackedUint32String := readPackedField_ readUnsignedVarint32String.
Definition readPackedUint64 := readPackedField_ readUnsignedVarint64.
Definition readPackedUint64String := readPackedField_ readUnsignedVarint64String.
Definition readPackedSint32 := readPackedField_ readZigzagVarint32.
Definition readPackedSint64 := readPackedField_ readZigzagVarint64.
Definition readPackedSint64String := readPackedField_ readZigzagVarint64String.
Definition readPackedFixed32 := readPackedField_ decoder_readUint32.
Definition readPackedFixed64 := readPackedField_ decoder_readUint64.
Definition readPackedFixed64String := readPackedField_ decoder_readUint64String.
Definition readPackedSfixed32 := readPackedField_ decoder_readInt32.
Definition readPackedSfixed64 := readPackedField_ decoder_readInt64.
Definition readPackedSfixed64String := readPackedField_ decoder_readInt64String.
Definition readPackedBool := readPackedField_ decoder_readBool.
Definition readPackedEnum := readPackedField_ decoder_readEnum.
Definition readPackedVarintHash64 := readPackedField_ decoder_readVarintHash64.
Definition readPackedFixedHash64 := readPackedField_ decoder_readFixedHash64.

(** [unskipHeader] and [skipMatchingFields], which counts on the header of the
    first field behind the last being read. *)
Definition unskipHeader : R unit :=
  n ← get_ nextField_; t ← get_ nextWireType_;
  on_decoder (unskipVarint (Z.lor (shl n 3) t)).
Fixpoint skip_matching (fuel : nat) (a : Z) : R unit :=
  match fuel with
  | O => running
  | S f =>
      more ← nextField;
      n ← get_ nextField_;
      if (more : bool) && (n =? a) then skipField f;; skip_matching f a else mret tt
  end.
Definition skipMatchingFields (fuel : nat) : R unit :=
  a ← get_ nextField_;
  unskipHeader;; skip_matching fuel a;;
  e ← get_ (fun r => atEnd (decoder_ r));
  if e : bool then mret tt else unskipHeader.
(** [getFieldDecoder]: a decoder of its own over the field's bytes. *)
Definition getFieldDecoder : R decoder :=
  expect_wire DELIMITED;;
  on_decoder (a ← readUnsignedVarint32; b ← get_ cursor_; s ← get_ bytes_;
              setCursor (b + a);; mret (BinaryDecoder s b (b + a) b false)).
Definition readGroup (a : Z) (c : R unit) : R unit :=
  expect_wire START_GROUP;;
  n ← get_ nextField_; assert_ (n =? a);; c;;
  r ← get_ (fun r => reader_error_ r || (nextWireType_ r =? END_GROUP));
  if r : bool then mret tt else fail_ (js "Group submessage did not end with an END_GROUP tag").

(** ** The writer *)

Definition present {A} (b : option A) (f : A -> W unit) : W unit := match b with None => mret tt | Some b => f b end.
(** A header, then the value. *)
Definition tagged {A} (t : Z) (put : Put A) (a : Z) (b : A) : W unit := writeFieldHeader_ a t;; on_encoder (put b).

Definition writeUnsignedVarint32_ (a : Z) (b : option Z) := present b (tagged VARINT writeUnsignedVarint32 a).
Definition writeSignedVarint32_ (a : Z) (b : option Z) := present b (tagged VARINT encoder_writeSignedVarint32 a).
Definition writeUnsignedVarint64_ (a : Z) (b : option Z) := present b (tagged VARINT encoder_writeUnsignedVarint64 a).
Definition writeSignedVarint64_ (a : Z) (b : option Z) := present b (tagged VARINT encoder_writeSignedVarint64 a).
Definition writeZigzagVarint32_ (a : Z) (b : option Z) := present b (tagged VARINT encoder_writeZigzagVarint32 a).
Definition writeZigzagVarint64_ (a : Z) (b : option Z) := present b (tagged VARINT encoder_writeZigzagVarint64 a).
Definition writeZigzagVarint64String_ (a : Z) (b : option jsstr) := present b (tagged VARINT encoder_writeZigzagVarint64String a).
Definition writeZigzagVarintHash64_ (a : Z) (b : option jsstr) := present b (tagged VARINT encoder_writeZigzagVarintHash64 a).
Definition writeInt32 (a : Z) (b : option Z) := present b (fun v => assert_ (in_i32 v);; writeSignedVarint32_ a (Some v)).
Definition parsed (b : jsstr) (k : Z -> W unit) : W unit :=
  match parseInt10 b with Some n => k n | None => assert_ false end.
Definition writeInt32String (a : Z) (b : option jsstr) := present b (fun v => parsed v (fun n => assert_ (in_i32 n);; writeSignedVarint32_ a (Some n))).
Definition writeInt64 (a : Z) (b : option Z) := present b (fun v => assert_ (in_i64 v);; writeSignedVarint64_ a (Some v)).
Definition writeInt64String (a : Z) (b : option jsstr) := present b (tagged VARINT (put_split encoder_writeSplitVarint64 Int64_fromString) a).
Definition writeUint32String (a : Z) (b : option jsstr) := present b (fun v => parsed v (fun n => assert_ (in_u32 n);; writeUnsignedVarint32_ a (Some n))).
Definition writeUint64 (a : Z) (b : option Z) := present b (fun v => assert_ (in_u64 v);; writeUnsignedVarint64_ a (Some v)).
Definition writeUint64String (a : Z) (b : option jsstr) := present b (tagged VARINT (put_split encoder_writeSplitVarint64 UInt64_fromString) a).
Definition writeSint32 (a : Z) (b : option Z) := present b (fun v => assert_ (in_i32 v);; writeZigzagVarint32_ a (Some v)).
Definition writeSint64 (a : Z) (b : option Z) := present b (fun v => assert_ (in_i64 v);; writeZigzagVarint64_ a (Some v)).
Definition writeSintHash64 (a : Z) (b : option jsstr) := writeZigzagVarintHash64_ a b.
Definition writeSint64String (a : Z) (b : option jsstr) := writeZigzagVarint64String_ a b.
Definition writeFixed64 (a : Z) (b : option Z) := present b (fun v => assert_ (in_u64 v);; tagged FIXED64 encoder_writeUint64 a v).
Definition writeFixed64String (a : Z) (b : option jsstr) := present b (tagged FIXED64 (put_split encoder_writeSplitFixed64 UInt64_fromString) a).
Definition writeSfixed32 (a : Z) (b : option Z) := present b (fun v => assert_ (in_i32 v);; tagged FIXED32 encoder_writeInt32 a v).
Definition writeSfixed64 (a : Z) (b : option Z) := present b (fun v => assert_ (in_i64 v);; tagged FIXED64 encoder_writeInt64 a v).
Definition writeSfixed64String (a : Z) (b : option jsstr) := present b (tagged FIXED64 (put_split encoder_writeSplitFixed64 Int64_fromString) a).
Definition writeBool (a : Z) (b : option (bool + Z)) := present b (tagged VARINT encoder_writeBool a).
Definition writeEnum (a : Z) (b : option Z) := present b (fun v => assert_ (in_i32 v);; tagged VARINT encoder_writeSignedVarint32 a v).
Definition writeMessageSet (a : Z) (b : option (W unit)) := present b (fun c =>
  writeFieldHeader_ 1 START_GROUP;; writeFieldHeader_ 2 VARINT;; on_encoder (encoder_writeSignedVarint32 a);;
  i ← beginDelimited_ 3; c;; endDelimited_ i;; writeFieldHeader_ 1 END_GROUP).
Definition writeFixedHash64 (a : Z) (b : option jsstr) := present b (fun v => assert_ (bool_decide (length v = 8%nat));; tagged FIXED64 encoder_writeFixedHash64 a v).
Definition writeVarintHash64 (a : Z) (b : option jsstr) := present b (fun v => assert_ (bool_decide (length v = 8%nat));; tagged VARINT encoder_writeVarintHash64 a v).
Definition writeSplitZigzagVarint64 (a b c : Z) : W unit :=
  writeFieldHeader_ a VARINT;;
  on_encoder (fun e => toZigzag64 b c (fun a b => encoder_writeSplitVarint64 (u32 a) (u32 b) e)).
Definition writeSerializedMessage (a : list Z) (b c : Z) : W unit :=
  let n := Z.of_nat (length a) in
  let clip x := if x <? 0 then Z.max 0 (n + x) else Z.min x n in
  appendUint8Array_ (firstn (Z.to_nat (clip c - clip b)) (skipn (Z.to_nat (clip b)) a)).
Definition maybeWriteSerializedMessage (a : option (list Z)) (b c : option Z) : W unit :=
  match a, b, c with Some a, Some b, Some c => writeSerializedMessage a b c | _, _, _ => mret tt end.

(** ** Repeated fields: the calls of the method for one, in order *)

Definition each {A} (f : A -> W unit) (b : option (list A)) : W unit :=
  match b with None => mret tt | Some l => foldr (fun x k => f x;; k) (mret tt) l end.

Definition writeRepeatedInt32 (a : Z) (b : option (list (option Z))) := each (writeSignedVarint32_ a) b.
Definition writeRepeatedInt32String (a : Z) (b : option (list (option jsstr))) := each (writeInt32String a) b.
Definition writeRepeatedInt64 (a : Z) (b : option (list (option Z))) := each (writeSignedVarint64_ a) b.
Definition writeRepeatedInt64String (a : Z) (b : option (list (option jsstr))) := each (writeInt64String a) b.
Definition writeRepeatedUint32 (a : Z) (b : option (list (option Z))) := each (writeUnsignedVarint32_ a) b.
Definition writeRepeatedUint32String (a : Z) (b : option (list (option jsstr))) := each (writeUint32String a) b.
Definition writeRepeatedUint64 (a : Z) (b : option (list (option Z))) := each (writeUnsignedVarint64_ a) b.
Definition writeRepeatedUint64String (a : Z) (b : option (list (option jsstr))) := each (writeUint64String a) b.
Definition writeRepeatedSint32 (a : Z) (b : option (list (option Z))) := each (writeZigzagVarint32_ a) b.
Definition writeRepeatedSint64 (a : Z) (b : option (list (option Z))) := each (writeZigzagVarint64_ a) b.
Definition writeRepeatedSint64String (a : Z) (b : option (list (option jsstr))) := each (writeZigzagVarint64String_ a) b.
Definition writeRepeatedSintHash64 (a : Z) (b : option (list (option jsstr))) := each (writeZigzagVarintHash64_ a) b.
Definition writeRepeatedFixed32 (a : Z) (b : option (list (option Z))) := each (writeFixed32 a) b.
Definition writeRepeatedFixed64 (a : Z) (b : option (list (option Z))) := each (writeFixed64 a) b.
Definition writeRepeatedFixed64String (a : Z) (b : option (list (option jsstr))) := each (writeFixed64String a) b.
Definition writeRepeatedSfixed32 (a : Z) (b : option (list (option Z))) := each (writeSfixed32 a) b.
Definition writeRepeatedSfixed64 (a : Z) (b : option (list (option Z))) := each (writeSfixed64 a) b.
Definition writeRepeatedSfixed64String (a : Z) (b : option (list (option jsstr))) := each (writeSfixed64String a) b.
Definition writeRepeatedBool (a : Z) (b : option (list (option (bool + Z)))) := each (writeBool a) b.
Definition writeRepeatedEnum (a : Z) (b : option (list (option Z))) := each (writeEnum a) b.
Definition writeRepeatedString (a : Z) (b : option (list (option jsstr))) := each (writeString a) b.
Definition writeRepeatedBytes (a : Z) (b : option (list (option (list Z)))) := each (writeBytes a) b.
Definition writeRepeatedFixedHash64 (a : Z) (b : option (list (option jsstr))) := each (writeFixedHash64 a) b.
Definition writeRepeatedVarintHash64 (a : Z) (b : option (list (option jsstr))) := each (writeVarintHash64 a) b.
Definition writeRepeatedSplitFixed64 {A} (a : Z) (b : option (list A)) (c d : A -> Z) :=
  each (fun x => writeSplitFixed64 a (c x) (d x)) b.
Definition writeRepeatedSplitVarint64 {A} (a : Z) (b : option (list A)) (c d : A -> Z) :=
  each (fun x => writeSplitVarint64 a (c x) (d x)) b.
Definition writeRepeatedSplitZigzagVarint64 {A} (a : Z) (b : option (list A)) (c d : A -> Z) :=
  each (fun x => writeSplitZigzagVarint64 a (c x) (d x)) b.
Definition writeRepeatedMessage (a : Z) (b : option (list (W unit))) :=
  each (fun c => i ← beginDelimited_ a; c;; endDelimited_ i) b.
Definition writeRepeatedGroup (a : Z) (b : option (list (W unit))) :=
  each (fun c => writeFieldHeader_ a START_GROUP;; c;; writeFieldHeader_ a END_GROUP) b.

(** ** Packed fields: the values one after the other, without headers *)

Definition put_each {A} (put : Put A) (l : list A) : W unit :=
  foldr (fun x k => on_encoder (put x);; k) (mret tt) l.
Definition delimited_all {A} (put : Put A) (a : Z) (l : list A) : W unit :=
  i ← beginDelimited_ a; put_each put l;; endDelimited_ i.
(** [null != b && b.length] *)
Definition non_empty {A} (b : option (list A)) (k : list A -> W unit) : W unit :=
  match b with None | Some [] => mret tt | Some l => k l end.
Definition packed {A} (put : Put A) (a : Z) (b : option (list A)) : W unit := non_empty b (delimited_all put a).
(** Values of [n] bytes each: the length is known beforehand. *)
Definition packed_sized {A} (n : Z) (put : Put A) (a : Z) (b : option (list A)) : W unit := non_empty b (fun l =>
  writeFieldHeader_ a DELIMITED;; on_encoder (writeUnsignedVarint32 (n * Z.of_nat (length l)));; put_each put l).

Definition writePackedInt32 := packed encoder_writeSignedVarint32.
Definition writePackedInt32String := packed (put_parsed encoder_writeSignedVarint32).
Definition writePackedInt64 := packed encoder_writeSignedVarint64.
Definition writePackedSplitFixed64 {A} (a : Z) (b : option (list A)) (c d : A -> Z) :=
  present b (delimited_all (fun x => encoder_writeSplitFixed64 (c x) (d x)) a).
Definition writePackedSplitVarint64 {A} (a : Z) (b : option (list A)) (c d : A -> Z) :=
  present b (delimited_all (fun x => encoder_writeSplitVarint64 (c x) (d x)) a).
Definition writePackedSplitZigzagVarint64 {A} (a : Z) (b : option (list A)) (c d : A -> Z) :=
  present b (delimited_all (fun x e =>
    toZigzag64 (c x) (d x) (fun a b => encoder_writeSplitVarint64 (u32 a) (u32 b) e)) a).
Definition writePackedInt64String := packed (put_split encoder_writeSplitVarint64 Int64_fromString).
Definition writePackedUint32 := packed writeUnsignedVarint32.
Definition writePackedUint32String := packed (put_parsed writeUnsignedVarint32).
Definition writePackedUint64 := packed encoder_writeUnsignedVarint64.
Definition writePackedUint64String := packed (put_split encoder_writeSplitVarint64 UInt64_fromString).
Definition writePackedSint32 := packed encoder_writeZigzagVarint32.
Definition writePackedSint64 := packed encoder_writeZigzagVarint64.
Definition writePackedSint64String := packed encoder_writeZigzagVarint64String.
Definition writePackedSintHash64 := packed encoder_writeZigzagVarintHash64.
Definition writePackedFixed32 := packed_sized 4 encoder_writeUint32.
Definition writePackedFixed64 := packed_sized 8 encoder_writeUint64.
Definition writePackedFixed64String := packed_sized 8 (put_split encoder_writeSplitFixed64 UInt64_fromString).
Definition writePackedSfixed32 := packed_sized 4 encoder_writeInt32.
Definition writePackedSfixed64 := packed_sized 8 encoder_writeInt64.
Definition writePackedBool := packed_sized 1 encoder_writeBool.
Definition writePackedEnum := packed encoder_writeEnum.
Definition writePackedFixedHash64 := packed_sized 8 encoder_writeFixedHash64.
Definition writePackedVarintHash64 := packed encoder_writeVarintHash64.

(** ** Counting the fields of one number at the head of a block *)

(** The header at [b], compared byte for byte: the place behind it. The inner
    loops' [for (f = d; 128 < f;)] shifts with the sign. *)
Fixpoint match_header (fuel : nat) (a : list Z) (b f : Z) : option Z :=
  match fuel with
  | O => None
  | S k =>
      if 128 <? f then
        if bool_decide (at_ a b = Some (Z.lor (Z.land f 127) 128)) then match_header k a (b + 1) (sar f 7) else None
      else if bool_decide (at_ a b = Some f) then Some (b + 1) else None
  end.
(** Of a header of one byte, or of several; five bytes hold every header. *)
Definition header_at (a : list Z) (b d : Z) : option Z :=
  if d <? 128 then (if bool_decide (at_ a b = Some d) then Some (b + 1) else None) else match_header 6 a b d.
(** [for (; f = a[b++], 0 != (f & 128);)]: past the end [undefined] ends it. *)
Fixpoint value_end (fuel : nat) (a : list Z) (b : Z) : Z :=
  match fuel with
  | O => b
  | S k => if band (at_ a b) 128 =? 0 then b + 1 else value_end k a (b + 1)
  end.
(** The same with the length that the bytes hold. *)
Fixpoint length_at (fuel : nat) (a : list Z) (b g h : Z) : Z * Z :=
  match fuel with
  | O => (b, g)
  | S k =>
      let g := g + band (at_ a b) 127 * h in
      if band (at_ a b) 128 =? 0 then (b + 1, g) else length_at k a (b + 1) g (h * 128)
  end.
(** As long as [b < c] and a field starts at [b]; [next] is the end of its value. *)
Fixpoint count_loop (fuel : nat) (next : Z -> Z) (a : list Z) (b c d e : Z) : Z :=
  match fuel with
  | O => e
  | S k =>
      if b <? c then
        match header_at a b d with
        | Some b => count_loop k next a (next b) c d (e + 1)
        | None => e
        end
      else e
  end.
(** A round takes a byte at least. *)
Definition count_fields (next : Z -> Z) (a : list Z) (b c d : Z) : Z := count_loop (Z.to_nat (c - b)) next a b c d 0.
Definition countVarintFields (a : list Z) (b c d : Z) : Z :=
  count_fields (value_end (S (length a)) a) a b c (8 * d + VARINT).
Definition countFixedFields_ (a : list Z) (b c d e : Z) : Z := count_fields (fun b => b + e) a b c d.
Definition countFixed32Fields (a : list Z) (b c d : Z) : Z := countFixedFields_ a b c (8 * d + FIXED32) 4.
Definition countFixed64Fields (a : list Z) (b c d : Z) : Z := countFixedFields_ a b c (8 * d + FIXED64) 8.
Definition countDelimitedFields (a : list Z) (b c d : Z) : Z :=
  count_fields (fun b => let '(b, g) := length_at (S (length a)) a b 0 1 in b + g) a b c (8 * d + DELIMITED).
