(* ===== verification/PbValue.v ===== *)
(** The values a jspb.Message keeps its fields in, and their comparison and
    copying (bundle.js 7228-7233): arrays and objects live in a store, a value
    is a primitive or a reference, [a == b] converts as the language does. *)

From S2P Require Import JsNum.
From S2P Require Import Prelude JsVal Wire.

(** Numbers as text and back, the language's [String(x)] and [Number(s)]. *)
Class NumText := { num_text : num -> jsstr; text_num : jsstr -> num }.

Inductive pv := Undef | Null | Boolean (b : bool) | Number (x : num) | Text (s : jsstr) | Ref (r : nat).
(** A hole of an array reads as [undefined] and is one here; the properties of
    an object stand in the order of [for (k in o)]. *)
Inductive obj := Array (l : list pv) | Object (o : list (jsstr * pv)) | Uint8 (l : list Z).
#[global] Instance pv_eq_dec : EqDecision pv.
Proof. solve_decision. Defined.
Abbreviation store := (list obj).

Definition obj_at (h : store) (r : nat) : obj := default (Object []) (h !! r).
Definition elem (l : list pv) (i : nat) : pv := default Undef (l !! i).
Fixpoint prop (o : list (jsstr * pv)) (k : jsstr) : pv :=
  match o with [] => Undef | (k', v) :: o => if k' ==? k then v else prop o k end.
(** [null == v] *)
Definition nullish (v : pv) : bool := match v with Undef | Null => true | _ => false end.
(** [if (v)] *)
Definition pv_truthy (v : pv) : bool :=
  match v with
  | Undef | Null => false
  | Boolean b => b
  | Number x => negb (JsNum.eqb x (of_Z 0) || isNaN x)
  | Text s => negb (s ==? [])
  | Ref _ => true
  end.
(** [v && v.constructor == Object] *)
Definition plain_object (h : store) (v : pv) : option (list (jsstr * pv)) :=
  match v with Ref r => match obj_at h r with Object o => Some o | _ => None end | _ => None end.

(** ** [a == b] *)

Section conversions.
Context `{NumText}.

Definition bool_num (b : bool) : num := of_Z (if b then 1 else 0).
(** Of primitives. *)
Definition prim_eq (a b : pv) : bool :=
  match a, b with
  | (Undef | Null), (Undef | Null) => true
  | Boolean x, Boolean y => Bool.eqb x y
  | Number x, Number y => JsNum.eqb x y
  | Text s, Text t => s ==? t
  | Number x, Text s | Text s, Number x => JsNum.eqb x (text_num s)
  | Boolean x, Number y | Number y, Boolean x => JsNum.eqb (bool_num x) y
  | Boolean x, Text s | Text s, Boolean x => JsNum.eqb (bool_num x) (text_num s)
  | _, _ => false
  end.

(** [String(v)]; in the text of an array, null and undefined are empty. *)
Fixpoint text_of (fuel : nat) (h : store) (v : pv) : outcome jsstr :=
  match v with
  | Undef => Ret (js "undefined")
  | Null => Ret (js "null")
  | Boolean b => Ret (if b then js "true" else js "false")
  | Number x => Ret (num_text x)
  | Text s => Ret s
  | Ref r =>
      match obj_at h r, fuel with
      | Object _, _ => Ret (js "[object Object]")
      | Uint8 l, _ => Ret (join (js ",") (map num_to_str l))
      | Array l, S f => join (js ",") <$> mapM (fun v => if nullish v then Ret [] else text_of f h v) l
      | Array _, O => Running
      end
  end.

Definition loose_eq (fuel : nat) (h : store) (a b : pv) : outcome bool :=
  match a, b with
  | Ref r, Ref r' => Ret (r ==? r')
  | Ref _, (Undef | Null) | (Undef | Null), Ref _ => Ret false
  | Ref _, _ => s ← text_of fuel h a; Ret (prim_eq (Text s) b)
  | _, Ref _ => s ← text_of fuel h b; Ret (prim_eq a (Text s))
  | _, _ => Ret (prim_eq a b)
  end.

(** ** Comparing *)

(** [c[k] = 0]: a new key that is an array index goes before the greater ones
    and before the other keys. *)
Definition array_index (k : jsstr) : option Z :=
  let n := fold_left (fun n c => 10 * n + (c - 48)) k 0 in
  if forallb (fun c => (48 <=? c) && (c <=? 57)) k && (num_to_str n ==? k) && (n <? 2 ^ 32 - 1) then Some n else None.
Definition key_before (k k' : jsstr) : bool :=
  match array_index k, array_index k' with Some i, Some j => i <? j | Some _, None => true | _, _ => false end.
Fixpoint put_key (k : jsstr) (c : list jsstr) : list jsstr :=
  match c with [] => [k] | k' :: c' => if key_before k k' then k :: c else k' :: put_key k c' end.
Definition add_key (c : list jsstr) (k : jsstr) : list jsstr := if decide (k ∈ c) then c else put_key k c.

Section with_comparison.
(** The recursive call. *)
Context (compareFields : pv -> pv -> outcome bool).

Fixpoint keys_equal (o o' : list (jsstr * pv)) (c : list jsstr) : outcome bool :=
  match c with
  | [] => Ret true
  | k :: c =>
      b ← compareFields (prop o k) (prop o' k);
      if b : bool then keys_equal o o' c else Ret false
  end.
Definition compareExtensions (o o' : list (jsstr * pv)) : outcome bool :=
  keys_equal o o' (fold_left add_key (map fst o ++ map fst o') []).

(** The element to compare and the extension object found so far, [d] or [e]. *)
Definition take_object (h : store) (g : pv) (last : bool) (d : option (list (jsstr * pv))) :
    outcome (option (list (jsstr * pv)) * pv) :=
  match plain_object h g with
  | None => Ret (d, g)
  | Some o =>
      match d with
      | None => if last then Ret (Some o, Undef) else Throw (JErr AssertionErr (js "Assertion failed"))
      | Some _ => Throw (JErr AssertionErr (js "Assertion failed"))
      end
  end.
(** The rounds from [c] on, [n] of them. *)
Fixpoint elements_equal (h : store) (l l' : list pv) (n c : nat) (d e : option (list (jsstr * pv))) :
    outcome (bool * option (list (jsstr * pv)) * option (list (jsstr * pv))) :=
  match n with
  | O => Ret (true, d, e)
  | S n =>
      '(d, g) ← take_object h (elem l c) (S c ==? length l) d;
      '(e, k) ← take_object h (elem l' c) (S c ==? length l') e;
      b ← compareFields g k;
      if b : bool then elements_equal h l l' n (S c) d e else Ret (false, d, e)
  end.
Definition compare_arrays (h : store) (l l' : list pv) : outcome bool :=
  '(b, d, e) ← elements_equal h l l' (Nat.max (length l) (length l')) 0 None None;
  if b : bool then
    match d, e with None, None => Ret true | _, _ => compareExtensions (default [] d) (default [] e) end
  else Ret false.
End with_comparison.

Definition a_NaN (v : pv) : bool := match v with Number x => isNaN x | _ => false end.
(** An object of none of the three kinds, for which the code throws, is never
    in a message's array. *)
Fixpoint compareFields (fuel : nat) (h : store) (a b : pv) : outcome bool :=
  match fuel with
  | O => Running
  | S f =>
      same ← loose_eq f h a b;
      if same : bool then Ret true
      else
        match a, b with
        | Ref r, Ref r' =>
            match obj_at h r, obj_at h r' with
            | Uint8 l, Uint8 l' => Ret ((length l ==? length l') && forallb (fun '(x, y) => x =? y) (zip l l'))
            | Array l, Array l' => compare_arrays (compareFields f h) h l l'
            | Object o, Object o' => compareExtensions (compareFields f h) o o'
            | _, _ => Ret false
            end
        | _, _ =>
            if a_NaN a || a_NaN b then s ← text_of f h a; t ← text_of f h b; Ret (s ==? t) else Ret false
        end
  end.
End conversions.

(** ** Copying *)

Abbreviation M := (ST store).
Definition new_obj (o : obj) : M nat := fun h => Ret (length h, h ++ [o]).
Definition look (r : nat) : M obj := fun h => Ret (obj_at h r, h).

(** What is left out of the copy of an object, and of an array, where it
    leaves a hole. *)
Definition copy_value (clone : nat -> M nat) (v : pv) : M pv :=
  match v with
  | Undef | Null => mret Undef
  | Ref r => r' ← clone r; mret (Ref r')
  | _ => mret v
  end.
(** Nothing can see an object before it is complete. *)
Fixpoint clone_ (fuel : nat) (r : nat) : M nat :=
  match fuel with
  | O => running
  | S f =>
      a ← look r;
      match a with
      | Array l => l' ← mapM (copy_value (clone_ f)) l; new_obj (Array l')
      | Uint8 l => new_obj (Uint8 l)
      | Object o =>
          o' ← mapM (fun '(k, v) => v' ← copy_value (clone_ f) v; mret (k, v')) (filter (fun kv => nullish kv.2 = false) o);
          new_obj (Object o')
      end
  end.
