(* ===== verification/PbMessage.v ===== *)
(** jspb.Message (bundle.js 7203-7233) for any generated class: fields below the
    pivot are elements of the message's array, the others properties of an
    extension object at its end. The arrays live in the store of PbValue; an
    empty repeated field holds one frozen list that all messages share. *)

From S2P Require Import JsNum.
From S2P Require Import Prelude JsVal Wire PbValue.

(** [Object.freeze([])], allocated when the library is loaded. *)
Definition EMPTY_LIST_SENTINEL_ : nat := 0.

(** [None] as a pivot is [Number.MAX_VALUE], above every field number;
    [messageId_] is undefined or not empty. *)
Record jspb_message := Message {
  m_array : nat;
  arrayIndexOffset_ : Z;
  pivot_ : option Z;
  extensionObject_ : option nat;
  messageId_ : option jsstr }.
(** What a generated constructor hands to [initialize]: the message ID, [None]
    for 0, the suggested pivot, the repeated fields and the groups of a oneof. *)
Record pb_class := PbClass {
  c_id : option jsstr; c_pivot : Z; c_repeated : list Z; c_oneofs : list (list Z) }.

(** ** The store *)

Definition array_at (h : store) (r : nat) : list pv := match obj_at h r with Array l => l | _ => [] end.
Definition props_at (h : store) (r : nat) : list (jsstr * pv) := match obj_at h r with Object o => o | _ => [] end.
Definition load (r : nat) (i : Z) : M pv := fun h => Ret (elem (array_at h r) (Z.to_nat i), h).
(** [array[i] = v] extends the array with holes. *)
Definition set_elem (i : nat) (v : pv) (l : list pv) : list pv := <[i := v]> (l ++ replicate (S i - length l) Undef).
Definition save (r : nat) (i : Z) (v : pv) : M unit := fun h =>
  Ret (tt, <[r := Array (set_elem (Z.to_nat i) v (array_at h r))]> h).
(** [o[k] = v] *)
Fixpoint set_prop (k : jsstr) (v : pv) (o : list (jsstr * pv)) : list (jsstr * pv) :=
  match o with
  | [] => [(k, v)]
  | (k', v') :: o' => if k' ==? k then (k, v) :: o' else if key_before k k' && negb (bool_decide (k ∈ map fst o')) then (k, v) :: o else (k', v') :: set_prop k v o'
  end.
Definition load_prop (e : nat) (b : Z) : M pv := fun h => Ret (prop (props_at h e) (num_to_str b), h).
Definition save_prop (e : nat) (b : Z) (v : pv) : M unit := fun h =>
  Ret (tt, <[e := Object (set_prop (num_to_str b) v (props_at h e))]> h).
Definition no_extension {A} : M A := fun _ => type_error (js "Cannot set properties of null").

(** ** Fields *)

Definition getIndex_ (a : jspb_message) (b : Z) : Z := b + arrayIndexOffset_ a.
Definition getFieldNumber_ (a : jspb_message) (b : Z) : Z := b - arrayIndexOffset_ a.
(** [b < a.pivot_] *)
Definition in_array (a : jspb_message) (b : Z) : bool := match pivot_ a with None => true | Some p => b <? p end.
Definition set_extensionObject_ (e : nat) (a : jspb_message) : jspb_message :=
  Message (m_array a) (arrayIndexOffset_ a) (pivot_ a) (Some e) (messageId_ a).

Definition maybeInitEmptyExtensionObject_ (a : jspb_message) : M jspb_message :=
  let b := getIndex_ a (default 0 (pivot_ a)) in
  v ← load (m_array a) b;
  if pv_truthy v then mret a
  else e ← new_obj (Object []); save (m_array a) b (Ref e);; mret (set_extensionObject_ e a).

(** An empty list in the place of the frozen one. *)
Definition unfrozen (c : pv) (put : pv -> M unit) : M pv :=
  if c ==? Ref EMPTY_LIST_SENTINEL_ then r ← new_obj (Array []); put (Ref r);; mret (Ref r) else mret c.
Definition getField (a : jspb_message) (b : Z) : M pv :=
  if in_array a b then
    let i := getIndex_ a b in
    c ← load (m_array a) i; unfrozen c (save (m_array a) i)
  else
    match extensionObject_ a with
    | Some e => c ← load_prop e b; unfrozen c (save_prop e b)
    | None => mret Undef
    end.
Definition setField (a : jspb_message) (b : Z) (c : pv) : M jspb_message :=
  if in_array a b then save (m_array a) (getIndex_ a b) c;; mret a
  else
    a ← maybeInitEmptyExtensionObject_ a;
    match extensionObject_ a with Some e => save_prop e b c;; mret a | None => no_extension end.
(** [c === d] *)
Definition strict_eq (c d : pv) : bool :=
  match c, d with Number x, Number y => JsNum.eqb x y | _, _ => c ==? d end.
Definition setFieldIgnoringDefault_ (a : jspb_message) (b : Z) (c d : pv) : M jspb_message :=
  if strict_eq c d then save (m_array a) (getIndex_ a b) Null;; mret a else setField a b c.
Definition getFieldWithDefault (a : jspb_message) (b : Z) (c : pv) : M pv :=
  v ← getField a b; mret (if nullish v then c else v).
Definition getBooleanField (a : jspb_message) (b : Z) : M pv :=
  v ← getField a b; mret (if nullish v then v else Boolean (pv_truthy v)).

(** [l.splice(d, 0, c)] *)
Definition splice_in (d : Z) (c : pv) (l : list pv) : list pv :=
  let n := Z.of_nat (length l) in
  let i := Z.to_nat (if d <? 0 then Z.max 0 (n + d) else Z.min d n) in
  take i l ++ c :: drop i l.
Definition not_a_list {A} : M A := fun _ => type_error (js "b.push is not a function").
(** [r.push] or [r.splice], on anything but an array a TypeError. *)
Definition change_array (f : list pv -> list pv) (r : nat) : M unit := fun h =>
  match obj_at h r with
  | Array l => Ret (tt, <[r := Array (f l)]> h)
  | _ => not_a_list h
  end.
Definition addToRepeatedField (a : jspb_message) (b : Z) (c : pv) (d : option Z) : M unit :=
  l ← getField a b;
  match l with
  | Ref r => change_array (fun l => match d with Some d => splice_in d c l | None => l ++ [c] end) r
  | _ => not_a_list
  end.

(** ** Groups of which one field may be set *)

(** The rounds of the loop: the field found last, 0 for none, and its value. *)
Fixpoint clear_fields (a : jspb_message) (fs : list Z) (c : Z) (d : pv) : M (jspb_message * Z * pv) :=
  match fs with
  | [] => mret (a, c, d)
  | f :: fs =>
      g ← getField a f;
      if nullish g then clear_fields a fs c d
      else a ← setField a f Undef; clear_fields a fs f g
  end.
Definition computeOneofCase (a : jspb_message) (fs : list Z) : M (jspb_message * Z) :=
  '(a, c, d) ← clear_fields a fs 0 Undef;
  if c =? 0 then mret (a, 0) else a ← setField a c d; mret (a, c).
Definition setOneofField (a : jspb_message) (b : Z) (fs : list Z) (d : pv) : M jspb_message :=
  '(a, c) ← computeOneofCase a fs;
  a ← (if negb (c =? 0) && negb (c =? b) && negb (d ==? Undef) then setField a c Undef else mret a);
  setField a b d.

(** ** Making messages *)

Definition initPivotAndExtensionObject_ (h : store) (r : nat) (offset pivot : Z) : option Z * option nat :=
  let l := array_at h r in
  let number d := d - offset in
  let rest := (if -1 <? pivot then Some (Z.max pivot (number (Z.of_nat (length l)))) else None, None) in
  match elem l (length l - 1) with
  | Ref e => match obj_at h e with Object _ => (Some (number (Z.of_nat (length l) - 1)), Some e) | _ => rest end
  | _ => rest
  end.
(** [a.array[c] = a.array[c] || EMPTY_LIST_SENTINEL_], and of an extension. *)
Definition or_empty (v : pv) : pv := if pv_truthy v then v else Ref EMPTY_LIST_SENTINEL_.
Definition init_repeated (a : jspb_message) (c : Z) : M jspb_message :=
  if in_array a c then
    v ← load (m_array a) (getIndex_ a c); save (m_array a) (getIndex_ a c) (or_empty v);; mret a
  else
    a ← maybeInitEmptyExtensionObject_ a;
    match extensionObject_ a with
    | Some e => v ← load_prop e c; save_prop e c (or_empty v);; mret a
    | None => no_extension
    end.
Fixpoint for_each_ {A} (f : jspb_message -> A -> M jspb_message) (a : jspb_message) (l : list A) : M jspb_message :=
  match l with [] => mret a | x :: l => a ← f a x; for_each_ f a l end.
(** [new C(data)] *)
Definition initialize (c : pb_class) (data : option nat) : M jspb_message :=
  let id := match c_id c with Some (u :: s) => Some (u :: s) | _ => None end in
  r ← match data with Some r => mret r | None => new_obj (Array (match id with Some s => [Text s] | None => [] end)) end;
  let offset := match c_id c with None => -1 | Some _ => 0 end in
  '(pivot, e) ← (fun h => Ret (initPivotAndExtensionObject_ h r offset (c_pivot c), h));
  a ← for_each_ init_repeated (Message r offset pivot e id) (c_repeated c);
  for_each_ (fun a fs => '(a, _) ← computeOneofCase a fs; mret a) a (c_oneofs c).

(** ** Comparing and copying messages *)

(** Two messages of one class; one and the same message has one array, which
    [compareFields] finds equal to itself. *)
Definition equals `{NumText} (fuel : nat) (a b : jspb_message) : M bool := fun h =>
  b ← compareFields fuel h (Ref (m_array a)) (Ref (m_array b)); Ret (b, h).
(** The elements of [b] from [i] on that [a] does not have. *)
Fixpoint differing `{NumText} (fuel : nat) (h : store) (l l' : list pv) (n i : nat) (d : list pv) : outcome (list pv) :=
  match n with
  | O => Ret d
  | S n =>
      same ← compareFields fuel h (elem l i) (elem l' i);
      differing fuel h l l' n (S i) (if same : bool then d else set_elem i (elem l' i) d)
  end.
Definition difference `{NumText} (fuel : nat) (cl : pb_class) (a b : jspb_message) : M jspb_message :=
  d ← (fun h =>
    let c := array_at h (m_array a) in
    let b := array_at h (m_array b) in
    let '(d, e) := match messageId_ a with Some s => ([Text s], 1%nat) | None => ([], O) end in
    d ← differing fuel h c b (Nat.max (length c) (length b) - e) e d; Ret (d, h));
  r ← new_obj (Array d); initialize cl (Some r).
Definition cloneMessage (fuel : nat) (cl : pb_class) (a : jspb_message) : M jspb_message :=
  r ← clone_ fuel (m_array a); initialize cl (Some r).
