(* ===== verification/PbValueSpec.v ===== *)
(** Comparing and copying messages' values, by their contents: the finite maps
    of what their arrays and extension objects hold. On values of one type
    [compareFields] decides equality of contents; a copy has the contents of
    the original and shares nothing with it. *)

From stdpp Require Import gmap.
From S2P Require Import JsNum.
From S2P Require Import Prelude JsVal Wire PbValue.

(** The text of a number that is none is the text of no other number. *)
Class NumTextOk `{NumText} : Prop := num_text_NaN x : num_text x = js "NaN" <-> x = NaN.

(** ** Contents *)

Inductive tree :=
  | TBoolean (b : bool) | TNumber (x : num) | TText (s : jsstr) | TBytes (l : list Z)
  | TMessage (f : gmap nat tree) (x : gmap jsstr tree).

(** The zeros are equal. *)
Definition canon (x : num) : num := match x with Fin _ 0 => Fin false 0 | x => x end.
(** Extension objects are not elements. *)
Definition field (h : store) (v : pv) : pv := if plain_object h v then Undef else v.
Definition extension (h : store) (l : list pv) : list (jsstr * pv) := default [] (plain_object h (elem l (length l - 1))).

Fixpoint content (n : nat) (h : store) (v : pv) : option tree :=
  match v with
  | Undef | Null => None
  | Boolean b => Some (TBoolean b)
  | Number x => Some (TNumber (canon x))
  | Text s => Some (TText s)
  | Ref r =>
      match obj_at h r, n with
      | Uint8 l, _ => Some (TBytes l)
      | Array l, S n =>
          Some (TMessage (omap (content n h) (map_seq 0 (map (field h) l) : gmap nat pv))
                         (omap (content n h) (list_to_map (extension h l) : gmap jsstr pv)))
      | _, _ => Some (TMessage ∅ ∅)
      end
  end.

(** ** Types *)

(** A list's elements have one type; a message has a type for each field of its
    array and for each of its extensions. *)
Inductive ty := KBoolean | KNumber | KText | KBytes | KList (t : ty) | KMessage (fs : list ty) (xs : list (jsstr * ty)).
(** The types of an array's elements and extensions. *)
Definition is_array (t : ty) : bool := match t with KList _ | KMessage _ _ => true | _ => false end.
Definition slot (t : ty) (i : nat) : option ty := match t with KList t => Some t | KMessage fs _ => fs !! i | _ => None end.
Definition ext_slot (t : ty) (k : jsstr) : option ty :=
  match t with KMessage _ xs => (list_to_map xs : gmap jsstr ty) !! k | _ => None end.
(** An extension object is the last element. *)
Definition object_last (h : store) (l : list pv) : Prop := forall i o, plain_object h (elem l i) = Some o -> S i = length l.

(** Of the type, and at most [n] arrays deep. *)
Inductive typed (h : store) : nat -> ty -> pv -> Prop :=
  | typed_nullish n t v : nullish v = true -> typed h n t v
  | typed_boolean n b : typed h n KBoolean (Boolean b)
  | typed_number n x : double x -> typed h n KNumber (Number x)
  | typed_text n s : typed h n KText (Text s)
  | typed_bytes n r l : h !! r = Some (Uint8 l) -> typed h n KBytes (Ref r)
  | typed_array n t r l : is_array t = true -> h !! r = Some (Array l) -> object_last h l ->
      (forall i t', slot t i = Some t' -> typed h n t' (field h (elem l i))) ->
      (forall i, slot t i = None -> nullish (field h (elem l i)) = true) ->
      (forall k t', ext_slot t k = Some t' -> typed h n t' (prop (extension h l) k)) ->
      (forall k, ext_slot t k = None -> nullish (prop (extension h l) k) = true) ->
      typed h (S n) t (Ref r).

(** Finite: the objects of the value satisfy [P] and are at most [n] deep. *)
Inductive shaped (P : nat -> Prop) (h : store) : nat -> pv -> Prop :=
  | shaped_value n v : (forall r, v <> Ref r) -> shaped P h n v
  | shaped_bytes n r l : P r -> h !! r = Some (Uint8 l) -> shaped P h n (Ref r)
  | shaped_array n r l : P r -> h !! r = Some (Array l) -> Forall (shaped P h n) l -> shaped P h (S n) (Ref r)
  | shaped_object n r o : P r -> h !! r = Some (Object o) -> NoDup o.*1 -> Forall (fun kv => shaped P h n kv.2) o -> shaped P h (S n) (Ref r).

(** ** The contents of arrays *)

Lemma obj_at_Some h r a : h !! r = Some a -> obj_at h r = a.
Proof. unfold obj_at. by intros ->. Qed.
Lemma content_nullish n h v : nullish v = true -> content n h v = None.
Proof. by destruct v, n. Qed.
Lemma content_present n h v : content n h v = None <-> nullish v = true.
Proof.
  split; [|apply content_nullish]. destruct v as [| | | | |r]; destruct n; cbn; try done; destruct (obj_at h r); done.
Qed.

Lemma fields_lookup {C} (c : pv -> option C) l i : c Undef = None ->
  (omap c (map_seq 0 l : gmap nat pv) : gmap nat C) !! i = c (elem l i).
Proof.
  intros Hc. rewrite lookup_omap, lookup_map_seq_0. unfold elem. by destruct (l !! i).
Qed.
Lemma props_lookup {C} (c : pv -> option C) o k : c Undef = None ->
  (omap c (list_to_map o : gmap jsstr pv) : gmap jsstr C) !! k = c (prop o k).
Proof.
  intros Hc. rewrite lookup_omap. induction o as [|[k' v] o IH]; cbn; [by rewrite lookup_empty|].
  destruct (bool_decide_reflect (k' = k)) as [->|Hn]; [by rewrite lookup_insert_eq|by rewrite lookup_insert_ne].
Qed.
Lemma elem_field h l i : elem (map (field h) l) i = field h (elem l i).
Proof. unfold elem. rewrite list_lookup_fmap. by destruct (l !! i). Qed.

(** Two arrays with the same contents, element by element and extension by
    extension. *)
Lemma content_arrays n h h' r r' l l' : h !! r = Some (Array l) -> h' !! r' = Some (Array l') ->
  content (S n) h (Ref r) = content (S n) h' (Ref r') <->
    (forall i, content n h (field h (elem l i)) = content n h' (field h' (elem l' i))) /\
    (forall k, content n h (prop (extension h l) k) = content n h' (prop (extension h' l') k)).
Proof.
  intros E E'. cbn [content]. rewrite (obj_at_Some h r _ E), (obj_at_Some h' r' _ E'). split.
  - intros [= Ef Ex]. split; [intros i|intros k].
    + rewrite <-!elem_field, <-!fields_lookup by (by apply content_nullish). by rewrite Ef.
    + rewrite <-!props_lookup by (by apply content_nullish). by rewrite Ex.
  - intros [Hf Hx]. do 2 f_equal; apply map_eq; intros i.
    + rewrite !fields_lookup, !elem_field by (by apply content_nullish). apply Hf.
    + rewrite !props_lookup by (by apply content_nullish). apply Hx.
Qed.

(** ** Comparing *)

(** [cmp] returns, and says whether two things are the same to [c]. *)
Definition decides {A} (m : outcome bool) (x y : A) : Prop := exists b, m = Ret b /\ (b = true <-> x = y).

Lemma elem_of_put_key k k' l : k' ∈ put_key k l <-> k' = k \/ k' ∈ l.
Proof. induction l as [|x l IH]; cbn; [set_solver|]. destruct (key_before k x); set_solver. Qed.
Lemma elem_of_keys k ks l : k ∈ fold_left add_key ks l <-> k ∈ ks \/ k ∈ l.
Proof.
  revert l. induction ks as [|x ks IH]; intros l; cbn; [set_solver|]. rewrite IH. unfold add_key. case_decide; [set_solver|].
  rewrite elem_of_put_key. set_solver.
Qed.
Lemma prop_missing o k : k ∉ map fst o -> prop o k = Undef.
Proof. induction o as [|[k' v] o IH]; cbn; [done|]. intros H. rewrite bool_decide_eq_false_2 by set_solver. apply IH. set_solver. Qed.
(** The extension object met before element [i]. *)
Definition met (h : store) (l : list pv) (i : nat) : option (list (jsstr * pv)) :=
  if decide (length l <= i)%nat then plain_object h (elem l (length l - 1)) else None.
Lemma elem_past l i : (length l <= i)%nat -> elem l i = Undef.
Proof. intros H. unfold elem. by rewrite lookup_ge_None_2. Qed.
Lemma take_object_met h l i : object_last h l ->
  take_object h (elem l i) (S i ==? length l) (met h l i) = Ret (met h l (S i), field h (elem l i)).
Proof.
  intros Hl. unfold take_object, field. destruct (plain_object h (elem l i)) as [o|] eqn:E.
  - pose proof (Hl i o E) as Hi. unfold met. rewrite decide_False by lia. rewrite bool_decide_eq_true_2 by done.
    rewrite decide_True by lia. by replace (length l - 1)%nat with i by lia; rewrite E.
  - unfold met. repeat case_decide; try done; try lia. by replace (length l - 1)%nat with i by lia; rewrite E.
Qed.

Section comparing.
Context {C : Type} (cmp : pv -> pv -> outcome bool) (c : pv -> C).

Lemma keys_equal_decides o o' ks : (forall k, k ∈ ks -> decides (cmp (prop o k) (prop o' k)) (c (prop o k)) (c (prop o' k))) ->
  exists b, keys_equal cmp o o' ks = Ret b /\ (b = true <-> forall k, k ∈ ks -> c (prop o k) = c (prop o' k)).
Proof.
  induction ks as [|k ks IH]; intros Hd; cbn [keys_equal]; [exists true; split; [done|]; set_solver|].
  destruct (Hd k ltac:(by left)) as (b & -> & Hb). cbn. destruct b.
  - destruct IH as (b & -> & Hb'); [intros; apply Hd; by right|]. exists b. split; [done|]. rewrite Hb'. setoid_rewrite list.elem_of_cons. naive_solver.
  - exists false. split; [done|]. split; [done|]. intros H. destruct Hb as [_ Hb]. rewrite Hb; [done|]. apply H. by left.
Qed.
Lemma compareExtensions_decides o o' : (forall k, decides (cmp (prop o k) (prop o' k)) (c (prop o k)) (c (prop o' k))) ->
  exists b, compareExtensions cmp o o' = Ret b /\ (b = true <-> forall k, c (prop o k) = c (prop o' k)).
Proof.
  intros Hd. destruct (keys_equal_decides o o' (fold_left add_key (map fst o ++ map fst o') [])) as (b & E & Hb); [auto|].
  exists b. split; [done|]. rewrite Hb. split; [|auto]. intros H k.
  destruct (decide (k ∈ map fst o ++ map fst o')) as [Hk|Hk]; [apply H, elem_of_keys; by left|].
  rewrite !prop_missing by set_solver. done.
Qed.

Lemma elements_equal_decides h l l' n : forall i, object_last h l -> object_last h l' ->
  (forall i, decides (cmp (field h (elem l i)) (field h (elem l' i))) (c (field h (elem l i))) (c (field h (elem l' i)))) ->
  exists b d e, elements_equal cmp h l l' n i (met h l i) (met h l' i) = Ret (b, d, e) /\
    (b = true <-> forall j, (i <= j < i + n)%nat -> c (field h (elem l j)) = c (field h (elem l' j))) /\
    (b = true -> d = met h l (i + n) /\ e = met h l' (i + n)).
Proof.
  induction n as [|n IH]; intros i Hl Hl' Hd; cbn [elements_equal].
  { exists true, (met h l i), (met h l' i). rewrite Nat.add_0_r. split; [done|]. split; [|done]. split; [lia|done]. }
  rewrite !take_object_met by done. cbn. destruct (Hd i) as (b & -> & Hb). cbn. destruct b.
  - destruct (IH (S i) Hl Hl' Hd) as (b & d & e & -> & Hb' & Hm). exists b, d, e. split; [done|]. rewrite Nat.add_succ_r. split; [|done].
    rewrite Hb'. split; intros H j Hj; [|apply H; lia]. destruct (decide (i = j)) as [<-|]; [by apply Hb|apply H; lia].
  - eexists false, _, _. split; [done|]. split; [|done]. split; [done|]. intros H. apply Hb, H. lia.
Qed.
Lemma compare_arrays_decides h l l' : object_last h l -> object_last h l' ->
  (forall i, decides (cmp (field h (elem l i)) (field h (elem l' i))) (c (field h (elem l i))) (c (field h (elem l' i)))) ->
  (forall k, decides (cmp (prop (extension h l) k) (prop (extension h l') k)) (c (prop (extension h l) k)) (c (prop (extension h l') k))) ->
  exists b, compare_arrays cmp h l l' = Ret b /\ (b = true <->
    (forall i, c (field h (elem l i)) = c (field h (elem l' i))) /\ (forall k, c (prop (extension h l) k) = c (prop (extension h l') k))).
Proof.
  intros Hl Hl' Hf Hx. unfold compare_arrays.
  assert (H0 : forall l, met h l 0 = None) by (intros [|x l0]; [done|]; unfold met; by rewrite decide_False by (cbn; lia)).
  destruct (elements_equal_decides h l l' (Nat.max (length l) (length l')) 0 Hl Hl' Hf) as (b & d & e & E & Hb & Hm).
  rewrite !H0 in E. rewrite E. cbn.
  assert (Hall : b = true <-> forall i, c (field h (elem l i)) = c (field h (elem l' i))).
  { rewrite Hb. split; intros H i; [|intros _; apply H]. destruct (decide (i < Nat.max (length l) (length l'))%nat); [apply H; lia|].
    rewrite !elem_past by lia. done. }
  destruct b; [|exists false; split; [done|]; split; [done|]; intros [H _]; by apply Hall].
  destruct (Hm eq_refl) as [-> ->]. unfold met. rewrite !decide_True by (cbn; lia).
  destruct (compareExtensions_decides _ _ Hx) as (b & E' & Hb').
  assert (Hr : forall b', b' = true <-> (forall k, c (prop (extension h l) k) = c (prop (extension h l') k)) ->
     b' = true <-> (forall i, c (field h (elem l i)) = c (field h (elem l' i))) /\ (forall k, c (prop (extension h l) k) = c (prop (extension h l') k))) by naive_solver.
  unfold extension in *. destruct (plain_object h (elem l _)), (plain_object h (elem l' _)); cbn in *; eauto.
Qed.
End comparing.

Lemma typed_plain h n t v : typed h n t v -> plain_object h v = None.
Proof.
  destruct 1 as [n t v Hv| | | |n r l E|n t r l Ht E]; try done; [by destruct v|..]; cbn; by rewrite (obj_at_Some _ _ _ E).
Qed.
Lemma canon_eq x y : double x -> double y -> JsNum.eqb x y = true <-> x <> NaN /\ canon x = canon y.
Proof.
  intros Hx Hy. destruct x as [|s|s n], y as [|t|t m]; cbn [JsNum.eqb canon].
  9: { destruct Hx as [Hx%rep_nonneg _], Hy as [Hy%rep_nonneg _]. rewrite Z.eqb_eq. unfold signed.
    destruct s, t, n, m; try lia; naive_solver lia. }
  all: try (destruct n); try (destruct m); try naive_solver.
  split; [intros H%Bool.eqb_prop|intros [_ [= ->]]]; [by subst|by destruct t].
Qed.

Section contents.
Context `{NumTextOk}.

Lemma compare_nullish n h v w : nullish v = true -> nullish w = true -> compareFields (S n) h v w = Ret true.
Proof. by destruct v, w. Qed.
Lemma NaN_text x s : isNaN x = true -> s <> js "NaN" -> (s ==? num_text x) = false /\ (num_text x ==? s) = false.
Proof. destruct x; [|done..]. intros _ Hs. rewrite (proj2 (num_text_NaN NaN)) by done. split; by apply bool_decide_eq_false_2. Qed.
Lemma compare_one_nullish n h v w : nullish v <> nullish w -> compareFields (S n) h v w = Ret false.
Proof.
  intros Hn. destruct v, w; try done; cbn; repeat match goal with |- context [isNaN ?x] => destruct (isNaN x) eqn:?E end; try done.
  all: destruct n; cbn; f_equal; apply NaN_text; (done || (vm_compute; discriminate)).
Qed.
Lemma bytes_equal (l l' : list Z) : (length l ==? length l') && forallb (fun '(x, y) => x =? y) (zip l l') = true <-> l = l'.
Proof.
  rewrite andb_true_iff, bool_decide_eq_true. split.
  - intros [Hl Hf]. revert l' Hl Hf. induction l as [|x l IH]; intros [|y l'] Hl Hf; try done. cbn in *.
    apply andb_true_iff in Hf as [->%Z.eqb_eq Hf]. f_equal. apply IH; [lia|done].
  - intros <-. split; [done|]. induction l as [|x l IH]; [done|]. cbn. by rewrite Z.eqb_refl.
Qed.
Lemma compare_ref n h r r' : (obj_at h r = obj_at h r' -> content n h (Ref r) = content n h (Ref r')) /\
  (r = r' -> decides (compareFields (S n) h (Ref r) (Ref r')) (content n h (Ref r)) (content n h (Ref r'))).
Proof.
  split; [intros E; destruct n; cbn; by rewrite E|]. intros <-. exists true. split; [|done]. cbn. by rewrite bool_decide_eq_true_2.
Qed.
Lemma decides_ext {A} m (x y : A) b : m = Ret b -> (b = true <-> x = y) -> decides m x y.
Proof. intros. by exists b. Qed.
Lemma slot_decides (o : option ty) n h v w :
  (forall t, o = Some t -> typed h n t v /\ typed h n t w) -> (o = None -> nullish v = true /\ nullish w = true) ->
  (forall t, o = Some t -> forall w, typed h n t w -> decides (compareFields (S n) h v w) (content n h v) (content n h w)) ->
  decides (compareFields (S n) h v w) (content n h v) (content n h w).
Proof.
  intros Ht Hn IH. destruct o as [t|]; [eapply IH; [done|]; by apply Ht|]. destruct (Hn eq_refl).
  exists true. rewrite compare_nullish by done. split; [done|]. by rewrite !content_nullish.
Qed.
Lemma compare_numbers n h x x' : double x -> double x' ->
  decides (compareFields (S n) h (Number x) (Number x')) (content n h (Number x)) (content n h (Number x')).
Proof.
  intros Hx Hx'. pose proof (canon_eq x x' Hx Hx') as Hc.
  assert (Ec : content n h (Number x) = content n h (Number x') <-> canon x = canon x') by (by destruct n; cbn; (split; [intros [=]|intros ->])).
  unfold decides. setoid_rewrite Ec. clear Ec. cbn [compareFields loose_eq prim_eq]. cbn [mbind outcome_bind].
  destruct (JsNum.eqb x x') eqn:Eq; [exists true; naive_solver|]. cbn [a_NaN].
  assert (HN : forall y, canon y = NaN <-> y = NaN) by (intros [|?|? []]; cbn; split; congruence).
  destruct (isNaN x || isNaN x') eqn:En.
  - exists (num_text x ==? num_text x'). split; [by destruct n|]. rewrite bool_decide_eq_true.
    assert (x = NaN \/ x' = NaN) as [-> | ->] by (destruct x, x'; naive_solver).
    + rewrite (proj2 (num_text_NaN NaN)), (eq_comm (js "NaN")), num_text_NaN, (eq_comm (canon NaN)) by done. symmetry. apply HN.
    + rewrite (proj2 (num_text_NaN NaN)), num_text_NaN by done. symmetry. apply HN.
  - exists false. split; [done|]. split; [done|]. intros E. apply Hc. split; [by intros ->|done].
Qed.
Lemma compare_typed h n t v : typed h n t v -> forall w, typed h n t w ->
  decides (compareFields (S n) h v w) (content n h v) (content n h w).
Proof.
  induction 1 as [n t v Hv|n b|n x Hx|n s|n r l E|n t r l Ht E Hl Hf IHf Hf0 Hx IHx Hx0]; intros w Hw.
  { destruct (nullish w) eqn:Hw'; [exists true; rewrite compare_nullish by done|exists false; rewrite compare_one_nullish by congruence];
      (split; [done|]); rewrite (content_nullish n h v) by done; [by rewrite content_nullish|]. split; [done|]. intros E.
    symmetry in E. apply content_present in E. congruence. }
  all: inversion Hw as [? ? ? Hn|? b'|? x' Hx'|? s'|? r' l' E'|? ? r' l' Ht' E' Hl' Hf' Hf0' Hx' Hx0']; subst; try done;
    try (exists false; rewrite compare_one_nullish by (by rewrite Hn); split; [done|]; split; [done|]; intros Ec;
         rewrite (content_nullish _ _ w) in Ec by done; by apply content_present in Ec).
  - apply (decides_ext _ _ _ (Bool.eqb b b')); [cbn; by destruct (Bool.eqb b b'), n|]. rewrite Bool.eqb_true_iff. destruct n; cbn; naive_solver.
  - by apply compare_numbers.
  - apply (decides_ext _ _ _ (s ==? s')); [cbn; by destruct (s ==? s'), n|]. rewrite bool_decide_eq_true. destruct n; cbn; naive_solver.
  - destruct (decide (r = r')) as [->|Hr]; [by apply compare_ref|].
    eapply decides_ext; [cbn; rewrite bool_decide_eq_false_2, (obj_at_Some _ _ _ E), (obj_at_Some _ _ _ E') by done; reflexivity|].
    rewrite bytes_equal. destruct n; cbn; rewrite (obj_at_Some _ _ _ E), (obj_at_Some _ _ _ E'); naive_solver.
  - destruct (decide (r = r')) as [->|Hr]; [by apply compare_ref|].
    destruct (compare_arrays_decides (compareFields (S n) h) (content n h) h l l' Hl Hl') as (b & Eb & Hb).
    + intros i. apply (slot_decides (slot t i)); eauto.
    + intros k. apply (slot_decides (ext_slot t k)); eauto.
    + exists b. split; [|rewrite Hb; symmetry; by apply content_arrays].
      cbn [compareFields loose_eq]. cbn [mbind outcome_bind]. rewrite bool_decide_eq_false_2 by done.
      by rewrite (obj_at_Some _ _ _ E), (obj_at_Some _ _ _ E').
Qed.
Lemma typed_deeper h n m t v : (n <= m)%nat -> typed h n t v -> typed h m t v.
Proof.
  intros Hm Ht. revert m Hm. induction Ht as [n t v Hv|n b|n x Hx|n s|n r l E|n t r l Ht E Hl Hf IHf Hf0 Hx IHx Hx0]; intros m Hm;
    try (by econstructor).
  destruct m as [|m]; [lia|]. apply typed_array with l; try done; [intros i t' Hs; apply (IHf i t' Hs); lia|intros k t' Hs; apply (IHx k t' Hs); lia].
Qed.
(** C20. On values of one type [compareFields] returns, and what it says is whether
    their contents are the same. *)
Theorem compare_contents h n m t v w : typed h n t v -> typed h n t w -> (n <= m)%nat ->
  exists b, compareFields (S m) h v w = Ret b /\ (b = true <-> content m h v = content m h w).
Proof. intros Hv Hw Hm. by apply (compare_typed h m t); apply (typed_deeper h n). Qed.
End contents.

(** ** Copying *)

(** The same contents at every depth, and of the same types. *)
Definition same (h h' : store) (v v' : pv) : Prop :=
  (forall n, content n h' v' = content n h v) /\ (forall n t, typed h n t v -> typed h' n t v') /\ nullish v' = nullish v.
(** The same, also as an extension object. *)
Definition corresponds (h h' : store) (v v' : pv) : Prop :=
  same h h' v v' /\
  match plain_object h v with
  | Some o => exists o', plain_object h' v' = Some o' /\ forall k, same h h' (prop o k) (prop o' k)
  | None => plain_object h' v' = None
  end.

Lemma corresponds_value h h' v v' : (forall r, v <> Ref r) -> v' = v \/ (nullish v = true /\ v' = Undef) -> corresponds h h' v v'.
Proof.
  intros Hv [->|[Hn ->]]; (split; [split; [|split]|]).
  - intros n. by destruct n, v; try (by edestruct Hv).
  - intros n t. destruct 1; try (by edestruct Hv); by constructor.
  - done.
  - by destruct v; try (by edestruct Hv).
  - intros n. by rewrite (content_nullish n h) by done; destruct n.
  - intros. by constructor.
  - done.
  - by destruct v.
Qed.
Lemma corresponds_bytes h h' r r' l : h !! r = Some (Uint8 l) -> h' !! r' = Some (Uint8 l) -> corresponds h h' (Ref r) (Ref r').
Proof.
  intros E E'. split; [split; [|split; [|done]]|].
  - intros n. destruct n; cbn; by rewrite (obj_at_Some _ _ _ E), (obj_at_Some _ _ _ E').
  - intros n t Ht. inversion Ht; subst; [done|by econstructor|congruence].
  - cbn. by rewrite (obj_at_Some _ _ _ E), (obj_at_Some _ _ _ E').
Qed.
Lemma corresponds_object h h' r r' o o' : h !! r = Some (Object o) -> h' !! r' = Some (Object o') ->
  (forall k, same h h' (prop o k) (prop o' k)) -> corresponds h h' (Ref r) (Ref r').
Proof.
  intros E E' Hk. split; [split; [|split; [|done]]|].
  - intros n. destruct n; cbn; by rewrite (obj_at_Some _ _ _ E), (obj_at_Some _ _ _ E').
  - intros n t Ht. inversion Ht; subst; [done|congruence..].
  - cbn. rewrite (obj_at_Some _ _ _ E), (obj_at_Some _ _ _ E'). by exists o'.
Qed.
Lemma corresponds_undef h h' : corresponds h h' Undef Undef.
Proof. apply corresponds_value; [done|by left]. Qed.
Lemma corresponds_elem h h' l l' i : Forall2 (corresponds h h') l l' -> corresponds h h' (elem l i) (elem l' i).
Proof.
  intros Hl. unfold elem.
  destruct (l !! i) as [v|] eqn:E.
  - destruct (Forall2_lookup_l _ _ _ _ _ Hl E) as (v' & -> & Hc). done.
  - rewrite (proj2 (lookup_ge_None l' i)); [apply corresponds_undef|]. erewrite <-list.Forall2_length by done. by apply lookup_ge_None.
Qed.
Lemma corresponds_plain h h' v v' : corresponds h h' v v' -> plain_object h v = None <-> plain_object h' v' = None.
Proof. intros [_ H]. destruct (plain_object h v); [|done]. destruct H as (o' & -> & _). done. Qed.
Lemma same_undef h h' : same h h' Undef Undef.
Proof. apply (corresponds_undef h h'). Qed.
Lemma corresponds_field h h' v v' : corresponds h h' v v' -> same h h' (field h v) (field h' v').
Proof.
  intros Hc. pose proof (corresponds_plain _ _ _ _ Hc) as Hp. destruct Hc as [Hs _]. unfold field.
  destruct (plain_object h v), (plain_object h' v'); try naive_solver; apply same_undef.
Qed.
Lemma corresponds_array h h' r r' l l' : h !! r = Some (Array l) -> h' !! r' = Some (Array l') ->
  Forall2 (corresponds h h') l l' -> corresponds h h' (Ref r) (Ref r').
Proof.
  intros E E' Hl. pose proof (list.Forall2_length _ _ _ Hl) as Hlen.
  assert (Hf : forall i, same h h' (field h (elem l i)) (field h' (elem l' i))) by (intros i; by apply corresponds_field, corresponds_elem).
  assert (Hx : forall k, same h h' (prop (extension h l) k) (prop (extension h' l') k)).
  { intros k. unfold extension. rewrite <-Hlen. destruct (corresponds_elem h h' l l' (length l - 1) Hl) as [_ Hx].
    destruct (plain_object h _); [destruct Hx as (o' & -> & Hk); apply Hk|rewrite Hx; apply same_undef]. }
  split; [split; [|split; [|done]]|].
  - intros [|n]; [cbn; by rewrite (obj_at_Some _ _ _ E), (obj_at_Some _ _ _ E')|]. symmetry. apply content_arrays with l l'; [done|done|].
    split; intros; symmetry; [apply Hf|apply Hx].
  - intros n t Ht. inversion Ht as [| | | | |? ? ? l2 Ha E2 Ho F1 F2 X1 X2]; subst; [done|congruence|]. rewrite E in E2. injection E2 as <-.
    apply typed_array with l'; [done|done| |..].
    + intros i o Hi. rewrite <-Hlen. destruct (plain_object h (elem l i)) eqn:Ep; [by eapply Ho|].
      apply (corresponds_plain _ _ _ _ (corresponds_elem h h' l l' i Hl)) in Ep. congruence.
    + intros i t' Hs. by apply Hf, F1.
    + intros i Hs. rewrite (proj2 (proj2 (Hf i))). by apply F2.
    + intros k t' Hs. by apply Hx, X1.
    + intros k Hs. rewrite (proj2 (proj2 (Hx k))). by apply X2.
  - cbn. by rewrite (obj_at_Some _ _ _ E), (obj_at_Some _ _ _ E').
Qed.

(** ** A copy *)

(** What a store agrees with another one on leaves the values there alone. *)
Lemma shaped_frame P h h' n v : shaped P h n v -> (forall i, P i -> h' !! i = h !! i) -> corresponds h h' v v /\ shaped P h' n v.
Proof.
  intros Hs Hh. revert n v Hs. fix IH 3. destruct 1 as [n v Hv|n r l Hr E|n r l Hr E Hl|n r o Hr E Hd Ho].
  - split; [apply corresponds_value; [done|by left]|by constructor].
  - split; [apply corresponds_bytes with l; [done|by rewrite Hh]|]. apply shaped_bytes with l; [done|by rewrite Hh].
  - assert (H : Forall (fun v => corresponds h h' v v /\ shaped P h' n v) l).
    { clear E. induction Hl as [|v l Hv _ IHl]; constructor; [by apply IH|done]. }
    apply list.Forall_and in H as [H1 H2]. split; [|apply shaped_array with l; [done|by rewrite Hh|done]].
    apply corresponds_array with l l; [done|by rewrite Hh|]. by apply Forall_Forall2_diag.
  - assert (H : Forall (fun kv => corresponds h h' kv.2 kv.2 /\ shaped P h' n kv.2) o).
    { clear E Hd. induction Ho as [|v o Hv _ IHo]; constructor; [by apply IH|done]. }
    apply list.Forall_and in H as [H1 H2]. split; [|apply shaped_object with o; [done|by rewrite Hh|done|done]].
    apply corresponds_object with o o; [done|by rewrite Hh|]. intros k. clear E Ho H2 Hd.
    induction H1 as [|[k' v] o Hv _ IHo]; cbn; [apply same_undef|]. destruct (k' ==? k); [apply Hv|done].
Qed.
Lemma shaped_mono (P Q : nat -> Prop) h n v : (forall i, P i -> Q i) -> shaped P h n v -> shaped Q h n v.
Proof.
  intros HPQ. revert n v. fix IH 3. destruct 1 as [n v Hv|n r l Hr E|n r l Hr E Hl|n r o Hr E Hd Ho].
  - by constructor.
  - apply shaped_bytes with l; auto.
  - apply shaped_array with l; [auto|done|]. clear E. induction Hl as [|v l Hv _ IHl]; constructor; [by apply IH|done].
  - apply shaped_object with o; [auto|done|done|]. clear E Hd. induction Ho as [|v o Hv _ IHo]; constructor; [by apply IH|done].
Qed.

Lemma same_trans h1 h2 h3 v1 v2 v3 : same h1 h2 v1 v2 -> same h2 h3 v2 v3 -> same h1 h3 v1 v3.
Proof. intros (C1 & T1 & N1) (C2 & T2 & N2). split; [intros n; by rewrite C2|split; [auto|congruence]]. Qed.
Lemma corresponds_trans h1 h2 h3 v1 v2 v3 : corresponds h1 h2 v1 v2 -> corresponds h2 h3 v2 v3 -> corresponds h1 h3 v1 v3.
Proof.
  intros [S1 O1] [S2 O2]. split; [by eapply same_trans|]. destruct (plain_object h1 v1) as [o|].
  - destruct O1 as (o1 & E1 & K1). rewrite E1 in O2. destruct O2 as (o2 & E2 & K2). exists o2. split; [done|]. intros k. eapply same_trans; [apply K1|apply K2].
  - by rewrite O1 in O2.
Qed.

Lemma bind_Ret {A B} (m : M A) (k : A -> M B) h a h' : m h = Ret (a, h') -> (m ≫= k) h = k a h'.
Proof. unfold mbind, ST_bind. by intros ->. Qed.
Definition within (lo hi : nat) (i : nat) : Prop := (lo <= i < hi)%nat.
(** In any store that begins with [h], [f] makes a copy of [v] out of new objects. *)
Definition copies (h : store) (n : nat) (f : pv -> M pv) (v : pv) : Prop := forall X, exists new v',
  f v (h ++ X) = Ret (v', h ++ X ++ new) /\ corresponds h (h ++ X ++ new) v v' /\
  shaped (within (length (h ++ X)) (length (h ++ X ++ new))) (h ++ X ++ new) n v'.

Lemma copies_all h n f l : Forall (copies h n f) l -> forall X, exists new l',
  mapM f l (h ++ X) = Ret (l', h ++ X ++ new) /\ Forall2 (corresponds h (h ++ X ++ new)) l l' /\
  Forall (shaped (within (length (h ++ X)) (length (h ++ X ++ new))) (h ++ X ++ new) n) l'.
Proof.
  induction 1 as [|v l Hv _ IH]; intros X.
  { exists [], []. rewrite app_nil_r. by repeat constructor. }
  destruct (Hv X) as (n1 & v' & E1 & C1 & S1). destruct (IH (X ++ n1)) as (n2 & l' & E2 & C2 & S2).
  exists (n1 ++ n2), (v' :: l'). rewrite <-!app_assoc in *. split; [|split].
  - change (mapM f (v :: l)) with (v' ← f v; l' ← mapM f l; mret (v' :: l')). by rewrite (bind_Ret _ _ _ _ _ E1), (bind_Ret _ _ _ _ _ E2).
  - constructor; [|done]. eapply corresponds_trans; [exact C1|]. eapply shaped_frame; [exact S1|].
    intros i [_ Hi]. rewrite !app_assoc in *. by apply lookup_app_l.
  - constructor.
    + eapply shaped_mono; [|eapply shaped_frame; [exact S1|]].
      * intros i [? ?]. rewrite !length_app in *. split; lia.
      * intros i [_ Hi]. rewrite !app_assoc in *. by apply lookup_app_l.
    + eapply list.Forall_impl; [exact S2|]. intros w. apply shaped_mono. intros i [? ?]. rewrite !length_app in *. split; lia.
Qed.
Lemma bind_inv {A B} (m : M A) (k : A -> M B) h r : (m ≫= k) h = Ret r -> exists a h', m h = Ret (a, h') /\ k a h' = Ret r.
Proof. unfold mbind, ST_bind. destruct (m h) as [[a h']| |]; [|done..]. by exists a, h'. Qed.
Lemma mapM_pairs {K A B} (f : A -> M B) (o : list (K * A)) h l h' : mapM f o.*2 h = Ret (l, h') ->
  mapM (fun '(k, v) => v' ← f v; mret (k, v')) o h = Ret (zip o.*1 l, h').
Proof.
  revert h l. induction o as [|[k v] o IH]; intros h l E; [by injection E as <- <-|].
  change ((v' ← f v; l' ← mapM f o.*2; mret (v' :: l')) h = Ret (l, h')) in E.
  apply bind_inv in E as (v' & h1 & E1 & E).
  apply bind_inv in E as (l' & h2 & E2 & [= <- <-]).
  change (((v' ← f v; mret (k, v')) ≫= (fun x => mapM (fun '(k, v) => v' ← f v; mret (k, v')) o ≫= fun l' => mret (x :: l'))) h = Ret ((k, v') :: zip o.*1 l', h2)).
  erewrite bind_Ret; [|by erewrite bind_Ret]. by rewrite (bind_Ret _ _ _ _ _ (IH _ _ E2)).
Qed.
Lemma prop_zip h h' ks l l' k : Forall2 (corresponds h h') l l' -> same h h' (prop (zip ks l) k) (prop (zip ks l') k).
Proof.
  intros Hl. revert ks. induction Hl as [|v v' l l' [Hv _] _ IH]; intros [|k' ks]; cbn; try apply same_undef.
  destruct (k' ==? k); [done|apply IH].
Qed.

Lemma prop_present o k : NoDup o.*1 -> prop (filter (fun kv => nullish kv.2 = false) o) k = if nullish (prop o k) then Undef else prop o k.
Proof.
  induction o as [|[k' v] o IH]; intros Hd; [done|]. cbn in Hd. apply list.NoDup_cons in Hd as [Hk Hd].
  cbn [prop]. destruct (nullish v) eqn:Hv.
  - rewrite filter_cons_False by (cbn; congruence). rewrite IH by done. case_bool_decide as Ek; [|done]. subst k'.
    rewrite prop_missing by done. by rewrite Hv.
  - rewrite filter_cons_True by done. cbn [prop]. case_bool_decide; [by rewrite Hv|by apply IH].
Qed.
Lemma same_nullish h h' v : nullish v = true -> same h h' v Undef.
Proof. intros Hv. destruct (corresponds_value h h' v Undef) as [Hs _]; [by intros r ->|by right|done]. Qed.

Lemma ret_copies h n v v' : (forall r, v <> Ref r) -> v' = v \/ (nullish v = true /\ v' = Undef) -> forall X, exists new,
  Ret (v', h ++ X) = Ret (v', h ++ X ++ new) /\ corresponds h (h ++ X ++ new) v v' /\
  shaped (within (length (h ++ X)) (length (h ++ X ++ new))) (h ++ X ++ new) n v'.
Proof.
  intros Hv Hv' X. exists []. rewrite app_nil_r. split; [done|]. split; [by apply corresponds_value|]. constructor.
  destruct Hv' as [->|[_ ->]]; done.
Qed.
(** The copies of an object's parts, and then the object. *)
Lemma alloc_last (h X new : store) o : (h ++ X ++ new ++ [o]) !! length (h ++ X ++ new) = Some o.
Proof. rewrite !app_assoc, lookup_app_r by lia. by rewrite Nat.sub_diag. Qed.
Lemma kept (h X new : store) o i : within (length (h ++ X)) (length (h ++ X ++ new)) i -> (h ++ X ++ new ++ [o]) !! i = (h ++ X ++ new) !! i.
Proof. intros [_ Hi]. rewrite !app_assoc in *. by apply lookup_app_l. Qed.
Lemma grown (h X new : store) o i : within (length (h ++ X)) (length (h ++ X ++ new)) i ->
  within (length (h ++ X)) (length (h ++ X ++ new ++ [o])) i.
Proof. unfold within. rewrite !length_app. cbn. lia. Qed.
Lemma parts_kept h X new o n l l' : Forall2 (corresponds h (h ++ X ++ new)) l l' ->
  Forall (shaped (within (length (h ++ X)) (length (h ++ X ++ new))) (h ++ X ++ new) n) l' ->
  Forall2 (corresponds h (h ++ X ++ new ++ [o])) l l' /\
  Forall (shaped (within (length (h ++ X)) (length (h ++ X ++ new ++ [o]))) (h ++ X ++ new ++ [o]) n) l'.
Proof.
  intros Hl. induction Hl as [|v v' l l' Hv _ IH]; intros Hs; [by split|]. apply list.Forall_cons in Hs as [S1 S2]. destruct (IH S2) as [IH1 IH2].
  destruct (shaped_frame _ _ (h ++ X ++ new ++ [o]) _ _ S1) as [C S]; [intros i; apply kept|].
  split; constructor; [by eapply corresponds_trans|done| |done]. eapply shaped_mono; [|exact S]. intros i. apply grown.
Qed.

Lemma obj_at_app (h X : store) r a : h !! r = Some a -> obj_at (h ++ X) r = a.
Proof. intros E. apply obj_at_Some. by apply lookup_app_l_Some. Qed.
Lemma clone_step f r h : clone_ (S f) r h =
  match obj_at h r with
  | Array l => (l' ← mapM (copy_value (clone_ f)) l; new_obj (Array l')) h
  | Uint8 l => new_obj (Uint8 l) h
  | Object o => (o' ← mapM (fun '(k, v) => v' ← copy_value (clone_ f) v; mret (k, v')) (filter (fun kv => nullish kv.2 = false) o); new_obj (Object o')) h
  end.
Proof.
  transitivity ((look r ≫= fun a => match a with
    | Array l => l' ← mapM (copy_value (clone_ f)) l; new_obj (Array l')
    | Uint8 l => new_obj (Uint8 l)
    | Object o => o' ← mapM (fun '(k, v) => v' ← copy_value (clone_ f) v; mret (k, v')) (filter (fun kv => nullish kv.2 = false) o); new_obj (Object o')
    end) h); [done|]. rewrite (bind_Ret _ _ _ (obj_at h r) h) by done. by destruct (obj_at h r).
Qed.
(** The last step of a copy: the object is made of the copies of its parts. *)
Lemma clone_with {B} h n r a (m : M B) (make : B -> obj) (clone : nat -> M nat) X new parts :
  (forall H, obj_at H r = a -> clone r H = (b ← m; new_obj (make b)) H) -> h !! r = Some a -> m (h ++ X) = Ret (parts, h ++ X ++ new) ->
  (let S := h ++ X ++ new ++ [make parts] in S !! length (h ++ X ++ new) = Some (make parts) ->
     corresponds h S (Ref r) (Ref (length (h ++ X ++ new))) /\
     (within (length (h ++ X)) (length S) (length (h ++ X ++ new)) -> shaped (within (length (h ++ X)) (length S)) S n (Ref (length (h ++ X ++ new))))) ->
  exists new v', copy_value clone (Ref r) (h ++ X) = Ret (v', h ++ X ++ new) /\ corresponds h (h ++ X ++ new) (Ref r) v' /\
    shaped (within (length (h ++ X)) (length (h ++ X ++ new))) (h ++ X ++ new) n v'.
Proof.
  intros Hc E Em Hlast. destruct (Hlast (alloc_last _ _ _ _)) as [C S]. exists (new ++ [make parts]), (Ref (length (h ++ X ++ new))).
  split; [|split; [done|apply S; unfold within; rewrite !length_app; cbn; lia]].
  cbn. erewrite bind_Ret; [|by rewrite Hc by (by apply obj_at_app); rewrite (bind_Ret _ _ _ _ _ Em)].
  unfold mret, ST_ret. by rewrite <-!app_assoc.
Qed.
Lemma same_copied_object h S o l : NoDup o.*1 -> Forall2 (corresponds h S) (filter (fun kv => nullish kv.2 = false) o).*2 l ->
  forall k, same h S (prop o k) (prop (zip (filter (fun kv => nullish kv.2 = false) o).*1 l) k).
Proof.
  intros Hd Hl k. set (p := filter _ o) in *. pose proof (prop_zip h S p.*1 _ _ k Hl) as Hs. 
  assert (Ez : zip p.*1 p.*2 = p) by (clear; induction p as [|[] p IH]; cbn; congruence). rewrite Ez in Hs.
  subst p. rewrite prop_present in Hs by done. destruct (nullish (prop o k)) eqn:En; [|done].
  destruct Hs as (_ & _ & Hn). cbn in Hn. 
  split; [|split]; [intros n; by rewrite !content_nullish|intros; by constructor|congruence].
Qed.
Lemma copy_copies P h n v : shaped P h n v -> forall f, (n <= f)%nat -> copies h n (copy_value (clone_ (S f))) v.
Proof.
  revert n v. fix IH 3. destruct 1 as [n v Hv|n r l Hr E|n r l Hr E Hl|n r o Hr E Hd Ho]; intros f Hf X.
  - destruct v as [| |b|x|s|r]; [| | | | |by destruct (Hv r)].
    all: match goal with |- context [copy_value _ ?v _] => destruct (ret_copies h n v (if nullish v then Undef else v) Hv
           ltac:(by (left + right)) X) as (new & E & C & S) end; by eexists new, _.
  - apply clone_with with (a := Uint8 l) (m := mret tt) (make := fun _ => Uint8 l) (new := []) (parts := tt);
      [intros H EH; by rewrite clone_step, EH|done|by rewrite app_nil_r|].
    intros S ES. split; [by apply corresponds_bytes with l|]. intros Hw. by apply shaped_bytes with l.
  - destruct f as [|f]; [lia|].
    assert (Hc : Forall (copies h n (copy_value (clone_ (S f)))) l).
    { clear E. induction Hl as [|v l Hv _ IHl]; constructor; [apply (IH _ _ Hv); lia|done]. }
    destruct (copies_all h n _ l Hc X) as (new & l' & Em & C & S).
    apply clone_with with (a := Array l) (m := mapM (copy_value (clone_ (Datatypes.S f))) l) (make := Array) (new := new) (parts := l'); [|done..|].
    { intros H EH. by rewrite clone_step, EH. }
    destruct (parts_kept h X new (Array l') n l l' C S) as [C' S']. intros S0 ES.
    split; [by apply corresponds_array with l l'|]. intros Hw. by apply shaped_array with l'.
  - destruct f as [|f]; [lia|]. set (p := filter (fun kv => nullish kv.2 = false) o).
    assert (Hc : Forall (copies h n (copy_value (clone_ (S f)))) p.*2).
    { subst p. clear E Hd. induction Ho as [|[k v] o Hv _ IHo]; [constructor|]. destruct (nullish v) eqn:En; [rewrite filter_cons_False by (cbn; congruence); done|].
      rewrite filter_cons_True by done. constructor; [apply (IH _ _ Hv); lia|done]. }
    destruct (copies_all h n _ _ Hc X) as (new & l' & Em & C & S).
    apply clone_with with (a := Object o) (m := mapM (fun '(k, v) => v' ← copy_value (clone_ (Datatypes.S f)) v; mret (k, v')) p) (make := Object) (new := new) (parts := zip p.*1 l');
      [|done|by apply mapM_pairs|].
    { intros H EH. by rewrite clone_step, EH. }
    destruct (parts_kept h X new (Object (zip p.*1 l')) n p.*2 l' C S) as [C' S']. intros S0 ES.
    split; [apply corresponds_object with o (zip p.*1 l'); [done|done|by apply same_copied_object]|]. intros Hw.
    pose proof (list.Forall2_length _ _ _ C) as Hlen. rewrite length_fmap in Hlen.
    apply shaped_object with (zip p.*1 l'); [done|done| |].
    + rewrite fst_zip by (rewrite length_fmap; lia). eapply list.sublist_NoDup; [exact Hd|]. apply fmap_sublist, sublist_filter.
    + eapply Forall_zip_with_snd; [|exact S']. by apply list.Forall_forall.
Qed.

(** C21. A deep copy: its contents are those of the original, which it is equal to;
    whatever happens to the objects that were there before, the copy keeps its
    contents, and whatever happens to the new ones, the original does. *)
Theorem clone_copies `{NumTextOk} h n m t r : shaped (within 0 (length h)) h n (Ref r) -> typed h m t (Ref r) ->
  exists new r', clone_ (S n) r h = Ret (r', h ++ new) /\
    compareFields (S m) (h ++ new) (Ref r') (Ref r) = Ret true /\
    (forall h', (forall i, (length h <= i)%nat -> h' !! i = (h ++ new) !! i) -> forall k, content k h' (Ref r') = content k h (Ref r)) /\
    (forall h', (forall i, (i < length h)%nat -> h' !! i = h !! i) -> forall k, content k h' (Ref r) = content k h (Ref r)).
Proof.
  intros Hs Ht. destruct (copy_copies _ _ _ _ Hs n ltac:(lia) []) as (new & v' & E & C & S). cbn in E, C, S. rewrite app_nil_r in *.
  change ((r' ← clone_ (Datatypes.S n) r; mret (Ref r')) h = Ret (v', h ++ new)) in E. apply bind_inv in E as (r' & h' & E & [= <- ->]).
  exists new, r'. split; [done|].
  assert (Hk : forall h', (forall i, (i < length h)%nat -> h' !! i = h !! i) -> corresponds h h' (Ref r) (Ref r)).
  { intros h' Hh'. eapply (shaped_frame _ h h' n (Ref r) Hs). intros i [_ Hi]. by apply Hh'. }
  split; [|split; [|intros h' Hh'; apply (Hk h' Hh')]].
  - destruct (compare_typed (h ++ new) m t (Ref r')) with (w := Ref r) as (b & -> & Hb).
    + by apply C.
    + apply Hk; [|done]. intros i Hi. by apply lookup_app_l.
    + f_equal. apply Hb. destruct C as [(C & _) _]. rewrite C. symmetry. apply Hk. intros i Hi. by apply lookup_app_l.
  - intros h' Hh' k. destruct (shaped_frame _ _ h' _ _ S) as [[(C' & _) _] _]; [intros i [Hi _]; by apply Hh'|]. rewrite C'. apply C.
Qed.
