(* ===== verification/PbMessageSpec.v ===== *)
(** Fields of a jspb.Message: reading and writing on both sides of the pivot,
    repeated fields and the shared empty list, groups of which one field is set. *)

From S2P Require Import JsNum.
From S2P Require Import Prelude JsVal Wire Numbers PbValue PbValueSpec PbMessage.

(** ** What a field holds *)

Definition raw (a : jspb_message) (h : store) (b : Z) : pv :=
  if in_array a b then elem (array_at h (m_array a)) (Z.to_nat (getIndex_ a b))
  else match extensionObject_ a with Some e => prop (props_at h e) (num_to_str b) | None => Undef end.
(** The array and the extension object are there, the latter where the pivot
    says; the shared list is empty. *)
Definition ext_ok (a : jspb_message) (h : store) : Prop :=
  match pivot_ a with
  | None => extensionObject_ a = None
  | Some p => 0 <= getIndex_ a p /\
      let v := elem (array_at h (m_array a)) (Z.to_nat (getIndex_ a p)) in
      match extensionObject_ a with
      | Some e => v = Ref e /\ exists o, h !! e = Some (Object o)
      | None => pv_truthy v = false
      end
  end.
Record valid (a : jspb_message) (h : store) : Prop := {
  v_array : exists l, h !! m_array a = Some (Array l);
  v_offset : -1 <= arrayIndexOffset_ a <= 0;
  v_ext : ext_ok a h;
  v_shared : h !! EMPTY_LIST_SENTINEL_ = Some (Array []) /\ m_array a <> EMPTY_LIST_SENTINEL_ }.

(** ** Elements and properties *)

Lemma elem_set_elem i v l j : elem (set_elem i v l) j = if decide (i = j) then v else elem l j.
Proof.
  unfold elem, set_elem. assert (Hl : (i < length (l ++ replicate (S i - length l) Undef))%nat) by (rewrite length_app, length_replicate; lia).
  case_decide as E; [subst; by rewrite list_lookup_insert_eq|]. rewrite list_lookup_insert_ne by done.
  destruct (decide (j < length l)%nat); [by rewrite lookup_app_l|]. rewrite lookup_app_r, (lookup_ge_None_2 l) by lia. cbn.
  destruct (replicate (S i - length l) Undef !! (j - length l)%nat) as [u|] eqn:Eu; [|done]. by apply lookup_replicate in Eu as [-> _].
Qed.
Lemma prop_set_prop k v o k' : prop (set_prop k v o) k' = if decide (k = k') then v else prop o k'.
Proof.
  assert (Hc : forall p, prop ((k, v) :: p) k' = if decide (k = k') then v else prop p k').
  { intros p. cbn [prop]. by case_decide; [rewrite bool_decide_eq_true_2|rewrite bool_decide_eq_false_2]. }
  induction o as [|[k1 v1] o IH]; cbn [set_prop]; [apply Hc|]. destruct (bool_decide_reflect (k1 = k)) as [->|Hk].
  - rewrite Hc. case_decide; [done|]. cbn [prop]. by rewrite bool_decide_eq_false_2.
  - destruct (key_before k k1 && _); [apply Hc|]. cbn [prop]. rewrite IH. destruct (bool_decide_reflect (k1 = k')) as [<-|]; [|done].
    by rewrite decide_False.
Qed.
Lemma array_at_Some h r l : h !! r = Some (Array l) -> array_at h r = l.
Proof. intros E. unfold array_at. by rewrite (obj_at_Some _ _ _ E). Qed.
Lemma props_at_Some h r o : h !! r = Some (Object o) -> props_at h r = o.
Proof. intros E. unfold props_at. by rewrite (obj_at_Some _ _ _ E). Qed.
Lemma array_at_ne (h : store) r r' x : r <> r' -> array_at (<[r' := x]> h) r = array_at h r.
Proof. intros Hr. unfold array_at, obj_at. by rewrite list_lookup_insert_ne. Qed.
Lemma props_at_ne (h : store) r r' x : r <> r' -> props_at (<[r' := x]> h) r = props_at h r.
Proof. intros Hr. unfold props_at, obj_at. by rewrite list_lookup_insert_ne. Qed.
Lemma num_to_str_ne b b' : 1 <= b -> 1 <= b' -> b <> b' -> num_to_str b <> num_to_str b'.
Proof. intros ? ? Hn E. apply num_to_str_inj in E; lia. Qed.

(** One field is changed, and nothing but the array and the extension object. *)
Record updated (a a' : jspb_message) (h h' : store) (b : Z) (c : pv) : Prop := {
  u_valid : valid a' h';
  u_array : m_array a' = m_array a;
  u_index : arrayIndexOffset_ a' = arrayIndexOffset_ a /\ pivot_ a' = pivot_ a;
  u_raw f : 1 <= f -> raw a' h' f = if f =? b then c else raw a h f;
  u_rest r x : h !! r = Some x -> r <> m_array a -> extensionObject_ a <> Some r -> h' !! r = Some x }.

Lemma index_nat a f f' : -1 <= arrayIndexOffset_ a <= 0 -> 1 <= f -> 0 <= getIndex_ a f' -> Z.to_nat (getIndex_ a f) = Z.to_nat (getIndex_ a f') -> f = f'.
Proof. unfold getIndex_. lia. Qed.
Lemma ext_distinct a h e : valid a h -> extensionObject_ a = Some e -> e <> m_array a /\ e <> EMPTY_LIST_SENTINEL_ /\ exists o, h !! e = Some (Object o).
Proof.
  intros [[l El] _ He [Hs _]] E. unfold ext_ok in He. rewrite E in He. destruct (pivot_ a); [|done]. destruct He as (_ & _ & o & Eo).
  split; [congruence|]. split; [|by exists o]. intros ->. congruence.
Qed.
Lemma write_element a h b c : valid a h -> 1 <= b -> in_array a b = true ->
  updated a a h (<[m_array a := Array (set_elem (Z.to_nat (getIndex_ a b)) c (array_at h (m_array a)))]> h) b c.
Proof.
  intros Hv Hb Hin. pose proof Hv as [[l El] Ho He [Hs Hn]]. rewrite (array_at_Some _ _ _ El).
  assert (Hlt : (m_array a < length h)%nat) by by eapply lookup_lt_Some.
  set (h' := <[m_array a := _]> h). assert (E' : h' !! m_array a = Some (Array (set_elem (Z.to_nat (getIndex_ a b)) c l))) by by apply list_lookup_insert_eq.
  assert (Hr : forall r, r <> m_array a -> h' !! r = h !! r) by (intros r Hr; by apply list_lookup_insert_ne).
  split; [|done|done| |intros r x Er Hra _; by rewrite Hr].
  - split; [by eexists|done| |by rewrite Hr]. unfold ext_ok in *. rewrite (array_at_Some _ _ _ E'), (array_at_Some _ _ _ El) in *.
    destruct (pivot_ a) as [p|] eqn:Ep; [|done]. destruct He as [Hp He]. split; [done|]. rewrite elem_set_elem, decide_False.
    + destruct (extensionObject_ a) as [e|] eqn:Ee; [|done]. destruct He as [Hr' (o & Eo)]. split; [done|]. exists o.
      rewrite Hr; [done|]. by apply (ext_distinct a h).
    + intros E. apply index_nat in E; [|done..]. unfold in_array in Hin. rewrite Ep in Hin. lia.
  - intros f Hf. unfold raw. rewrite (array_at_Some _ _ _ E'), (array_at_Some _ _ _ El), elem_set_elem.
    destruct (Z.eqb_spec f b) as [->|Hfb]; [by rewrite Hin, decide_True|].
    destruct (in_array a f); [rewrite decide_False; [done|]|].
    + intros E. apply index_nat in E; [congruence|done..|unfold getIndex_; lia].
    + destruct (extensionObject_ a) as [e|] eqn:Ee; [|done]. subst h'. rewrite props_at_ne; [done|]. by apply (ext_distinct a h).
Qed.
Lemma write_property a h e b c : valid a h -> 1 <= b -> in_array a b = false -> extensionObject_ a = Some e ->
  updated a a h (<[e := Object (set_prop (num_to_str b) c (props_at h e))]> h) b c.
Proof.
  intros Hv Hb Hin Ee. pose proof Hv as [[l El] Ho He [Hs Hn]]. destruct (ext_distinct a h e Hv Ee) as (Hea & Hes & o & Eo).
  assert (Hlt : (e < length h)%nat) by by eapply lookup_lt_Some.
  set (h' := <[e := _]> h). assert (E' : h' !! e = Some (Object (set_prop (num_to_str b) c o))) by (subst h'; rewrite (props_at_Some _ _ _ Eo); by apply list_lookup_insert_eq).
  assert (Hr : forall r, r <> e -> h' !! r = h !! r) by (intros r Hr; by apply list_lookup_insert_ne).
  split; [|done|done| |intros r x Er _ Hra; rewrite Hr; congruence].
  - split; [rewrite Hr by done; by exists l|done| |by rewrite Hr]. unfold ext_ok in *. rewrite Ee in *. destruct (pivot_ a); [|done].
    subst h'. rewrite array_at_ne by done. destruct He as (Hp & Hv' & _). split; [done|]. split; [done|by eexists].
  - intros f Hf. unfold raw. rewrite Ee, (props_at_Some _ _ _ E'), (props_at_Some _ _ _ Eo), prop_set_prop. subst h'. rewrite array_at_ne by done.
    destruct (Z.eqb_spec f b) as [->|Hfb]; [by rewrite Hin, decide_True|]. destruct (in_array a f); [done|].
    rewrite decide_False; [done|]. apply num_to_str_ne; lia.
Qed.
Lemma valid_grow a h x : valid a h -> valid a (h ++ [x]) /\ forall f, raw a (h ++ [x]) f = raw a h f.
Proof.
  intros Hv. pose proof Hv as [[l El] Ho He [Hs Hn]].
  assert (Hk : forall r y, h !! r = Some y -> (h ++ [x]) !! r = Some y) by (intros; by apply lookup_app_l_Some).
  assert (Ha : array_at (h ++ [x]) (m_array a) = array_at h (m_array a)) by (by rewrite (array_at_Some _ _ _ El), (array_at_Some _ _ _ (Hk _ _ El))).
  split.
  - split; [by eexists; apply Hk|done| |by auto]. unfold ext_ok in *. rewrite Ha. destruct (pivot_ a); [|done].
    destruct (extensionObject_ a); [|done]. destruct He as (? & ? & o & Eo). split; [done|]. split; [done|]. exists o. by apply Hk.
  - intros f. unfold raw. rewrite Ha. destruct (in_array a f); [done|]. destruct (extensionObject_ a) as [e|] eqn:Ee; [|done].
    destruct (ext_distinct a h e Hv Ee) as (_ & _ & o & Eo). by rewrite (props_at_Some _ _ _ Eo), (props_at_Some _ _ _ (Hk _ _ Eo)).
Qed.

(** ** Writing and reading *)

Lemma grow_extension a h p : valid a h -> pivot_ a = Some p -> extensionObject_ a = None ->
  let a' := set_extensionObject_ (length h) a in
  let h' := <[m_array a := Array (set_elem (Z.to_nat (getIndex_ a p)) (Ref (length h)) (array_at (h ++ [Object []]) (m_array a)))]> (h ++ [Object []]) in
  valid a' h' /\ (forall f, 1 <= f -> raw a' h' f = raw a h f) /\
  (forall r x, h !! r = Some x -> r <> m_array a -> h' !! r = Some x).
Proof.
  intros Hv Ep Ee a' h'. pose proof Hv as [[l El] Ho He [Hs Hn]].
  assert (Hlt : (m_array a < length h)%nat) by by eapply lookup_lt_Some.
  assert (El1 : (h ++ [Object []]) !! m_array a = Some (Array l)) by by apply lookup_app_l_Some.
  assert (E' : h' !! m_array a = Some (Array (set_elem (Z.to_nat (getIndex_ a p)) (Ref (length h)) l))).
  { subst h'. rewrite (array_at_Some _ _ _ El1). apply list_lookup_insert_eq. rewrite length_app. cbn. lia. }
  assert (Hr : forall r x, h !! r = Some x -> r <> m_array a -> h' !! r = Some x).
  { intros r x Er Hra. subst h'. rewrite list_lookup_insert_ne by done. by apply lookup_app_l_Some. }
  assert (Ex : h' !! length h = Some (Object [])).
  { subst h'. rewrite list_lookup_insert_ne by lia. rewrite lookup_app_r, Nat.sub_diag by lia. done. }
  unfold ext_ok in He. rewrite Ep, Ee, (array_at_Some _ _ _ El) in He. destruct He as [Hp Hf].
  split; [|split; [|done]].
  - split; [by eexists|done| |by auto]. unfold ext_ok. change (pivot_ a') with (pivot_ a). rewrite Ep. split; [done|]. split; [|by exists []].
    change (m_array a') with (m_array a). rewrite (array_at_Some _ _ _ E'), elem_set_elem. by rewrite decide_True.
  - intros f Hf1. unfold raw. change (m_array a') with (m_array a). change (in_array a' f) with (in_array a f). change (getIndex_ a' f) with (getIndex_ a f).
    rewrite (array_at_Some _ _ _ E'), (array_at_Some _ _ _ El), elem_set_elem, Ee. cbn [extensionObject_ a' set_extensionObject_].
    rewrite (props_at_Some _ _ _ Ex). destruct (in_array a f) eqn:Hin; [|done]. rewrite decide_False; [done|].
    intros E. apply eq_sym, index_nat in E; [|done..]. unfold in_array in Hin. rewrite Ep in Hin. lia.
Qed.
Lemma setField_ok a h b c : valid a h -> 1 <= b -> exists a' h', setField a b c h = Ret (a', h') /\ updated a a' h h' b c.
Proof.
  intros Hv Hb. unfold setField. destruct (in_array a b) eqn:Hin; [by eexists _, _; split; [reflexivity|by apply write_element]|].
  pose proof Hv as [_ _ He _]. unfold ext_ok in He. unfold in_array in Hin. destruct (pivot_ a) as [p|] eqn:Ep; [|done]. destruct He as [Hp He].
  assert (Hin' : in_array a b = false) by (unfold in_array; by rewrite Ep).
  destruct (extensionObject_ a) as [e|] eqn:Ee.
  - destruct He as [He _]. assert (E : maybeInitEmptyExtensionObject_ a h = Ret (a, h)).
    { unfold maybeInitEmptyExtensionObject_. rewrite Ep. cbn [default id]. unfold id. erewrite bind_Ret by reflexivity. by rewrite He. }
    eexists _, _. erewrite bind_Ret by exact E. rewrite Ee. split; [reflexivity|by apply write_property].
  - destruct (grow_extension a h p Hv Ep Ee) as (Hv' & Hraw & Hrest).
    eexists _, _. erewrite bind_Ret.
    2:{ unfold maybeInitEmptyExtensionObject_. rewrite Ep. cbn [default id]. unfold id. erewrite bind_Ret by reflexivity. rewrite He. reflexivity. }
    cbn [extensionObject_ set_extensionObject_]. split; [reflexivity|].
    destruct (write_property _ _ (length h) b c Hv' Hb Hin' eq_refl) as [W1 W2 W3 W4 W5].
    split; [done|done|done| |].
    + intros f Hf. rewrite W4, Hraw by done. done.
    + intros r x Er Hra _. apply W5; [by apply Hrest|done|]. intros [= <-]. by rewrite lookup_ge_None_2 in Er by lia.
Qed.

Lemma raw_loaded a h b : (if in_array a b then load (m_array a) (getIndex_ a b) else match extensionObject_ a with Some e => load_prop e b | None => mret Undef end) h
  = Ret (raw a h b, h).
Proof. unfold raw. destruct (in_array a b); [done|]. by destruct (extensionObject_ a). Qed.
Lemma getField_ok a h b : raw a h b <> Ref EMPTY_LIST_SENTINEL_ -> getField a b h = Ret (raw a h b, h).
Proof.
  intros Hr. unfold getField, raw, unfrozen in *. destruct (in_array a b).
  - erewrite bind_Ret by reflexivity. by rewrite bool_decide_eq_false_2.
  - destruct (extensionObject_ a); [|done]. erewrite bind_Ret by reflexivity. by rewrite bool_decide_eq_false_2.
Qed.
Lemma getField_frozen a h b : valid a h -> 1 <= b -> raw a h b = Ref EMPTY_LIST_SENTINEL_ ->
  exists h', getField a b h = Ret (Ref (length h), h') /\ updated a a h h' b (Ref (length h)) /\ h' !! length h = Some (Array []).
Proof.
  intros Hv Hb Hr. destruct (valid_grow a h (Array []) Hv) as [Hv' Hraw].
  assert (Hlast : (h ++ [Array []]) !! length h = Some (Array [])) by (by rewrite lookup_app_r, Nat.sub_diag by lia).
  assert (Hup : forall h', updated a a (h ++ [Array []]) h' b (Ref (length h)) -> updated a a h h' b (Ref (length h)) /\ h' !! length h = Some (Array [])).
  { intros h' [W1 W2 W3 W4 W5]. split; [split; try done|].
    - intros f Hf. by rewrite W4, Hraw.
    - intros r x Er. apply W5. by apply lookup_app_l_Some.
    - apply W5; [done| |].
      + intros E. destruct Hv as [[l El] _ _ _]. rewrite <-E, lookup_ge_None_2 in El by lia. done.
      + intros E. destruct (ext_distinct a h _ Hv E) as (_ & _ & o & Eo). by rewrite lookup_ge_None_2 in Eo by lia. }
  unfold raw in Hr. unfold getField, unfrozen. destruct (in_array a b) eqn:Hin.
  - eexists. erewrite bind_Ret by (unfold load; by rewrite Hr). rewrite bool_decide_eq_true_2 by done. split; [reflexivity|]. apply Hup. by apply write_element.
  - destruct (extensionObject_ a) as [e|] eqn:Ee; [|done]. eexists. erewrite bind_Ret by (unfold load_prop; by rewrite Hr).
    rewrite bool_decide_eq_true_2 by done. split; [reflexivity|]. apply Hup. by apply write_property.
Qed.

(** ** Groups *)

(** The field of the group that is set, of several the last. *)
Definition pick (a : jspb_message) (h : store) (s : Z * pv) (f : Z) : Z * pv := if nullish (raw a h f) then s else (f, raw a h f).
Definition chosen (a : jspb_message) (h : store) (fs : list Z) : Z * pv := fold_left (pick a h) fs (0, Undef).
(** Fields that a getter leaves as they are. *)
Definition group_ok (a : jspb_message) (h : store) (fs : list Z) : Prop :=
  NoDup fs /\ Forall (fun f => 1 <= f /\ raw a h f <> Ref EMPTY_LIST_SENTINEL_) fs.

Lemma pick_ext a h a' h' fs : (forall f, f ∈ fs -> raw a' h' f = raw a h f) -> forall s, fold_left (pick a' h') fs s = fold_left (pick a h) fs s.
Proof.
  induction fs as [|f fs IH]; intros Hr s; [done|]. cbn. unfold pick at 2 4. rewrite (Hr f) by (by left). apply IH. intros g Hg. apply Hr. by right.
Qed.
Lemma picked a h fs : forall s, let s' := fold_left (pick a h) fs s in
  (s' = s /\ forall f, f ∈ fs -> nullish (raw a h f) = true) \/ (s'.1 ∈ fs /\ s'.2 = raw a h s'.1 /\ nullish s'.2 = false).
Proof.
  induction fs as [|f fs IH]; intros s; cbn; [left; split; [done|]; set_solver|].
  destruct (IH (pick a h s f)) as [[E Hn]|(Hin & E & Hn)]; [|right; set_solver].
  rewrite E. unfold pick. destruct (nullish (raw a h f)) eqn:Ef; [left|right; cbn; set_solver].
  split; [done|]. intros g [->|Hg]%list.elem_of_cons; [done|by apply Hn].
Qed.
Lemma clear_fields_ok fs : forall a h c d, valid a h -> group_ok a h fs -> exists a' h',
  clear_fields a fs c d h = Ret ((a', (fold_left (pick a h) fs (c, d)).1, (fold_left (pick a h) fs (c, d)).2), h') /\ valid a' h' /\
  forall f, 1 <= f -> raw a' h' f = if bool_decide (f ∈ fs) && negb (nullish (raw a h f)) then Undef else raw a h f.
Proof.
  induction fs as [|f fs IH]; intros a h c d Hv [Hd Hf]; cbn [clear_fields].
  { exists a, h. split; [done|]. split; [done|]. intros f _. by rewrite bool_decide_eq_false_2 by set_solver. }
  apply list.NoDup_cons in Hd as [Hnf Hd]. apply list.Forall_cons in Hf as [[Hf1 Hs] Hf]. erewrite bind_Ret by by apply getField_ok.
  cbn [fold_left]. unfold pick at 2 4. destruct (nullish (raw a h f)) eqn:En.
  - destruct (IH a h c d Hv (conj Hd Hf)) as (a' & h' & E & Hv' & Hr). exists a', h'. split; [exact E|]. split; [done|]. intros g Hg. rewrite Hr by done.
    destruct (decide (g = f)) as [->|Hgf]; [by rewrite En, !andb_false_r|].
    by rewrite (bool_decide_ext (g ∈ f :: fs) (g ∈ fs)) by set_solver.
  - destruct (setField_ok a h f Undef Hv Hf1) as (a1 & h1 & E1 & [U1 U2 U3 U4 U5]). erewrite bind_Ret by exact E1.
    assert (Hraw : forall g, g ∈ fs -> raw a1 h1 g = raw a h g).
    { intros g Hg. pose proof (proj1 (list.Forall_forall _ _) Hf g Hg) as [? ?]. rewrite U4 by done. destruct (Z.eqb_spec g f); [by subst|done]. }
    destruct (IH a1 h1 f (raw a h f) U1) as (a' & h' & E & Hv' & Hr).
    { split; [done|]. apply list.Forall_forall. intros g Hg. rewrite Hraw by done. by apply (proj1 (list.Forall_forall _ _) Hf). }
    rewrite (pick_ext a h a1 h1 fs Hraw) in E. exists a', h'. split; [exact E|]. split; [done|]. intros g Hg. rewrite Hr by done.
    rewrite U4 by done. destruct (Z.eqb_spec g f) as [->|Hgf].
    + rewrite En, bool_decide_eq_false_2 by done. rewrite bool_decide_eq_true_2 by (by left). done.
    + by rewrite (bool_decide_ext (g ∈ f :: fs) (g ∈ fs)) by set_solver.
Qed.
Lemma computeOneofCase_ok a h fs : valid a h -> group_ok a h fs -> exists a' h',
  computeOneofCase a fs h = Ret ((a', (chosen a h fs).1), h') /\ valid a' h' /\
  forall f, 1 <= f -> raw a' h' f = if bool_decide (f ∈ fs) && negb (nullish (raw a h f)) && negb (f =? (chosen a h fs).1) then Undef else raw a h f.
Proof.
  intros Hv Hg. destruct (clear_fields_ok fs a h 0 Undef Hv Hg) as (a1 & h1 & E1 & Hv1 & Hr1). fold (chosen a h fs) in E1.
  unfold computeOneofCase. erewrite bind_Ret by exact E1. cbn beta iota.
  destruct (picked a h fs (0, Undef)) as [[Ec Hn]|(Hin & Ed & Hn)]; fold (chosen a h fs) in *.
  - rewrite Ec. cbn [fst Z.eqb]. exists a1, h1. split; [done|]. split; [done|]. intros f Hf. rewrite Hr1 by done.
    destruct (bool_decide_reflect (f ∈ fs)) as [Hin|]; [|done]. by rewrite Hn.
  - destruct Hg as [_ Hf]. pose proof (proj1 (list.Forall_forall _ _) Hf _ Hin) as [Hc1 _]. rewrite (proj2 (Z.eqb_neq _ 0)) by lia.
    destruct (setField_ok a1 h1 (chosen a h fs).1 (chosen a h fs).2 Hv1 Hc1) as (a2 & h2 & E2 & [U1 U2 U3 U4 U5]).
    exists a2, h2. erewrite bind_Ret by exact E2. split; [done|]. split; [done|]. intros f Hf1. rewrite U4 by done.
    destruct (Z.eqb_spec f (chosen a h fs).1) as [->|Hne]; [by rewrite andb_false_r|]. by rewrite Hr1, andb_true_r.
Qed.

(** What is left of the group before the field is set. *)
Lemma others_cleared a h fs b d c a1 h1 : group_ok a h fs -> nullish d = false -> valid a1 h1 -> c = 0 \/ c ∈ fs ->
  (forall f, 1 <= f -> raw a1 h1 f = if bool_decide (f ∈ fs) && negb (nullish (raw a h f)) && negb (f =? c) then Undef else raw a h f) ->
  exists a2 h2, (if negb (c =? 0) && negb (c =? b) && negb (d ==? Undef) then setField a1 c Undef else mret a1) h1 = Ret (a2, h2) /\
    valid a2 h2 /\ (forall f, f ∈ fs -> f <> b -> nullish (raw a2 h2 f) = true) /\ (forall f, 1 <= f -> f ∉ fs -> raw a2 h2 f = raw a h f).
Proof.
  intros [_ Hf] Hd Hv1 Hc Hr1. assert (Hfs : forall f, f ∈ fs -> 1 <= f) by (intros f Hin; by apply (proj1 (list.Forall_forall _ _) Hf)).
  rewrite (bool_decide_eq_false_2 (d = Undef)), andb_true_r by (by intros ->).
  assert (Hr1' : forall f, f ∈ fs -> f <> c -> nullish (raw a1 h1 f) = true).
  { intros f Hin Hfc. rewrite Hr1, bool_decide_eq_true_2, (proj2 (Z.eqb_neq f c)), andb_true_r by auto. cbn. by destruct (nullish (raw a h f)) eqn:En. }
  assert (Hout : forall f, 1 <= f -> f ∉ fs -> raw a1 h1 f = raw a h f) by (intros f Hf1 Hin; by rewrite Hr1, bool_decide_eq_false_2).
  destruct (Z.eqb_spec c 0) as [E0|E0]; [|destruct (Z.eqb_spec c b) as [Eb|Eb]]; cbn [negb andb].
  - exists a1, h1. split; [done|]. split; [done|]. split; [|done]. intros f Hin _. apply Hr1'; [done|]. apply Hfs in Hin. lia.
  - exists a1, h1. split; [done|]. split; [done|]. split; [|done]. intros f Hin Hfb. apply Hr1'; [done|congruence].
  - destruct Hc as [|Hc]; [done|]. destruct (setField_ok a1 h1 c Undef Hv1 (Hfs c Hc)) as (a2 & h2 & E2 & [U1 U2 U3 U4 U5]).
    exists a2, h2. split; [done|]. split; [done|]. split.
    + intros f Hin Hfb. rewrite U4 by auto. destruct (Z.eqb_spec f c); [done|by apply Hr1'].
    + intros f Hf1 Hin. rewrite U4 by done. destruct (Z.eqb_spec f c); [by subst|by apply Hout].
Qed.
Lemma chosen_in a h fs : (chosen a h fs).1 = 0 \/ (chosen a h fs).1 ∈ fs.
Proof. destruct (picked a h fs (0, Undef)) as [[E _]|(Hin & _)]; fold (chosen a h fs) in *; [left; by rewrite E|by right]. Qed.
Lemma chosen_only a h fs b : b ∈ fs -> nullish (raw a h b) = false -> (forall f, f ∈ fs -> f <> b -> nullish (raw a h f) = true) ->
  (chosen a h fs).1 = b.
Proof.
  intros Hb Hd Hn. destruct (picked a h fs (0, Undef)) as [[_ Hnone]|(Hin & E & Hsome)]; fold (chosen a h fs) in *.
  - specialize (Hnone b Hb). congruence.
  - destruct (decide ((chosen a h fs).1 = b)) as [|Hne]; [done|]. by rewrite E, Hn in Hsome.
Qed.

(** C22. After a field of a group is set it is the one that is, whatever was set
    before; what is outside the group stays, and the code that reads which one
    is set changes nothing. *)
Theorem oneof_exclusive a h fs b d : valid a h -> group_ok a h fs -> b ∈ fs -> nullish d = false -> d <> Ref EMPTY_LIST_SENTINEL_ ->
  exists a' h', setOneofField a b fs d h = Ret (a', h') /\ valid a' h' /\ raw a' h' b = d /\
    (forall f, f ∈ fs -> f <> b -> nullish (raw a' h' f) = true) /\
    (forall f, 1 <= f -> f ∉ fs -> raw a' h' f = raw a h f) /\
    exists a2 h2, computeOneofCase a' fs h' = Ret ((a2, b), h2) /\ forall f, 1 <= f -> raw a2 h2 f = raw a' h' f.
Proof.
  intros Hv Hg Hb Hd Hds. pose proof Hg as [Hnd Hf]. assert (Hfs : forall f, f ∈ fs -> 1 <= f) by (intros f Hin; by apply (proj1 (list.Forall_forall _ _) Hf)).
  destruct (computeOneofCase_ok a h fs Hv Hg) as (a1 & h1 & E1 & Hv1 & Hr1).
  destruct (others_cleared a h fs b d _ a1 h1 Hg Hd Hv1 (chosen_in a h fs) Hr1) as (a2 & h2 & E2 & Hv2 & Hn2 & Ho2).
  destruct (setField_ok a2 h2 b d Hv2 (Hfs b Hb)) as (a3 & h3 & E3 & [U1 U2 U3 U4 U5]).
  exists a3, h3. split; [unfold setOneofField; erewrite bind_Ret by exact E1; cbn beta iota; by erewrite bind_Ret by exact E2|].
  assert (Eb : raw a3 h3 b = d) by (by rewrite U4, Z.eqb_refl by auto).
  assert (En : forall f, f ∈ fs -> f <> b -> nullish (raw a3 h3 f) = true) by (intros f Hin Hfb; rewrite U4, (proj2 (Z.eqb_neq f b)) by auto; auto).
  split; [done|]. split; [done|]. split; [done|]. split; [intros f Hf1 Hin; rewrite U4, (proj2 (Z.eqb_neq f b)) by (done || set_solver); auto|].
  assert (Hg3 : group_ok a3 h3 fs).
  { split; [done|]. apply list.Forall_forall. intros f Hin. split; [auto|]. destruct (decide (f = b)) as [->|Hfb]; [by rewrite Eb|].
    intros E. specialize (En f Hin Hfb). by rewrite E in En. }
  destruct (computeOneofCase_ok a3 h3 fs U1 Hg3) as (a4 & h4 & E4 & _ & Hr4).
  rewrite (chosen_only a3 h3 fs b Hb) in * by (done || by rewrite Eb). exists a4, h4. split; [done|]. intros f Hf1. rewrite Hr4 by done.
  destruct (bool_decide_reflect (f ∈ fs)) as [Hin|]; [|done]. destruct (Z.eqb_spec f b) as [|Hfb]; [by rewrite andb_false_r|].
  by rewrite (En f Hin Hfb).
Qed.

(** ** Repeated fields *)

(** The list of a field: what it refers to, not shared with the message. *)
Definition list_field (a : jspb_message) (h : store) (b : Z) (l : list pv) : Prop :=
  exists r, raw a h b = Ref r /\ h !! r = Some (Array l) /\ r <> m_array a /\ (r = EMPTY_LIST_SENTINEL_ -> l = []).
Definition inserted (d : option Z) (c : pv) (l : list pv) : list pv := match d with Some d => splice_in d c l | None => l ++ [c] end.

Lemma change_array_ok a h r l f b : valid a h -> raw a h b = Ref r -> h !! r = Some (Array l) -> r <> m_array a -> r <> EMPTY_LIST_SENTINEL_ ->
  exists h', change_array f r h = Ret (tt, h') /\ valid a h' /\ (forall g, raw a h' g = raw a h g) /\ h' !! r = Some (Array (f l)).
Proof.
  intros Hv Hraw Er Hra Hrs. pose proof Hv as [[la El] Ho He [Hs Hn]]. exists (<[r := Array (f l)]> h).
  unfold change_array. rewrite (obj_at_Some _ _ _ Er). split; [done|].
  assert (Hne : forall e, extensionObject_ a = Some e -> e <> r).
  { intros e Ee ->. destruct (ext_distinct a h r Hv Ee) as (_ & _ & o & Eo). congruence. }
  assert (Hr : forall r', r' <> r -> <[r := Array (f l)]> h !! r' = h !! r') by (intros; by apply list_lookup_insert_ne).
  split; [|split].
  - split; [exists la; by rewrite Hr|done| |by rewrite Hr]. unfold ext_ok in *. rewrite array_at_ne by done. destruct (pivot_ a); [|done].
    destruct He as [Hp He]. split; [done|]. destruct (extensionObject_ a) as [e|]; [|done]. rewrite Hr by auto. done.
  - intros g. unfold raw. rewrite array_at_ne by done. destruct (in_array a g); [done|]. destruct (extensionObject_ a) as [e|]; [|done].
    by rewrite props_at_ne by auto.
  - apply list_lookup_insert_eq. by eapply lookup_lt_Some.
Qed.
(** An element is put into the field's own list, at the place asked for or at
    the end; the list that empty fields share stays empty, whatever field was
    it, and no other field changes. *)
Theorem repeated_own_list a h b c d l : valid a h -> 1 <= b -> list_field a h b l ->
  exists h', addToRepeatedField a b c d h = Ret (tt, h') /\ valid a h' /\ list_field a h' b (inserted d c l) /\
    (forall f, 1 <= f -> f <> b -> raw a h' f = raw a h f) /\ h' !! EMPTY_LIST_SENTINEL_ = Some (Array []).
Proof.
  intros Hv Hb (r & Hraw & Er & Hra & Hl). unfold addToRepeatedField. destruct (decide (r = EMPTY_LIST_SENTINEL_)) as [->|Hrs].
  - rewrite (Hl eq_refl) in *. destruct (getField_frozen a h b Hv Hb Hraw) as (h1 & E1 & [U1 U2 U3 U4 U5] & Enew). erewrite bind_Ret by exact E1.
    assert (Eb : raw a h1 b = Ref (length h)) by (by rewrite U4, Z.eqb_refl). destruct Hv as [[la El] _ _ _].
    assert (Hne : length h <> m_array a) by (intros E; rewrite <-E, lookup_ge_None_2 in El by lia; done).
    assert (Hns : length h <> EMPTY_LIST_SENTINEL_) by (intros E; rewrite <-E, lookup_ge_None_2 in Er by lia; done).
    destruct (change_array_ok a h1 (length h) [] (inserted d c) b U1 Eb Enew Hne Hns) as (h2 & E2 & Hv2 & Hr2 & El2).
    exists h2. split; [exact E2|]. split; [done|]. split; [by exists (length h); rewrite Hr2|]. split; [|apply Hv2].
    intros f Hf Hfb. by rewrite Hr2, U4, (proj2 (Z.eqb_neq f b)).
  - erewrite bind_Ret by (apply getField_ok; congruence). rewrite Hraw.
    destruct (change_array_ok a h r l (inserted d c) b Hv Hraw Er Hra Hrs) as (h2 & E2 & Hv2 & Hr2 & El2).
    exists h2. split; [exact E2|]. split; [done|]. split; [exists r; by rewrite Hr2|]. split; [|apply Hv2]. intros f _ _. by rewrite Hr2.
Qed.

(** ** Differences *)

Lemma differing_ok `{NumText} fuel h l l' n : forall i d,
  (forall j, exists b, compareFields fuel h (elem l j) (elem l' j) = Ret b) ->
  exists d', differing fuel h l l' n i d = Ret d' /\
    forall j b, compareFields fuel h (elem l j) (elem l' j) = Ret b ->
      elem d' j = if bool_decide (i <= j < i + n)%nat && negb b then elem l' j else elem d j.
Proof.
  induction n as [|n IH]; intros i d Hc; cbn [differing].
  { exists d. split; [done|]. intros j b _. by rewrite bool_decide_eq_false_2 by lia. }
  destruct (Hc i) as [bi Ei]. rewrite Ei. cbn. destruct (IH (S i) (if bi then d else set_elem i (elem l' i) d) Hc) as (d' & E & Hd).
  exists d'. split; [done|]. intros j b Ej. rewrite (Hd j b Ej). destruct (decide (i = j)) as [<-|Hij].
  - rewrite bool_decide_eq_false_2, bool_decide_eq_true_2 by lia. rewrite Ei in Ej. injection Ej as <-. cbn [andb].
    destruct bi; [done|]. by rewrite elem_set_elem, decide_True.
  - rewrite (bool_decide_ext (S i <= j < S i + n)%nat (i <= j < i + S n)%nat) by lia.
    destruct bi; [done|]. by rewrite elem_set_elem, decide_False.
Qed.
(** A class whose messages are arrays of single fields. *)
Definition plain_class : pb_class := PbClass None (-1) [] [].
Definition plain_message (h : store) (n : nat) (fs : list ty) (a : jspb_message) : Prop :=
  a = Message (m_array a) (-1) None None None /\ exists l, h !! m_array a = Some (Array l) /\
  (forall i, plain_object h (elem l i) = None) /\
  forall i, match fs !! i with Some t => typed h n t (elem l i) | None => nullish (elem l i) = true end.

(** The difference of two messages of a class has the fields of the second one
    that are not the first one's, and nothing else. *)
Theorem difference_fields `{NumTextOk} h n fs a b : plain_message h n fs a -> plain_message h n fs b ->
  exists m h', difference (S n) plain_class a b h = Ret (m, h') /\
    (forall r x, h !! r = Some x -> h' !! r = Some x) /\
    forall f, 1 <= f -> (raw m h' f = Undef /\ content n h (raw a h f) = content n h (raw b h f)) \/
                        (raw m h' f = raw b h f /\ content n h (raw a h f) <> content n h (raw b h f)).
Proof.
  intros (Ea & l & El & _ & Hl) (Eb & l' & El' & Hp' & Hl').
  assert (Hd : forall j, decides (compareFields (S n) h (elem l j) (elem l' j)) (content n h (elem l j)) (content n h (elem l' j))).
  { intros j. specialize (Hl j). specialize (Hl' j). destruct (fs !! j) as [t|]; [by eapply compare_typed|].
    exists true. rewrite compare_nullish by done. split; [done|]. by rewrite !content_nullish. }
  assert (Hc : forall j, exists b, compareFields (S n) h (elem l j) (elem l' j) = Ret b) by (intros j; destruct (Hd j) as (b0 & E & _); by exists b0).
  destruct (differing_ok (S n) h l l' (Nat.max (length l) (length l') - 0) 0 [] Hc) as (d & E & Hel).
  set (h1 := h ++ [Array d]). assert (E1 : h1 !! length h = Some (Array d)) by (subst h1; by rewrite lookup_app_r, Nat.sub_diag by lia).
  assert (Hplain : forall j, elem d j = Undef \/ elem d j = elem l' j).
  { intros j. destruct (Hc j) as [b0 Ej]. rewrite (Hel j b0 Ej). destruct (_ && _); [by right|by left]. }
  assert (Ei : initPivotAndExtensionObject_ h1 (length h) (-1) (-1) = (None, None)).
  { unfold initPivotAndExtensionObject_. rewrite (array_at_Some _ _ _ E1). destruct (Hplain (length d - 1)%nat) as [->|Elast]; [done|]. rewrite Elast.
    specialize (Hp' (length d - 1)%nat). destruct (elem l' _) as [| | | | |r] eqn:Er; try done. cbn in Hp'.
    destruct (obj_at h1 r) eqn:Eo; try done. exfalso. revert Hp'.
    destruct (decide (r < length h)%nat) as [Hr|Hr]; [unfold obj_at in *; subst h1; rewrite lookup_app_l in Eo by done; by rewrite Eo|].
    unfold obj_at. by rewrite lookup_ge_None_2 by lia. }
  exists (Message (length h) (-1) None None None), h1. split; [|split; [intros; by apply lookup_app_l_Some|]].
  - unfold difference. erewrite bind_Ret; [|rewrite Ea; cbn [messageId_ m_array]; rewrite (array_at_Some _ _ _ El), (array_at_Some _ _ _ El'), E; reflexivity].
    erewrite bind_Ret by reflexivity. unfold initialize. erewrite bind_Ret by reflexivity. cbn [c_id c_pivot plain_class].
    erewrite bind_Ret; [|fold h1; rewrite Ei; reflexivity]. done.
  - intros f Hf. unfold raw. rewrite Ea, Eb. cbn [in_array pivot_ m_array getIndex_ arrayIndexOffset_].
    unfold getIndex_. cbn [arrayIndexOffset_]. rewrite (array_at_Some _ _ _ E1), (array_at_Some _ _ _ El), (array_at_Some _ _ _ El').
    set (j := Z.to_nat (f + -1)). destruct (Hd j) as (b0 & Ej & Hb). rewrite (Hel j b0 Ej).
    destruct b0; [left; rewrite andb_false_r; split; [done|by apply Hb]|].
    right. split; [|intros Hq; by apply Hb in Hq]. rewrite andb_true_r. case_bool_decide as Hj; [done|].
    rewrite (elem_past l') by lia. done.
Qed.
