(* ===== verification/PbExamples.v ===== *)
(** Messages of concrete contents: the theorems on jspb.Message at work, and
    what its comparison and its setters do that they do not mean to. *)

From stdpp Require Import gmap.
From S2P Require Import JsNum.
From S2P Require Import Prelude JsVal Wire Numbers Int64Spec PbValue PbValueSpec PbMessage PbMessageSpec.

(** Text of integers, in which the model can be run. *)
Definition digits_value (s : jsstr) : Z := fold_left (fun n c => 10 * n + (c - 48)) s 0.
#[export] Instance integer_text : NumText := {
  num_text x := match x with
    | NaN => js "NaN"
    | Inf s => if s then js "-Infinity" else js "Infinity"
    | Fin s n => (if s then [45] else []) ++ num_to_str (Z.abs n / JsNum.one)
    end;
  text_num s := if forallb (fun c => (48 <=? c) && (c <=? 57)) s then of_Z (digits_value s) else NaN }.
#[export] Instance integer_text_ok : NumTextOk.
Proof.
  intros [|[]|s n]; [done|split; [vm_compute; discriminate|done]..|]. split; [|done]. intros E. exfalso. revert E. cbn [num_text integer_text]. change (js "NaN") with [78; 97; 78].
  pose proof (num_to_str_digits (Z.abs n / JsNum.one) ltac:(apply Z.div_pos; [lia|apply one_pos])) as Hd.
  destruct s; cbn [app]; [discriminate|]. intros E. rewrite E in Hd. done.
Qed.

(** Two messages of a text, a list of numbers and an extension; the second has
    null for a missing field and another zero. *)
Definition two_messages : store := [
  Array [];
  Array [Number NaN; Number (Fin false 0)]; Object [(js "7", Text (js "x"))]; Array [Text (js "a"); Undef; Ref 1; Ref 2];
  Array [Number NaN; Number (Fin true 0)]; Object [(js "7", Text (js "x")); (js "9", Null)]; Array [Text (js "a"); Null; Ref 4; Ref 5]].
Definition their_type : ty := KMessage [KText; KBoolean; KList KNumber] [(js "7", KText); (js "9", KText)].
Lemma zero_double s : double (Fin s 0).
Proof. split; [exists 0, 0; lia|by apply Z.ltb_lt; vm_compute]. Qed.
Lemma numbers_typed r s : two_messages !! r = Some (Array [Number NaN; Number (Fin s 0)]) -> typed two_messages 1 (KList KNumber) (Ref r).
Proof.
  intros E. apply typed_array with [Number NaN; Number (Fin s 0)]; [done|done| | |done|intros k t' [=]|by intros k _].
  - by intros [|[|i]] o.
  - intros i t' [= <-]. destruct i as [|[|i]]; [by apply typed_number|apply typed_number, zero_double|by constructor].
Qed.
Lemma their_extensions k : ext_slot their_type k = if decide (js "7" = k) then Some KText else if decide (js "9" = k) then Some KText else None.
Proof.
  unfold ext_slot, their_type. cbn [list_to_map foldr]. repeat case_decide; subst; try done; simpl_map; try done.
Qed.
Lemma extensions_typed o : (forall k, prop o k = Undef \/ prop o k = Null \/ (k = js "7" /\ prop o k = Text (js "x"))) ->
  (forall k t, ext_slot their_type k = Some t -> typed two_messages 1 t (prop o k)) /\ (forall k, ext_slot their_type k = None -> nullish (prop o k) = true).
Proof.
  intros Ho. split; intros k; rewrite their_extensions; destruct (Ho k) as [E|[E|[-> E]]]; rewrite E; try done; try (by constructor).
  intros t. repeat case_decide; by intros [= <-]; constructor.
Qed.
Lemma two_typed : typed two_messages 2 their_type (Ref 3) /\ typed two_messages 2 their_type (Ref 6).
Proof.
  pose proof (numbers_typed 1 false eq_refl) as N1. pose proof (numbers_typed 4 true eq_refl) as N2.
  split; (eapply typed_array; [done|reflexivity|..]).
  all: try (by intros [|[|[|[|i]]]] o).
  all: try (intros [|[|[|i]]]; [by intros t' [= <-]; constructor|by intros t' [= <-]; constructor|intros t' [= <-]; done|done]).
  all: try (intros [|[|[|[|i]]]]; done).
  all: apply extensions_typed; intros k; cbn; repeat case_bool_decide; subst; auto.
Qed.

Lemma compare_contents_witness :
  compareFields 3 two_messages (Ref 3) (Ref 6) = Ret true /\ content 2 two_messages (Ref 3) = content 2 two_messages (Ref 6).
Proof.
  destruct two_typed as [T1 T2]. destruct (compare_contents two_messages 2 2 their_type (Ref 3) (Ref 6) T1 T2 ltac:(lia)) as (b & E & Hb).
  assert (Ec : content 2 two_messages (Ref 3) = content 2 two_messages (Ref 6)) by (vm_compute; reflexivity).
  split; [|exact Ec]. apply Hb in Ec as ->. exact E.
Defined.

Lemma first_shaped : shaped (within 0 (length two_messages)) two_messages 2 (Ref 3).
Proof.
  assert (Hw : forall i, (i < 7)%nat -> within 0 (length two_messages) i) by (intros i Hi; split; [lia|exact Hi]).
  eapply shaped_array; [apply Hw; lia|reflexivity|]. repeat (apply list.Forall_cons; split); [by constructor..| | |by constructor].
  - eapply shaped_array; [apply Hw; lia|reflexivity|]. by repeat constructor.
  - eapply shaped_object; [apply Hw; lia|reflexivity|by apply (bool_decide_unpack _); vm_compute|by repeat constructor].
Qed.
(** The copy's contents outlive all objects of the original. *)
Lemma clone_copies_witness : exists new r', clone_ 3 3 two_messages = Ret (r', two_messages ++ new) /\
  compareFields 3 (two_messages ++ new) (Ref r') (Ref 3) = Ret true /\
  content 2 (replicate 7 (Array []) ++ new) (Ref r') = content 2 two_messages (Ref 3).
Proof.
  destruct (clone_copies two_messages 2 2 their_type 3 first_shaped (proj1 two_typed)) as (new & r' & E & Ec & Hkept & _).
  exists new, r'. split; [exact E|]. split; [exact Ec|]. apply Hkept. intros i Hi. change (length two_messages) with 7%nat in Hi.
  rewrite !lookup_app_r by (rewrite ?length_replicate; exact Hi). reflexivity.
Defined.

Definition one_message (l : list pv) : store := [Array []; Array l].
Definition the_message : jspb_message := Message 1 (-1) None None None.
Lemma one_valid l : valid the_message (one_message l).
Proof. split; [by exists l|cbn; lia|done|done]. Qed.
Lemma oneof_exclusive_witness :
  let h := one_message [Text (js "x"); Text (js "y"); Null; Text (js "z")] in
  exists a' h', setOneofField the_message 1 [2; 1; 3] (Text (js "w")) h = Ret (a', h') /\ raw a' h' 1 = Text (js "w") /\
    nullish (raw a' h' 2) = true /\ raw a' h' 4 = Text (js "z").
Proof.
  intros h. destruct (oneof_exclusive the_message h [2; 1; 3] 1 (Text (js "w"))) as (a' & h' & E & _ & Eb & Hn & Ho & _).
  - apply one_valid.
  - split; [by apply (bool_decide_unpack _); vm_compute|]. repeat constructor; done.
  - by apply (bool_decide_unpack _); vm_compute.
  - done.
  - done.
  - exists a', h'. split; [exact E|]. split; [exact Eb|]. split; [apply Hn; [by apply (bool_decide_unpack _); vm_compute|done]|].
    rewrite Ho; [done|done|]. by apply (bool_decide_unpack _); vm_compute.
Defined.
Lemma repeated_own_list_witness :
  let h := one_message [Ref 0; Ref 0] in
  exists h', addToRepeatedField the_message 1 (Text (js "x")) None h = Ret (tt, h') /\ list_field the_message h' 1 [Text (js "x")] /\
    raw the_message h' 2 = Ref 0 /\ h' !! 0%nat = Some (Array []).
Proof.
  intros h. destruct (repeated_own_list the_message h 1 (Text (js "x")) None []) as (h' & E & _ & El & Ho & Es).
  - apply one_valid.
  - done.
  - exists 0%nat. done.
  - exists h'. split; [exact E|]. split; [exact El|]. split; [by rewrite Ho|exact Es].
Defined.
Lemma difference_fields_witness :
  let h := [Array []; Array [Text (js "a"); Text (js "b")]; Array [Text (js "a"); Text (js "c"); Text (js "d")]] in
  exists m h', difference 1 plain_class (Message 1 (-1) None None None) (Message 2 (-1) None None None) h = Ret (m, h') /\
    raw m h' 1 = Undef /\ raw m h' 2 = Text (js "c") /\ raw m h' 3 = Text (js "d").
Proof.
  intros h. destruct (difference_fields h 0 [KText; KText; KText] (Message 1 (-1) None None None) (Message 2 (-1) None None None)) as (m & h' & E & _ & Hf).
  - split; [done|]. eexists. split; [reflexivity|]. split; [by intros [|[|i]]|]. intros [|[|[|i]]]; by constructor.
  - split; [done|]. eexists. split; [reflexivity|]. split; [by intros [|[|[|i]]]|]. intros [|[|[|i]]]; by constructor.
  - exists m, h'. split; [exact E|]. split; [|split].
    + destruct (Hf 1 ltac:(lia)) as [[-> _]|[_ Hne]]; [done|by destruct Hne].
    + destruct (Hf 2 ltac:(lia)) as [[_ Heq]|[-> _]]; [discriminate Heq|done].
    + destruct (Hf 3 ltac:(lia)) as [[_ Heq]|[-> _]]; [discriminate Heq|done].
Defined.

(** [==] compares a text with a number by the number: the comparison is no
    equivalence across types, and a text can equal NaN. *)
Lemma compare_not_transitive :
  compareFields 1 [] (Text (js "1")) (Number (of_Z 1)) = Ret true /\ compareFields 1 [] (Number (of_Z 1)) (Text (js "01")) = Ret true /\
  compareFields 1 [] (Text (js "1")) (Text (js "01")) = Ret false /\ compareFields 1 [] (Number NaN) (Text (js "NaN")) = Ret true.
Proof. repeat split; vm_compute; reflexivity. Qed.
(** A default given to a field above the pivot is written into the array: the
    field keeps its value, and the object with it is no longer in the array. *)
Lemma default_above_pivot :
  let h := [Array []; Array [Text (js "a"); Ref 2]; Object [(js "2", Text (js "b"))]] in
  let a := Message 1 (-1) (Some 2) (Some 2%nat) None in
  initialize plain_class (Some 1%nat) h = Ret (a, h) /\
  exists h', setFieldIgnoringDefault_ a 2 (Text []) (Text []) h = Ret (a, h') /\
    raw a h' 2 = Text (js "b") /\ array_at h' 1 = [Text (js "a"); Null].
Proof. split; [vm_compute; reflexivity|]. eexists. split; [vm_compute; reflexivity|]. split; vm_compute; reflexivity. Qed.
