(* ===== verification/WireTotal.v ===== *)
(** The reader returns: on a message without a run of five marked bytes, where
    no varint can be longer than five bytes, [deserializeBinary] comes to an
    end within [reader_fuel], whatever else the bytes are. *)

From S2P Require Import Prelude JsVal Int32 TextEncoding Wire WireReader GoogBase64 UserMessage UserMessageSpec.

(** No five bytes in a row with their high bit set. *)
Definition short_varints (bytes : list Z) : bool :=
  forallb (fun i => existsb (fun j => negb (ge_ (at_ bytes (Z.of_nat i + j)) 128)) [0; 1; 2; 3; 4])
    (seq 0 (length bytes)).

Lemma short_varints_at bytes c : short_varints bytes = true -> 0 <= c ->
  exists j, 0 <= j < 5 /\ ge_ (at_ bytes (c + j)) 128 = false.
Proof.
  intros H Hc. destruct (Z.lt_ge_cases c (Z.of_nat (length bytes))) as [Hl|Hl].
  - unfold short_varints in H. rewrite forallb_forall in H.
    specialize (H (Z.to_nat c)). rewrite in_seq, existsb_exists in H.
    destruct H as (j & Hj & E); [lia|]. rewrite Z2Nat.id in E by lia. exists j.
    split; [|by apply negb_true_iff]. cbn in Hj. lia.
  - exists 0. split; [lia|]. by rewrite at_past by lia.
Qed.

(** ** The decoder *)

(** [d'] is [d] after a call that moved the cursor by at least [k]. *)
Definition moved (k : Z) (d d' : decoder) : Prop :=
  bytes_ d' = bytes_ d /\ end_ d' = end_ d /\ cursor_ d + k <= cursor_ d'.
(** A decoder over the whole of [bytes]. *)
Definition whole (bytes : list Z) (d : decoder) : Prop :=
  bytes_ d = bytes /\ end_ d = Z.of_nat (length bytes) /\ 0 <= cursor_ d.

(** The call returns or throws; when it returns, its result is as said. *)
Definition ends {A} (o : outcome A) (P : A -> Prop) : Prop :=
  match o with Ret a => P a | Throw _ => True | Running => False end.

Lemma ends_bind {A B} (o : outcome A) (k : A -> outcome B) P Q :
  ends o P -> (forall a, P a -> ends (k a) Q) -> ends (o ≫= k) Q.
Proof. destruct o; cbn; auto. Qed.
Lemma ends_weaken {A} (o : outcome A) (P Q : A -> Prop) :
  ends o P -> (forall a, P a -> Q a) -> ends o Q.
Proof. destruct o; cbn; auto. Qed.

Lemma advance_ends a d : 0 <= a -> ends (advance a d) (fun x => moved a d x.2 /\ cursor_ x.2 <= end_ d).
Proof.
  intros Ha. unfold advance, modify_, get_, assert_, mbind, ST_bind. cbn [cursor_ set_cursor end_].
  destruct (Z.leb_spec (cursor_ d + a) (end_ d)); cbn; [|done].
  unfold moved. cbn. repeat split; lia.
Qed.

Lemma band_nonneg v m : 0 <= m -> 0 <= band v m.
Proof. intros. destruct v; cbn; [|lia]. rewrite Z.land_nonneg. lia. Qed.
Lemma lor_shift_nonneg a b n : 0 <= a -> 0 <= b -> 0 <= n -> 0 <= Z.lor a (Z.shiftl b n).
Proof. intros. rewrite Z.lor_nonneg, Z.shiftl_nonneg. lia. Qed.

Lemma skip_high_moves n bytes cur : cur <= (skip_high n bytes cur).2.
Proof.
  revert cur. induction n as [|n IH]; intros cur; cbn; [lia|].
  destruct (ge_ _ _); cbn; [|lia]. specialize (IH (cur + 1)). lia.
Qed.

(** A varint is read as a non-negative number, or the read throws. *)
Lemma readUnsignedVarint32_ends bytes d : short_varints bytes = true -> whole bytes d ->
  ends (readUnsignedVarint32 d) (fun x => 0 <= x.1 /\ moved 1 d x.2 /\ cursor_ x.2 <= end_ d).
Proof.
  intros Hs (Hb & He & Hc). unfold readUnsignedVarint32. cbv zeta.
  assert (Hdone : forall n c, 1 <= n -> 0 <= c ->
    ends ((advance n;; mret c) d) (fun x => 0 <= x.1 /\ moved 1 d x.2 /\ cursor_ x.2 <= end_ d)).
  { intros n c Hn Hp. pose proof (advance_ends n d ltac:(lia)) as Ha. unfold mbind, ST_bind.
    destruct (advance n d) as [[u d']| |]; cbn in *; [|done|done].
    unfold moved in *. intuition lia. }
  pose proof (fun i => band_nonneg (at_ (bytes_ d) (cursor_ d + i)) 127 ltac:(lia)) as Hn.
  repeat match goal with |- context [if lt_ ?v 128 then _ else _] =>
    let E := fresh "E" in destruct (lt_ v 128) eqn:E;
      [apply Hdone; [lia|]; auto 6 using lor_shift_nonneg with lia; apply u32_bound|] end.
  destruct (short_varints_at bytes (cursor_ d) Hs Hc) as (j & Hj & Hg). rewrite <-Hb in Hg.
  assert (Hnone : at_ (bytes_ d) (cursor_ d + j) = None).
  { assert (j = 0 \/ j = 1 \/ j = 2 \/ j = 3 \/ j = 4) as [-> | [-> | [-> | [-> | ->]]]] by lia;
      match goal with E : lt_ ?v 128 = false, G : ge_ ?v 128 = false |- ?v = None =>
        destruct v; [|done]; cbn in E, G; apply Z.ltb_ge in E; apply Z.leb_gt in G; lia end. }
  pose proof (skip_high_moves 5 (bytes_ d) (cursor_ d + 5)).
  destruct (skip_high _ _ _) as [ok cur]. cbn [snd] in *.
  assert (end_ d <= cursor_ d + j).
  { rewrite He, <-Hb. unfold at_ in Hnone. destruct (Z.ltb_spec (cursor_ d + j) 0); [lia|].
    apply lookup_ge_None_1 in Hnone. lia. }
  unfold assert_, mbind, ST_bind. destruct ok; [|done].
  unfold setCursor, modify_. pose proof (advance_ends 0 (set_cursor cur d) ltac:(lia)) as Ha.
  destruct (advance 0 _) as [[u d']| |]; cbn in *; [|done|done].
  unfold moved in *. cbn in Ha. intuition lia.
Qed.

Lemma skipVarint_loop_ends fuel : forall bytes cur,
  0 <= cur -> Z.of_nat (length bytes) - cur <= Z.of_nat fuel ->
  exists c, skipVarint_loop (S fuel) bytes cur = Some c /\ cur + 1 <= c.
Proof.
  induction fuel as [|fuel IH]; intros bytes cur Hc Hf.
  - cbn [skipVarint_loop]. rewrite at_past by lia. cbn. eexists. split; [done|lia].
  - cbn [skipVarint_loop]. destruct (_ =? 0); [eexists; split; [done|lia]|].
    destruct (IH bytes (cur + 1)) as (c & E & Hl); [lia|lia|]. exists c. split; [done|lia].
Qed.
Lemma skipVarint_ends bytes d : whole bytes d -> ends (skipVarint d) (fun x => moved 1 d x.2).
Proof.
  intros (Hb & He & Hc). unfold skipVarint.
  destruct (skipVarint_loop_ends (length (bytes_ d)) (bytes_ d) (cursor_ d)) as (c & -> & Hl); [done|lia|].
  repeat split. cbn. lia.
Qed.
Lemma decoder_readString_ends a d : 0 <= a -> ends (decoder_readString a d) (fun x => moved 0 d x.2).
Proof.
  intros Ha. unfold decoder_readString.
  pose proof (readString_loop_reaches (Z.to_nat a) (bytes_ d) (cursor_ d) (cursor_ d + a) [] [] ltac:(lia)) as [_ H].
  destruct (readString_loop _ _ _ _ _ _) as [s c]. cbn in *. repeat split. cbn. lia.
Qed.

(** ** The reader *)

Definition here (r : reader) : Z := cursor_ (decoder_ r).
(** [r'] is the reader [r] further on, over the same bytes. *)
Definition further (bytes : list Z) (k : Z) (r r' : reader) : Prop :=
  whole bytes (decoder_ r') /\ here r + k <= here r'.
(** What is left to read. *)
Definition left_ (r : reader) : Z := Z.max 0 (end_ (decoder_ r) - here r).

Lemma on_decoder_ends {A} bytes (m : D A) r k (P : A -> Prop) :
  whole bytes (decoder_ r) -> 0 <= k ->
  ends (m (decoder_ r)) (fun x => P x.1 /\ moved k (decoder_ r) x.2) ->
  ends (on_decoder m r) (fun x => P x.1 /\ further bytes k r x.2).
Proof.
  intros (Hb & He & Hc) Hk H. unfold on_decoder. destruct (m (decoder_ r)) as [[a d]| |]; cbn in *; try done.
  destruct H as (HP & Mb & Me & Mc). split; [done|]. unfold further, whole, here. cbn.
  rewrite Mb, Me. repeat split; try done; lia.
Qed.

Lemma further_left bytes k r r' : whole bytes (decoder_ r) -> further bytes k r r' -> 0 <= k ->
  left_ r' <= left_ r.
Proof. intros (_ & He & _) ((_ & He' & _) & Hk). unfold left_, here in *. lia. Qed.

Section reading.
Context (bytes : list Z) (Hshort : short_varints bytes = true).

Lemma reader_length r : whole bytes (decoder_ r) ->
  ends (on_decoder readUnsignedVarint32 r) (fun x => 0 <= x.1 /\ further bytes 1 r x.2).
Proof.
  intros Hw. apply (on_decoder_ends bytes _ r 1 (fun v => 0 <= v)); [done|lia|].
  eapply ends_weaken; [by eapply readUnsignedVarint32_ends|]. naive_solver.
Qed.

(** A header takes at least a byte and does not lead past the end. *)
Lemma nextField_ends r : whole bytes (decoder_ r) ->
  ends (nextField r) (fun x => x.1 = true -> further bytes 1 r x.2 /\ left_ x.2 + 1 <= left_ r).
Proof.
  intros Hw. unfold nextField. destruct (atEnd _); [done|].
  destruct (reader_getError r); [done|].
  pose proof (readUnsignedVarint32_ends bytes _ Hshort Hw) as H.
  destruct (readUnsignedVarint32 _) as [[a d]| |]; cbn in *; [|done|done].
  destruct (wire_type_ok _); [|done]. cbn. intros _.
  destruct Hw as (Hb & He & Hc), H as (_ & (Mb & Me & Mc) & Hl).
  unfold further, whole, left_, here. cbn. rewrite Mb, Me. repeat split; try done; lia.
Qed.

Lemma skipDelimited_ends r : whole bytes (decoder_ r) ->
  ends (skipDelimitedField r) (fun x => further bytes 0 r x.2).
Proof.
  intros Hw. unfold skipDelimitedField, mbind, ST_bind.
  pose proof (reader_length r Hw) as H. destruct (on_decoder _ r) as [[a r']| |]; cbn in *; try done.
  destruct H as (Ha & Hf & Hl).
  pose proof (on_decoder_ends bytes (advance a) r' a (fun _ => True) Hf Ha) as H.
  eapply ends_weaken; [apply H; eapply ends_weaken; [by apply advance_ends|naive_solver]|].
  intros x (_ & Hx & Hk). split; [done|]. lia.
Qed.

Lemma skip_ends fuel :
  (forall r, whole bytes (decoder_ r) -> 2 * left_ r + 2 <= Z.of_nat fuel ->
     ends (skipField fuel r) (fun x => further bytes 0 r x.2)) /\
  (forall r a, whole bytes (decoder_ r) -> 2 * left_ r + 1 <= Z.of_nat fuel ->
     ends (skipGroup fuel a r) (fun x => further bytes 0 r x.2)).
Proof.
  induction fuel as [|fuel [IHf IHg]]; [split; intros; unfold left_ in *; lia|]. split.
  - intros r Hw Hl. cbn [skipField]. unfold mbind at 1, ST_bind at 1, get_ at 1.
    assert (Hadv : forall k, 0 <= k -> ends (on_decoder (advance k) r) (fun x => further bytes 0 r x.2)).
    { intros k Hk. eapply ends_weaken.
      - apply (on_decoder_ends bytes _ r k (fun _ => True) Hw Hk).
        eapply ends_weaken; [by apply advance_ends|naive_solver].
      - intros x (_ & Hx & Hk'). split; [done|lia]. }
    repeat case_match; auto using skipDelimited_ends with lia; try done.
    + eapply ends_weaken.
      * apply (on_decoder_ends bytes _ r 1 (fun _ => True) Hw); [lia|].
        eapply ends_weaken; [by eapply skipVarint_ends|]. naive_solver.
      * intros x (_ & Hx & Hk'). split; [done|lia].
    + unfold mbind, ST_bind, get_. apply IHg; [done|lia].
  - intros r a Hw Hl. cbn [skipGroup]. unfold mbind at 1, ST_bind at 1.
    pose proof (nextField_ends r Hw) as H. destruct (nextField r) as [[[] r1]| |]; cbn in H; try done.
    destruct (H eq_refl) as [Hf1 Hl1]; clear H. destruct Hf1 as [Hw1 Hc1].
    unfold mbind, ST_bind, get_. case_match.
    + case_match; cbn; [|done]. split; [done|]. lia.
    + pose proof (IHf r1 Hw1 ltac:(lia)) as H2.
      destruct (skipField fuel r1) as [[u r2]| |]; cbn in *; [|done|done].
      pose proof (further_left bytes 0 r1 r2 Hw1 H2 ltac:(lia)). destruct H2 as [Hw2 Hc2].
      eapply ends_weaken; [apply IHg; [done|lia]|]. intros x [Hx Hcx]. split; [done|]. lia.
Qed.

Lemma readString_ends r : whole bytes (decoder_ r) -> ends (readString r) (fun x => further bytes 0 r x.2).
Proof.
  intros Hw. unfold readString, expect_wire, get_, assert_, mbind, ST_bind.
  destruct (nextWireType_ r =? DELIMITED); [|done]. pose proof (reader_length r Hw) as H.
  destruct (on_decoder readUnsignedVarint32 r) as [[a r']| |]; cbn in *; try done.
  destruct H as (Ha & Hf & Hl). eapply ends_weaken.
  - apply (on_decoder_ends bytes _ r' 0 (fun _ => True) Hf); [lia|].
    eapply ends_weaken; [by apply decoder_readString_ends|naive_solver].
  - intros x (_ & Hx & Hk). split; [done|]. lia.
Qed.

Lemma loop_ends fuel : forall m r, whole bytes (decoder_ r) -> 2 * left_ r + 1 <= Z.of_nat fuel ->
  ends (deserializeBinaryFromReader fuel m r) (fun _ => True).
Proof.
  induction fuel as [|fuel IH]; intros m r Hw Hl; [unfold left_ in *; lia|].
  pose proof (nextField_ends r Hw) as H. destruct (nextField r) as [[[] r1]| |] eqn:En; cbn in H.
  - destruct (H eq_refl) as [[Hw1 Hc1] Hl1]; clear H.
    rewrite (deserialize_round _ _ _ _ En).
    assert (Hnext : forall k (m' : k -> pb_message) (o : outcome (k * reader)),
      ends o (fun x => further bytes 0 r1 x.2) ->
      ends (match o with Ret (a, s) => deserializeBinaryFromReader fuel (m' a) s
                    | Throw e => Throw e | Running => Running end) (fun _ => True)).
    { intros k m' [[a s]| |] Ho; cbn in *; try done.
      pose proof (further_left bytes 0 r1 s Hw1 Ho ltac:(lia)). destruct Ho. apply IH; [done|lia]. }
    repeat case_match; try done; unfold mbind, ST_bind.
    + by apply (Hnext _ (fun v => setUsername m (JStr v))), readString_ends.
    + by apply (Hnext _ (fun v => setText m (JStr v))), readString_ends.
    + apply (Hnext _ (fun _ => m)). apply skip_ends; [done|lia].
  - cbn [deserializeBinaryFromReader]. unfold mbind, ST_bind. by rewrite En.
  - cbn [deserializeBinaryFromReader]. unfold mbind, ST_bind. by rewrite En.
  - done.
Qed.
End reading.

(** C26. [deserializeBinary] returns a message or throws, on every sequence of
    bytes without five marked bytes in a row. *)
Theorem deserialize_terminates bytes fuel :
  short_varints bytes = true -> (reader_fuel bytes <= fuel)%nat ->
  deserializeBinary fuel (JBytes bytes) <> Running.
Proof.
  intros Hs Hf. unfold deserializeBinary, reader_of. cbn [truthy byteSourceToUint8Array mbind outcome_bind].
  pose proof (loop_ends bytes Hs fuel (UserMessage None) (new_BinaryReader (Some bytes))) as H.
  destruct (deserializeBinaryFromReader _ _ _) as [[m r]| |]; [done|done|].
  exfalso. apply H; [done|]. unfold left_, here, reader_fuel in *. cbn in *. lia.
Qed.

(** Group without an end, then a truncated varint. *)
Lemma deserialize_terminates_witness :
  deserializeBinary 100 (JBytes [0x1B; 0x08; 0x81; 0x82; 0x03; 0xFF]) <> Running.
Proof.
  apply (deserialize_terminates [0x1B; 0x08; 0x81; 0x82; 0x03; 0xFF]);
    [reflexivity|apply Nat.leb_le; reflexivity].
Defined.

(** ** The type of what is read *)

Lemma fromCharCode_units d : Forall is_unit (fromCharCode d).
Proof.
  induction d as [|u d IH]; [constructor|]. constructor; [|exact IH].
  unfold is_unit. apply Z.mod_pos_bound. lia.
Qed.
Lemma readString_loop_units fuel bytes : forall c a d e, Forall is_unit e ->
  Forall is_unit (readString_loop fuel bytes c a d e).1.
Proof.
  induction fuel as [|fuel IH]; intros c a d e He; cbn [readString_loop]; case_match; cbn [fst];
    rewrite ?Forall_app; auto using fromCharCode_units.
  destruct (readString_step bytes c) as [us c']. case_match; apply IH; [|done].
  apply Forall_app. auto using fromCharCode_units.
Qed.
Lemma readString_units r s r' : readString r = Ret (s, r') -> Forall is_unit s.
Proof.
  unfold readString, expect_wire, get_, assert_, mbind, ST_bind.
  destruct (nextWireType_ r =? DELIMITED); [|done].
  destruct (on_decoder readUnsignedVarint32 r) as [[a r1]| |]; [|done|done].
  unfold on_decoder, decoder_readString.
  pose proof (readString_loop_units (Z.to_nat a) (bytes_ (decoder_ r1)) (cursor_ (decoder_ r1))
    (cursor_ (decoder_ r1) + a) [] [] ltac:(constructor)) as H.
  destruct (readString_loop _ _ _ _ _ _) as [str c]. cbn. by intros [= <- <-].
Qed.

(** A message of the class whose two fields read as strings. *)
Definition typed (m : pb_message) : Prop :=
  arrayIndexOffset_ m = -1 /\
  exists u t, getUsername m = JStr u /\ getText m = JStr t /\ Forall is_unit u /\ Forall is_unit t.

Lemma typed_username m s : typed m -> Forall is_unit s -> typed (setUsername m (JStr s)).
Proof.
  intros (Ho & u & t & Eu & Et & Hu & Ht) Hs. split; [etransitivity; [apply offset_set|done]|].
  exists s, t. by rewrite username_set, text_set_username.
Qed.
Lemma typed_text m s : typed m -> Forall is_unit s -> typed (setText m (JStr s)).
Proof.
  intros (Ho & u & t & Eu & Et & Hu & Ht) Hs. split; [etransitivity; [apply offset_set|done]|].
  exists u, s. by rewrite text_set, username_set_text.
Qed.

Lemma loop_typed fuel : forall m r m' r', typed m ->
  deserializeBinaryFromReader fuel m r = Ret (m', r') -> typed m'.
Proof.
  induction fuel as [|fuel IH]; intros m r m' r' Hm E; [done|].
  destruct (nextField r) as [[[] r1]| |] eqn:En.
  - rewrite (deserialize_round _ _ _ _ En) in E. unfold mbind, ST_bind in E.
    destruct (nextWireType_ r1 =? END_GROUP); [by simplify_eq|].
    destruct (nextField_ r1 =? 1); [|destruct (nextField_ r1 =? 2)].
    + destruct (readString r1) as [[s r2]| |] eqn:Es; [|done|done].
      eauto using typed_username, readString_units.
    + destruct (readString r1) as [[s r2]| |] eqn:Es; [|done|done].
      eauto using typed_text, readString_units.
    + destruct (skipField fuel r1) as [[[] r2]| |]; [|done|done]. eauto.
  - cbn [deserializeBinaryFromReader] in E. unfold mbind, ST_bind in E. rewrite En in E.
    by injection E as <- <-.
  - cbn [deserializeBinaryFromReader] in E. unfold mbind, ST_bind in E. by rewrite En in E.
  - cbn [deserializeBinaryFromReader] in E. unfold mbind, ST_bind in E. by rewrite En in E.
Qed.

(** C24. Whatever value is given to [deserializeBinary], bytes, text or nothing, a
    message it returns has two strings for its fields, never null or undefined. *)
Theorem deserialize_typed fuel v m : deserializeBinary fuel v = Ret m -> typed m.
Proof.
  unfold deserializeBinary. destruct (reader_of v) as [r| |]; cbn; [|done|done].
  destruct (deserializeBinaryFromReader _ _ _) as [[m' r']| |] eqn:E; cbn; intros [= <-].
  eapply loop_typed; [|exact E]. split; [done|]. exists [], []. repeat split; constructor.
Qed.

(** Base64 text of a message, and one with broken UTF-8 in it. *)
Lemma deserialize_typed_witness :
  typed (setUsername (UserMessage None) (JStr (js "A"))) /\
  typed (setText (UserMessage None) (JStr [0x4041])).
Proof.
  split.
  - apply (deserialize_typed 20 (JStr (js "CgFB"))). reflexivity.
  - apply (deserialize_typed 20 (JBytes [18; 3; 0xE4; 0x41; 0x41])). vm_compute. reflexivity.
Defined.
