(* ===== verification/Base64Spec.v ===== *)
(** Base64 as RFC 4648 has it, and the two implementations of the program
    against it: both write it and both read it back; where base64-js throws. *)

From S2P Require Import Prelude JsVal Int32 TextEncoding Utf8Step Wire WireReader WireSpec WireFields.
From S2P Require Import GoogBase64 Base64.

(** ** The format *)

Fixpoint b64 (bs : list Z) : jsstr :=
  match bs with
  | [] => []
  | [a] => [lookup_ (a / 4); lookup_ (a mod 4 * 16); 61; 61]
  | [a; b] => [lookup_ (a / 4); lookup_ (a mod 4 * 16 + b / 16); lookup_ (b mod 16 * 4); 61]
  | a :: b :: c :: r =>
      lookup_ (a / 4) :: lookup_ (a mod 4 * 16 + b / 16)
      :: lookup_ (b mod 16 * 4 + c / 64) :: lookup_ (c mod 64) :: b64 r
  end.

(** Every byte string is a sequence of triples and at most two bytes more. *)
Definition flat (ts : list (Z * Z * Z)) : list Z := concat (map (fun '(a, b, c) => [a; b; c]) ts).
Lemma triples (bs : list Z) : exists ts r, bs = flat ts ++ r /\ (length r < 3)%nat.
Proof.
  induction bs as [bs IH] using (induction_ltof1 _ (@length Z)). unfold ltof in IH.
  destruct bs as [|a [|b [|c bs]]]; [exists [], []|exists [], [a]|exists [], [a; b]|]; try (split; cbn; [done|lia]).
  destruct (IH bs) as (ts & r & -> & Hr); [cbn; lia|]. by exists ((a, b, c) :: ts), r.
Qed.
Lemma flat_length ts : length (flat ts) = (3 * length ts)%nat.
Proof. induction ts as [|[[a b] c] ts IH]; [done|]. cbn in *. unfold flat in IH. lia. Qed.

(** ** The alphabet *)

Lemma below_64 (P : Z -> bool) : forallb P (map Z.of_nat (seq 0 64)) = true ->
  forall i, 0 <= i < 64 -> P i = true.
Proof.
  rewrite forallb_forall. intros H i Hi. apply H, in_map_iff. exists (Z.to_nat i).
  rewrite in_seq. lia.
Qed.

Lemma revLookup_lookup i : 0 <= i < 64 -> revLookup (Some (lookup_ i)) = Some i.
Proof.
  intros Hi. assert (H := below_64 (fun i => bool_decide (revLookup (Some (lookup_ i)) = Some i)) eq_refl i Hi).
  by apply bool_decide_eq_true in H.
Qed.
Lemma lookup_not_pad i : 0 <= i < 64 -> lookup_ i <> 61.
Proof.
  intros Hi E. assert (H := below_64 (fun i => negb (lookup_ i =? 61)) eq_refl i Hi).
  cbv beta in H. by rewrite E in H.
Qed.
Lemma goog_value i : 0 <= i < 64 -> charToByteMap_ (lookup_ i) = Some i.
Proof.
  intros Hi. assert (H := below_64 (fun i => bool_decide (charToByteMap_ (lookup_ i) = Some i)) eq_refl i Hi).
  by apply bool_decide_eq_true in H.
Qed.
Lemma goog_char i : 0 <= i < 64 -> char_or_nothing 0 i = [lookup_ i].
Proof.
  intros Hi. assert (H := below_64 (fun i => bool_decide (char_or_nothing 0 i = [lookup_ i])) eq_refl i Hi).
  by apply bool_decide_eq_true in H.
Qed.

(** The indices of [b64] are below 64. *)
Lemma index_ranges a b c : is_byte a -> is_byte b -> is_byte c ->
  0 <= a / 4 < 64 /\ 0 <= a mod 4 * 16 < 64 /\ 0 <= a mod 4 * 16 + b / 16 < 64 /\
  0 <= b mod 16 * 4 < 64 /\ 0 <= b mod 16 * 4 + c / 64 < 64 /\ 0 <= c mod 64 < 64.
Proof. unfold is_byte. intros. repeat split; euclid. Qed.

(** Split the bounds of [index_ranges] into the context. *)
Ltac ranges_of a b c :=
  let H := fresh in assert (H := index_ranges a b c);
  let R := fresh "R" in destruct H as (R & ? & ? & ? & ? & ?); [unfold is_byte in *; lia..|].

Lemma byte_0 : is_byte 0.
Proof. unfold is_byte. lia. Qed.

(** ** base64-js: encoding *)

Lemma triplet_b64 a b c : is_byte a -> is_byte b -> is_byte c ->
  tripletToBase64 (Z.land (Z.shiftl a 16) 0xFF0000 + Z.land (Z.shiftl b 8) 0xFF00 + Z.land c 0xFF)
  = [lookup_ (a / 4); lookup_ (a mod 4 * 16 + b / 16); lookup_ (b mod 16 * 4 + c / 64); lookup_ (c mod 64)].
Proof.
  unfold is_byte. intros Ha Hb Hc.
  replace (Z.land (Z.shiftl a 16) 0xFF0000) with (a * 65536).
  2: { change 0xFF0000 with (Z.shiftl 255 16). rewrite <-Z.shiftl_land.
       change 255 with (Z.ones 8). rewrite land_mask, Z.shiftl_mul_pow2 by lia. pow_norm. euclid. }
  replace (Z.land (Z.shiftl b 8) 0xFF00) with (b * 256).
  2: { change 0xFF00 with (Z.shiftl 255 8). rewrite <-Z.shiftl_land.
       change 255 with (Z.ones 8). rewrite land_mask, Z.shiftl_mul_pow2 by lia. pow_norm. euclid. }
  change 0xFF with (Z.ones 8). rewrite land_mask by lia.
  unfold tripletToBase64. rewrite !Z.shiftr_div_pow2 by lia. masks. pow_norm.
  repeat (apply (f_equal2 cons); [f_equal; euclid|]). done.
Qed.

Lemma b64_flat ts : exists q, forall r, b64 (flat ts ++ r) = q ++ b64 r.
Proof.
  induction ts as [|[[a b] c] ts [q IH]]; [by exists []|].
  eexists (_ :: _ :: _ :: _ :: q). intros r'. cbn. by rewrite IH.
Qed.

Lemma u8_at p x s k : 0 <= k -> u8 (p ++ x :: s) (Z.of_nat (length p) + k) = u8 (x :: s) k.
Proof. intros. unfold u8. by rewrite at_app_off. Qed.

Lemma u8_mid p x s : u8 (p ++ x :: s) (Z.of_nat (length p)) = x.
Proof. unfold u8. by rewrite at_app_mid. Qed.

(** A chunk is the encoding of its triples, wherever it starts. *)
Lemma encodeChunk_flat ts : forall fuel p s, Forall is_byte (flat ts) -> (length ts < fuel)%nat ->
  encodeChunk fuel (p ++ flat ts ++ s) (Z.of_nat (length p)) (Z.of_nat (length p + length (flat ts)))
  = b64 (flat ts).
Proof.
  induction ts as [|[[a b] c] ts IH]; intros [|fuel] p s Hb Hf; try (cbn in Hf; lia).
  - cbn [encodeChunk flat map concat length]. by rewrite (proj2 (Z.ltb_ge _ _)) by lia.
  - change (flat ((a, b, c) :: ts)) with ([a; b; c] ++ flat ts) in *.
    apply Forall_app in Hb as [Hh Hb]. inversion_clear Hh as [|? ? Ha H]. inversion_clear H as [|? ? Hb' H'].
    inversion_clear H' as [|? ? Hc _]. rewrite length_app. cbn [length] in *.
    cbn [encodeChunk]. rewrite (proj2 (Z.ltb_lt _ _)) by lia.
    cbn [app]. rewrite u8_mid, !u8_at by lia.
    change (u8 (a :: b :: c :: flat ts ++ s) 1) with b. change (u8 (a :: b :: c :: flat ts ++ s) 2) with c.
    rewrite triplet_b64 by done. cbn [b64 app]. do 4 f_equal.
    specialize (IH fuel (p ++ [a; b; c]) s Hb ltac:(cbn in Hf; lia)).
    rewrite length_app, <-app_assoc in IH. cbn [length app] in IH. rewrite <-IH. f_equal; lia.
Qed.

Lemma b64_app ts r : b64 (flat ts ++ r) = b64 (flat ts) ++ b64 r.
Proof.
  destruct (b64_flat ts) as [q Hq]. rewrite Hq. f_equal.
  specialize (Hq []). by rewrite !app_nil_r in Hq.
Qed.
Lemma flat_app t1 t2 : flat (t1 ++ t2) = flat t1 ++ flat t2.
Proof. unfold flat. by rewrite map_app, concat_app. Qed.

Lemma parts_past fuel u i len2 : len2 <= i -> parts fuel u i len2 = [].
Proof. intros. destruct fuel; [done|]. cbn [parts]. by rewrite (proj2 (Z.ltb_ge _ _)). Qed.

(** The chunks, joined, are the encoding of all the triples. *)
Lemma parts_flat fuel : forall ts p s, (length ts <= fuel)%nat -> Forall is_byte (flat ts) ->
  concat (parts fuel (p ++ flat ts ++ s) (Z.of_nat (length p)) (Z.of_nat (length p + length (flat ts))))
  = b64 (flat ts).
Proof.
  induction fuel as [|fuel IH]; intros ts p s Hf Hb.
  { by destruct ts; [|cbn in Hf; lia]. }
  destruct (decide (ts = [])) as [->|Hne].
  { rewrite parts_past by (cbn; lia). done. }
  assert (Hts : (1 <= length ts)%nat) by (destruct ts; [done|cbn; lia]).
  pose proof (flat_length ts) as Hl. cbn [parts]. rewrite (proj2 (Z.ltb_lt _ _)) by lia. cbn [concat].
  destruct (Z.ltb_spec (Z.of_nat (length p + length (flat ts))) (Z.of_nat (length p) + maxChunkLength))
    as [Hc|Hc].
  - rewrite parts_past, encodeChunk_flat; [apply app_nil_r|done|rewrite !length_app; lia|lia].
  - unfold maxChunkLength in *.
    assert (exists t1 t2, ts = t1 ++ t2 /\ length t1 = Z.to_nat 5461) as (t1 & t2 & -> & H1).
    { exists (take (Z.to_nat 5461) ts), (drop (Z.to_nat 5461) ts).
      rewrite take_drop, length_take. split; [done|lia]. }
    pose proof (flat_length t1) as Hk. rewrite flat_app, b64_app in *.
    apply Forall_app in Hb as [Hb1 Hb2]. rewrite length_app in *. rewrite <-app_assoc.
    replace (Z.of_nat (length p) + 16383) with (Z.of_nat (length p + length (flat t1))) by lia.
    rewrite encodeChunk_flat; [f_equal|done|rewrite !length_app; lia].
    rewrite (length_app (flat t1)), app_assoc, Nat.add_assoc, <-length_app. apply IH; [lia|done].
Qed.

(** The chunked encoder is the plain one. *)
Lemma fromByteArray_b64 bs : Forall is_byte bs -> fromByteArray bs = b64 bs.
Proof.
  destruct (triples bs) as (ts & r & -> & Hr). intros [Hb1 Hb2]%Forall_app.
  pose proof (flat_length ts) as Hl. unfold fromByteArray.
  assert (Hm : Z.of_nat (length (flat ts ++ r)) mod 3 = Z.of_nat (length r)).
  { rewrite length_app, Hl. euclid. }
  rewrite Hm, concat_app, b64_app.
  replace (Z.of_nat (length (flat ts ++ r)) - Z.of_nat (length r))
    with (Z.of_nat (length (@nil Z) + length (flat ts))) by (rewrite length_app; cbn; lia).
  rewrite (parts_flat _ ts [] r) by (rewrite ?length_app; done || lia). f_equal.
  rewrite length_app.
  destruct r as [|a [|b [|c r]]]; cbn [length] in *; [done|..|lia].
  - apply Forall_cons_1 in Hb2 as [Ha _]. unfold is_byte in Ha. cbn [Z.of_nat Z.eqb Pos.eqb Pos.of_succ_nat concat b64].
    replace (Z.of_nat (length (flat ts) + 1) - 1) with (Z.of_nat (length (flat ts))) by lia.
    rewrite u8_mid, Z.shiftr_div_pow2, Z.shiftl_mul_pow2 by lia. masks. pow_norm.
    rewrite app_nil_r. repeat (f_equal; try euclid).
  - apply Forall_cons_1 in Hb2 as [Ha Hb2]. apply Forall_cons_1 in Hb2 as [Hb _].
    unfold is_byte in Ha, Hb. cbn [Z.of_nat Z.eqb Pos.eqb Pos.of_succ_nat Pos.succ concat b64].
    replace (Z.of_nat (length (flat ts) + 2) - 2) with (Z.of_nat (length (flat ts))) by lia.
    replace (Z.of_nat (length (flat ts) + 2) - 1) with (Z.of_nat (length (flat ts)) + 1) by lia.
    rewrite u8_mid, u8_at by lia. change (u8 [a; b] 1) with b.
    rewrite !Z.shiftr_div_pow2, !Z.shiftl_mul_pow2 by lia. masks. pow_norm.
    rewrite app_nil_r. repeat (f_equal; try euclid).
Qed.

(** ** The Closure library: encoding *)

Lemma lor_low a b n : 0 <= n -> 0 <= b < 2 ^ n -> Z.lor (Z.shiftl a n) b = a * 2 ^ n + b.
Proof. apply lor_shiftl'. Qed.
Lemma land_3 x : Z.land x 3 = x mod 4. Proof. apply (land_mask x 2). lia. Qed.

Lemma encodeByteArray_b64 bs : Forall is_byte bs -> encodeByteArray bs 0 = b64 bs.
Proof.
  destruct (triples bs) as (ts & r & -> & Hr). intros [Hb1 Hb2]%Forall_app. rewrite b64_app.
  induction ts as [|[[a b] c] ts IH].
  - cbn [flat map concat app b64].
    destruct r as [|a [|b [|c r]]]; cbn [length] in *; [done|..|lia].
    + apply Forall_cons_1 in Hb2 as [Ha _]. ranges_of a 0 0. cbn [encodeByteArray b64].
      rewrite !Z.shiftr_div_pow2, !Z.shiftl_mul_pow2, land_3 by lia. pow_norm.
      by rewrite !goog_char by done.
    + apply Forall_cons_1 in Hb2 as [Ha Hb2]. apply Forall_cons_1 in Hb2 as [Hb _].
      ranges_of a b 0. unfold is_byte in *. cbn [encodeByteArray b64].
      rewrite land_3, land_15, lor_low by (rewrite ?Z.shiftr_div_pow2; pow_norm; euclid).
      rewrite !Z.shiftr_div_pow2, !Z.shiftl_mul_pow2 by lia. pow_norm.
      by rewrite !goog_char by done.
  - change (flat ((a, b, c) :: ts)) with ([a; b; c] ++ flat ts) in *.
    apply Forall_app in Hb1 as [Hh Hb1]. inversion_clear Hh as [|? ? Ha H]. inversion_clear H as [|? ? Hb' H'].
    inversion_clear H' as [|? ? Hc _]. ranges_of a b c. unfold is_byte in *.
    cbn [app encodeByteArray b64]. rewrite IH by done.
    rewrite land_3, land_15, land_63, !lor_low by (rewrite ?Z.shiftr_div_pow2; pow_norm; euclid).
    rewrite !Z.shiftr_div_pow2 by lia. pow_norm. by rewrite !goog_char by done.
Qed.

(** ** base64-js: decoding *)

Lemma b64_flat_length ts : length (b64 (flat ts)) = (4 * length ts)%nat.
Proof. induction ts as [|[[a b] c] ts IH]; [done|]. cbn in *. unfold flat in IH. lia. Qed.

Lemma digit_off p x k : 0 <= k -> digit (p ++ x) (Z.of_nat (length p) + k) = digit x k.
Proof. intros. unfold digit. by rewrite at_app_off. Qed.
Lemma digit_off0 p x : digit (p ++ x) (Z.of_nat (length p)) = digit x 0.
Proof. rewrite <-(digit_off p x 0), Z.add_0_r by lia. done. Qed.
Lemma digit_lookup v l : 0 <= v < 64 -> digit (lookup_ v :: l) 0 = v.
Proof. intros. unfold digit. by rewrite at_0, revLookup_lookup. Qed.
Lemma digit_skip x l k : 0 < k -> digit (x :: l) k = digit l (k - 1).
Proof. intros. unfold digit. by rewrite at_S. Qed.

(** Evaluate the digits of a group whose characters are known. *)
Ltac digits :=
  rewrite ?digit_off0, ?digit_off by lia; cbn [app]; rewrite ?digit_lookup by done;
  repeat (rewrite digit_skip by lia; change (1 - 1) with 0; change (2 - 1) with 1;
          change (3 - 1) with 2; rewrite ?digit_lookup by done).

(** Bytes put back together from the digits. *)
Lemma group_bytes v0 v1 v2 v3 : 0 <= v0 < 64 -> 0 <= v1 < 64 -> 0 <= v2 < 64 -> 0 <= v3 < 64 ->
  let tmp := Z.lor (Z.lor (Z.lor (Z.shiftl v0 18) (Z.shiftl v1 12)) (Z.shiftl v2 6)) v3 in
  Z.land (Z.shiftr tmp 16) 255 = v0 * 4 + v1 / 16 /\
  Z.land (Z.shiftr tmp 8) 255 = v1 mod 16 * 16 + v2 / 4 /\
  Z.land tmp 255 = v2 mod 4 * 64 + v3.
Proof.
  intros H0 H1 H2 H3 tmp. assert (Et : tmp = v0 * 262144 + v1 * 4096 + v2 * 64 + v3).
  { unfold tmp. rewrite <-!Z.lor_assoc.
    rewrite !lor_low by (rewrite ?lor_low; rewrite ?lor_low; pow_norm; lia). pow_norm. lia. }
  rewrite Et. change 255 with (Z.ones 8). rewrite !land_mask, !Z.shiftr_div_pow2 by lia. pow_norm.
  repeat split; euclid.
Qed.

Lemma toByteArray_flat ts : forall fuel p s e, Forall is_byte (flat ts) -> (length ts <= fuel)%nat ->
  Z.of_nat (length p + 4 * length ts) - 4 < e <= Z.of_nat (length p + 4 * length ts) ->
  toByteArray_loop fuel (p ++ b64 (flat ts) ++ s) (Z.of_nat (length p)) e
  = (flat ts, Z.of_nat (length p + length (b64 (flat ts)))).
Proof.
  induction ts as [|[[a b] c] ts IH]; intros fuel p s e Hb Hf He.
  - destruct fuel; cbn [toByteArray_loop]; cbn [length] in *; [by rewrite Nat.add_0_r|].
    rewrite (proj2 (Z.ltb_ge _ _)) by lia. by rewrite Nat.add_0_r.
  - destruct fuel; [cbn in Hf; lia|]. cbn [length] in *.
    change (flat ((a, b, c) :: ts)) with ([a; b; c] ++ flat ts) in *.
    apply Forall_app in Hb as [Hh Hb]. inversion_clear Hh as [|? ? Ha H]. inversion_clear H as [|? ? Hb' H'].
    inversion_clear H' as [|? ? Hc _]. ranges_of a b c.
    cbn [toByteArray_loop]. rewrite (proj2 (Z.ltb_lt _ _)) by lia.
    cbn [b64 app]. digits.
    destruct (group_bytes (a / 4) (a mod 4 * 16 + b / 16) (b mod 16 * 4 + c / 64) (c mod 64))
      as (E1 & E2 & E3); [done..|]. rewrite E1, E2, E3.
    specialize (IH fuel (p ++ [lookup_ (a / 4); lookup_ (a mod 4 * 16 + b / 16);
                               lookup_ (b mod 16 * 4 + c / 64); lookup_ (c mod 64)]) s e Hb ltac:(lia)).
    rewrite length_app, <-app_assoc in IH. cbn [length app] in IH.
    replace (Z.of_nat (length p) + 4) with (Z.of_nat (length p + 4)) by lia.
    rewrite IH by lia. cbn [length]. unfold is_byte in *. f_equal; [|lia].
    f_equal; [euclid|]. f_equal; [euclid|]. f_equal. euclid.
Qed.

Lemma index_of_app c l r : ~ In c l -> forall i, index_of c (l ++ r) i = index_of c r (i + Z.of_nat (length l)).
Proof.
  induction l as [|x l IH]; intros Hn i; cbn [app length index_of]; [f_equal; lia|].
  destruct (Z.eqb_spec x c); [cbn in Hn; tauto|]. rewrite IH by (cbn in Hn; tauto). f_equal. lia.
Qed.
Lemma b64_flat_no_pad ts : Forall is_byte (flat ts) -> ~ In 61 (b64 (flat ts)).
Proof.
  induction ts as [|[[a b] c] ts IH]; intros Hb; [cbn; tauto|].
  change (flat ((a, b, c) :: ts)) with ([a; b; c] ++ flat ts) in *.
  apply Forall_app in Hb as [Hh Hb]. inversion_clear Hh as [|? ? Ha H]. inversion_clear H as [|? ? Hb' H'].
  inversion_clear H' as [|? ? Hc _]. ranges_of a b c. cbn [app b64 In].
  intros [E|[E|[E|[E|E]]]]; [..|by apply IH]; by eapply lookup_not_pad; [|exact E].
Qed.

Lemma fill_all bs : fill (Z.of_nat (length bs)) bs = bs.
Proof. unfold fill. by rewrite Nat2Z.id, take_app_length. Qed.

Lemma index_of_none c l i : ~ In c l -> index_of c l i = None.
Proof. intros H. rewrite <-(app_nil_r l), index_of_app by done. done. Qed.

(** The lengths of a string of whole groups, one with two pads, one with one. *)
Lemma getLens_whole q : ~ In 61 q -> Z.of_nat (length q) mod 4 = 0 ->
  getLens q = Ret (Z.of_nat (length q), 0).
Proof.
  intros Hq Hl. unfold getLens. rewrite Hl, index_of_none by done. cbn. by rewrite Z.eqb_refl.
Qed.
Lemma getLens_two q i j : ~ In 61 q -> Z.of_nat (length q) mod 4 = 0 -> 0 <= i < 64 -> 0 <= j < 64 ->
  getLens (q ++ [lookup_ i; lookup_ j; 61; 61]) = Ret (Z.of_nat (length q) + 2, 2).
Proof.
  intros Hq Hl Hi Hj. unfold getLens. rewrite length_app. cbn [length].
  rewrite (proj2 (Z.ltb_ge 0 _)) by euclid. rewrite index_of_app by done. cbn [index_of].
  rewrite !(proj2 (Z.eqb_neq (lookup_ _) 61)), Z.eqb_refl by by apply lookup_not_pad. cbn [default id].
  rewrite (proj2 (Z.eqb_neq _ _)) by lia. apply (f_equal Ret), (f_equal2 pair); [lia|euclid].
Qed.
Lemma getLens_one q i j k : ~ In 61 q -> Z.of_nat (length q) mod 4 = 0 ->
  0 <= i < 64 -> 0 <= j < 64 -> 0 <= k < 64 ->
  getLens (q ++ [lookup_ i; lookup_ j; lookup_ k; 61]) = Ret (Z.of_nat (length q) + 3, 1).
Proof.
  intros Hq Hl Hi Hj Hk. unfold getLens. rewrite length_app. cbn [length].
  rewrite (proj2 (Z.ltb_ge 0 _)) by euclid. rewrite index_of_app by done. cbn [index_of].
  rewrite !(proj2 (Z.eqb_neq (lookup_ _) 61)), Z.eqb_refl by by apply lookup_not_pad. cbn [default id].
  rewrite (proj2 (Z.eqb_neq _ _)) by lia. apply (f_equal Ret), (f_equal2 pair); [lia|euclid].
Qed.


Lemma toByteArray_b64 bs : Forall is_byte bs -> toByteArray (b64 bs) = Ret bs.
Proof.
  destruct (triples bs) as (ts & r & -> & Hr). intros [Hb1 Hb2]%Forall_app. rewrite b64_app.
  pose proof (b64_flat_length ts) as Hl. pose proof (flat_length ts) as Hf.
  pose proof (b64_flat_no_pad ts Hb1) as Hn. set (q := b64 (flat ts)) in *.
  assert (Hl4 : Z.of_nat (length q) mod 4 = 0) by (rewrite Hl; euclid).
  assert (Hloop : forall s e, 4 * Z.of_nat (length ts) - 4 < e <= 4 * Z.of_nat (length ts) ->
    toByteArray_loop (length (q ++ s)) (q ++ s) 0 e = (flat ts, Z.of_nat (length q))).
  { intros s e He. pose proof (toByteArray_flat ts (length (q ++ s)) [] s e Hb1) as H.
    cbn [length app Nat.add Z.of_nat] in H. apply H; [|lia]. rewrite length_app. lia. }
  unfold toByteArray.
  destruct r as [|a [|b [|c r]]]; cbn [length] in *; [| | |lia]; cbn [b64].
  - rewrite !app_nil_r in *. rewrite getLens_whole by done. cbn [mbind outcome_bind].
    unfold byteLength_. rewrite (proj2 (Z.ltb_ge _ 0)) by euclid.
    specialize (Hloop [] (Z.of_nat (length q))). rewrite app_nil_r in Hloop.
    change (0 <? 0) with false. cbv iota. rewrite Hloop by lia.
    cbn [Z.eqb Pos.eqb]. rewrite app_nil_r. f_equal. etransitivity; [|apply fill_all]. f_equal. rewrite Hl, Hf. euclid.
  - apply Forall_cons_1 in Hb2 as [Ha _]. ranges_of a 0 0. unfold is_byte in Ha.
    rewrite getLens_two by done. cbn [mbind outcome_bind].
    unfold byteLength_. rewrite (proj2 (Z.ltb_ge _ 0)) by euclid.
    change (0 <? 2) with true. cbv iota. rewrite Hloop by lia. cbn [Z.eqb Pos.eqb]. digits.
    f_equal. etransitivity; [|apply fill_all]. rewrite length_app. cbn [length].
    f_equal; [rewrite Hl, Hf; euclid|]. do 2 f_equal.
    rewrite Z.shiftr_div_pow2, lor_low by (pow_norm; euclid). rewrite land_255. pow_norm. euclid.
  - apply Forall_cons_1 in Hb2 as [Ha Hb2]. apply Forall_cons_1 in Hb2 as [Hb _].
    ranges_of a b 0. unfold is_byte in Ha, Hb. rewrite getLens_one by done. cbn [mbind outcome_bind].
    unfold byteLength_. rewrite (proj2 (Z.ltb_ge _ 0)) by euclid.
    change (0 <? 1) with true. cbv iota. rewrite Hloop by lia. cbn [Z.eqb Pos.eqb]. digits.
    f_equal. etransitivity; [|apply fill_all]. rewrite length_app. cbn [length].
    f_equal; [rewrite Hl, Hf; euclid|]. rewrite <-Z.lor_assoc, !(Z.shiftr_div_pow2 _ 2), !lor_low
      by (rewrite ?lor_low; pow_norm; euclid).
    rewrite !land_255, !Z.shiftr_div_pow2 by lia. pow_norm. f_equal. f_equal; [euclid|]. f_equal. euclid.
Qed.

(** ** The Closure library: decoding *)

Lemma next_lookup v l d : 0 <= v < 64 -> next_value (lookup_ v :: l) d = Ret (v, l).
Proof. intros. cbn [next_value]. by rewrite goog_value. Qed.
Lemma next_pad l d : next_value (61 :: l) d = Ret (64, l).
Proof. done. Qed.

(** The shifts of the decoder on digits. *)
Lemma shl_digit v k : 0 <= v < 64 -> 0 <= k <= 6 -> shl v k = v * 2 ^ k.
Proof.
  intros Hv Hk. unfold shl. rewrite (i32_id v), Z.shiftl_mul_pow2 by lia. apply i32_id.
  pose proof (Z.pow_le_mono_r 2 k 6 ltac:(lia) ltac:(lia)). pose proof (Z.pow_pos_nonneg 2 k).
  change (2 ^ 6) with 64 in *. nia.
Qed.
Lemma sar_digit v k : 0 <= v < 64 -> 0 <= k -> sar v k = v / 2 ^ k.
Proof. intros. unfold sar. by rewrite i32_id, Z.shiftr_div_pow2 by lia. Qed.

Lemma shl_land v k m : 0 <= v < 64 -> 0 <= k <= 6 ->
  Z.land (shl v k) (Z.shiftl m k) = Z.shiftl (Z.land v m) k.
Proof. intros. rewrite shl_digit, <-Z.shiftl_mul_pow2, Z.shiftl_land by lia. done. Qed.

(** The three bytes of a group, as the callback gets them. *)
Lemma goog_bytes e f g h : 0 <= e < 64 -> 0 <= f < 64 -> 0 <= g < 64 -> 0 <= h < 64 ->
  Z.lor (shl e 2) (sar f 4) = e * 4 + f / 16 /\
  Z.lor (Z.land (shl f 4) 240) (sar g 2) = f mod 16 * 16 + g / 4 /\
  Z.lor (Z.land (shl g 6) 192) h = g mod 4 * 64 + h.
Proof.
  intros. change 240 with (Z.shiftl 15 4). change 192 with (Z.shiftl 3 6).
  rewrite !shl_land, !sar_digit, shl_digit, <-Z.shiftl_mul_pow2, land_15, land_3 by lia.
  rewrite !lor_low by (pow_norm; euclid). pow_norm. done.
Qed.

(** Run the decoder over a group of known characters. *)
Ltac group :=
  cbn [app b64 decodeStringInternal_]; rewrite ?next_lookup by done; cbn [mbind outcome_bind];
  rewrite ?next_lookup by done; cbn [mbind outcome_bind];
  rewrite ?next_lookup by done; rewrite ?next_pad; cbn [mbind outcome_bind];
  rewrite ?next_lookup by done; rewrite ?next_pad; cbn [mbind outcome_bind].

Lemma decode_flat ts : forall fuel s d, Forall is_byte (flat ts) ->
  decodeStringInternal_ fuel s = Ret d ->
  decodeStringInternal_ (length ts + fuel) (b64 (flat ts) ++ s) = Ret (flat ts ++ d).
Proof.
  induction ts as [|[[a b] c] ts IH]; intros fuel s d Hb Hd; [done|].
  change (flat ((a, b, c) :: ts)) with ([a; b; c] ++ flat ts) in *.
  apply Forall_app in Hb as [Hh Hb]. inversion_clear Hh as [|? ? Ha H]. inversion_clear H as [|? ? Hb' H'].
  inversion_clear H' as [|? ? Hc _]. ranges_of a b c. cbn [length Nat.add b64]. group.
  rewrite !(proj2 (Z.eqb_neq _ 64)) by lia. cbn [andb]. rewrite (IH fuel s d Hb Hd).
  cbn [mbind outcome_bind app]. do 2 f_equal;
    destruct (goog_bytes (a / 4) (a mod 4 * 16 + b / 16) (b mod 16 * 4 + c / 64) (c mod 64))
      as (E1 & E2 & E3); try done; rewrite ?E1, ?E2, ?E3; unfold is_byte in *; [euclid|].
  f_equal; [euclid|]. f_equal. euclid.
Qed.

Lemma decode_nothing fuel : decodeStringInternal_ (S fuel) [] = Ret [].
Proof. done. Qed.

Lemma decode_b64 bs fuel : Forall is_byte bs -> (length (b64 bs) < fuel)%nat ->
  decodeStringInternal_ fuel (b64 bs) = Ret bs.
Proof.
  destruct (triples bs) as (ts & r & -> & Hr). intros [Hb1 Hb2]%Forall_app. rewrite b64_app, length_app.
  rewrite b64_flat_length. intros Hf.
  assert (exists k, fuel = length ts + S (S k) \/ r = [] /\ fuel = length ts + S k)%nat as (k & Hk).
  { destruct r as [|a [|b [|c r]]]; cbn [length b64] in *; [| | |lia].
    - exists (fuel - length ts - 1)%nat. right. split; [done|lia].
    - exists (fuel - length ts - 2)%nat. left. lia.
    - exists (fuel - length ts - 2)%nat. left. lia. }
  destruct r as [|a [|b [|c r]]]; cbn [length] in *; [| | |lia]; cbn [b64].
  - assert (exists j, fuel = length ts + S j)%nat as (j & ->) by (exists (fuel - length ts - 1)%nat; lia).
    by apply decode_flat.
  - destruct Hk as [-> | []]; [|done]. apply decode_flat; [done|]. pose proof (decode_nothing k) as Hd.
    clear Hf. set (k' := S k) in *. clearbody k'.
    apply Forall_cons_1 in Hb2 as [Ha _]. ranges_of a 0 0. group.
    rewrite Z.eqb_refl, (proj2 (Z.eqb_neq _ (-1))) by lia. cbn [andb].
    rewrite Hd. cbn [mbind outcome_bind app].
    destruct (goog_bytes (a / 4) (a mod 4 * 16) 0 0) as (E1 & _); [lia..|]. rewrite E1.
    unfold is_byte in Ha. do 2 f_equal. euclid.
  - destruct Hk as [-> | []]; [|done]. apply decode_flat; [done|]. pose proof (decode_nothing k) as Hd.
    clear Hf. set (k' := S k) in *. clearbody k'.
    apply Forall_cons_1 in Hb2 as [Ha Hb2]. apply Forall_cons_1 in Hb2 as [Hb _]. ranges_of a b 0. group.
    rewrite Z.eqb_refl, (proj2 (Z.eqb_neq _ (-1))), (proj2 (Z.eqb_neq _ 64)) by lia. cbn [andb].
    rewrite Hd. cbn [mbind outcome_bind app].
    destruct (goog_bytes (a / 4) (a mod 4 * 16 + b / 16) (b mod 16 * 4) 0) as (E1 & E2 & _); [lia..|].
    rewrite E1, E2. unfold is_byte in Ha, Hb. do 2 f_equal; [euclid|]. f_equal. euclid.
Qed.

(** The array is as long as what is decoded. *)
Lemma b64_flat_char ts x : Forall is_byte (flat ts) -> In x (b64 (flat ts)) ->
  isPadding_ (Some x) = false.
Proof.
  intros Hb Hx.
  assert (Hi : forall i, 0 <= i < 64 -> isPadding_ (Some (lookup_ i)) = false).
  { intros i Hi. assert (H := below_64 (fun i => negb (isPadding_ (Some (lookup_ i)))) eq_refl i Hi).
    by apply negb_true_iff. }
  induction ts as [|[[a b] c] ts IH]; [done|].
  change (flat ((a, b, c) :: ts)) with ([a; b; c] ++ flat ts) in *.
  apply Forall_app in Hb as [Hh Hb]. inversion_clear Hh as [|? ? Ha H]. inversion_clear H as [|? ? Hb' H'].
  inversion_clear H' as [|? ? Hc _]. ranges_of a b c. cbn [app b64 In] in Hx.
  destruct Hx as [<-|[<-|[<-|[<-|Hx]]]]; auto.
Qed.
Lemma at_In l i x : at_ l i = Some x -> In x l.
Proof. unfold at_. destruct (i <? 0); [done|]. intros H%list_elem_of_lookup_2. by apply list_elem_of_In. Qed.

Lemma decoded_size_b64 bs : Forall is_byte bs -> decoded_size (b64 bs) = Z.of_nat (length bs).
Proof.
  destruct (triples bs) as (ts & r & -> & Hr). intros [Hb1 Hb2]%Forall_app. rewrite b64_app.
  pose proof (b64_flat_length ts) as Hl. pose proof (flat_length ts) as Hf. unfold decoded_size.
  assert (Hpad : forall k l, 0 <= k -> isPadding_ (at_ (b64 (flat ts) ++ l) (Z.of_nat (length (b64 (flat ts))) + k))
                 = isPadding_ (at_ l k)) by (intros; by rewrite at_app_off).
  assert (Hne : forall i, 0 <= i < 64 -> isPadding_ (Some (lookup_ i)) = false).
  { intros i Hi. assert (H := below_64 (fun i => negb (isPadding_ (Some (lookup_ i)))) eq_refl i Hi).
    by apply negb_true_iff. }
  rewrite !length_app, Hf.
  destruct r as [|a [|b [|c r]]]; cbn [length b64] in *; [| | |lia];
    rewrite ?app_nil_r, ?Nat.add_0_r, Hl, (proj2 (Z.eqb_eq _ 0)) by euclid; cbn [negb].
  - destruct (at_ (b64 (flat ts)) _) as [x|] eqn:E; [|cbn; euclid].
    rewrite (b64_flat_char ts x) by eauto using at_In. euclid.
  - replace (Z.of_nat (4 * length ts + 4) - 1) with (Z.of_nat (length (b64 (flat ts))) + 3) by lia.
    replace (Z.of_nat (4 * length ts + 4) - 2) with (Z.of_nat (length (b64 (flat ts))) + 2) by lia.
    rewrite !Hpad by lia. change (at_ [_; _; 61; 61] 3) with (Some 61).
    change (at_ [_; _; 61; 61] 2) with (Some 61). change (isPadding_ (Some 61)) with true. cbv iota. euclid.
  - apply Forall_cons_1 in Hb2 as [Ha Hb2]. apply Forall_cons_1 in Hb2 as [Hb _]. ranges_of a b 0.
    replace (Z.of_nat (4 * length ts + 4) - 1) with (Z.of_nat (length (b64 (flat ts))) + 3) by lia.
    replace (Z.of_nat (4 * length ts + 4) - 2) with (Z.of_nat (length (b64 (flat ts))) + 2) by lia.
    rewrite !Hpad by lia. change (at_ [_; _; _; 61] 3) with (Some 61).
    change (at_ [_; _; lookup_ (b mod 16 * 4); 61] 2) with (Some (lookup_ (b mod 16 * 4))).
    rewrite Hne by done. change (isPadding_ (Some 61)) with true. cbv iota. euclid.
Qed.

Lemma decodeStringToUint8Array_b64 bs : Forall is_byte bs ->
  decodeStringToUint8Array (b64 bs) = Ret bs.
Proof.
  intros Hb. unfold decodeStringToUint8Array. rewrite decode_b64 by (done || lia).
  cbn [mbind outcome_bind]. rewrite decoded_size_b64, Nat2Z.id, to_uint8_bytes, firstn_all by done. done.
Qed.

(** ** Both implementations *)

(** C32. base64-js, which encodes in chunks, and the Closure library both write the
    encoding of RFC 4648, and both read it back. *)
Theorem base64_agree bs : Forall is_byte bs ->
  fromByteArray bs = b64 bs /\ encodeByteArray bs 0 = b64 bs /\
  toByteArray (b64 bs) = Ret bs /\ decodeStringToUint8Array (b64 bs) = Ret bs.
Proof.
  intros Hb. split; [by apply fromByteArray_b64|]. split; [by apply encodeByteArray_b64|].
  split; [by apply toByteArray_b64|by apply decodeStringToUint8Array_b64].
Qed.
Lemma base64_agree_witness :
  fromByteArray [1; 2; 254; 255] = js "AQL+/w==" /\
  (fromByteArray [1; 2; 254; 255] = b64 [1; 2; 254; 255] /\
   encodeByteArray [1; 2; 254; 255] 0 = b64 [1; 2; 254; 255] /\
   toByteArray (b64 [1; 2; 254; 255]) = Ret [1; 2; 254; 255] /\
   decodeStringToUint8Array (b64 [1; 2; 254; 255]) = Ret [1; 2; 254; 255]).
Proof.
  split; [reflexivity|]. apply (base64_agree [1; 2; 254; 255]).
  repeat constructor; unfold is_byte; lia.
Defined.

Lemma index_of_bound c l : forall i k, index_of c l i = Some k ->
  i <= k < i + Z.of_nat (length l) /\ (k = i <-> head l = Some c).
Proof.
  induction l as [|x l IH]; intros i k; [done|]. cbn [index_of length head].
  destruct (Z.eqb_spec x c) as [->|Hx]; intros H; [simplify_eq; intuition lia|].
  apply IH in H as [H _]. split; [lia|]. split; [lia|]. intros E. congruence.
Qed.
Lemma index_of_head c l i : index_of c l i = None -> head l <> Some c.
Proof. destruct l as [|x l]; [done|]. cbn. destruct (Z.eqb_spec x c); [done|]. congruence. Qed.

(** [toByteArray] throws exactly on a length that is not a multiple of four and
    on a string that starts with padding; it always returns bytes otherwise,
    whatever the characters are. *)
Theorem toByteArray_throws s :
  match toByteArray s with
  | Ret _ => Z.of_nat (length s) mod 4 = 0 /\ head s <> Some 61
  | Throw _ => Z.of_nat (length s) mod 4 <> 0 \/ head s = Some 61
  | Running => False
  end.
Proof.
  unfold toByteArray, getLens.
  destruct (Z.ltb_spec 0 (Z.of_nat (length s) mod 4)) as [Hm|Hm]; [left; lia|].
  assert (Hm0 : Z.of_nat (length s) mod 4 = 0) by euclid.
  destruct (index_of 61 s 0) as [k|] eqn:E; cbn [default id mbind outcome_bind].
  - apply index_of_bound in E as [Hk Hh]. rewrite (proj2 (Z.eqb_neq k _)) by lia. unfold byteLength_.
    replace ((k + (4 - k mod 4)) * 3 / 4 - (4 - k mod 4)) with (k / 4 * 3 + k mod 4 - 1) by euclid.
    destruct (Z.ltb_spec (k / 4 * 3 + k mod 4 - 1) 0).
    + right. apply Hh. euclid.
    + destruct (toByteArray_loop _ _ _ _). split; [done|]. rewrite <-Hh. intros ->. euclid.
  - rewrite Z.eqb_refl. unfold byteLength_. rewrite (proj2 (Z.ltb_ge _ 0)) by euclid.
    destruct (toByteArray_loop _ _ _ _). eauto using index_of_head.
Qed.

(** Without the page's functions the text of bytes comes back. *)
Lemma string_bytes s : Forall is_byte s -> stringToByteArray s = s.
Proof.
  induction 1 as [|e s He _ IH]; [done|]. cbn [stringToByteArray]. rewrite IH. unfold is_byte in He.
  by rewrite (proj2 (Z.ltb_ge 255 e)) by lia.
Qed.
Lemma string_roundtrip s : Forall is_byte s ->
  exists t, encodeString None s 0 = Ret t /\ decodeString None t false = Ret s /\ decodeStringToByteArray t = Ret s.
Proof.
  intros Hs. exists (b64 s). unfold encodeString, decodeString, decodeStringToByteArray.
  rewrite string_bytes, encodeByteArray_b64, decode_b64 by (done || lia). split; [done|]. split; [|done]. cbn. f_equal.
  induction Hs as [|e s He _ IH]; [done|]. cbn. unfold is_byte in He. rewrite IH, Z.mod_small by lia. done.
Qed.
(** A text with other characters does not: they become bytes of their own. *)
Lemma wide_text_split : decodeString None (encodeByteArray (stringToByteArray [8364]) 0) false = Ret [172; 32].
Proof. reflexivity. Qed.

(** Four placeholders, which no encoder writes, are accepted: three bytes of
    text are read as two zero bytes. *)
Example four_placeholders : toByteArray (js "QUJD====") = Ret [0; 0].
Proof. reflexivity. Qed.
