(* ===== verification/BufferTextSpec.v ===== *)
(** The text encodings of the [buffer] package: its UTF-8 writer against the
    TextEncoder's, its reader, and the round trips of every encoding. *)

From S2P Require Import Prelude JsVal Int32 TextEncoding Utf8Step Utf8Spec Labels Wire WireReader WireSpec.
From S2P Require Import WireFields GoogBase64 Base64 Base64Spec BufferMem BufferText.

(** ** The UTF-8 writer *)

Definition is_lead (c : Z) : bool := (0xD7FF <? c) && (c <? 0xDC00).
(** The last two units are both lead surrogates. *)
Fixpoint ends_in_two_leads (s : jsstr) : bool :=
  match s with
  | a :: s' => match s' with [b] => is_lead a && is_lead b | _ => ends_in_two_leads s' end
  | [] => false
  end.
Definition lost (s : jsstr) : list Z := if ends_in_two_leads s then replacement else [].

Lemma ends_not_lead a s : is_lead a = false -> ends_in_two_leads (a :: s) = ends_in_two_leads s.
Proof. intros H. destruct s as [|b [|c s]]; cbn [ends_in_two_leads]; by rewrite ?H. Qed.
Lemma ends_cons a b c s : ends_in_two_leads (a :: b :: c :: s) = ends_in_two_leads (b :: c :: s).
Proof. done. Qed.

Lemma sar_unit c n : 0 <= c < 2 ^ 31 -> sar c n = Z.shiftr c n.
Proof. intros. unfold sar. rewrite i32_id by lia. done. Qed.

(** What the loop writes for one code point. *)
Definition piece (codePoint : Z) : list Z :=
  if codePoint <? 0x80 then [codePoint]
  else if codePoint <? 0x800 then [Z.lor (sar codePoint 6) 0xC0; Z.lor (Z.land codePoint 0x3F) 0x80]
  else if codePoint <? 0x10000 then
    [Z.lor (sar codePoint 12) 0xE0; Z.lor (Z.land (sar codePoint 6) 0x3F) 0x80;
     Z.lor (Z.land codePoint 0x3F) 0x80]
  else
    [Z.lor (sar codePoint 18) 0xF0; Z.lor (Z.land (sar codePoint 12) 0x3F) 0x80;
     Z.lor (Z.land (sar codePoint 6) 0x3F) 0x80; Z.lor (Z.land codePoint 0x3F) 0x80].
Lemma piece_utf8 cp : 0 <= cp < 0x110000 -> piece cp = utf8_bytes cp.
Proof.
  intros. unfold piece. rewrite !sar_unit by lia.
  destruct (Z.ltb_spec cp 0x80); [by rewrite utf8_bytes_1 by lia|].
  destruct (Z.ltb_spec cp 0x800); [by rewrite push_2 by lia|].
  destruct (Z.ltb_spec cp 0x10000); [by rewrite push_3 by lia|]. by rewrite push_4 by lia.
Qed.
Definition piece_size (cp : Z) : Z :=
  if cp <? 0x80 then 1 else if cp <? 0x800 then 2 else if cp <? 0x10000 then 3 else 4.
Lemma piece_length cp : Z.of_nat (length (piece cp)) = piece_size cp.
Proof. 
  unfold piece, piece_size.
  destruct (cp <? 0x80); [done|]. destruct (cp <? 0x800); [done|]. by destruct (cp <? 0x10000).
 Qed.

(** One round of the loop, by the kind of its unit. *)
Definition emit (units : option Z) (cp : Z) (rest : jsstr) : list Z :=
  if enough (minus units (piece_size cp)) then piece cp ++ utf8_loop (minus units (piece_size cp)) 0 rest else [].
Lemma utf8_loop_cons units lead c rest : utf8_loop units lead (c :: rest) =
  if (0xD7FF <? c) && (c <? 0xE000) then
    if lead =? 0 then
      if (0xDBFF <? c) || bool_decide (rest = [])
      then replaced units ++ utf8_loop (minus units 3) 0 rest
      else utf8_loop units c rest
    else if c <? 0xDC00
    then replaced units ++ utf8_loop (minus units 3) c rest
    else emit units (Z.lor (shl (lead - 0xD800) 10) (c - 0xDC00) + 0x10000) rest
  else if lead =? 0 then emit units c rest
  else replaced units ++ emit (minus units 3) c rest.
Proof. reflexivity. Qed.

Lemma pair_value lead c : 0xD800 <= lead < 0xDC00 -> 0xDC00 <= c < 0xE000 ->
  Z.lor (shl (lead - 0xD800) 10) (c - 0xDC00) + 0x10000
  = 0x10000 + Z.shiftl (Z.land lead 0x3FF) 10 + Z.land c 0x3FF.
Proof.
  intros Hl Hc. unfold shl. rewrite (i32_id (lead - 0xD800)) by lia.
  change 0x3FF with 1023. rewrite !land_1023, !Z.shiftl_mul_pow2 by lia.
  rewrite i32_id by (pow_norm; lia). rewrite lor_add_disjoint by (pow_norm; lia). pow_norm. euclid.
Qed.

Lemma utf8_concat_cons cp cps : utf8_concat (cp :: cps) = utf8_bytes cp ++ utf8_concat cps.
Proof. done. Qed.
Lemma replacement_utf8 : replacement = utf8_bytes 0xFFFD.
Proof. done. Qed.

Definition utf8_of (s : jsstr) : list Z := utf8_concat (stringToCodePoints s).

Lemma is_lead_true c : is_lead c = true <-> 0xD800 <= c < 0xDC00.
Proof. unfold is_lead. rewrite andb_true_iff, !Z.ltb_lt. lia. Qed.
Lemma is_lead_false c : is_lead c = false <-> ~ 0xD800 <= c < 0xDC00.
Proof. rewrite <-is_lead_true. by destruct (is_lead c). Qed.

(** The code points of a string, by its first unit. *)
Lemma utf8_of_plain c s : is_unit c -> ~ 0xD800 <= c < 0xE000 -> utf8_of (c :: s) = piece c ++ utf8_of s.
Proof.
  unfold is_unit. intros Hu Hc. unfold utf8_of. rewrite s2cp_cons, piece_utf8 by lia.
  destruct (Z.ltb_spec c 0xD800), (Z.ltb_spec 0xDFFF c); (lia || done).
Qed.
Lemma utf8_of_trail c s : 0xDC00 <= c < 0xE000 -> utf8_of (c :: s) = replacement ++ utf8_of s.
Proof. intros Hc. unfold utf8_of. rewrite s2cp_cons. by tests. Qed.
Lemma utf8_of_pair a b s : 0xD800 <= a < 0xDC00 -> 0xDC00 <= b < 0xE000 ->
  utf8_of (a :: b :: s) = piece (Z.lor (shl (a - 0xD800) 10) (b - 0xDC00) + 0x10000) ++ utf8_of s.
Proof.
  intros Ha Hb. unfold utf8_of. rewrite pair_value, piece_utf8, s2cp_cons by
    (try done; change 0x3FF with 1023; rewrite !land_1023, Z.shiftl_mul_pow2 by lia; pow_norm; euclid).
  by tests.
Qed.
Lemma utf8_of_lone a s : 0xD800 <= a < 0xDC00 -> (forall b s', s = b :: s' -> ~ 0xDC00 <= b < 0xE000) ->
  utf8_of (a :: s) = replacement ++ utf8_of s.
Proof.
  intros Ha Hs. unfold utf8_of. rewrite s2cp_cons. tests. destruct s as [|b s]; [done|].
  specialize (Hs b s eq_refl). destruct (Z.leb_spec 0xDC00 b), (Z.leb_spec b 0xDFFF); (lia || done).
Qed.

Lemma emit_None cp rest : emit None cp rest = piece cp ++ utf8_loop None 0 rest.
Proof. done. Qed.

(** The loop, with and without a lead surrogate in hand: it writes what the
    code points of the rest, the lead included, encode to, but for a lead that
    a second one follows at the very end. *)
Lemma utf8_loop_encodes s : Forall is_unit s ->
  utf8_loop None 0 s ++ lost s = utf8_of s /\
  forall lead, 0xD800 <= lead < 0xDC00 -> s <> [] ->
    utf8_loop None lead s ++ lost (lead :: s) = utf8_of (lead :: s).
Proof.
  induction 1 as [|c s Hc Hs [IH0 IH1]]; [done|].
  assert (Hlost : forall a, 0xD800 <= a < 0xDC00 -> ~ 0xD800 <= c < 0xDC00 -> lost (a :: c :: s) = lost s).
  { intros a Ha Hn%is_lead_false. unfold lost. destruct s as [|d s].
    - cbn [ends_in_two_leads]. by rewrite Hn, andb_false_r.
    - by rewrite ends_cons, ends_not_lead. }
  assert (Hlost1 : ~ 0xD800 <= c < 0xDC00 -> lost (c :: s) = lost s).
  { intros Hn%is_lead_false. unfold lost. by rewrite ends_not_lead. }
  split; [|intros lead Hl _]; rewrite utf8_loop_cons; cbn [minus option_map];
    change (replaced None) with replacement; rewrite !emit_None.
  - destruct (Z.ltb_spec 0xD7FF c), (Z.ltb_spec c 0xE000); cbn [andb];
      try (rewrite Z.eqb_refl, utf8_of_plain, <-app_assoc, Hlost1, IH0 by (done || lia); done).
    rewrite Z.eqb_refl. destruct (Z.ltb_spec 0xDBFF c); cbn [orb].
    + rewrite utf8_of_trail, <-app_assoc, Hlost1, IH0 by lia. done.
    + case_bool_decide as Es; [subst s; by rewrite utf8_of_lone by (done || lia)|]. by apply IH1; [lia|].
  - rewrite (proj2 (Z.eqb_neq lead 0)) by lia.
    destruct (Z.ltb_spec 0xD7FF c), (Z.ltb_spec c 0xE000); cbn [andb];
      try (rewrite Hlost, <-!app_assoc, IH0 by lia;
           rewrite utf8_of_lone by (try intros ? ? [= <- <-]; lia); rewrite utf8_of_plain by (done || lia); done).
    destruct (Z.ltb_spec c 0xDC00).
    + rewrite utf8_of_lone by (try intros ? ? [= <- <-]; lia). rewrite <-app_assoc. f_equal.
      destruct s as [|d s].
      * unfold lost. cbn [ends_in_two_leads]. rewrite !(proj2 (is_lead_true _)) by lia. cbn [andb].
        rewrite utf8_of_lone by (done || lia). by rewrite app_nil_r.
      * replace (lost (lead :: c :: d :: s)) with (lost (c :: d :: s)) by done. apply IH1; [lia|done].
    + rewrite Hlost, <-app_assoc, IH0, utf8_of_pair by lia. done.
Qed.

(** The writer never writes more than it is given room for; with room enough it
    is not cut off. *)
Lemma utf8_loop_units s : forall u lead, Z.of_nat (length (utf8_loop None lead s)) <= u ->
  utf8_loop (Some u) lead s = utf8_loop None lead s.
Proof.
  assert (Hemit : forall s u cp, (forall u lead, Z.of_nat (length (utf8_loop None lead s)) <= u ->
      utf8_loop (Some u) lead s = utf8_loop None lead s) ->
    Z.of_nat (length (emit None cp s)) <= u -> emit (Some u) cp s = emit None cp s).
  { intros s' u cp IH Hu. rewrite emit_None in *. rewrite length_app, Nat2Z.inj_add, piece_length in Hu.
    unfold emit. cbn [minus option_map enough]. rewrite (proj2 (Z.ltb_lt _ _)) by lia. by rewrite IH by lia. }
  induction s as [|c s IH]; intros u lead Hu; [done|]. rewrite utf8_loop_cons in Hu.
  change (replaced None) with replacement in Hu. cbn [minus option_map] in *.
  assert (Hr : forall l, Z.of_nat (length (replacement ++ l)) <= u ->
            replaced (Some u) = replacement /\ Z.of_nat (length l) <= u - 3).
  { intros l Hl. rewrite length_app in Hl. cbn [length replacement] in Hl.
    unfold replaced. cbn [minus option_map enough]. rewrite (proj2 (Z.ltb_lt _ _)) by lia. split; [done|lia]. }
  rewrite !utf8_loop_cons. change (replaced None) with replacement. cbn [minus option_map].
  repeat case_match; try (apply Hr in Hu as [-> Hu]; f_equal); auto.
Qed.

(** [utf8ToBytes] writes what the TextEncoder writes, but for a string that
    ends in two lead surrogates: of those it replaces the first only. *)
Theorem utf8ToBytes_encodes s : Forall is_unit s ->
  encode s false = Ret (utf8ToBytes s None ++ lost s).
Proof.
  intros Hs. rewrite encode_concat by done. unfold utf8ToBytes.
  by rewrite (proj1 (utf8_loop_encodes s Hs)).
Qed.
Lemma utf8ToBytes_encodes_witness :
  utf8ToBytes (js "a" ++ [0xD800; 0xD801]) None = js "a" ++ replacement /\
  encode (js "a" ++ [0xD800; 0xD801]) false
  = Ret (utf8ToBytes (js "a" ++ [0xD800; 0xD801]) None ++ lost (js "a" ++ [0xD800; 0xD801])).
Proof.
  split; [reflexivity|]. apply (utf8ToBytes_encodes (js "a" ++ [0xD800; 0xD801])).
  repeat constructor; unfold is_unit; lia.
Defined.

Lemma utf8ToBytes_room s u : Z.of_nat (length (utf8ToBytes s None)) <= u ->
  utf8ToBytes s (Some u) = utf8ToBytes s None.
Proof.
  intros Hu. unfold utf8ToBytes in *. destruct (Z.eqb_spec u 0) as [->|Hn]; [done|].
  destruct u; [done|..]; by apply utf8_loop_units.
Qed.

Lemma well_formed_no_lost s : well_formed s = true -> lost s = [].
Proof.
  unfold lost. induction s as [|a s IH IH2] using jsstr_pair_ind; [done|]. cbn [well_formed].
  destruct (inRange a 0xD800 0xDBFF) eqn:Ea.
  - destruct s as [|d s]; [done|]. intros [Hd Hs]%andb_true_iff. apply inRange_true in Hd.
    assert (Hn : is_lead d = false) by (apply is_lead_false; lia).
    destruct s as [|e s]; [cbn; by rewrite Hn, andb_false_r|]. rewrite ends_cons, ends_not_lead by done.
    by apply (IH2 d).
  - intros [_ Hs]%andb_true_iff. apply inRange_false in Ea. rewrite ends_not_lead by (apply is_lead_false; lia).
    by apply IH.
Qed.
Lemma utf8ToBytes_utf8 s : well_formed s = true -> utf8ToBytes s None = utf8_of s.
Proof.
  intros Hs. rewrite <-(proj1 (utf8_loop_encodes s (well_formed_unit _ Hs))).
  by rewrite well_formed_no_lost, app_nil_r.
Qed.

(** ** The UTF-8 reader *)

Lemma shl_small x n : 0 <= n -> 0 <= x -> x * 2 ^ n < 2 ^ 31 -> shl x n = Z.shiftl x n.
Proof.
  intros Hn Hx Hb. unfold shl. assert (0 < 2 ^ n) by (by apply Z.pow_pos_nonneg).
  rewrite (i32_id x) by nia. rewrite Z.shiftl_mul_pow2, i32_id by nia. done.
Qed.
Lemma trail_byte x : 0x80 <= x < 0xC0 -> trail (Some x) = true.
Proof.
  intros Hx. unfold trail, band. apply Z.eqb_eq.
  assert (Hs : Z.of_nat (Z.to_nat x) = x) by lia. rewrite <-Hs.
  assert (Hin : (Z.to_nat x - 128 < 64)%nat) by lia. replace (Z.to_nat x) with (128 + (Z.to_nat x - 128))%nat by lia.
  revert Hin. generalize (Z.to_nat x - 128)%nat. clear. intros n Hn.
  do 64 (destruct n as [|n]; [reflexivity|]). lia.
Qed.

(** At the encoding of a code point the reader finds that code point. *)
Lemma sequence_utf8 cp rest : is_scalar cp ->
  sequence (utf8_bytes cp ++ rest) = Some (cp, length (utf8_bytes cp)).
Proof.
  intros Hs. pattern (utf8_bytes cp). apply utf8_bytes_cases; [done|..]; intros Hc;
    cbn [app length sequence]; tests.
  - done.
  - cbn [length Nat.ltb Nat.leb lookup list_lookup]. rewrite trail_byte by euclid. cbn [band]. masks.
    change 0x1F with 31. change 0x3F with 63. masks.
    replace ((192 + cp / 64) mod 32) with (cp / 64) by euclid.
    replace ((128 + cp mod 64) mod 64) with (cp mod 64) by euclid.
    rewrite shl_small, lor_shiftl' by (pow_norm; euclid). pow_norm.
    replace (cp / 64 * 64 + cp mod 64) with cp by euclid. by tests.
  - cbn [length Nat.ltb Nat.leb lookup list_lookup]. rewrite !trail_byte by euclid. cbn [band andb].
    change 0xF with 15. change 0x3F with 63. masks.
    replace ((224 + cp / 4096) mod 16) with (cp / 4096) by euclid.
    replace ((128 + (cp / 64) mod 64) mod 64) with ((cp / 64) mod 64) by euclid.
    replace ((128 + cp mod 64) mod 64) with (cp mod 64) by euclid.
    rewrite !shl_small, <-Z.lor_assoc by (pow_norm; euclid).
    rewrite !lor_shiftl' by (rewrite ?lor_shiftl'; pow_norm; euclid). pow_norm.
    replace (cp / 4096 * 4096 + (cp / 64 mod 64 * 64 + cp mod 64)) with cp by euclid.
    unfold is_scalar in Hs. destruct (Z.ltb_spec 0x7FF cp), (Z.ltb_spec cp 0xD800), (Z.ltb_spec 0xDFFF cp);
      (lia || done).
  - cbn [length Nat.ltb Nat.leb lookup list_lookup]. rewrite !trail_byte by euclid. cbn [band andb].
    change 0xF with 15. change 0x3F with 63. masks.
    replace ((240 + cp / 262144) mod 16) with (cp / 262144) by euclid.
    replace ((128 + (cp / 4096) mod 64) mod 64) with ((cp / 4096) mod 64) by euclid.
    replace ((128 + (cp / 64) mod 64) mod 64) with ((cp / 64) mod 64) by euclid.
    replace ((128 + cp mod 64) mod 64) with (cp mod 64) by euclid.
    rewrite !shl_small, <-!Z.lor_assoc by (pow_norm; euclid).
    rewrite !lor_shiftl' by (rewrite ?lor_shiftl'; rewrite ?lor_shiftl'; pow_norm; euclid). pow_norm.
    replace (_ + _) with cp by euclid. by tests.
Qed.

(** The units the reader pushes for a code point. *)
Lemma units_of cp : is_scalar cp ->
  (if 0xFFFF <? cp then
     [Z.lor (Z.land (shr (cp - 0x10000) 10) 0x3FF) 0xD800; Z.lor 0xDC00 (Z.land (cp - 0x10000) 0x3FF)]
   else [cp]) = codePointsToString [cp].
Proof.
  unfold is_scalar. intros Hs. cbn [codePointsToString]. destruct (Z.ltb_spec 0xFFFF cp); [|by tests].
  rewrite (proj2 (Z.leb_gt cp 0xFFFF)) by lia. cbv zeta. unfold shr. rewrite u32_id by lia.
  change 0x3FF with 1023. masks. rewrite !Z.shiftr_div_pow2 by lia. pow_norm.
  rewrite Z.mod_small by euclid. change 0xD800 with (54 * 2 ^ 10). change 0xDC00 with (55 * 2 ^ 10).
  rewrite lor_add_disjoint by (pow_norm; euclid). rewrite lead_byte by (pow_norm; euclid).
  pow_norm. repeat (f_equal; try lia).
Qed.

Lemma utf8_res_scalars cps : Forall is_scalar cps -> forall fuel,
  (length (utf8_concat cps) <= fuel)%nat -> utf8_res fuel (utf8_concat cps) = codePointsToString cps.
Proof.
  induction 1 as [|cp cps Hs Hcps IH]; intros fuel Hf; [by destruct fuel|].
  rewrite utf8_concat_cons in *. pose proof (utf8_bytes_length cp Hs) as Hl. rewrite length_app in Hf.
  destruct fuel as [|fuel]; [lia|].
  change (cp :: cps) with ([cp] ++ cps). rewrite cp2s_app, <-units_of by done.
  destruct (utf8_bytes cp ++ utf8_concat cps) as [|b l] eqn:E.
  { destruct (utf8_bytes cp); [cbn in Hl; lia|done]. }
  cbn [utf8_res]. rewrite <-E, sequence_utf8 by done. by rewrite drop_app_length, IH by lia.
Qed.

Lemma char_codes_unit l : Forall is_unit l -> char_codes l = l.
Proof. apply fromCharCode_unit. Qed.
Lemma decode_chunks_unit fuel : forall l, Forall is_unit l -> (length l <= fuel)%nat -> decode_chunks fuel l = l.
Proof.
  induction fuel as [|fuel IH]; intros [|u l] Hl Hf; [done|cbn in Hf; lia|done|].
  cbn [decode_chunks]. rewrite char_codes_unit by (by apply Forall_take).
  rewrite IH, take_drop; [done|by apply Forall_drop|]. rewrite length_drop.
  unfold MAX_ARGUMENTS_LENGTH. cbn [length] in *. lia.
Qed.
(** The chunks of [decodeCodePointsArray] make no difference. *)
Lemma decodeCodePointsArray_unit l : Forall is_unit l -> decodeCodePointsArray l = l.
Proof.
  intros Hl. unfold decodeCodePointsArray. case_match; [by apply char_codes_unit|by apply decode_chunks_unit].
Qed.

Lemma range_all l : range l 0 (Z.of_nat (length l)) = l.
Proof. unfold range. cbn [Z.to_nat drop]. apply take_ge. lia. Qed.
Lemma range_min l : range l 0 (Z.min (Z.of_nat (length l)) (Z.of_nat (length l))) = l.
Proof. by rewrite Z.min_id, range_all. Qed.

(** What the writer writes, the reader reads. *)
Lemma utf8Slice_utf8 s : well_formed s = true ->
  utf8Slice (utf8_of s) 0 (Z.of_nat (length (utf8_of s))) = s.
Proof.
  intros Hs. unfold utf8Slice. cbv zeta. rewrite range_min. unfold utf8_of.
  rewrite utf8_res_scalars by (done || by apply s2cp_scalar, well_formed_unit).
  rewrite cp2s_s2cp by done. by apply decodeCodePointsArray_unit, well_formed_unit.
Qed.

(** ** The other encodings *)

Lemma asciiToBytes_byte s : Forall is_byte s -> asciiToBytes s = s.
Proof.
  induction 1 as [|c s Hc _ IH]; [done|]. cbn. rewrite land_255.
  unfold is_byte in Hc. rewrite Z.mod_small by lia. f_equal. apply IH.
Qed.
Lemma asciiSlice_ascii s : Forall (fun c => 0 <= c < 128) s -> asciiSlice s 0 (Z.of_nat (length s)) = s.
Proof.
  intros Hs. unfold asciiSlice. rewrite range_min. induction Hs as [|c s Hc _ IH]; [done|].
  cbn. rewrite land_127, Z.mod_small by lia. f_equal. apply IH.
Qed.

Definition ucs2_bytes (s : jsstr) : list Z := utf16leToBytes s None.
Lemma ucs2_length s : length (ucs2_bytes s) = (2 * length s)%nat.
Proof. unfold ucs2_bytes. induction s as [|c s IH]; [done|]. cbn in *. lia. Qed.
Lemma ucs2_room s : forall u, 2 * Z.of_nat (length s) <= u -> utf16leToBytes s (Some u) = ucs2_bytes s.
Proof.
  unfold ucs2_bytes. induction s as [|c s IH]; intros u Hu; [done|]. cbn [utf16leToBytes minus option_map enough].
  cbn [length] in Hu. rewrite (proj2 (Z.ltb_lt _ _)) by lia. by rewrite IH by lia.
Qed.
Lemma ucs2_back s : Forall is_unit s -> utf16le_units (ucs2_bytes s) = s.
Proof.
  unfold ucs2_bytes. induction 1 as [|c s Hc _ IH]; [done|]. cbn [utf16leToBytes minus option_map enough utf16le_units].
  rewrite IH. f_equal. unfold is_unit in Hc. rewrite sar_unit, Z.shiftr_div_pow2 by lia. pow_norm. euclid.
Qed.
Lemma ucs2_byte s : Forall is_unit s -> Forall is_byte (ucs2_bytes s).
Proof.
  unfold ucs2_bytes. induction 1 as [|c s Hc _ IH]; [done|]. cbn [utf16leToBytes minus option_map enough].
  unfold is_unit in Hc. rewrite sar_unit, Z.shiftr_div_pow2 by lia.
  constructor; [|constructor; [|exact IH]]; unfold is_byte; pow_norm; euclid.
Qed.

(** *** Hexadecimal *)

Lemma hex_pair b : is_byte b ->
  hexSliceLookupTable b = [default 0 (at_ alphabet (b / 16)); default 0 (at_ alphabet (b mod 16))] /\
  parseInt16 (hexSliceLookupTable b) = Some b.
Proof.
  intros Hb. split; [done|]. unfold is_byte in Hb. rewrite <-(Z2Nat.id b) by lia.
  assert (Hn : (Z.to_nat b < 256)%nat) by lia. revert Hn. generalize (Z.to_nat b). clear. intros n Hn.
  assert (H : forallb (fun n => bool_decide (parseInt16 (hexSliceLookupTable (Z.of_nat n)) = Some (Z.of_nat n))) (seq 0 256) = true)
    by (vm_compute; reflexivity).
  rewrite forallb_forall in H. apply (bool_decide_unpack _), Is_true_true_2, H, in_seq. lia.
Qed.
Definition hex_of (bs : list Z) : jsstr := concat (map hexSliceLookupTable bs).
Lemma hex_length bs : length (hex_of bs) = (2 * length bs)%nat.
Proof. unfold hex_of. induction bs as [|b bs IH]; [done|]. cbn in *. lia. Qed.
Lemma hexSlice_all bs : hexSlice bs 0 (Z.of_nat (length bs)) = hex_of bs.
Proof.
  unfold hexSlice. cbv zeta. cbn [Z.ltb Z.compare]. rewrite Z.ltb_irrefl, orb_false_r.
  destruct (_ <=? 0); by rewrite range_all.
Qed.

(** *** Base64 *)

Lemma base64_characters c : base64_character c = true -> c <> 61 /\ is_space c = false.
Proof.
  unfold base64_character. rewrite !orb_true_iff, !Z.eqb_eq, !inRange_true. intros Hc.
  split; [lia|]. unfold is_space. apply orb_false_iff. split.
  - apply bool_decide_eq_false_2. intros Hin. repeat (apply elem_of_cons in Hin as [->|Hin]; [lia|]).
    by apply not_elem_of_nil in Hin.
  - apply andb_false_iff. rewrite !Z.leb_gt. lia.
Qed.
Lemma lookup_base64 i : 0 <= i < 64 -> base64_character (lookup_ i) = true.
Proof. apply (below_64 (fun i => base64_character (lookup_ i))). reflexivity. Qed.

Abbreviation in_alphabet q := (Forall (fun c => base64_character c = true) q).

(** An encoded text is characters of the alphabet and at most two placeholders. *)
Lemma b64_triples ts : Forall is_byte (flat ts) -> in_alphabet (b64 (flat ts)).
Proof.
  induction ts as [|[[a b] c] ts IH]; intros Hb; [done|].
  change (flat ((a, b, c) :: ts)) with ([a; b; c] ++ flat ts) in *.
  apply Forall_app in Hb as [Hh Hb]. rewrite !Forall_cons_iff in Hh. destruct_and! Hh. ranges_of a b c.
  cbn [app b64]. repeat (constructor; [by apply lookup_base64|]). by apply IH.
Qed.
Lemma b64_shape bs : Forall is_byte bs -> exists q k,
  b64 bs = q ++ replicate k 61 /\ in_alphabet q /\ (k < 3)%nat /\
  (length q + k = 4 * ((length q + k) / 4))%nat /\ (bs <> [] -> (2 <= length q)%nat).
Proof.
  destruct (triples bs) as (ts & r & -> & Hr). intros [Hb1 Hb2]%Forall_app. rewrite b64_app.
  pose proof (b64_flat_length ts) as Hl. pose proof (b64_triples ts Hb1) as Ha. pose proof (flat_length ts) as Hf.
  generalize dependent (b64 (flat ts)). intros q Hl Ha.
  assert (Hdiv : forall n, (length q + 4 * n = 4 * ((length q + 4 * n) / 4))%nat).
  { intros n. rewrite Hl, <-Nat.mul_add_distr_l. rewrite (Nat.mul_comm 4), Nat.div_mul by done. lia. }
  destruct r as [|a [|b [|? r]]]; [| | |cbn in Hr; lia].
  - exists q, 0%nat. cbn [replicate b64]. repeat split; [done|lia|apply (Hdiv 0%nat)|].
    intros Hne. destruct ts; [done|]. cbn [length] in Hl. lia.
  - rewrite Forall_cons_iff in Hb2. destruct Hb2 as [Hx _]. pose proof byte_0. ranges_of a 0 0. cbn [b64].
    exists (q ++ [lookup_ (a / 4); lookup_ (a mod 4 * 16)]), 2%nat. rewrite <-app_assoc, length_app. cbn [length].
    repeat split; [|lia| |lia].
    + apply Forall_app. split; [done|]. repeat constructor; by apply lookup_base64.
    + rewrite <-Nat.add_assoc. apply (Hdiv 1%nat).
  - rewrite !Forall_cons_iff in Hb2. destruct_and! Hb2. pose proof byte_0. ranges_of a b 0. cbn [b64].
    exists (q ++ [lookup_ (a / 4); lookup_ (a mod 4 * 16 + b / 16); lookup_ (b mod 16 * 4)]), 1%nat.
    rewrite <-app_assoc, length_app. cbn [length]. repeat split; [|lia| |lia].
    + apply Forall_app. split; [done|]. repeat constructor; by apply lookup_base64.
    + rewrite <-Nat.add_assoc. apply (Hdiv 1%nat).
Qed.

Lemma before_equals_alphabet q s : in_alphabet q -> before_equals (q ++ replicate s 61) = q.
Proof.
  induction 1 as [|c q Hc _ IH]; [by destruct s|]. cbn [app before_equals].
  destruct (Z.eqb_spec c 61) as [->|_]; [by apply base64_characters in Hc as [? _]|]. by rewrite IH.
Qed.
Lemma trim_start_alphabet q : in_alphabet q -> trim_start q = q.
Proof. destruct 1 as [|c q Hc _]; [done|]. cbn. by rewrite (proj2 (base64_characters c Hc)). Qed.
Lemma trim_alphabet q : in_alphabet q -> trim q = q.
Proof.
  intros Hq. unfold trim. rewrite (trim_start_alphabet q), (trim_start_alphabet (reverse q)) by (by rewrite ?Forall_reverse).
  apply reverse_involutive.
Qed.
Lemma filter_alphabet q : in_alphabet q -> List.filter base64_character q = q.
Proof. induction 1 as [|c q Hc _ IH]; [done|]. cbn. by rewrite Hc, IH. Qed.
Lemma pad_replicate k : forall fuel q, (k <= fuel)%nat -> (k < 4)%nat -> (length q + k = 4 * ((length q + k) / 4))%nat ->
  pad fuel q = q ++ replicate k 61.
Proof.
  induction k as [|k IH]; intros fuel q Hk H3 Hq.
  - rewrite Nat.add_0_r in Hq. rewrite app_nil_r. destruct fuel; [done|]. cbn [pad].
    by rewrite (proj2 (Z.eqb_eq _ 0)) by (rewrite Hq, Nat2Z.inj_mul, Z.mul_comm; apply Z_mod_mult).
  - destruct fuel as [|fuel]; [lia|]. cbn [pad].
    rewrite (proj2 (Z.eqb_neq _ 0)).
    + rewrite IH; [by rewrite <-app_assoc|lia|lia|]. rewrite length_app. cbn [length].
      replace (length q + 1 + k)%nat with (length q + S k)%nat by lia. done.
    + intros E. apply Z.mod_divide in E as [z E]; [|done]. revert E Hq.
      generalize ((length q + S k) / 4)%nat. intros n E Hq. lia.
Qed.
(** [base64clean] does nothing to an encoded text. *)
Lemma base64clean_b64 bs : Forall is_byte bs -> base64clean (b64 bs) = b64 bs.
Proof.
  intros Hb. destruct bs as [|b0 bs]; [done|].
  destruct (b64_shape _ Hb) as (q & k & E & Hq & Hk & Hd & Hl). rewrite E. unfold base64clean.
  rewrite before_equals_alphabet, trim_alphabet, filter_alphabet by done. cbv zeta.
  specialize (Hl ltac:(done)). rewrite (proj2 (Z.ltb_ge _ 2)) by lia. apply pad_replicate; [lia|lia|done].
Qed.
Lemma base64ToBytes_b64 bs : Forall is_byte bs -> base64ToBytes (b64 bs) = Ret bs.
Proof. intros Hb. unfold base64ToBytes. by rewrite base64clean_b64, toByteArray_b64. Qed.
Lemma base64Slice_all bs : Forall is_byte bs -> base64Slice bs 0 (Z.of_nat (length bs)) = b64 bs.
Proof. intros Hb. unfold base64Slice. rewrite !Z.eqb_refl. by apply fromByteArray_b64. Qed.
