(* ===== verification/BufferSpec.v ===== *)
(** The [buffer] package's operations: text to bytes and back in every
    encoding, [copy] and [slice] as memory moves, and the order of [compare]. *)

From S2P Require Import Prelude JsVal Int32 TextEncoding Utf8Step Utf8Spec Labels WireSpec Base64 Base64Spec.
From S2P Require Import BufferMem BufferText Buffer BufferMemSpec BufferTextSpec.

(** A new view [b] with the bytes [bs], and everything older untouched. *)
Definition fresh (b : view) (bs : list Z) (m m' : mem) : Prop :=
  valid b m' /\ bytes b m' = bs /\
  forall c, valid c m -> valid c m' /\ bytes c m' = bytes c m /\ v_buffer c <> v_buffer b.

(** ** Storing text *)

Lemma blitBuffer_all src dst : forall i offset n m, 0 <= i -> 0 <= offset ->
  i + Z.of_nat (length src) <= n -> i + offset + Z.of_nat (length src) <= len dst ->
  blitBuffer src dst i offset n m
  = (Ret (i + Z.of_nat (length src)), stored_all dst (i + offset) src m).
Proof.
  induction src as [|x src IH]; intros i offset n m Hi Ho Hn Hl; cbn [blitBuffer stored_all length] in *.
  { unfold mret, BM_ret. do 2 f_equal. lia. }
  rewrite (proj2 (Z.ltb_lt i n)), (proj2 (Z.leb_gt (len dst) (i + offset))) by lia. cbn [andb negb].
  unfold mbind, BM_bind. rewrite put_stored, IH by lia. do 2 f_equal; lia.
Qed.

(** The string of hexadecimal digits that [hexWrite] reads pair by pair. *)
Lemma hex_of_app p l : hex_of (p ++ l) = hex_of p ++ hex_of l.
Proof. unfold hex_of. by rewrite map_app, concat_app. Qed.
Lemma hex_loop_all dst offset l : Forall is_byte l -> forall fuel p m,
  (length l <= fuel)%nat -> 0 <= offset -> offset + Z.of_nat (length p + length l) <= len dst ->
  hex_loop fuel dst (hex_of (p ++ l)) offset (Z.of_nat (length p)) (2 * Z.of_nat (length (p ++ l))) m
  = (Ret (Z.of_nat (length (p ++ l))), stored_all dst (offset + Z.of_nat (length p)) l m).
Proof.
  induction 1 as [|b l Hb Hl IH]; intros fuel p m Hf Ho Hlen.
  { rewrite app_nil_r. destruct fuel; cbn [hex_loop]; [done|]. by rewrite Z.ltb_irrefl. }
  destruct fuel as [|fuel]; [cbn in Hf; lia|]. cbn [hex_loop stored_all length] in *.
  rewrite (proj2 (Z.ltb_lt _ _)) by (rewrite length_app; cbn [length]; lia).
  replace (substr (hex_of (p ++ b :: l)) (Z.of_nat (length p) * 2) 2) with (hexSliceLookupTable b).
  2: { rewrite hex_of_app. unfold substr. rewrite drop_app_length'; [done|]. rewrite hex_length. lia. }
  rewrite (proj2 (hex_pair b Hb)). unfold mbind, BM_bind. rewrite put_stored.
  pose proof (IH fuel (p ++ [b])) as E. rewrite <-app_assoc in E. cbn [app] in E.
  replace (Z.of_nat (length p) + 1) with (Z.of_nat (length (p ++ [b]))) by (rewrite length_app; cbn; lia).
  rewrite E by (rewrite ?length_app; cbn [length]; lia). do 2 f_equal; rewrite length_app; cbn [length]; lia.
Qed.

(** ** Every encoding, from text to bytes and back *)

(** In the encoding [e] the text [s] is the bytes [bs]. *)
Inductive encoded : enc -> jsstr -> list Z -> Prop :=
  | enc_utf8 s : well_formed s = true -> encoded Utf8 s (utf8_of s)
  | enc_ascii s : Forall (fun c => 0 <= c < 128) s -> encoded Ascii s s
  | enc_latin1 s : Forall is_byte s -> encoded Latin1 s s
  | enc_ucs2 s : Forall is_unit s -> encoded Ucs2 s (ucs2_bytes s)
  | enc_hex bs : Forall is_byte bs -> encoded Hex (hex_of bs) bs
  | enc_base64 bs : Forall is_byte bs -> encoded BufferText.Base64 (b64 bs) bs.

Lemma ascii_byte s : Forall (fun c => 0 <= c < 128) s -> Forall is_byte s.
Proof. apply Forall_impl. unfold is_byte. lia. Qed.
Lemma encoded_byte e s bs : encoded e s bs -> Forall is_byte bs.
Proof.
  destruct 1; auto using ascii_byte, ucs2_byte. unfold utf8_of.
  by apply utf8_concat_byte, s2cp_scalar, well_formed_unit.
Qed.
Lemma b64_nil bs : b64 bs = [] -> bs = [].
Proof. by destruct bs as [|? [|? [|? ?]]]. Qed.
Lemma hex_nil bs : hex_of bs = [] -> bs = [].
Proof. by destruct bs. Qed.
Lemma utf8_of_nil s : well_formed s = true -> utf8_of s = [] -> s = [].
Proof.
  intros Hs E. rewrite <-(cp2s_s2cp s Hs). pose proof (s2cp_scalar s (well_formed_unit s Hs)) as Hc.
  unfold utf8_of in E. destruct (stringToCodePoints s) as [|cp cps]; [done|]. inv Hc.
  rewrite utf8_concat_cons in E. apply app_eq_nil in E as [E _]. by apply utf8_bytes_ne in E.
Qed.
Lemma encoded_nil e s bs : encoded e s bs -> (s = [] <-> bs = []).
Proof. destruct 1; split; intros E; subst; auto using b64_nil, hex_nil, utf8_of_nil. by destruct s. Qed.

(** The names of an encoding, in any case. *)
Lemma encoding_case_lower name e : encoding_case name = Some e -> toLowerCase name = name.
Proof.
  unfold encoding_case. destruct (List.find _ _) as [[l e']|] eqn:E; [|done]. intros _.
  apply find_some in E as [Hin Hn]. apply bool_decide_eq_true in Hn. cbn in Hn. subst l.
  repeat (destruct Hin as [[= <- _]|Hin]; [reflexivity|]). done.
Qed.
Lemma encoding_of_lower name e : encoding_of name = Some e -> encoding_case (toLowerCase name) = Some e.
Proof.
  unfold encoding_of. destruct (encoding_case name) as [e'|] eqn:E; [|done].
  by rewrite (encoding_case_lower name e' E), E.
Qed.
Lemma encoding_of_ne name e : encoding_of name = Some e -> name <> [].
Proof. intros H ->. vm_compute in H. done. Qed.

(** [byteLength] announces the number of bytes. *)
Lemma byteLength_encoded e s bs name m : encoded e s bs -> encoding_of name = Some e ->
  Z.of_nat (length bs) < 2 ^ 31 ->
  byteLength (VStr s) (VStr name) false m = (Ret (Z.of_nat (length bs)), m).
Proof.
  intros He Hn Hl. unfold byteLength. cbn [negb andb v_encoding]. rewrite Hn.
  destruct (Z.eqb_spec (Z.of_nat (length s)) 0) as [E|_].
  { assert (s = []) as Es by (destruct s; [done|cbn in E; lia]). apply (encoded_nil e s bs He) in Es. by subst. }
  destruct He; cbn [mret].
  - unfold mret, BM_ret. by rewrite utf8ToBytes_utf8.
  - done.
  - done.
  - unfold mret, BM_ret. rewrite ucs2_length. do 2 f_equal. lia.
  - unfold mret, BM_ret. rewrite hex_length. do 2 f_equal. unfold shr.
    rewrite u32_id by lia. rewrite Z.shiftr_div_pow2 by lia. change (2 ^ 1) with 2. euclid.
  - unfold mbind, BM_bind, lift. by rewrite base64ToBytes_b64.
Qed.

(** [write] stores them in a buffer of that size. *)
Lemma write_encoded e s bs name b m : encoded e s bs -> encoding_of name = Some e ->
  valid b m -> v_length b = length bs ->
  write b s (VStr name) VUndef VUndef m = (Ret (Z.of_nat (length bs)), stored_all b 0 bs m).
Proof.
  intros He Hn Hv Hl. assert (Hlen : len b = Z.of_nat (length bs)) by (unfold len; lia).
  unfold write, write_args, mbind, BM_bind, lift. cbv zeta. rewrite Z.sub_0_r, Z.ltb_irrefl.
  rewrite (proj2 (Z.ltb_ge (len b) 0)) by lia. cbn [Z.ltb Z.compare orb andb]. rewrite andb_false_r.
  cbn [orb v_truthy v_encoding]. rewrite bool_decide_eq_false_2 by by eapply encoding_of_ne.
  cbn [negb v_encoding]. rewrite Hn.
  destruct He as [s Hs|s Hs|s Hs|s Hs|bs Hb|bs Hb].
  - unfold utf8Write. rewrite Z.sub_0_r, utf8ToBytes_room by (rewrite utf8ToBytes_utf8 by done; lia).
    rewrite utf8ToBytes_utf8, blitBuffer_all by (done || lia). done.
  - unfold asciiWrite. rewrite asciiToBytes_byte by by apply ascii_byte. by rewrite blitBuffer_all by lia.
  - unfold asciiWrite. rewrite asciiToBytes_byte by done. by rewrite blitBuffer_all by lia.
  - unfold ucs2Write. rewrite Z.sub_0_r, ucs2_room by (rewrite ucs2_length in Hlen; lia).
    by rewrite blitBuffer_all by lia.
  - unfold hexWrite. cbv zeta. rewrite Z.sub_0_r, Z.ltb_irrefl, hex_length.
    replace (if len b =? 0 then len b else len b) with (len b) by by destruct (len b =? 0).
    replace (if _ <? 2 * len b then _ else 2 * len b) with (2 * Z.of_nat (length ([] ++ bs)))
      by (cbn [app]; case_match; lia).
    rewrite (hex_loop_all b 0 bs Hb (2 * length bs) []) by (cbn [length app]; lia). done.
  - unfold base64Write, mbind, BM_bind, lift. rewrite base64ToBytes_b64 by done.
    by rewrite blitBuffer_all by lia.
Qed.

(** A new Buffer that has been filled from its start. *)
Lemma fresh_stored n bs m : length bs = n -> Forall is_byte bs ->
  fresh (View (length m) 0 n) bs m (stored_all (View (length m) 0 n) 0 bs (m ++ [replicate n 0])).
Proof.
  intros Hn Hb. pose proof (new_array_valid n m) as Hv. split; [by apply valid_stored_all|]. split.
  - rewrite bytes_stored_full by done. by apply to_uint8_bytes.
  - intros c Hc. pose proof (valid_app c m (replicate n 0) Hc) as Hc'. pose proof (proj1 Hc) as Hlt.
    split; [by apply valid_stored_all|]. split; [|cbn; lia].
    rewrite bytes_stored_all_other by (done || cbn; lia). by apply bytes_app.
Qed.
Lemma createBuffer_new n m : Z.of_nat n <= K_MAX_LENGTH ->
  createBuffer (Z.of_nat n) m = (Ret (View (length m) 0 n), m ++ [replicate n 0]).
Proof.
  intros Hn. unfold createBuffer. rewrite (proj2 (Z.ltb_ge K_MAX_LENGTH _)), (proj2 (Z.ltb_ge _ 0)) by lia.
  by rewrite Nat2Z.id.
Qed.

Lemma fromString_encoded e s bs name m : encoded e s bs -> encoding_of name = Some e ->
  Z.of_nat (length bs) <= K_MAX_LENGTH ->
  exists m', fromString s (VStr name) m = (Ret (View (length m) 0 (length bs)), m') /\
    fresh (View (length m) 0 (length bs)) bs m m'.
Proof.
  intros He Hn Hl. unfold K_MAX_LENGTH in Hl. unfold fromString.
  replace (match name with [] => VStr (js "utf8") | _ :: _ => VStr name end) with (VStr name)
    by (destruct name; [by apply encoding_of_ne in Hn|done]).
  unfold isEncoding. cbn [v_str]. rewrite (encoding_of_lower name e Hn), bool_decide_eq_true_2 by by eexists.
  cbn [negb]. unfold mbind, BM_bind. rewrite (byteLength_encoded e s bs) by (done || lia). cbv zeta.
  rewrite i32_id, createBuffer_new by (unfold K_MAX_LENGTH; lia).
  rewrite (write_encoded e s bs name _ _ He Hn) by (apply new_array_valid || done).
  rewrite Z.eqb_refl. eexists. split; [done|]. apply fresh_stored; [done|by eapply encoded_byte].
Qed.

Lemma toString_encoded e s bs name b m : encoded e s bs -> encoding_of name = Some e ->
  Z.of_nat (length bs) <= K_MAX_LENGTH -> valid b m -> bytes b m = bs ->
  toString b (Some (VStr name, None, None)) m = (Ret s, m).
Proof.
  intros He Hn Hl Hv E. pose proof (len_eq b m Hv) as Hlen. rewrite E in Hlen. unfold K_MAX_LENGTH in Hl.
  unfold toString. destruct (Z.eqb_spec (len b) 0) as [H0|H0].
  { assert (bs = []) as Ebs by (destruct bs; [done|cbn in Hlen; lia]).
    apply (encoded_nil e s bs He) in Ebs. by subst s. }
  unfold slowToString. cbv zeta.
  rewrite (proj2 (Z.ltb_ge (len b) 0)), (proj2 (Z.leb_gt (len b) 0)) by lia.
  rewrite !u32_id, (proj2 (Z.leb_gt (len b) 0)) by lia. cbn [v_truthy].
  rewrite bool_decide_eq_false_2 by by eapply encoding_of_ne.
  cbn [negb v_encoding]. rewrite Hn. unfold mbind, BM_bind, all_bytes. rewrite E, Hlen.
  destruct He as [s Hs|s Hs|s Hs|s Hs|bs Hb|bs Hb]; unfold mret, BM_ret.
  - by rewrite utf8Slice_utf8.
  - by rewrite asciiSlice_ascii.
  - unfold latin1Slice. by rewrite range_min.
  - unfold utf16leSlice. by rewrite range_all, ucs2_back.
  - by rewrite hexSlice_all.
  - by rewrite base64Slice_all.
Qed.

(** C33. For every encoding and every name of it: [Buffer.from] of a text the
    encoding has makes a new Buffer of its bytes and leaves all older memory
    alone, and [toString] gives the text back. *)
Theorem buffer_text_roundtrip e s bs name m : encoded e s bs -> encoding_of name = Some e ->
  Z.of_nat (length bs) <= K_MAX_LENGTH ->
  exists b m', from (VStr s) (VStr name) VUndef m = (Ret b, m') /\ fresh b bs m m' /\
    toString b (Some (VStr name, None, None)) m' = (Ret s, m').
Proof.
  intros He Hn Hl. destruct (fromString_encoded e s bs name m He Hn Hl) as (m' & Ef & Hf).
  exists (View (length m) 0 (length bs)), m'. split; [done|]. split; [done|].
  destruct Hf as (Hv & E & _). by eapply toString_encoded.
Qed.
Lemma buffer_text_roundtrip_witness :
  exists b m', from (VStr (js "AQL+")) (VStr (js "Base64")) VUndef [] = (Ret b, m') /\
    fresh b [1; 2; 254] [] m' /\
    toString b (Some (VStr (js "Base64"), None, None)) m' = (Ret (js "AQL+"), m').
Proof.
  apply (buffer_text_roundtrip BufferText.Base64 (js "AQL+") [1; 2; 254] (js "Base64") []);
    [|reflexivity|unfold K_MAX_LENGTH; cbn [length]; lia].
  apply (enc_base64 [1; 2; 254]). repeat constructor; unfold is_byte; lia.
Defined.

(** ** Slices and copies *)

(** A slice is a window on the same memory: it shows those bytes of the
    buffer, and a store through it is a store into the buffer. *)
Theorem slice_shares b s e m : valid b m ->
  let lo := slice_start b s in
  let c := slice b s e in
  valid c m /\
  bytes c m = firstn (v_length c) (skipn (Z.to_nat lo) (bytes b m)) /\
  forall i x, 0 <= i < len c -> put c i x m = put b (lo + i) x m.
Proof.
  intros Hv lo c. pose proof (slice_end_bound b s e) as [Hlo Hhi]. split; [by apply slice_valid|].
  subst c lo. rewrite slice_eq. split.
  - rewrite subarray_bytes by lia. done.
  - intros i x Hi. unfold put, in_window, len in *. cbn [subarray v_length v_buffer byteOffset] in *.
    rewrite !(proj2 (Z.leb_le 0 _)), !(proj2 (Z.ltb_lt _ _)) by lia. cbn [andb].
    do 3 f_equal. lia.
Qed.
Lemma slice_shares_witness :
  let m := [[1; 2; 3; 4; 5]] in
  let b := View 0 0 5 in
  let c := slice b (Some (-3)) None in
  valid c m /\ bytes c m = firstn (v_length c) (skipn (Z.to_nat (slice_start b (Some (-3)))) (bytes b m)) /\
  forall i x, 0 <= i < len c -> put c i x m = put b (slice_start b (Some (-3)) + i) x m.
Proof. apply (slice_shares (View 0 0 5) (Some (-3)) None [[1; 2; 3; 4; 5]]). split; cbn; lia. Defined.

(** [copy] moves the bytes the source had before the call, as many as there are
    and as fit, also when source and target overlap in memory. *)
Theorem copy_moves b t ts s e m : valid b m -> valid t m -> Forall is_byte (bytes b m) ->
  0 <= ts <= len t -> 0 <= s < len b -> s <= e ->
  let n := Z.min (Z.min e (len b) - s) (len t - ts) in
  leaves t (copy b (VView true t) (Some ts) (Some s) (Some e)) m n
    (take (Z.to_nat ts) (bytes t m) ++ take (Z.to_nat n) (drop (Z.to_nat s) (bytes b m))
     ++ drop (Z.to_nat (ts + n)) (bytes t m)).
Proof.
  intros Hb Ht Hby Hts Hs He n. pose proof (len_eq b m Hb) as Lb. pose proof (len_eq t m Ht) as Lt.
  unfold copy. cbn [default id from_option]. cbv zeta.
  replace (if len t <=? ts then len t else ts) with ts by (case_match; lia).
  replace (if (0 <? e) && (e <? s) then s else e) with e by (bdestr; cbn; lia).
  assert (Hnothing : n = 0 -> leaves t (mret 0) m n (take (Z.to_nat ts) (bytes t m) ++
    take (Z.to_nat n) (drop (Z.to_nat s) (bytes b m)) ++ drop (Z.to_nat (ts + n)) (bytes t m))).
  { intros E. rewrite E, Z.add_0_r. change (Z.to_nat 0) with 0%nat.
    rewrite take_0, app_nil_l, take_drop. apply leaves_ret. }
  destruct (Z.eqb_spec e s); [apply Hnothing; lia|].
  destruct (Z.eqb_spec (len t) 0); cbn [orb]; [apply Hnothing; lia|].
  rewrite (proj2 (Z.eqb_neq (len b) 0)), !(proj2 (Z.ltb_ge _ 0)), (proj2 (Z.leb_gt (len b) s)) by lia. cbn [orb].
  set (e1 := if len b <? e then len b else e).
  replace (if len t - ts <? e1 - s then len t - ts + s else e1) with (s + n) by (subst e1 n; bdestr; lia).
  unfold leaves, mbind, BM_bind, all_bytes. rewrite subarray_bytes by lia. replace (s + n - s) with n by lia.
  set (src := firstn (Z.to_nat n) (skipn (Z.to_nat s) (bytes b m))).
  assert (Hsrc : length src = Z.to_nat n) by (subst src; rewrite length_firstn, length_skipn; lia).
  rewrite put_all_stored. eexists. split; [done|]. split.
  - split; [intros c; by apply valid_stored_all|intros c; by apply bytes_stored_all_other].
  - rewrite bytes_stored_all by (done || lia). rewrite to_uint8_bytes by (by apply Forall_take, Forall_drop).
    do 3 f_equal. lia.
Qed.
(** Two overlapping views, moved up by one. *)
Lemma copy_moves_witness :
  let m := [[1; 2; 3; 4; 5]] in
  leaves (View 0 1 4) (copy (View 0 0 4) (VView true (View 0 1 4)) (Some 0) (Some 0) (Some 4)) m 4 [1; 2; 3; 4].
Proof.
  apply (copy_moves (View 0 0 4) (View 0 1 4) 0 0 4 [[1; 2; 3; 4; 5]]);
    [split; cbn; lia|split; cbn; lia|repeat constructor; unfold is_byte; lia
    |unfold len; cbn [v_length]; lia|unfold len; cbn [v_length]; lia|lia].
Defined.

(** ** The order of Buffers *)

(** The lexicographic order. *)
Inductive before : list Z -> list Z -> Prop :=
  | before_nil y b : before [] (y :: b)
  | before_head x y a b : x < y -> before (x :: a) (y :: b)
  | before_tail x a b : before a b -> before (x :: a) (x :: b).

Lemma compare_bytes_spec a : forall b,
  (compare_bytes a b = 0 /\ a = b) \/ (compare_bytes a b = -1 /\ before a b) \/
  (compare_bytes a b = 1 /\ before b a).
Proof.
  induction a as [|x a IH]; intros [|y b]; cbn [compare_bytes]; [by left|right; left|right; right|];
    try (split; [done|constructor]).
  destruct (Z.eqb_spec x y) as [->|Hn].
  - destruct (IH b) as [[-> ->]|[[-> H]|[-> H]]]; [by left|right; left|right; right]; split; try done; by constructor.
  - destruct (Z.ltb_spec x y); right; [left|right]; (split; [done|]); constructor; lia.
Qed.

Lemma fromArrayLike_new l m : Forall is_byte l -> Z.of_nat (length l) < K_MAX_LENGTH ->
  exists m', fromArrayLike l m = (Ret (View (length m) 0 (length l)), m') /\
    fresh (View (length m) 0 (length l)) l m m'.
Proof.
  intros Hl Hk. unfold fromArrayLike, mbind, BM_bind, lift, checked.
  rewrite (proj2 (Z.leb_gt _ _)) by lia. unfold K_MAX_LENGTH in Hk.
  rewrite !i32_id, createBuffer_new by (rewrite ?i32_id; unfold K_MAX_LENGTH; lia).
  rewrite put_all_stored. eexists. split; [done|].
  replace (map (fun x => Z.land (i32 x) 255) l) with l; [by apply fresh_stored|].
  induction Hl as [|x l Hx Hl IH]; [done|]. cbn [map length] in *. unfold is_byte in Hx.
  rewrite i32_id, land_255, Z.mod_small by lia. f_equal. apply IH. lia.
Qed.

(** [Buffer.compare] of two Uint8Arrays, Buffers or not, tells their place in
    the lexicographic order of their bytes; [equals] is equality of the bytes. *)
Theorem compare_orders f g a b m : valid a m -> valid b m ->
  Forall is_byte (bytes a m) -> Forall is_byte (bytes b m) ->
  len a < K_MAX_LENGTH -> len b < K_MAX_LENGTH ->
  exists r m', Buffer_compare (VView f a) (VView g b) m = (Ret r, m') /\
    ((r = -1 /\ before (bytes a m) (bytes b m)) \/ (r = 0 /\ bytes a m = bytes b m) \/
     (r = 1 /\ before (bytes b m) (bytes a m))) /\
    exists m'', equals a (VView true b) m = (Ret (bool_decide (bytes a m = bytes b m)), m'').
Proof.
  intros Ha Hb Ba Bb La Lb. rewrite (len_eq a m Ha) in La. rewrite (len_eq b m Hb) in Lb.
  assert (HC : forall f g, exists m', Buffer_compare (VView f a) (VView g b) m
                 = (Ret (compare_bytes (bytes a m) (bytes b m)), m')).
  { intros f' g'. unfold Buffer_compare, as_buffer, from, all_bytes, mbind, BM_bind.
    destruct (fromArrayLike_new (bytes a m) m Ba La) as (m1 & -> & V1 & E1 & O1).
    destruct (O1 b Hb) as (Hb1 & Eb1 & _). unfold mret, BM_ret. rewrite Eb1.
    destruct (fromArrayLike_new (bytes b m) m1 Bb Lb) as (m2 & -> & V2 & E2 & O2).
    destruct (O2 _ V1) as (_ & E12 & _). rewrite E12, E1, E2. eauto. }
  destruct (HC f g) as [m' E]. exists (compare_bytes (bytes a m) (bytes b m)), m'. split; [done|].
  pose proof (compare_bytes_spec (bytes a m) (bytes b m)) as Hs. split; [tauto|].
  unfold equals. case_bool_decide as Eab.
  - subst b. exists m. rewrite bool_decide_eq_true_2 by done. done.
  - destruct (HC true true) as [m'' E'']. exists m''. unfold mbind, BM_bind. rewrite E''.
    unfold mret, BM_ret. do 2 f_equal.
    assert (Hirr : forall l, ~ before l l) by (intros l H; remember l as l' eqn:El in H at 2; revert El; induction H; intros [=]; subst; (lia || auto)).
    destruct Hs as [[-> ->]|[[-> H]|[-> H]]]; cbn; symmetry.
    + by apply bool_decide_eq_true_2.
    + apply bool_decide_eq_false_2. intros E1. rewrite E1 in H. by apply Hirr in H.
    + apply bool_decide_eq_false_2. intros E1. rewrite E1 in H. by apply Hirr in H.
Qed.
Lemma compare_orders_witness :
  let m := [[1; 2]; [1; 2; 0]] in
  exists r m', Buffer_compare (VView true (View 0 0 2)) (VView false (View 1 0 3)) m = (Ret r, m') /\
    ((r = -1 /\ before [1; 2] [1; 2; 0]) \/ (r = 0 /\ [1; 2] = [1; 2; 0]) \/ (r = 1 /\ before [1; 2; 0] [1; 2])) /\
    exists m'', equals (View 0 0 2) (VView true (View 1 0 3)) m = (Ret (bool_decide ([1; 2] = [1; 2; 0])), m'').
Proof.
  apply (compare_orders true false (View 0 0 2) (View 1 0 3) [[1; 2]; [1; 2; 0]]);
    [split; cbn; lia|split; cbn; lia|repeat constructor; unfold is_byte; lia
    |repeat constructor; unfold is_byte; lia|reflexivity|reflexivity].
Defined.
