(* ===== verification/BufferNumSpec.v ===== *)
(** Integers in Buffers: for every width, sign and byte order what is written
    is read back, the other bytes stay, and what does not fit throws. *)

From S2P Require Import Prelude JsVal Int32 TextEncoding Utf8Step WireSpec WireFields.
From S2P Require Import BufferMem BufferNum BufferMemSpec BufferTextSpec.

(** ** Bytes of numbers *)

Lemma low_byte_mod z : low_byte z = z mod 256.
Proof. unfold low_byte. rewrite land_255. unfold i32. change (2 ^ 32) with (256 * 16777216). change (2 ^ 31) with (256 * 8388608). euclid. Qed.
Lemma low_byte_byte z : is_byte (low_byte z).
Proof. rewrite low_byte_mod. unfold is_byte. euclid. Qed.
Lemma byte_shr v k : In k [8; 16; 24] -> to_uint8 (shr v k) = (v / 2 ^ k) mod 256.
Proof.
  unfold to_uint8, shr, u32. intros Hk. rewrite Z.shiftr_div_pow2 by (cbn in Hk; lia).
  change (2 ^ 32) with 4294967296.
  destruct Hk as [<-|[<-|[<-|[]]]]; pow_norm; euclid.
Qed.

Lemma le_bytes_at k v j : (j < k)%nat -> le_bytes k v !! j = Some ((v / 256 ^ Z.of_nat j) mod 256).
Proof.
  revert v j. induction k as [|k IH]; intros v [|j] Hj; [lia|lia| |].
  - cbn [le_bytes]. change (Z.of_nat 0) with 0. by rewrite Z.pow_0_r, Z.div_1_r.
  - change (le_bytes k (v / 256) !! j = Some ((v / 256 ^ Z.of_nat (S j)) mod 256)). rewrite IH by lia. f_equal. rewrite Nat2Z.inj_succ, Z.pow_succ_r, Z.div_div by lia. done.
Qed.
Lemma length_le_bytes k v : length (le_bytes k v) = k.
Proof. revert v. induction k as [|k IH]; intros v; [done|]. cbn. by rewrite IH. Qed.
Lemma le_bytes_snoc k v : le_bytes (S k) v = le_bytes k v ++ [(v / 256 ^ Z.of_nat k) mod 256].
Proof.
  revert v. induction k as [|k IH]; intros v.
  - cbn. by rewrite Z.div_1_r.
  - change (le_bytes (S (S k)) v) with (v mod 256 :: le_bytes (S k) (v / 256)). rewrite IH. cbn [le_bytes app].
    do 3 f_equal. rewrite Nat2Z.inj_succ, Z.pow_succ_r, Z.div_div by lia. done.
Qed.
Lemma map_le_bytes k v : map to_uint8 (le_bytes k v) = le_bytes k v.
Proof. apply to_uint8_bytes, le_bytes_byte. Qed.

(** The value of the first [k] bytes, one byte more. *)
Lemma mod_next v k : 0 <= k -> v mod 256 ^ (k + 1) = v mod 256 ^ k + (v / 256 ^ k) mod 256 * 256 ^ k.
Proof. intros Hk. rewrite Z.pow_add_r, Z.pow_1_r, Z.rem_mul_r by lia. lia. Qed.

(** ** Windows *)

(** The bytes [xs] in place of as many from [off] on. *)
Definition window (bs : list Z) (off : Z) (xs : list Z) : list Z :=
  take (Z.to_nat off) bs ++ xs ++ drop (Z.to_nat off + length xs) bs.
Lemma at_window bs off xs j : 0 <= off -> off + Z.of_nat (length xs) <= Z.of_nat (length bs) ->
  0 <= j < Z.of_nat (length xs) -> at_ (window bs off xs) (off + j) = xs !! Z.to_nat j.
Proof.
  intros Ho Hl Hj. unfold window.
  assert (Ht : length (take (Z.to_nat off) bs) = Z.to_nat off) by (rewrite length_take; lia).
  replace (off + j) with (Z.of_nat (length (take (Z.to_nat off) bs)) + j) by lia.
  rewrite at_app_off by lia. unfold at_. rewrite (proj2 (Z.ltb_ge j 0)) by lia.
  by rewrite lookup_app_l by lia.
Qed.

Lemma set_at_window bs off xs j x : 0 <= off -> off + Z.of_nat (length xs) <= Z.of_nat (length bs) ->
  0 <= j < Z.of_nat (length xs) ->
  set_at (window bs off xs) (off + j) x = window bs off (<[Z.to_nat j := to_uint8 x]> xs).
Proof.
  intros Ho Hl Hj. unfold window, set_at. rewrite (proj2 (Z.ltb_ge (off + j) 0)) by lia.
  assert (Ht : length (take (Z.to_nat off) bs) = Z.to_nat off) by (rewrite length_take; lia).
  rewrite insert_app_r_alt by lia. rewrite length_insert. f_equal. rewrite Ht.
  replace (Z.to_nat (off + j) - Z.to_nat off)%nat with (Z.to_nat j) by lia.
  by rewrite insert_app_l by lia.
Qed.
Lemma window_self bs off n : 0 <= off -> off + Z.of_nat n <= Z.of_nat (length bs) ->
  exists xs, length xs = n /\ bs = window bs off xs.
Proof.
  intros Ho Hl. exists (take n (drop (Z.to_nat off) bs)).
  assert (Hn : length (take n (drop (Z.to_nat off) bs)) = n) by (rewrite length_take, length_drop; lia).
  split; [done|]. unfold window. rewrite Hn. by rewrite <-drop_drop, take_drop, take_drop.
Qed.

Lemma leaves_put_window b m bs off xs j x : valid b m -> bytes b m = window bs off xs ->
  length bs = v_length b -> 0 <= off -> off + Z.of_nat (length xs) <= len b -> 0 <= j < Z.of_nat (length xs) ->
  leaves b (put b (off + j) x) m tt (window bs off (<[Z.to_nat j := to_uint8 x]> xs)).
Proof.
  intros Hv E Hbs Ho Hl Hj. unfold len in Hl. rewrite <-set_at_window by lia. rewrite <-E. by apply leaves_put.
Qed.

(** ** The formats *)

Record int_format := IntFormat {
  f_width : nat;
  f_min : Z;
  f_max : Z;
  f_bytes : Z -> list Z;
  f_write : view -> Z -> Z -> bool -> BM Z;
  f_read : view -> Z -> bool -> BM (option Z) }.
Definition unsigned (n : nat) := IntFormat n 0 (2 ^ (8 * Z.of_nat n) - 1).
Definition signed (n : nat) := IntFormat n (- 2 ^ (8 * Z.of_nat n - 1)) (2 ^ (8 * Z.of_nat n - 1) - 1).
Definition be_bytes (k : nat) (v : Z) : list Z := reverse (le_bytes k v).

Definition fixed_formats : list int_format :=
  [unsigned 1 (le_bytes 1) writeUInt8 readUInt8; signed 1 (le_bytes 1) writeInt8 readInt8;
   unsigned 2 (le_bytes 2) writeUInt16LE readUInt16LE; unsigned 2 (be_bytes 2) writeUInt16BE readUInt16BE;
   signed 2 (le_bytes 2) writeInt16LE readInt16LE; signed 2 (be_bytes 2) writeInt16BE readInt16BE;
   unsigned 4 (le_bytes 4) writeUInt32LE readUInt32LE; unsigned 4 (be_bytes 4) writeUInt32BE readUInt32BE;
   signed 4 (le_bytes 4) writeInt32LE readInt32LE; signed 4 (be_bytes 4) writeInt32BE readInt32BE].
(** The writers and readers that take the width. *)
Definition sized {A} (f : view -> Z -> Z -> bool -> A) (n : nat) (b : view) (off : Z) (na : bool) : A :=
  f b off (Z.of_nat n) na.
Definition sized_w (f : view -> Z -> Z -> Z -> bool -> BM Z) (n : nat) (b : view) (v off : Z) (na : bool) : BM Z :=
  f b v off (Z.of_nat n) na.
Definition variable_formats (n : nat) : list int_format :=
  [unsigned n (le_bytes n) (sized_w writeUIntLE n) (sized readUIntLE n);
   unsigned n (be_bytes n) (sized_w writeUIntBE n) (sized readUIntBE n);
   signed n (le_bytes n) (sized_w writeIntLE n) (sized readIntLE n);
   signed n (be_bytes n) (sized_w writeIntBE n) (sized readIntBE n)].

Definition fits (F : int_format) (b : view) (off : Z) : Prop := off + Z.of_nat (f_width F) <= len b.
Definition writer_ok (F : int_format) : Prop := forall b m v off, valid b m -> len b < 2 ^ 32 ->
  0 <= off -> fits F b off -> f_min F <= v <= f_max F ->
  leaves b (f_write F b v off false) m (off + Z.of_nat (f_width F)) (window (bytes b m) off (f_bytes F v)).
Definition reader_ok (F : int_format) : Prop := forall b m bs v off, valid b m -> len b < 2 ^ 32 ->
  0 <= off -> fits F b off -> f_min F <= v <= f_max F ->
  length bs = v_length b -> bytes b m = window bs off (f_bytes F v) ->
  f_read F b off false m = (Ret (Some v), m).
Definition refuses (F : int_format) : Prop := forall b m v off, 0 <= off < 2 ^ 32 ->
  (~ (f_min F <= v <= f_max F) \/ ~ fits F b off ->
     exists e, f_write F b v off false m = (Throw (JErr RangeErr e), m)) /\
  (~ fits F b off -> exists e, f_read F b off false m = (Throw (JErr RangeErr e), m)).
Definition int_ok (F : int_format) : Prop := writer_ok F /\ reader_ok F /\ refuses F.

(** *** Refusing *)

Lemma assert_int_throws {A} b v off n max min (k : unit -> BM A) m :
  ~ (min <= v <= max) \/ ~ (off + n <= len b) ->
  exists e, (assert_int b v off n max min false ≫= k) m = (Throw (JErr RangeErr e), m).
Proof.
  intros H. unfold assert_int, checkInt, mbind, BM_bind, lift.
  destruct (Z.ltb_spec max v), (Z.ltb_spec v min); cbn [orb]; try by eexists.
  destruct (Z.ltb_spec (len b) (off + n)); [by eexists|]. lia.
Qed.
Lemma assert_int_passes {A} b v off n max min (k : unit -> BM A) m :
  min <= v <= max -> off + n <= len b ->
  (assert_int b v off n max min false ≫= k) m = k tt m.
Proof.
  intros Hv Ho. unfold assert_int, checkInt, mbind, BM_bind, lift.
  by rewrite (proj2 (Z.ltb_ge max v)), (proj2 (Z.ltb_ge v min)), (proj2 (Z.ltb_ge (len b) _)) by lia.
Qed.
Lemma reading_throws {A} b off n (k : Z * list Z -> BM A) m : 0 <= off < 2 ^ 32 -> ~ (off + n <= len b) ->
  exists e, (reading b off n false ≫= k) m = (Throw (JErr RangeErr e), m).
Proof.
  intros Ho H. unfold reading, checkOffset, mbind, BM_bind, lift. rewrite u32_id by lia.
  rewrite (proj2 (Z.ltb_ge off 0)), (proj2 (Z.ltb_lt (len b) _)) by lia. by eexists.
Qed.
Lemma reading_passes {A} b off n (k : Z * list Z -> BM A) m : 0 <= off < 2 ^ 32 -> off + n <= len b ->
  (reading b off n false ≫= k) m = k (off, bytes b m) m.
Proof.
  intros Ho H. unfold reading, checkOffset, mbind, BM_bind, lift. rewrite u32_id by lia.
  by rewrite (proj2 (Z.ltb_ge off 0)), (proj2 (Z.ltb_ge (len b) _)) by lia.
Qed.

Lemma fixed_refuses : Forall refuses fixed_formats.
Proof.
  unfold fixed_formats. repeat apply Forall_cons_2; [..|apply Forall_nil_2]; intros b m v off Ho; (split; intros H; unfold fits in H; cbn [f_write f_read f_width f_min f_max unsigned signed] in *);
    first [apply assert_int_throws | apply reading_throws; [done|]]; rewrite ?u32_id by lia; exact H.
Qed.

(** *** Writing the fixed widths *)

Lemma leaves_assert {A} b v off n max min (k : unit -> BM A) m r bs :
  min <= v <= max -> off + n <= len b -> leaves b (k tt) m r bs ->
  leaves b (assert_int b v off n max min false ≫= k) m r bs.
Proof. intros Hv Ho (m' & E & H). exists m'. by rewrite assert_int_passes. Qed.
Lemma leaves_put_at b m bs off xs i j x : valid b m -> bytes b m = window bs off xs -> i = off + j ->
  length bs = v_length b -> 0 <= off -> off + Z.of_nat (length xs) <= len b -> 0 <= j < Z.of_nat (length xs) ->
  leaves b (put b i x) m tt (window bs off (<[Z.to_nat j := to_uint8 x]> xs)).
Proof. intros ? ? ->. by apply leaves_put_window. Qed.
Lemma leaves_result {A} b m (r r' : A) bs : bytes b m = bs -> r = r' -> leaves b (mret r) m r' bs.
Proof. intros <- <-. apply leaves_ret. Qed.
(** [store j]: the next store is at [off + j]. *)
Ltac store j :=
  eapply leaves_bind;
  [eapply (leaves_put_at _ _ _ _ _ _ j); [eassumption|eassumption|lia|done|done|cbn [length]; lia|cbn [length]; lia]
  |done|];
  let m := fresh "m" in let V := fresh "V" in let E := fresh "E" in intros m V E;
  let n := eval vm_compute in (Z.to_nat j) in
  change (Z.to_nat j) with n in E; cbn [insert list_insert] in E.
(** The bytes stored are those of the number. *)
Ltac stored_bytes :=
  apply leaves_result; [|lia];
  match goal with E : bytes _ ?m = _ |- bytes _ ?m = _ => rewrite E end; f_equal;
  rewrite ?byte_shr by (cbn; tauto);
  unfold be_bytes; cbn [le_bytes reverse rev_append]; rewrite ?Z.div_div by lia;
  rewrite ?(to_uint8_id (low_byte _)) by apply low_byte_byte; rewrite ?low_byte_mod.

(** A writer's stores: whatever the window held, it holds [target] then. *)
Definition stores (b : view) (k : nat) (c : Z -> BM Z) (target : list Z) : Prop := forall m off bs xs,
  valid b m -> length xs = k -> length bs = v_length b -> 0 <= off -> off + Z.of_nat k <= len b ->
  bytes b m = window bs off xs -> leaves b (c off) m (off + Z.of_nat k) (window bs off target).
Ltac start_stores :=
  let m := fresh "m" in intros m ? ? xs ? Hx ? ? ? ?; cbn [Z.of_nat Pos.of_succ_nat Pos.succ] in *;
  repeat match goal with
  | H : length xs = S _ |- _ => destruct xs as [|? xs]; [done|]; cbn [length] in H; injection H as H
  | H : length xs = 0%nat |- _ => destruct xs; [|done]; clear H
  end.

Lemma stores_8 b v : stores b 1 (fun o => put b o (low_byte v);; mret (o + 1)) (le_bytes 1 v).
Proof. start_stores. store 0. stored_bytes. done. Qed.
Lemma stores_16le b v : stores b 2 (put_16le b v) (le_bytes 2 v).
Proof. start_stores. unfold put_16le. store 0. store 1. stored_bytes. done. Qed.
Lemma stores_16be b v : stores b 2 (put_16be b v) (be_bytes 2 v).
Proof. start_stores. unfold put_16be. store 0. store 1. stored_bytes. done. Qed.
Lemma stores_32be b v : stores b 4 (put_32be b v) (be_bytes 4 v).
Proof. start_stores. unfold put_32be. store 0. store 1. store 2. store 3. stored_bytes. done. Qed.
Lemma stores_u32le b v :
  stores b 4 (fun o => put b (o + 3) (shr v 24);; put b (o + 2) (shr v 16);;
                put b (o + 1) (shr v 8);; put b o (low_byte v);; mret (o + 4)) (le_bytes 4 v).
Proof. start_stores. store 3. store 2. store 1. store 0. stored_bytes. done. Qed.
Lemma stores_i32le b v :
  stores b 4 (fun o => put b o (low_byte v);; put b (o + 1) (shr v 8);;
                put b (o + 2) (shr v 16);; put b (o + 3) (shr v 24);; mret (o + 4)) (le_bytes 4 v).
Proof. start_stores. store 0. store 1. store 2. store 3. stored_bytes. done. Qed.

Lemma le_bytes_cong k v w : v mod 256 ^ Z.of_nat k = w mod 256 ^ Z.of_nat k -> le_bytes k v = le_bytes k w.
Proof.
  revert v w. induction k as [|k IH]; intros v w E; [done|]. cbn [le_bytes].
  rewrite Nat2Z.inj_succ, Z.pow_succ_r, !Z.rem_mul_r in E by lia.
  assert (0 < 256 ^ Z.of_nat k) by (by apply Z.pow_pos_nonneg; lia).
  assert (v mod 256 = w mod 256 /\ (v / 256) mod 256 ^ Z.of_nat k = (w / 256) mod 256 ^ Z.of_nat k) as [E1 E2] by euclid.
  by rewrite E1, (IH _ _ E2).
Qed.

Lemma writes_fixed b v off k max min (c : Z -> BM Z) target m :
  stores b k c target -> valid b m -> 0 <= off -> len b < 2 ^ 32 -> off + Z.of_nat k <= len b ->
  min <= v <= max ->
  leaves b (let o := u32 off in assert_int b v o (Z.of_nat k) max min false;; c o) m (off + Z.of_nat k)
    (window (bytes b m) off target).
Proof.
  intros Hc Hv Ho Hl Hk Hr. cbv zeta. rewrite u32_id by lia. apply leaves_assert; [done..|].
  pose proof (len_eq b m Hv) as Hb.
  destruct (window_self (bytes b m) off k) as (xs & Hx & E); [lia|lia|].
  by apply (Hc m off (bytes b m) xs); try apply len_bytes.
Qed.

Lemma fixed_writers : Forall writer_ok fixed_formats.
Proof.
  unfold fixed_formats. repeat apply Forall_cons_2; [..|apply Forall_nil_2];
    intros b m v off Hv Hl Ho Hf Hr; unfold fits in Hf; cbn [f_write f_width f_min f_max f_bytes unsigned signed] in *.
  - apply (writes_fixed b v off 1 0xff 0 _ _ _ (stores_8 b v)); done.
  - rewrite (le_bytes_cong 1 v (if v <? 0 then 0xff + v + 1 else v)) by (change (256 ^ Z.of_nat 1) with 256; case_match; euclid).
    apply (writes_fixed b v off 1 0x7f (-0x80) _ _ _ (stores_8 b (if v <? 0 then 0xff + v + 1 else v))); done.
  - apply (writes_fixed b v off 2 0xffff 0 _ _ _ (stores_16le b v)); done.
  - apply (writes_fixed b v off 2 0xffff 0 _ _ _ (stores_16be b v)); done.
  - apply (writes_fixed b v off 2 0x7fff (-0x8000) _ _ _ (stores_16le b v)); done.
  - apply (writes_fixed b v off 2 0x7fff (-0x8000) _ _ _ (stores_16be b v)); done.
  - apply (writes_fixed b v off 4 0xffffffff 0 _ _ _ (stores_u32le b v)); done.
  - apply (writes_fixed b v off 4 0xffffffff 0 _ _ _ (stores_32be b v)); done.
  - apply (writes_fixed b v off 4 0x7fffffff (-0x80000000) _ _ _ (stores_i32le b v)); done.
  - unfold be_bytes. rewrite (le_bytes_cong 4 v (if v <? 0 then 0xffffffff + v + 1 else v))
      by (change (256 ^ Z.of_nat 4) with 4294967296; case_match; euclid).
    apply (writes_fixed b v off 4 0x7fffffff (-0x80000000) _ _ _ (stores_32be b (if v <? 0 then 0xffffffff + v + 1 else v))); done.
Qed.

(** *** Reading the fixed widths *)

Lemma shl_byte x n : is_byte x -> 0 <= n <= 16 -> shl x n = x * 2 ^ n.
Proof.
  intros Hx Hn. unfold is_byte in Hx. assert (0 < 2 ^ n <= 2 ^ 16) by (split; [by apply Z.pow_pos_nonneg; lia|by apply Z.pow_le_mono_r; lia]).
  rewrite shl_small by nia. apply Z.shiftl_mul_pow2. lia.
Qed.
Lemma shl_24 x : is_byte x -> shl x 24 = (if x <? 128 then x else x - 256) * 2 ^ 24.
Proof.
  intros Hx. unfold is_byte in Hx. unfold shl. rewrite (i32_id x), Z.shiftl_mul_pow2 by lia.
  destruct (Z.ltb_spec x 128); [by rewrite i32_id by (pow_norm; lia)|].
  rewrite i32_high by (pow_norm; lia). change (2 ^ 32) with (256 * 2 ^ 24). lia.
Qed.
(** The bits of [a] under those of a multiple of a power of two above it. *)
Lemma lor_high a b n : 0 <= n -> 0 <= a < 2 ^ n -> Z.lor a (b * 2 ^ n) = a + b * 2 ^ n.
Proof. intros. rewrite Z.lor_comm, lor_add_disjoint by done. lia. Qed.

Lemma land_bit x n : 0 <= n -> Z.land x (2 ^ n) = if (x / 2 ^ n) mod 2 =? 1 then 2 ^ n else 0.
Proof.
  intros Hn. replace ((x / 2 ^ n) mod 2 =? 1) with (Z.testbit x n).
  2: { apply eq_true_iff_eq. rewrite Z.testbit_true, Z.eqb_eq by done. done. }
  apply Z.bits_inj'. intros k Hk. rewrite Z.land_spec, Z.pow2_bits_eqb by done.
  destruct (Z.eqb_spec n k) as [->|].
  - rewrite andb_true_r. destruct (Z.testbit x k); by rewrite ?Z.pow2_bits_true, ?Z.bits_0.
  - rewrite andb_false_r. destruct (Z.testbit x n); by rewrite ?Z.pow2_bits_false, ?Z.bits_0.
Qed.
Lemma extend16_signed v : - 2 ^ 15 <= v < 2 ^ 15 -> extend16 (v mod 2 ^ 16) = v.
Proof.
  intros Hv. unfold extend16. change 0x8000 with (2 ^ 15). rewrite land_bit by done. pow_norm.
  change (i32 0xFFFF0000) with (-1 * 2 ^ 16).
  destruct (Z.eqb_spec ((v mod 65536 / 32768) mod 2) 1); cbn [Z.eqb Pos.eqb].
  - rewrite lor_high by (pow_norm; euclid). pow_norm. euclid.
  - euclid.
Qed.

Lemma at_window_head bs off x xs : 0 <= off -> off + Z.of_nat (length (x :: xs)) <= Z.of_nat (length bs) ->
  at_ (window bs off (x :: xs)) off = Some x.
Proof.
  intros Ho Hl. replace off with (off + 0) at 2 by lia.
  by rewrite at_window by (done || (cbn [length] in *; lia)).
Qed.
(** [fetch j]: the byte at [off + j] is known. *)
Ltac fetch :=
  repeat match goal with
  | |- context [at_ (window ?bs ?off ?xs) (?off + ?j)] =>
      rewrite (at_window bs off xs j) by (cbn [length]; lia);
      let n := eval vm_compute in (Z.to_nat j) in
      change (Z.to_nat j) with n; cbn [lookup list_lookup]
  | |- context [at_ (window ?bs ?off ?xs) ?off] => rewrite at_window_head by (cbn [length]; lia)
  end.
Ltac start_read :=
  intros b m bs v off Hv Hl Ho Hf Hr Hbs E; unfold fits, len in Hf, Hl;
  cbn [f_read f_width f_min f_max f_bytes unsigned signed] in *;
  unfold be_bytes in E; cbn [le_bytes reverse rev_append] in E; rewrite ?Z.div_div in E by lia.
Ltac read_in E :=
  rewrite reading_passes by (unfold len; lia); rewrite E; fetch;
  unfold mret, BM_ret; do 3 f_equal; cbn [bits default id from_option].

Lemma byte_of x : is_byte (x mod 256).
Proof. unfold is_byte. euclid. Qed.
#[local] Hint Resolve byte_of : core.

(** Bytes put together with [|] and [<<], in the two orders of operands. *)
Lemma join_16 a b : is_byte a -> is_byte b ->
  Z.lor a (shl b 8) = a + b * 256 /\ Z.lor (shl b 8) a = a + b * 256.
Proof.
  intros Ha Hb. rewrite shl_byte by (done || lia). unfold is_byte in *.
  rewrite lor_high, lor_add_disjoint by (pow_norm; lia). pow_norm. lia.
Qed.
Lemma join_24 a b c : is_byte a -> is_byte b -> is_byte c ->
  Z.lor (Z.lor a (shl b 8)) (shl c 16) = a + b * 256 + c * 65536 /\
  Z.lor (Z.lor (shl c 16) (shl b 8)) a = a + b * 256 + c * 65536.
Proof.
  intros Ha Hb Hc. rewrite !shl_byte by (done || lia). unfold is_byte in *.
  rewrite !lor_high by (rewrite ?lor_high; pow_norm; lia).
  rewrite <-Z.lor_assoc, !lor_add_disjoint by (rewrite ?lor_add_disjoint; pow_norm; lia). pow_norm. lia.
Qed.
Lemma join_32 a b c d : is_byte a -> is_byte b -> is_byte c -> is_byte d ->
  let v := a + b * 256 + c * 65536 + (if d <? 128 then d else d - 256) * 16777216 in
  Z.lor (Z.lor (Z.lor a (shl b 8)) (shl c 16)) (shl d 24) = v /\
  Z.lor (Z.lor (Z.lor (shl d 24) (shl c 16)) (shl b 8)) a = v.
Proof.
  intros Ha Hb Hc Hd v. pose proof (join_24 a b c Ha Hb Hc) as [E1 E2]. rewrite shl_24 by done. unfold is_byte in *.
  split.
  - rewrite E1, lor_high by (pow_norm; lia). done.
  - rewrite <-!Z.lor_assoc, (Z.lor_assoc (shl c 16)), E2, lor_add_disjoint by (pow_norm; lia).
    change (2 ^ 24) with 16777216. lia.
Qed.

(** A number that fits is the sum of its bytes. *)
Lemma sum_16 v : v mod 256 + (v / 256) mod 256 * 256 = v mod 65536.
Proof. euclid. Qed.
Lemma sum_32 v : v mod 256 + (v / 256) mod 256 * 256 + (v / (256 * 256)) mod 256 * 65536
  + (v / (256 * 256 * 256)) mod 256 * 16777216 = v mod 2 ^ 32.
Proof. change (2 ^ 32) with 4294967296. euclid. Qed.

Lemma fixed_readers : Forall reader_ok fixed_formats.
Proof.
  unfold fixed_formats. repeat apply Forall_cons_2; [..|apply Forall_nil_2]; start_read.
  - unfold readUInt8. read_in E. pow_norm. euclid.
  - unfold readInt8. rewrite reading_passes by (unfold len; lia). rewrite E; fetch.
    unfold mret, BM_ret. do 2 f_equal. cbn [band]. change 0x80 with (2 ^ 7). rewrite land_bit by done.
    change (2 ^ (8 * Z.of_nat 1 - 1)) with 128 in Hr. pow_norm.
    destruct (Z.eqb_spec ((v mod 256 / 128) mod 2) 1); cbn [Z.eqb Pos.eqb]; f_equal;
      [|euclid]. cbn [mbind option_bind]. f_equal. euclid.
  - unfold readUInt16LE. read_in E. rewrite (proj1 (join_16 _ _ (byte_of _) (byte_of _))), sum_16.
    apply Z.mod_small. change (2 ^ (8 * Z.of_nat 2)) with 65536 in Hr. lia.
  - unfold readUInt16BE. read_in E. rewrite (proj2 (join_16 _ _ (byte_of _) (byte_of _))), sum_16.
    apply Z.mod_small. change (2 ^ (8 * Z.of_nat 2)) with 65536 in Hr. lia.
  - unfold readInt16LE. read_in E. rewrite (proj1 (join_16 _ _ (byte_of _) (byte_of _))), sum_16.
    apply extend16_signed. change (2 ^ (8 * Z.of_nat 2 - 1)) with (2 ^ 15) in Hr. lia.
  - unfold readInt16BE. read_in E. rewrite (proj1 (join_16 _ _ (byte_of _) (byte_of _))), sum_16.
    apply extend16_signed. change (2 ^ (8 * Z.of_nat 2 - 1)) with (2 ^ 15) in Hr. lia.
  - unfold readUInt32LE. cbv zeta. read_in E. unfold add_, mul_. cbn [mbind option_bind]. f_equal.
    rewrite (proj1 (join_24 _ _ _ (byte_of _) (byte_of _) (byte_of _))).
    rewrite (dbl_id (_ * 16777216)), sum_32 by euclid. change (2 ^ (8 * Z.of_nat 4)) with (2 ^ 32) in Hr.
    rewrite Z.mod_small by lia. apply dbl_id. lia.
  - unfold readUInt32BE. cbv zeta. read_in E. unfold add_, mul_. cbn [mbind option_bind]. f_equal.
    rewrite (proj2 (join_24 _ _ _ (byte_of _) (byte_of _) (byte_of _))).
    rewrite (dbl_id (_ * 16777216)) by euclid.
    rewrite Z.add_comm, sum_32. change (2 ^ (8 * Z.of_nat 4)) with (2 ^ 32) in Hr.
    rewrite Z.mod_small by lia. apply dbl_id. lia.
  - unfold readInt32LE. cbv zeta. read_in E. rewrite (proj1 (join_32 _ _ _ _ (byte_of _) (byte_of _) (byte_of _) (byte_of _))).
    change (2 ^ (8 * Z.of_nat 4 - 1)) with 2147483648 in Hr. case_match eqn:Ec; bdestr; try done; euclid.
  - unfold readInt32BE. cbv zeta. read_in E. rewrite (proj2 (join_32 _ _ _ _ (byte_of _) (byte_of _) (byte_of _) (byte_of _))).
    change (2 ^ (8 * Z.of_nat 4 - 1)) with 2147483648 in Hr. case_match eqn:Ec; bdestr; try done; euclid.
Qed.

(** *** The widths given as arguments *)

(** Byte [j] of a number. *)
Definition byte_at (v : Z) (j : nat) : Z := (v / 256 ^ Z.of_nat j) mod 256.
Lemma pow256_pos j : 0 < 256 ^ Z.of_nat j.
Proof. apply Z.pow_pos_nonneg; lia. Qed.
Lemma pow256_S j : 256 ^ Z.of_nat j * 0x100 = 256 ^ Z.of_nat (S j).
Proof. rewrite Nat2Z.inj_succ, Z.pow_succ_r; lia. Qed.
Lemma pow256_bits n : 256 ^ Z.of_nat n = 2 ^ (8 * Z.of_nat n).
Proof. change 256 with (2 ^ 8). rewrite <-Z.pow_mul_r by lia. done. Qed.
Lemma pow256_le6 n : (n <= 6)%nat -> 256 ^ Z.of_nat n <= 2 ^ 48.
Proof. intros Hn. rewrite pow256_bits. apply Z.pow_le_mono_r; lia. Qed.

Lemma be_bytes_S k v : be_bytes (S k) v = byte_at v k :: be_bytes k v.
Proof. unfold be_bytes. rewrite le_bytes_snoc, reverse_app. done. Qed.
Lemma length_be_bytes k v : length (be_bytes k v) = k.
Proof. unfold be_bytes. by rewrite length_reverse, length_le_bytes. Qed.
Lemma be_bytes_at k v j : (j < k)%nat -> be_bytes k v !! j = Some (byte_at v (k - 1 - j)).
Proof.
  revert j. induction k as [|k IH]; intros j Hj; [lia|]. rewrite be_bytes_S. destruct j as [|j].
  - cbn. do 3 f_equal. lia.
  - change (be_bytes k v !! j = Some (byte_at v (S k - 1 - S j))). rewrite IH by lia. do 2 f_equal. lia.
Qed.

(** What the two kinds of loop store for byte [j]. *)
Lemma unsigned_byte v j : 0 <= v -> low_byte (Z.quot v (256 ^ Z.of_nat j)) = byte_at v j.
Proof. intros Hv. pose proof (pow256_pos j). rewrite low_byte_mod, Z.quot_div_nonneg by lia. done. Qed.

(** The borrow of a negative number from the bytes below. *)
Definition sub_at (v : Z) (j : nat) : Z :=
  if (v <? 0) && negb (v mod 256 ^ Z.of_nat j =? 0) then 1 else 0.
Lemma floor_quot v d : 0 < d -> v / d = Z.quot v d - (if (v <? 0) && negb (v mod d =? 0) then 1 else 0).
Proof.
  intros Hd. destruct (Z.ltb_spec v 0) as [Hv|Hv]; cbn [andb]; [|rewrite Z.quot_div_nonneg by lia; lia].
  pose proof (Z.quot_rem' v d) as Hq. pose proof (Z.rem_bound_pos_neg v d ltac:(lia) ltac:(lia)) as Hr.
  destruct (Z.eqb_spec (v mod d) 0) as [E|E]; cbn [negb].
  - assert (Z.rem v d = 0) by (apply Z.rem_divide; [lia|]; by apply Z.mod_divide; [lia|]).
    symmetry. rewrite Z.sub_0_r. apply Z.div_unique_exact; lia.
  - assert (Z.rem v d <> 0).
    { intros E0. apply E. apply Z.mod_divide; [lia|]. by apply Z.rem_divide; [lia|]. }
    symmetry. apply (Z.div_unique_pos _ _ _ (d + Z.rem v d)); lia.
Qed.
Lemma signed_byte v j : int_byte v (256 ^ Z.of_nat j) (sub_at v j) = byte_at v j.
Proof.
  unfold byte_at. rewrite floor_quot by apply pow256_pos. fold (sub_at v j). unfold int_byte.
  rewrite land_255. generalize (Z.quot v (256 ^ Z.of_nat j)), (sub_at v j). intros q s. unfold i32.
  change (2 ^ 32) with (256 * 16777216). change (2 ^ 31) with (256 * 8388608). euclid.
Qed.
Lemma borrow_next v j : borrow v (sub_at v j) (Some (byte_at v j)) = sub_at v (S j).
Proof.
  unfold borrow, sub_at. destruct (Z.ltb_spec v 0) as [Hv|]; cbn [andb]; [|done].
  pose proof (pow256_pos j). pose proof (Z.mod_pos_bound v (256 ^ Z.of_nat j) ltac:(lia)).
  rewrite Nat2Z.inj_succ. change (Z.succ (Z.of_nat j)) with (Z.of_nat j + 1).
  rewrite mod_next by lia. fold (byte_at v j).
  assert (0 <= byte_at v j) by (unfold byte_at; euclid).
  destruct (Z.eqb_spec (v mod 256 ^ Z.of_nat j) 0) as [E|E]; cbn [negb Z.eqb andb].
  - rewrite E. case_bool_decide as E0; cbn [negb].
    + injection E0 as E0. rewrite E0. done.
    + destruct (Z.eqb_spec (0 + byte_at v j * 256 ^ Z.of_nat j) 0) as [E1|]; [|done].
      exfalso. apply E0. f_equal. nia.
  - destruct (Z.eqb_spec (v mod 256 ^ Z.of_nat j + byte_at v j * 256 ^ Z.of_nat j) 0); [nia|done].
Qed.

Section loops.
Variables (b : view) (v : Z) (bs : list Z) (off : Z) (n : nat).
Hypothesis Hbs : length bs = v_length b.
Hypothesis Hoff : 0 <= off.
Hypothesis Hfit : off + Z.of_nat n <= len b.

(** After byte [j] of [n], little endian: the first [j] bytes are written. *)
Definition le_state (j : nat) (ys : list Z) (m : mem) : Prop :=
  valid b m /\ bytes b m = window bs off (le_bytes j v ++ ys) /\ (length ys + j = n)%nat.
Definition be_state (j : nat) (ys : list Z) (m : mem) : Prop :=
  valid b m /\ bytes b m = window bs off (ys ++ be_bytes j v) /\ (length ys + j = n)%nat.

Lemma le_store j y ys m : le_state j (y :: ys) m ->
  leaves b (put b (off + Z.of_nat j) (byte_at v j)) m tt (window bs off (le_bytes (S j) v ++ ys)).
Proof.
  intros (Hv & E & Hn). cbn [length] in Hn. rewrite le_bytes_snoc, <-app_assoc. cbn [app].
  replace (le_bytes j v ++ (v / 256 ^ Z.of_nat j) mod 256 :: ys)
    with (<[Z.to_nat (Z.of_nat j) := to_uint8 (byte_at v j)]> (le_bytes j v ++ y :: ys)).
  - apply leaves_put_window; try done; rewrite length_app, length_le_bytes; cbn [length]; lia.
  - rewrite Nat2Z.id, insert_app_r_alt, length_le_bytes, Nat.sub_diag by (rewrite length_le_bytes; lia).
    cbn [insert list_insert]. by rewrite to_uint8_id by apply byte_of.
Qed.
Lemma be_store j y ys m : be_state j (ys ++ [y]) m ->
  leaves b (put b (off + Z.of_nat (length ys)) (byte_at v j)) m tt (window bs off (ys ++ be_bytes (S j) v)).
Proof.
  intros (Hv & E & Hn). rewrite length_app in Hn. cbn [length] in Hn. rewrite be_bytes_S.
  rewrite <-app_assoc in E. cbn [app] in E.
  replace (ys ++ byte_at v j :: be_bytes j v)
    with (<[Z.to_nat (Z.of_nat (length ys)) := to_uint8 (byte_at v j)]> (ys ++ y :: be_bytes j v)).
  - apply leaves_put_window; try done; rewrite length_app; cbn [length]; rewrite length_be_bytes; lia.
  - rewrite Nat2Z.id, insert_app_r_alt, Nat.sub_diag by lia.
    cbn [insert list_insert]. by rewrite to_uint8_id by apply byte_of.
Qed.

(** The loops, from the state after byte [j]. *)
Lemma write_le_ok : 0 <= v -> forall ys j fuel m, le_state (S j) ys m -> (length ys <= fuel)%nat ->
  leaves b (write_le_loop fuel b v off (Z.of_nat n) (Z.of_nat j) (256 ^ Z.of_nat j)) m tt
    (window bs off (le_bytes n v)).
Proof.
  intros Hv. induction ys as [|y ys IH]; intros j fuel m Hs Hf; pose proof Hs as (V & E & Hn).
  - rewrite app_nil_r in E. cbn in Hn. destruct fuel; cbn [write_le_loop].
    + apply leaves_result; [|done]. by rewrite E, Hn.
    + rewrite (proj2 (Z.ltb_ge _ _)) by lia. apply leaves_result; [|done]. by rewrite E, Hn.
  - cbn [length] in *. destruct fuel as [|fuel]; [lia|]. cbn [write_le_loop].
    rewrite (proj2 (Z.ltb_lt _ _)) by lia. cbv zeta. rewrite pow256_S, unsigned_byte by done.
    replace (Z.of_nat j + 1) with (Z.of_nat (S j)) by lia.
    eapply leaves_bind; [by eapply le_store|done|]. intros m' V' E'.
    apply IH; [|lia]. split; [done|]. split; [done|lia].
Qed.
Lemma write_be_ok : 0 <= v -> forall ys j fuel m, be_state (S j) ys m -> (length ys <= fuel)%nat ->
  leaves b (write_be_loop fuel b v off (Z.of_nat (length ys)) (256 ^ Z.of_nat j)) m tt
    (window bs off (be_bytes n v)).
Proof.
  intros Hv. induction ys as [|y ys IH] using rev_ind; intros j fuel m Hs Hf; pose proof Hs as (V & E & Hn).
  - cbn [app length Nat.add] in *. destruct fuel; cbn [write_be_loop].
    + apply leaves_result; [|done]. by rewrite E, Hn.
    + rewrite (proj2 (Z.leb_gt _ _)) by lia. apply leaves_result; [|done]. by rewrite E, Hn.
  - rewrite length_app in *. cbn [length] in *. destruct fuel as [|fuel]; [lia|]. cbn [write_be_loop].
    replace (Z.of_nat (length ys + 1) - 1) with (Z.of_nat (length ys)) by lia.
    rewrite (proj2 (Z.leb_le _ _)) by lia. cbv zeta. rewrite pow256_S, unsigned_byte by done.
    eapply leaves_bind; [by eapply be_store|done|]. intros m' V' E'.
    apply IH; [|lia]. split; [done|]. split; [done|lia].
Qed.
Lemma write_int_le_ok : forall ys j fuel m, le_state (S j) ys m -> (length ys <= fuel)%nat ->
  leaves b (write_int_le_loop fuel b v off (Z.of_nat n) (Z.of_nat j) (256 ^ Z.of_nat j) (sub_at v j)) m tt
    (window bs off (le_bytes n v)).
Proof.
  induction ys as [|y ys IH]; intros j fuel m Hs Hf; pose proof Hs as (V & E & Hn).
  - rewrite app_nil_r in E. cbn in Hn. destruct fuel; cbn [write_int_le_loop].
    + apply leaves_result; [|done]. by rewrite E, Hn.
    + rewrite (proj2 (Z.ltb_ge _ _)) by lia. apply leaves_result; [|done]. by rewrite E, Hn.
  - cbn [length] in *. destruct fuel as [|fuel]; [lia|]. cbn [write_int_le_loop].
    rewrite (proj2 (Z.ltb_lt _ _)) by lia. cbv zeta. apply leaves_get. rewrite E.
    replace (off + (Z.of_nat j + 1) - 1) with (off + Z.of_nat j) by lia.
    rewrite at_window, Nat2Z.id, lookup_app_l, le_bytes_at by
      (rewrite ?length_app, ?length_le_bytes; cbn [length]; unfold len in *; lia).
    fold (byte_at v j). rewrite borrow_next, pow256_S, signed_byte.
    replace (Z.of_nat j + 1) with (Z.of_nat (S j)) by lia.
    eapply leaves_bind; [by eapply le_store|done|]. intros m' V' E'.
    apply IH; [|lia]. split; [done|]. split; [done|lia].
Qed.
Lemma write_int_be_ok : forall ys j fuel m, be_state (S j) ys m -> (length ys <= fuel)%nat ->
  leaves b (write_int_be_loop fuel b v off (Z.of_nat (length ys)) (256 ^ Z.of_nat j) (sub_at v j)) m tt
    (window bs off (be_bytes n v)).
Proof.
  induction ys as [|y ys IH] using rev_ind; intros j fuel m Hs Hf; pose proof Hs as (V & E & Hn).
  - cbn [app length Nat.add] in *. destruct fuel; cbn [write_int_be_loop].
    + apply leaves_result; [|done]. by rewrite E, Hn.
    + rewrite (proj2 (Z.leb_gt _ _)) by lia. apply leaves_result; [|done]. by rewrite E, Hn.
  - rewrite length_app in *. cbn [length] in *. destruct fuel as [|fuel]; [lia|]. cbn [write_int_be_loop].
    replace (Z.of_nat (length ys + 1) - 1) with (Z.of_nat (length ys)) by lia.
    rewrite (proj2 (Z.leb_le _ _)) by lia. cbv zeta. apply leaves_get. rewrite E.
    replace (off + Z.of_nat (length ys) + 1) with (off + Z.of_nat (length (ys ++ [y])))
      by (rewrite length_app; cbn [length]; lia).
    rewrite at_window, Nat2Z.id, lookup_app_r, Nat.sub_diag, be_bytes_at by
      (rewrite ?length_app, ?length_be_bytes; cbn [length]; unfold len in *; lia).
    replace (S j - 1 - 0)%nat with j by lia. rewrite borrow_next, pow256_S, signed_byte.
    eapply leaves_bind; [by eapply be_store|done|]. intros m' V' E'.
    apply IH; [|lia]. split; [done|]. split; [done|lia].
Qed.
End loops.

(** The loops that read, over known bytes. *)
Lemma add_ok n a c : (n <= 6)%nat -> 0 <= a -> 0 <= c -> a + c < 256 ^ Z.of_nat n ->
  add_ (Some a) (Some c) = Some (a + c).
Proof. intros Hn Ha Hc Hs. pose proof (pow256_le6 n Hn). unfold add_. cbn [mbind option_bind]. rewrite dbl_id; [done|lia]. Qed.
Lemma value_next n v j : (j < n)%nat -> (n <= 6)%nat ->
  add_ (Some (v mod 256 ^ Z.of_nat j)) (mul_ (Some (byte_at v j)) (256 ^ Z.of_nat j))
  = Some (v mod 256 ^ Z.of_nat (S j)).
Proof.
  intros Hj Hn. pose proof (pow256_pos j). pose proof (Z.mod_pos_bound v (256 ^ Z.of_nat j) ltac:(lia)).
  assert (0 <= byte_at v j < 256) by (unfold byte_at; euclid).
  assert (Hp : 256 ^ Z.of_nat (S j) <= 256 ^ Z.of_nat n) by (apply Z.pow_le_mono_r; lia).
  assert (Hs : 256 ^ Z.of_nat (S j) = 256 * 256 ^ Z.of_nat j) by (rewrite <-pow256_S; lia).
  unfold mul_. cbn [mbind option_bind]. rewrite dbl_id by (pose proof (pow256_le6 n Hn); rewrite Z.abs_eq; nia).
  rewrite (add_ok n) by (done || nia). f_equal.
  rewrite Nat2Z.inj_succ. change (Z.succ (Z.of_nat j)) with (Z.of_nat j + 1). by rewrite mod_next by lia.
Qed.

Lemma le_loop_ok bs off v n : (n <= 6)%nat -> (forall j, (j < n)%nat -> at_ bs (off + Z.of_nat j) = Some (byte_at v j)) ->
  forall k j fuel, (k + S j = n)%nat -> (k <= fuel)%nat ->
  le_loop fuel bs off (Z.of_nat n) (Z.of_nat j) (256 ^ Z.of_nat j) (Some (v mod 256 ^ Z.of_nat (S j)))
  = (Some (v mod 256 ^ Z.of_nat n), 256 ^ Z.of_nat (n - 1)).
Proof.
  intros Hn Hat. induction k as [|k IH]; intros j fuel Hk Hf.
  - replace (n - 1)%nat with j by lia. replace n with (S j) by lia. destruct fuel; cbn [le_loop]; [done|].
    by rewrite (proj2 (Z.ltb_ge _ _)) by lia.
  - destruct fuel as [|fuel]; [lia|]. cbn [le_loop]. rewrite (proj2 (Z.ltb_lt _ _)) by lia. cbv zeta.
    replace (Z.of_nat j + 1) with (Z.of_nat (S j)) by lia. rewrite Hat, pow256_S, (value_next n) by lia.
    apply IH; lia.
Qed.
Lemma be_loop_ok bs off v n : (n <= 6)%nat -> (forall j, (j < n)%nat -> at_ bs (off + Z.of_nat (n - 1 - j)) = Some (byte_at v j)) ->
  forall k j fuel, (k + S j = n)%nat -> (k <= fuel)%nat ->
  be_loop fuel bs off (Z.of_nat k) (256 ^ Z.of_nat j) (Some (v mod 256 ^ Z.of_nat (S j)))
  = (Some (v mod 256 ^ Z.of_nat n), 256 ^ Z.of_nat (n - 1)).
Proof.
  intros Hn Hat. induction k as [|k IH]; intros j fuel Hk Hf.
  - replace (n - 1)%nat with j by lia. replace n with (S j) by lia. destruct fuel; cbn [be_loop]; [done|].
    by rewrite Z.ltb_irrefl.
  - destruct fuel as [|fuel]; [lia|]. cbn [be_loop]. rewrite (proj2 (Z.ltb_lt _ _)) by lia. cbv zeta.
    replace (Z.of_nat (S k) - 1) with (Z.of_nat (n - 1 - S j)) by lia.
    rewrite Hat, pow256_S, (value_next n) by lia. replace (n - 1 - S j)%nat with k by lia. apply IH; lia.
Qed.

Lemma sign_extended_ok n v : (1 <= n <= 6)%nat ->
  - 2 ^ (8 * Z.of_nat n - 1) <= v < 2 ^ (8 * Z.of_nat n - 1) ->
  sign_extended (Z.of_nat n) (Some (v mod 256 ^ Z.of_nat n), 256 ^ Z.of_nat (n - 1)) = Some v.
Proof.
  intros Hn Hv. unfold sign_extended. cbn [fst snd mbind option_bind].
  assert (Hh : 256 ^ Z.of_nat (n - 1) * 0x80 = 2 ^ (8 * Z.of_nat n - 1)).
  { rewrite pow256_bits. change 0x80 with (2 ^ 7). rewrite <-Z.pow_add_r by lia. f_equal. lia. }
  assert (Hw : 256 ^ Z.of_nat n = 2 * 2 ^ (8 * Z.of_nat n - 1)).
  { rewrite pow256_bits. rewrite <-Z.pow_succ_r by lia. f_equal. lia. }
  rewrite Hh, <-pow256_bits. pose proof (pow256_le6 n ltac:(lia)). pose proof (pow256_pos n).
  destruct (Z.neg_nonneg_cases v).
  - replace (v mod 256 ^ Z.of_nat n) with (v + 256 ^ Z.of_nat n)
      by (apply (Z.mod_unique_pos _ _ (-1)); lia).
    rewrite (proj2 (Z.leb_le _ _)) by lia. rewrite dbl_id by lia. f_equal. lia.
  - rewrite Z.mod_small by lia. by rewrite (proj2 (Z.leb_gt _ _)) by lia.
Qed.

Lemma low_byte_at v : low_byte v = byte_at v 0.
Proof. rewrite low_byte_mod. unfold byte_at. change (256 ^ Z.of_nat 0) with 1. by rewrite Z.div_1_r. Qed.

(** A writer: the check, the first byte, the loop. *)
Lemma le_writer b m v bs off n (loop : BM unit) : (1 <= n)%nat -> valid b m -> length bs = v_length b ->
  0 <= off -> off + Z.of_nat n <= len b -> bytes b m = bs ->
  (forall ys m, le_state b v bs off n 1 ys m -> leaves b loop m tt (window bs off (le_bytes n v))) ->
  leaves b (put b off (low_byte v);; loop;; mret (off + Z.of_nat n)) m (off + Z.of_nat n)
    (window bs off (le_bytes n v)).
Proof.
  intros Hn Hv Hbs Ho Hf E Hloop. unfold len in Hf.
  destruct (window_self bs off n) as ([|y ys] & Hx & Eb); [lia|lia|cbn in Hx; lia|].
  eapply leaves_bind; [|done|].
  - rewrite low_byte_at. replace off with (off + Z.of_nat 0) at 1 by lia.
    apply (le_store b v bs off n Hbs Ho Hf 0 y ys). split; [done|]. split; [by rewrite E|lia].
  - intros m' V' E'. eapply leaves_bind; [apply (Hloop ys)|done|].
    + split; [done|]. split; [done|cbn in Hx; lia].
    + intros m2 V2 E2. by apply leaves_result.
Qed.
Lemma be_writer b m v bs off n (loop : BM unit) : (1 <= n)%nat -> valid b m -> length bs = v_length b ->
  0 <= off -> off + Z.of_nat n <= len b -> bytes b m = bs ->
  (forall ys m, length ys = (n - 1)%nat -> be_state b v bs off n 1 ys m ->
     leaves b loop m tt (window bs off (be_bytes n v))) ->
  leaves b (put b (off + (Z.of_nat n - 1)) (low_byte v);; loop;; mret (off + Z.of_nat n)) m (off + Z.of_nat n)
    (window bs off (be_bytes n v)).
Proof.
  intros Hn Hv Hbs Ho Hf E Hloop. unfold len in Hf.
  destruct (window_self bs off n) as (xs & Hx & Eb); [lia|lia|].
  destruct xs as [|y ys _] using rev_ind; [cbn in Hx; lia|]. rewrite length_app in Hx. cbn [length] in Hx.
  eapply leaves_bind; [|done|].
  - rewrite low_byte_at. replace (off + (Z.of_nat n - 1)) with (off + Z.of_nat (length ys)) by lia.
    apply (be_store b v bs off n Hbs Ho Hf 0 y ys). split; [done|].
    split; [change (be_bytes 0 v) with (@nil Z); by rewrite app_nil_r, E|rewrite length_app; cbn [length]; lia].
  - intros m' V' E'. eapply leaves_bind; [apply (Hloop ys)|done|].
    + lia.
    + split; [done|]. split; [done|lia].
    + intros m2 V2 E2. by apply leaves_result.
Qed.

Lemma max_unsigned n : (n <= 6)%nat -> dbl (2 ^ (8 * Z.of_nat n) - 1) = 2 ^ (8 * Z.of_nat n) - 1.
Proof. intros Hn. rewrite <-pow256_bits. pose proof (pow256_le6 n Hn). pose proof (pow256_pos n). apply dbl_id. lia. Qed.
Lemma max_signed n : (1 <= n <= 6)%nat -> dbl (2 ^ (8 * Z.of_nat n - 1) - 1) = 2 ^ (8 * Z.of_nat n - 1) - 1.
Proof.
  intros Hn. apply dbl_id. assert (0 < 2 ^ (8 * Z.of_nat n - 1) <= 2 ^ 48); [|lia].
  split; [by apply Z.pow_pos_nonneg; lia|by apply Z.pow_le_mono_r; lia].
Qed.

Lemma variable_writers n : (1 <= n <= 6)%nat -> Forall writer_ok (variable_formats n).
Proof.
  intros Hn. unfold variable_formats. repeat apply Forall_cons_2; [..|apply Forall_nil_2];
    intros b m v off Hv Hl Ho Hf Hr; unfold fits in Hf; cbn [f_write f_width f_min f_max f_bytes unsigned signed] in *;
    pose proof (len_bytes b m Hv) as Hbs; unfold sized_w;
    unfold writeUIntLE, writeUIntBE, writeIntLE, writeIntBE; cbv zeta;
    rewrite ?(u32_id off), ?(u32_id (Z.of_nat n)), ?max_unsigned, ?max_signed by lia;
    (apply leaves_assert; [lia|done|]).
  - apply le_writer; try done; [lia|]. intros ys m' Hs. rewrite Nat2Z.id.
    apply (write_le_ok b v (bytes b m) off n Hbs Ho Hf (proj1 Hr) ys 0 n m' Hs). destruct Hs as (_ & _ & Hs). lia.
  - apply be_writer; try done; [lia|]. intros ys m' Hy Hs. rewrite Nat2Z.id.
    replace (Z.of_nat n - 1) with (Z.of_nat (length ys)) by lia.
    apply (write_be_ok b v (bytes b m) off n Hbs Ho Hf (proj1 Hr) ys 0 n m' Hs). lia.
  - apply le_writer; try done; [lia|]. intros ys m' Hs. rewrite Nat2Z.id.
    replace 0 with (sub_at v 0) at 2 by (unfold sub_at; change (256 ^ Z.of_nat 0) with 1; by rewrite Z.mod_1_r, andb_false_r).
    apply (write_int_le_ok b v (bytes b m) off n Hbs Ho Hf ys 0 n m' Hs). destruct Hs as (_ & _ & Hs). lia.
  - apply be_writer; try done; [lia|]. intros ys m' Hy Hs. rewrite Nat2Z.id.
    replace (Z.of_nat n - 1) with (Z.of_nat (length ys)) by lia.
    replace 0 with (sub_at v 0) at 1 by (unfold sub_at; change (256 ^ Z.of_nat 0) with 1; by rewrite Z.mod_1_r, andb_false_r).
    apply (write_int_be_ok b v (bytes b m) off n Hbs Ho Hf ys 0 n m' Hs). lia.
Qed.

(** The bytes of a little- and a big-endian window, by their weight. *)
Lemma at_le bs off v n j : 0 <= off -> off + Z.of_nat n <= Z.of_nat (length bs) -> (j < n)%nat ->
  at_ (window bs off (le_bytes n v)) (off + Z.of_nat j) = Some (byte_at v j).
Proof.
  intros Ho Hl Hj. rewrite at_window by (rewrite ?length_le_bytes; lia).
  by rewrite Nat2Z.id, le_bytes_at by lia.
Qed.
Lemma at_be bs off v n j : 0 <= off -> off + Z.of_nat n <= Z.of_nat (length bs) -> (j < n)%nat ->
  at_ (window bs off (be_bytes n v)) (off + Z.of_nat (n - 1 - j)) = Some (byte_at v j).
Proof.
  intros Ho Hl Hj. rewrite at_window by (rewrite ?length_be_bytes; lia).
  rewrite Nat2Z.id, be_bytes_at by lia. do 2 f_equal. lia.
Qed.
Lemma first_value v : Some (byte_at v 0) = Some (v mod 256 ^ Z.of_nat 1).
Proof. unfold byte_at. change (256 ^ Z.of_nat 0) with 1. by rewrite Z.div_1_r. Qed.

Lemma le_read_ok bs off v n : 0 <= off -> off + Z.of_nat n <= Z.of_nat (length bs) -> (1 <= n <= 6)%nat ->
  let w := window bs off (le_bytes n v) in
  le_loop n w off (Z.of_nat n) 0 1 (at_ w off) = (Some (v mod 256 ^ Z.of_nat n), 256 ^ Z.of_nat (n - 1)).
Proof.
  intros Ho Hl Hn w. replace (at_ w off) with (at_ w (off + Z.of_nat 0)) by (f_equal; lia).
  subst w. rewrite at_le, first_value by lia.
  apply (le_loop_ok _ off v n ltac:(lia)) with (k := (n - 1)%nat) (j := 0%nat); [|lia|lia].
  intros j Hj. by apply at_le.
Qed.
Lemma be_read_ok bs off v n : 0 <= off -> off + Z.of_nat n <= Z.of_nat (length bs) -> (1 <= n <= 6)%nat ->
  let w := window bs off (be_bytes n v) in
  be_loop n w off (Z.of_nat n - 1) 1 (at_ w (off + (Z.of_nat n - 1)))
  = (Some (v mod 256 ^ Z.of_nat n), 256 ^ Z.of_nat (n - 1)).
Proof.
  intros Ho Hl Hn w. replace (Z.of_nat n - 1) with (Z.of_nat (n - 1 - 0)) by lia.
  subst w. rewrite at_be, first_value by lia.
  replace (n - 1 - 0)%nat with (n - 1)%nat by lia.
  apply (be_loop_ok _ off v n ltac:(lia)) with (k := (n - 1)%nat) (j := 0%nat); [|lia|lia].
  intros j Hj. by apply at_be.
Qed.

Lemma variable_readers n : (1 <= n <= 6)%nat -> Forall reader_ok (variable_formats n).
Proof.
  intros Hn. unfold variable_formats. repeat apply Forall_cons_2; [..|apply Forall_nil_2];
    intros b m bs v off Hv Hl Ho Hf Hr Hbs E; unfold fits, len in Hf, Hl;
    cbn [f_read f_width f_min f_max f_bytes unsigned signed] in *; unfold sized;
    unfold readUIntLE, readUIntBE, readIntLE, readIntBE; cbv zeta;
    rewrite (u32_id (Z.of_nat n)), reading_passes, Nat2Z.id, E by (unfold len; lia);
    rewrite ?le_read_ok, ?be_read_ok by lia; cbn [fst]; unfold mret, BM_ret; do 2 f_equal.
  - rewrite <-pow256_bits in Hr. rewrite Z.mod_small by lia. done.
  - rewrite <-pow256_bits in Hr. rewrite Z.mod_small by lia. done.
  - apply sign_extended_ok; lia.
  - apply sign_extended_ok; lia.
Qed.

Lemma variable_refuses n : (1 <= n <= 6)%nat -> Forall refuses (variable_formats n).
Proof.
  intros Hn. unfold variable_formats. repeat apply Forall_cons_2; [..|apply Forall_nil_2]; intros b m v off Ho;
    (split; intros H; unfold fits in H; cbn [f_write f_read f_width f_min f_max unsigned signed] in *);
    unfold sized, sized_w, writeUIntLE, writeUIntBE, writeIntLE, writeIntBE, readUIntLE, readUIntBE, readIntLE, readIntBE;
    cbv zeta; rewrite ?(u32_id (Z.of_nat n)), ?(u32_id off), ?max_unsigned, ?max_signed by lia;
    first [apply assert_int_throws | apply reading_throws; [done|]]; exact H.
Qed.

(** All the formats: 8, 16 and 32 bits, and one to six bytes, signed and
    unsigned, in both byte orders. *)
Definition formats : list int_format := fixed_formats ++ concat (map variable_formats [1; 2; 3; 4; 5; 6]%nat).
Lemma formats_ok (P : int_format -> Prop) : Forall P fixed_formats ->
  (forall n, (1 <= n <= 6)%nat -> Forall P (variable_formats n)) -> Forall P formats.
Proof.
  intros Hf Hv. apply Forall_app. split; [done|]. cbn [map concat].
  repeat (apply Forall_app; split); try (apply Hv; lia). apply Forall_nil_2.
Qed.

#[global] Instance fits_dec F b off : Decision (fits F b off).
Proof. unfold fits. apply _. Defined.

(** C34. In every format a number in range written at an offset where it fits is
    read back from there, every other byte is as before; a number out of range
    or an offset past the end throws a RangeError before anything changes. *)
Theorem int_write_read F b m v off : In F formats -> valid b m -> len b < 2 ^ 32 -> 0 <= off < 2 ^ 32 ->
  if bool_decide (f_min F <= v <= f_max F /\ fits F b off) then
    exists m', f_write F b v off false m = (Ret (off + Z.of_nat (f_width F)), m') /\ writes_only b m m' /\
      bytes b m' = window (bytes b m) off (f_bytes F v) /\ f_read F b off false m' = (Ret (Some v), m')
  else exists e, f_write F b v off false m = (Throw (JErr RangeErr e), m).
Proof.
  intros HF Hv Hl Ho.
  assert (HW : writer_ok F) by (eapply (proj1 (List.Forall_forall _ _)), HF; apply formats_ok; auto using fixed_writers, variable_writers).
  assert (HR : reader_ok F) by (eapply (proj1 (List.Forall_forall _ _)), HF; apply formats_ok; auto using fixed_readers, variable_readers).
  assert (HX : refuses F) by (eapply (proj1 (List.Forall_forall _ _)), HF; apply formats_ok; auto using fixed_refuses, variable_refuses).
  case_bool_decide as Hc.
  - destruct Hc as [Hr Hf]. destruct (HW b m v off Hv Hl (proj1 Ho) Hf Hr) as (m' & E & W & B).
    exists m'. repeat (split; [done|]). eapply HR; try done; [by apply W|lia|by apply len_bytes].
  - apply (HX b m v off Ho). destruct (decide (f_min F <= v <= f_max F)); [right|by left]. tauto.
Qed.
Lemma int_write_read_witness :
  let F := signed 3 (be_bytes 3) (sized_w writeIntBE 3) (sized readIntBE 3) in
  let b := View 0 1 4 in
  let m := [[9; 9; 9; 9; 9; 9]] in
  if bool_decide (f_min F <= -70000 <= f_max F /\ fits F b 1) then
    exists m', f_write F b (-70000) 1 false m = (Ret 4, m') /\ writes_only b m m' /\
      bytes b m' = window (bytes b m) 1 (f_bytes F (-70000)) /\ f_read F b 1 false m' = (Ret (Some (-70000)), m')
  else exists e, f_write F b (-70000) 1 false m = (Throw (JErr RangeErr e), m).
Proof.
  apply (int_write_read (signed 3 (be_bytes 3) (sized_w writeIntBE 3) (sized readIntBE 3)) (View 0 1 4)
           [[9; 9; 9; 9; 9; 9]] (-70000) 1); [|split; cbn; lia|reflexivity|lia].
  unfold formats. apply in_or_app. right. cbn [map concat variable_formats app In]. tauto.
Defined.
