(* ===== verification/FloatFields.v ===== *)
(** The formats of IEEE 754, and what [write] does once it has an exponent: it
    cuts off the bits that have no place, and the little less than half that it
    adds before makes that the number rounded. *)

From S2P Require Import Prelude JsVal Int32 BufferMem BufferNum BufferMemSpec BufferNumSpec JsNum Rounding Float.

(** ** The formats *)

Record format := Format { mant : Z; expo : Z }.
Definition float32 := Format 23 8.
Definition float64 := Format 52 11.
Definition a_format (F : format) : Prop := F = float32 \/ F = float64.
Definition bias (F : format) : Z := 2 ^ (expo F - 1) - 1.
Definition top (F : format) : Z := 2 ^ expo F - 1.

(** The weight of the last bit of a subnormal number, and of the last bit kept
    of [n]. *)
Definition floor0 (F : format) : Z := 1075 - bias F - mant F.
Definition ulp (F : format) (n : Z) : Z := Z.max (Z.log2 n - mant F) (floor0 F).
(** [k] last bits as the bits of the format: the exponent steps where the
    mantissa runs over. *)
Definition encoded (F : format) (k u : Z) : Z := Z.min (k + (u - floor0 F) * 2 ^ mant F) (top F * 2 ^ mant F).
(** [n] rounded to the format, half of a last bit up, and cut off. *)
Definition magnitude (F : format) (n : Z) : Z := encoded F ((n + 2 ^ ulp F n / 2) / 2 ^ ulp F n) (ulp F n).
Definition cut (F : format) (n : Z) : Z := encoded F (n / 2 ^ ulp F n) (ulp F n).

Definition sign_bit (F : format) (s : bool) : Z := if s then 2 ^ (mant F + expo F) else 0.
Definition to_bits (F : format) (x : num) : Z :=
  match x with
  | NaN => top F * 2 ^ mant F + 1
  | Inf s => sign_bit F s + top F * 2 ^ mant F
  | Fin s n => sign_bit F s + magnitude F n
  end.

(** ** Exact steps *)

Lemma double_below n : 0 < n < 2 ^ 2098 -> Z.log2 n < 2098.
Proof. intros. apply Z.log2_lt_pow2; lia. Qed.
Lemma log2_eq n k : 0 <= k -> 2 ^ k <= n < 2 ^ (k + 1) -> Z.log2 n = k.
Proof. intros Hk Hn. apply Z.log2_unique; [done|]. by rewrite <-Z.add_1_r. Qed.
Lemma below_2098 n : 0 <= n -> Z.log2 n < 2098 -> n < 2 ^ 2098.
Proof.
  intros Hn Hl. destruct (Z.eq_dec n 0) as [->|]; [done|]. apply Z.log2_lt_pow2; lia.
Qed.

(** A product with a power of two that loses no bit. *)
Lemma mul_pow2 s V k : rep V -> 0 < V -> -1074 <= k < 1024 -> 52 <= Z.log2 V + k \/ 0 <= k -> Z.log2 V + k < 2098 ->
  exists y, mul (Fin s V) (pow2 k) = Fin s y /\ rep y /\ 0 < y /\ Z.log2 y = Z.log2 V + k /\ y * one = V * 2 ^ (k + 1074).
Proof.
  intros Hr HV Hk Hq Hl. pose proof (Z.log2_nonneg V).
  assert (exists y, y * one = V * 2 ^ (k + 1074)) as [y Ey].
  { destruct (Z.le_gt_cases 0 k) as [K|K].
    - exists (V * 2 ^ k). rewrite one_eq, Z.pow_add_r by lia. lia.
    - destruct (rep_multiple V Hr) as [j E]. exists (j * 2 ^ (quantum V + k)). rewrite one_eq.
      assert (0 <= quantum V + k) by (unfold quantum; lia).
      transitivity (j * 2 ^ quantum V * 2 ^ (k + 1074)); [|by rewrite <-E].
      rewrite <-!Z.mul_assoc, <-!Z.pow_add_r by nonneg. do 2 f_equal. lia. }
  assert (Hy : rep y).
  { apply (rep_shift V y (k + 1074) 1074); [done|lia|lia|]. by rewrite <-Ey, one_eq. }
  assert (P : 0 < y).
  { pose proof one_pos. pose proof (pow2_pos (k + 1074) ltac:(lia)). nia. }
  assert (L : Z.log2 y = Z.log2 V + k).
  { assert (E : Z.log2 (y * one) = Z.log2 (V * 2 ^ (k + 1074))) by (by rewrite Ey).
    rewrite one_eq, !Z.log2_mul_pow2 in E by lia. lia. }
  exists y. split; [|done]. rewrite pow2_Fin by lia. rewrite (mul_exact s false V _ y); [by rewrite xorb_false_r|done|apply below_2098; lia|done].
Qed.

Lemma of_Z_1 : of_Z 1 = Fin false one.
Proof. rewrite of_Z_small by lia. by rewrite Z.mul_1_l. Qed.
Lemma of_Z_2 : of_Z 2 = Fin false (2 * one).
Proof. by rewrite of_Z_small by lia. Qed.
Lemma pow2_double k : -1074 <= k < 1023 -> mul (pow2 k) (of_Z 2) = pow2 (k + 1).
Proof.
  intros Hk. rewrite !pow2_Fin, of_Z_2 by lia. replace (k + 1 + 1074) with (Z.succ (k + 1074)) by lia.
  rewrite (mul_exact false false _ _ (2 ^ Z.succ (k + 1074))); [done|apply rep_pow2; lia|apply Z.pow_lt_mono_r; lia|].
  rewrite Z.pow_succ_r by lia. lia.
Qed.
Lemma pow2_half k : -1073 <= k < 1024 -> div (pow2 k) (of_Z 2) = pow2 (k - 1).
Proof.
  intros Hk. rewrite !pow2_Fin, of_Z_2 by lia. pose proof one_pos.
  rewrite (div_exact false false _ _ (2 ^ (k - 1 + 1074))); [done|apply rep_pow2; lia|apply Z.pow_lt_mono_r; lia|lia|].
  replace (k + 1074) with (Z.succ (k - 1 + 1074)) by lia. rewrite Z.pow_succ_r by lia. lia.
Qed.
Lemma pow2_inf k : 1024 <= k -> pow2 k = Inf false.
Proof. intros. unfold pow2. by rewrite (proj2 (Z.leb_le _ _)). Qed.

(** Comparisons with 1 and 2, of numbers that are not negative. *)
Lemma ltb_1 y : 0 < y -> ltb (Fin false y) (of_Z 1) = (Z.log2 y <? 1074).
Proof.
  intros Hy. rewrite of_Z_1. cbn [ltb signed]. apply eq_true_iff_eq. rewrite !Z.ltb_lt, one_eq. by apply Z.log2_lt_pow2.
Qed.
Lemma leb_2 y : 0 < y -> leb (of_Z 2) (Fin false y) = (1075 <=? Z.log2 y).
Proof.
  intros Hy. rewrite of_Z_2. unfold leb. cbn [ltb eqb signed]. apply eq_true_iff_eq.
  rewrite orb_true_iff, Z.ltb_lt, Z.eqb_eq, Z.leb_le, one_eq. rewrite <-Z.log2_le_pow2 by done.
  change 1075 with (Z.succ 1074). rewrite (Z.pow_succ_r 2 1074) by lia. lia.
Qed.

(** ** The exponent and the mantissa *)

Lemma format_facts F : a_format F ->
  1 <= mant F <= 52 /\ 127 <= bias F <= 1023 /\ top F = 2 * bias F + 1 /\ 0 <= floor0 F.
Proof. intros [->| ->]; cbv; repeat split; discriminate. Qed.

(** What [fields] does once the number to be cut off is known: [c] is to be the
    inverse of the exponent. *)
Definition pack (F : format) (e : option Z) (c value : num) : Z * num :=
  let '(e, c) := if leb (of_Z 2) (mul value c) then (plus_ e 1, div c (of_Z 2)) else (e, c) in
  if ge_ (plus_ e (bias F)) (top F) then (top F, of_Z 0)
  else if ge_ (plus_ e (bias F)) 1 then (bits (plus_ e (bias F)), mul (sub (mul value c) (of_Z 1)) (pow2 (mant F)))
  else (0, mul (mul value (pow2 (bias F - 1))) (pow2 (mant F))).

(** The fields hold the bits [w]; the mantissa can be divided by 256 a hundred times. *)
Definition holds (F : format) (r : Z * num) (w : Z) : Prop := exists e x, r = (e, Fin false x) /\
  0 <= e <= top F /\ 0 <= x / one < 2 ^ mant F /\ rep x /\ x < 2 ^ 2098 /\ (exists j, x = j * 2 ^ 1000) /\
  w = e * 2 ^ mant F + x / one.

Lemma encoded_top F k u : a_format F -> floor0 F + top F - 1 <= u -> 2 ^ mant F <= k ->
  encoded F k u = top F * 2 ^ mant F.
Proof.
  intros (M & B & T & F0)%format_facts Hu Hk. unfold encoded. apply Z.min_r.
  pose proof (pow2_pos (mant F) ltac:(lia)). nia.
Qed.
Lemma encoded_below F k u : a_format F -> u - floor0 F + 2 <= top F -> k <= 2 ^ (mant F + 1) ->
  encoded F k u = k + (u - floor0 F) * 2 ^ mant F.
Proof.
  intros (M & B & T & F0)%format_facts Hu Hk. unfold encoded. apply Z.min_l.
  rewrite Z.pow_add_r in Hk by lia. pose proof (pow2_pos (mant F) ltac:(lia)). nia.
Qed.
(** The quotient by a power of two below the leading bit. *)
Lemma quotient_bits n m : 0 < n -> 0 <= m <= Z.log2 n -> 2 ^ m <= n / 2 ^ (Z.log2 n - m) < 2 ^ (m + 1).
Proof.
  intros Hn Hm. pose proof (Z.log2_spec n Hn) as [H1 H2]. pose proof (pow2_pos (Z.log2 n - m) ltac:(lia)).
  split.
  - apply Z.div_le_lower_bound; [done|]. rewrite <-Z.pow_add_r by lia. by replace (Z.log2 n - m + m) with (Z.log2 n) by lia.
  - apply Z.div_lt_upper_bound; [done|]. rewrite <-Z.pow_add_r by lia. by replace (Z.log2 n - m + (m + 1)) with (Z.succ (Z.log2 n)) by lia.
Qed.

Lemma holds_top F V : a_format F -> 0 < V -> 1074 - bias F + top F <= Z.log2 V -> holds F (top F, of_Z 0) (cut F V).
Proof.
  intros HF HV Hl. pose proof (format_facts F HF) as (M & B & T & F0).
  exists (top F), 0. split; [by rewrite of_Z_small|]. rewrite Z.div_0_l by (pose proof one_pos; lia).
  pose proof (pow2_pos (mant F) ltac:(lia)). split; [lia|]. split; [lia|]. split; [by apply rep_small|]. split; [done|]. split; [by exists 0|].
  unfold cut. assert (E : ulp F V = Z.log2 V - mant F) by (unfold ulp, floor0 in *; lia).
  rewrite E, encoded_top; [lia|done|unfold floor0; lia|]. apply quotient_bits; [done|]. unfold floor0 in F0. lia.
Qed.

Lemma sub_1 y : rep y -> Z.log2 y = 1074 ->
  sub (Fin false y) (of_Z 1) = Fin false (y - one) /\ 0 <= y - one < one /\ rep (y - one) /\ exists j, y - one = j * 2 ^ 1022.
Proof.
  intros Hy Hl. assert (P : 0 < y) by (destruct (Z.le_gt_cases y 0); [by rewrite Z.log2_nonpos in Hl|done]).
  pose proof (Z.log2_spec y P) as [H1 H2]. rewrite Hl in H1, H2. rewrite Z.pow_succ_r, <-one_eq in H2 by lia. rewrite <-one_eq in H1.
  destruct (rep_multiple y Hy) as [j Ej]. unfold quantum in Ej. rewrite Hl in Ej. change (Z.max 0 (1074 - 52)) with 1022 in Ej.
  assert (Em : y - one = (j - 2 ^ 52) * 2 ^ 1022) by (rewrite Z.mul_sub_distr_r, <-Z.pow_add_r, one_eq by lia; by rewrite Ej at 1).
  assert (Hr : rep (y - one)).
  { apply (rep_of_multiple _ (j - 2 ^ 52) 1022); [lia| |done]. destruct (Z.eq_dec (y - one) 0) as [->|]; [done|].
    assert (Z.log2 (y - one) < 1074) by (apply Z.log2_lt_pow2; rewrite <-?one_eq; lia). unfold quantum. lia. }
  split; [|by eauto with lia]. rewrite of_Z_1. unfold sub. cbn [opp add signed negb].
  replace (y + - one) with (y - one) by lia. destruct (Z.eqb_spec (y - one) 0) as [->|]; [done|].
  rewrite (proj2 (Z.ltb_ge _ _)), Z.abs_eq, rnd_1 by (done || lia). apply fin_small.
  apply Z.lt_trans with one; [lia|]. by rewrite one_eq.
Qed.

(** The kept bits of [V] are those of [y], which is [V] shifted by [k]. *)
Lemma shifted_quotient V y k m u : y * one = V * 2 ^ (k + 1074) -> u = - k - m + 1074 -> 0 <= u <= 2148 -> 0 <= m -> -1074 <= k ->
  (y * 2 ^ m) / one = V / 2 ^ u.
Proof.
  intros E Hu Hb Hm Hk. pose proof one_pos. rewrite <-(Z.div_mul_cancel_r _ one one) by lia.
  replace (y * 2 ^ m * one) with (y * one * 2 ^ m) by lia. rewrite E, <-Z.mul_assoc, <-Z.pow_add_r by lia.
  replace (k + 1074 + m) with (2148 - u) by lia.
  replace (one * one) with (2 ^ u * 2 ^ (2148 - u)) by (rewrite one_eq, <-!Z.pow_add_r by lia; f_equal; lia).
  apply Z.div_mul_cancel_r; apply Z.pow_nonzero; lia.
Qed.
Lemma times_pow2 z m : rep z -> 0 <= z -> z < 2 ^ 2000 -> 0 <= m <= 52 -> 
  mul (Fin false z) (pow2 m) = Fin false (z * 2 ^ m) /\ rep (z * 2 ^ m) /\ z * 2 ^ m < 2 ^ 2098.
Proof.
  intros Hr Hz Hl Hm. assert (R : rep (z * 2 ^ m)) by (apply (rep_shift z _ m 0); [done|lia|lia|lia]).
  assert (B : z * 2 ^ m < 2 ^ 2098).
  { apply Z.lt_le_trans with (2 ^ 2000 * 2 ^ m); [apply Z.mul_lt_mono_pos_r; [apply pow2_pos; lia|lia]|].
    rewrite <-Z.pow_add_r by lia. apply Z.pow_le_mono_r; lia. }
  split; [|done]. rewrite pow2_Fin by lia. rewrite (mul_exact false false _ _ (z * 2 ^ m)); [done|done|done|].
  rewrite Z.pow_add_r, one_eq by lia. by rewrite Z.mul_assoc.
Qed.

Lemma holds_normal F V (e := Z.log2 V - 1074) : a_format F -> rep V -> 0 < V < 2 ^ 2098 -> 1 <= e + bias F < top F ->
  holds F (e + bias F, mul (sub (mul (Fin false V) (pow2 (- e))) (of_Z 1)) (pow2 (mant F))) (cut F V).
Proof.
  intros HF Hr HV He. pose proof (format_facts F HF) as (M & B & T & F0). pose proof (double_below V HV) as Hd.
  destruct (mul_pow2 false V (- e) Hr ltac:(lia) ltac:(lia) ltac:(lia) ltac:(lia)) as (y & -> & Hy & Py & Ly & Ey).
  destruct (sub_1 y Hy ltac:(lia)) as (-> & Hz & Hrz & [j Ej]).
  destruct (times_pow2 (y - one) (mant F) Hrz ltac:(lia)) as (-> & Hx & Bx); [|lia|].
  { apply Z.lt_trans with one; [lia|]. rewrite one_eq. by apply Z.pow_lt_mono_r. }
  assert (Hu : ulp F V = Z.log2 V - mant F) by (unfold ulp, floor0 in *; lia).
  pose proof (quotient_bits V (mant F) ltac:(lia) ltac:(unfold floor0 in F0; lia)) as Q. rewrite Z.pow_add_r in Q by lia.
  assert (Hq : (y - one) * 2 ^ mant F / one = V / 2 ^ (Z.log2 V - mant F) - 2 ^ mant F).
  { pose proof one_pos. rewrite <-(shifted_quotient V y (- e) (mant F) _ Ey) by (unfold floor0 in F0; lia).
    replace ((y - one) * 2 ^ mant F) with (y * 2 ^ mant F + (- 2 ^ mant F) * one) by lia. by rewrite Z.div_add by lia. }
  eexists _, _. split; [done|]. split; [lia|]. rewrite Hq. split; [lia|]. split; [done|]. split; [done|]. split.
  - exists (j * 2 ^ (22 + mant F)). rewrite Ej, <-!Z.mul_assoc, <-!Z.pow_add_r by lia. do 2 f_equal. lia.
  - unfold cut. rewrite Hu, encoded_below; [unfold floor0; lia|done|unfold floor0 in *; lia|rewrite Z.pow_add_r by lia; lia].
Qed.

(** A number below the normal ones. *)
Lemma holds_sub F V : a_format F -> rep V -> 0 <= V -> V < 2 ^ (1075 - bias F) ->
  (exists j, V * 2 ^ (bias F - 1 + mant F) = j * 2 ^ 1000) ->
  holds F (0, mul (mul (Fin false V) (pow2 (bias F - 1))) (pow2 (mant F))) (cut F V).
Proof.
  intros HF Hr H0 HV Hj. pose proof (format_facts F HF) as (M & B & T & F0).
  assert (R : rep (V * 2 ^ (bias F - 1))) by (apply (rep_shift V _ (bias F - 1) 0); [done|lia|lia|lia]).
  assert (L : V * 2 ^ (bias F - 1) < 2 ^ 1074).
  { replace 1074 with (1075 - bias F + (bias F - 1)) by lia. rewrite Z.pow_add_r by lia.
    apply Z.mul_lt_mono_pos_r; [apply pow2_pos; lia|done]. }
  pose proof (pow2_pos (bias F - 1) ltac:(lia)).
  rewrite pow2_Fin by lia. rewrite (mul_exact false false _ _ (V * 2 ^ (bias F - 1))); [|done| |].
  2: { eapply Z.lt_trans; [exact L|]. by apply Z.pow_lt_mono_r. }
  2: { rewrite Z.pow_add_r, one_eq by lia. by rewrite Z.mul_assoc. }
  cbn [xorb]. destruct (times_pow2 (V * 2 ^ (bias F - 1)) (mant F) R ltac:(apply Z.mul_nonneg_nonneg; lia)) as (-> & Hx & Bx); [|lia|].
  { eapply Z.lt_trans; [exact L|]. by apply Z.pow_lt_mono_r. }
  assert (Hq : V * 2 ^ (bias F - 1) * 2 ^ mant F / one = V / 2 ^ floor0 F).
  { unfold floor0. rewrite <-Z.mul_assoc, <-Z.pow_add_r by lia. set (a := bias F - 1 + mant F).
    replace one with (2 ^ (1075 - bias F - mant F) * 2 ^ a) by (rewrite one_eq, <-Z.pow_add_r by (unfold floor0 in F0; subst a; lia); f_equal; lia).
    apply Z.div_mul_cancel_r; apply Z.pow_nonzero; unfold floor0 in F0; lia. }
  assert (Hlt : V / 2 ^ floor0 F < 2 ^ mant F).
  { apply Z.div_lt_upper_bound; [by apply pow2_pos|]. rewrite <-Z.pow_add_r by lia. unfold floor0. by replace (1075 - bias F - mant F + mant F) with (1075 - bias F) by lia. }
  assert (Hge : 0 <= V / 2 ^ floor0 F) by (apply Z.div_pos; [done|by apply pow2_pos]).
  eexists _, _. split; [done|]. split; [lia|]. rewrite Hq. split; [done|]. split; [done|]. split; [done|]. split.
  - destruct Hj as [j Ej]. exists j. by rewrite <-Z.mul_assoc, <-Z.pow_add_r by lia.
  - assert (Hu : ulp F V = floor0 F).
    { unfold ulp. apply Z.max_r. destruct (Z.eq_dec V 0) as [->|]; [unfold floor0 in *; cbn; lia|].
      assert (Z.log2 V < 1075 - bias F) by (apply Z.log2_lt_pow2; lia). unfold floor0. lia. }
    unfold cut. rewrite Hu, encoded_below; [lia|done|lia|]. rewrite Z.pow_add_r by lia. lia.
Qed.

(** A subnormal number to be cut off has few enough bits. *)
Definition fine (F : format) (V : Z) : Prop :=
  V < 2 ^ (1075 - bias F) -> exists j, V * 2 ^ (bias F - 1 + mant F) = j * 2 ^ 1000.

Lemma pack_exact F V : a_format F -> rep V -> 0 < V < 2 ^ 2098 -> fine F V -> let e := Z.log2 V - 1074 in
  holds F (if ge_ (Some (e + bias F)) (top F) then (top F, of_Z 0)
           else if ge_ (Some (e + bias F)) 1 then (bits (Some (e + bias F)), mul (sub (mul (Fin false V) (pow2 (- e))) (of_Z 1)) (pow2 (mant F)))
           else (0, mul (mul (Fin false V) (pow2 (bias F - 1))) (pow2 (mant F)))) (cut F V).
Proof.
  intros HF Hr HV Hf e. cbn [ge_ bits default from_option id]. destruct (Z.leb_spec (top F) (e + bias F)); [apply holds_top; [done|lia|lia]|].
  destruct (Z.leb_spec 1 (e + bias F)); [by apply holds_normal|].
  assert (V < 2 ^ (1075 - bias F)) by (apply Z.log2_lt_pow2; lia). apply holds_sub; auto; lia.
Qed.
Lemma pack_near F V e : a_format F -> rep V -> 0 < V < 2 ^ 2098 -> fine F V -> -1023 <= e <= 1023 ->
  Z.log2 V - 1074 = e \/ Z.log2 V - 1074 = e + 1 -> holds F (pack F (Some e) (pow2 (- e)) (Fin false V)) (cut F V).
Proof.
  intros HF Hr HV Hf He Hl. pose proof (double_below V HV).
  destruct (mul_pow2 false V (- e) Hr ltac:(lia) ltac:(lia) ltac:(lia) ltac:(lia)) as (y & Em & Hy & Py & Ly & Ey).
  pose proof (pack_exact F V HF Hr HV Hf) as P. cbv zeta in P. unfold pack. rewrite Em, leb_2 by done.
  destruct Hl as [Hl|Hl]; rewrite Hl in *.
  - rewrite (proj2 (Z.leb_gt _ _)) by lia. rewrite Em in P. cbn [plus_ option_map]. by rewrite Em.
  - rewrite (proj2 (Z.leb_le _ _)) by lia. rewrite pow2_half by lia. replace (- e - 1) with (- (e + 1)) by lia. exact P.
Qed.
Lemma pack_low F V e c : a_format F -> rep V -> 0 <= V -> V < 2 ^ (1075 - bias F) -> fine F V -> ge_ e (- bias F) = false ->
  holds F (pack F e c (Fin false V)) (cut F V).
Proof.
  intros HF Hr HV Hl Hf He. pose proof (format_facts F HF) as (M & B & T & F0).
  assert (E : forall k, k <= 1 -> ge_ (plus_ (plus_ e k) (bias F)) (top F) = false /\ ge_ (plus_ (plus_ e k) (bias F)) 1 = false).
  { intros k Hk. destruct e as [e|]; [|done]. cbn [ge_ plus_ option_map] in *. apply Z.leb_gt in He. split; apply Z.leb_gt; lia. }
  destruct (E 1 ltac:(lia)) as [E1 E2], (E 0 ltac:(lia)) as [E3 E4].
  replace (plus_ e 0) with e in E3, E4 by (destruct e; cbn; f_equal; lia).
  unfold pack. destruct (leb _ _); rewrite ?E1, ?E2, ?E3, ?E4; by apply holds_sub; auto.
Qed.
Lemma pack_high F e c value : a_format F -> top F <= e + bias F -> pack F (Some e) c value = (top F, of_Z 0).
Proof.
  intros HF He. unfold pack. destruct (leb _ _); cbn [plus_ option_map ge_]; by rewrite (proj2 (Z.leb_le _ _)) by lia.
Qed.

(** *** The number that is cut off *)

Definition addend (F : format) (e : Z) : Z := if mant F =? 23 then (2 ^ 53 - 1) * 2 ^ (Z.max e (-126) + 997) else 0.
Lemma rt_float32 : sub (pow2 (-24)) (pow2 (-77)) = Fin false ((2 ^ 53 - 1) * 2 ^ 997).
Proof. vm_compute. reflexivity. Qed.

Lemma add_Fin n r : 0 < n -> 0 <= r -> add (Fin false n) (Fin false r) = fin false (rnd (n + r) 1).
Proof.
  intros Hn Hr. cbn [add signed]. rewrite (proj2 (Z.eqb_neq _ 0)), (proj2 (Z.ltb_ge _ 0)) by lia. by rewrite Z.abs_eq by lia.
Qed.
Lemma added F n e : a_format F -> 0 < n -> e <= 1023 ->
  let rt := if mant F =? 23 then sub (pow2 (-24)) (pow2 (-77)) else of_Z 0 in
  (if ge_ (plus_ (Some e) (bias F)) 1 then add (Fin false n) (div rt (pow2 (- e)))
   else add (Fin false n) (mul rt (pow2 (1 - bias F)))) = fin false (rnd (n + addend F e) 1).
Proof.
  intros [->| ->] Hn He; cbv zeta; unfold addend; cbn [mant float32 float64 Z.eqb Pos.eqb plus_ option_map ge_].
  - change (bias float32) with 127. rewrite rt_float32. destruct (Z.leb_spec 1 (e + 127)).
    + rewrite pow2_Fin by lia. rewrite Z.max_l by lia.
      rewrite (div_exact false false _ _ ((2 ^ 53 - 1) * 2 ^ (e + 997))).
      * apply add_Fin; [done|]. pose proof (pow2_pos (e + 997) ltac:(lia)). lia.
      * apply rep_intro; lia.
      * apply Z.lt_le_trans with (2 ^ 53 * 2 ^ (e + 997)); [apply Z.mul_lt_mono_pos_r; [apply pow2_pos; lia|lia]|].
        rewrite <-Z.pow_add_r by lia. apply Z.pow_le_mono_r; lia.
      * apply pow2_pos. lia.
      * rewrite one_eq, <-!Z.mul_assoc, <-!Z.pow_add_r by lia. do 2 f_equal. lia.
    + rewrite Z.max_r by lia. change (pow2 (1 - 127)) with (pow2 (-126)).
      replace (mul (Fin false ((2 ^ 53 - 1) * 2 ^ 997)) (pow2 (-126))) with (Fin false ((2 ^ 53 - 1) * 2 ^ (-126 + 997))) by (vm_compute; reflexivity).
      by apply add_Fin.
  - change (bias float64) with 1023. change (of_Z 0) with (Fin false 0). destruct (Z.leb_spec 1 (e + 1023)).
    + rewrite pow2_Fin by lia. rewrite (div_exact false false _ _ 0); [by apply add_Fin|by apply rep_small|done|apply pow2_pos; lia|lia].
    + change (1 - 1023) with (-1022). rewrite pow2_Fin by lia. rewrite (mul_exact false false _ _ 0); [by apply add_Fin|by apply rep_small|done|lia].
Qed.

Lemma ulp_of_double n : ulp float64 n = quantum n.
Proof. unfold ulp, quantum. cbn [mant float64]. change (floor0 float64) with 0. lia. Qed.
Lemma cut_double n : rep n -> cut float64 n = magnitude float64 n.
Proof.
  intros Hn. unfold cut, magnitude. rewrite ulp_of_double. f_equal. destruct (rep_multiple n Hn) as [j E].
  pose proof (quantum_nonneg n) as Q. set (u := quantum n) in *. pose proof (pow2_pos u Q).
  assert (0 <= 2 ^ u / 2 < 2 ^ u) by (split; [by apply Z.div_pos; lia|by apply Z.div_lt; lia]).
  rewrite E at 1 2. rewrite Z.div_mul, Z.div_add_l, (Z.div_small (2 ^ u / 2)) by lia. lia.
Qed.

(** The cut number is the rounded one. *)
Lemma cut_rounded n : rep n -> 0 < n -> n < 2 ^ (ulp float32 n + 24) ->
  let V := rnd (n + addend float32 (Z.log2 n - 1074)) 1 in cut float32 V = magnitude float32 n.
Proof.
  intros Hn Hp Hl V. set (u := ulp float32 n) in *.
  assert (Hu : 925 <= u) by (subst u; unfold ulp; change (floor0 float32) with 925; lia).
  pose proof (pow2_pos (u - 54) ltac:(lia)) as P3.
  assert (P1 : 2 ^ u = 2 * 2 ^ (u - 1)) by (rewrite <-Z.pow_succ_r by lia; f_equal; lia).
  assert (P2 : 2 ^ (u - 1) = 2 ^ 53 * 2 ^ (u - 54)) by (rewrite <-Z.pow_add_r by lia; f_equal; lia).
  assert (EV : V = rnd (n + 2 ^ (u - 1) - 2 ^ (u - 54)) 1).
  { subst V. f_equal. unfold addend. cbn [mant float32 Z.eqb Pos.eqb].
    replace (Z.max (Z.log2 n - 1074) (-126) + 997) with (u - 54) by (subst u; unfold ulp; cbn [mant float32]; change (floor0 float32) with 925; lia). lia. }
  pose proof (rounded_cut n u Hn Hp ltac:(lia) Hl) as C. pose proof (k_bounds n u Hp ltac:(lia) Hl) as [K _].
  cbv zeta in C, K. rewrite <-EV in C.
  assert (Hh : 2 ^ u / 2 = 2 ^ (u - 1)) by (rewrite P1, Z.mul_comm; by apply Z.div_mul).
  set (k := (n + 2 ^ (u - 1)) / 2 ^ u) in *.
  assert (Em : magnitude float32 n = encoded float32 k u) by (unfold magnitude; fold u; by rewrite Hh).
  assert (HV : 0 <= n + 2 ^ (u - 1) - 2 ^ (u - 54)) by lia.
  assert (Hge : n <= V) by (rewrite EV; apply rnd_ge; [done|lia|done|lia]).
  pose proof (Z.log2_le_mono _ _ Hge) as Hlog.
  assert (Hb : k * 2 ^ u <= V < (k + 1) * 2 ^ u).
  { pose proof (Z.div_mod V (2 ^ u) ltac:(lia)). pose proof (Z.mod_pos_bound V (2 ^ u) ltac:(lia)). lia. }
  rewrite Em. unfold cut. destruct (Z.eq_dec k (2 ^ 24)) as [Ek|Nk].
  - assert (E : Z.log2 V = u + 24) by (apply log2_eq; [lia|]; rewrite !Z.pow_add_r by lia; nia).
    assert (Eu : ulp float32 V = u + 1) by (unfold ulp; cbn [mant float32]; change (floor0 float32) with 925; lia).
    rewrite Eu. unfold encoded. f_equal. change (floor0 float32) with 925. cbn [mant float32].
    rewrite (Z.pow_add_r 2 u 1), <-Z.div_div, C, Ek by (try apply pow2_pos; lia). change (2 ^ 24 / 2 ^ 1) with (2 ^ 23). lia.
  - assert (Hlt : V < 2 ^ (u + 24)) by (rewrite Z.pow_add_r by lia; nia).
    apply Z.log2_lt_pow2 in Hlt; [|lia].
    assert (Eu : ulp float32 V = u) by (subst u; unfold ulp in *; cbn [mant float32] in *; change (floor0 float32) with 925 in *; lia).
    by rewrite Eu, C.
Qed.

Lemma below_ulp n : 0 < n -> n < 2 ^ (ulp float32 n + 24).
Proof.
  intros Hn. eapply Z.lt_le_trans; [apply Z.log2_spec; lia|]. apply Z.pow_le_mono_r; [done|].
  unfold ulp. cbn [mant float32]. lia.
Qed.
Lemma addend_bounds e : (2 ^ 53 - 1) * 2 ^ 871 <= addend float32 e < 2 ^ (Z.max e (-126) + 1050).
Proof.
  unfold addend. cbn [mant float32 Z.eqb Pos.eqb]. set (m := Z.max e (-126)). split.
  - apply Z.mul_le_mono_nonneg_l; [lia|]. apply Z.pow_le_mono_r; lia.
  - replace (m + 1050) with (53 + (m + 997)) by lia. rewrite (Z.pow_add_r 2 53) by lia.
    apply Z.mul_lt_mono_pos_r; [apply pow2_pos; lia|lia].
Qed.

(** Sums with [addend], rounded. *)
Section sum.
Variables (n e : Z).
Hypothesis Hn : rep n.
Hypothesis Hp : 0 < n.
Let L := Z.log2 n.
Let V := rnd (n + addend float32 e) 1.

Lemma sum_ge : n <= V.
Proof. pose proof (addend_bounds e). apply rnd_ge; [lia|lia|done|lia]. Qed.
Lemma sum_le y : rep y -> n + addend float32 e <= y -> V <= y.
Proof. intros Hy H. pose proof (addend_bounds e). apply rnd_le; [lia|lia|done|lia]. Qed.
Lemma sum_fine : fine float32 V.
Proof.
  intros _. pose proof (addend_bounds e) as [B _].
  assert (Hr : rep V) by (apply rep_rnd; lia).
  assert (G : (2 ^ 53 - 1) * 2 ^ 871 <= V) by (apply rnd_ge; [lia|lia|by apply rep_intro|lia]).
  assert (H : 2 ^ 923 <= V) by (eapply Z.le_trans; [|exact G]; by vm_compute).
  apply Z.log2_le_pow2 in H; [|lia]. destruct (rep_multiple V Hr) as [j E]. change (bias float32) with 127. cbn [mant float32].
  assert (Q : 871 <= quantum V) by (unfold quantum; lia).
  exists (j * 2 ^ (quantum V + 149 - 1000)). transitivity (j * 2 ^ quantum V * 2 ^ (127 - 1 + 23)); [by rewrite <-E|].
  rewrite <-!Z.mul_assoc, <-!Z.pow_add_r by lia. do 2 f_equal. lia.
Qed.
End sum.

(** The logarithm as the implementation computes it: the exponent below may come
    out one too big, and one too small right behind a power of two. *)
Definition behind_power (n : Z) : Prop := n * 2 ^ 30 <= 2 ^ Z.log2 n * (2 ^ 30 + 1).
Definition accurate (log : MathLog) : Prop := forall n, rep n -> 0 < n < 2 ^ 2098 ->
  let e := Z.log2 n - 1074 in log n = e \/ log n = e + 1 \/ (log n = e - 1 /\ behind_power n).

Lemma behind_le n : 30 <= Z.log2 n -> behind_power n -> n <= 2 ^ Z.log2 n + 2 ^ (Z.log2 n - 30).
Proof.
  unfold behind_power. intros Hl H. assert (E : 2 ^ Z.log2 n = 2 ^ (Z.log2 n - 30) * 2 ^ 30) by (rewrite <-Z.pow_add_r by lia; f_equal; lia).
  lia.
Qed.

(** With the exponent one too small nothing changes behind a power of two. *)
Lemma cut_behind n : rep n -> 0 < n -> behind_power n ->
  let V := rnd (n + addend float32 (Z.log2 n - 1075)) 1 in cut float32 V = magnitude float32 n.
Proof.
  intros Hn Hp Hb V. destruct (Z.le_gt_cases (Z.log2 n) 948) as [Hl|Hl].
  { rewrite <-cut_rounded by (done || by apply below_ulp). subst V. unfold addend. do 6 f_equal. lia. }
  set (u := Z.log2 n - 23). assert (Eu : ulp float32 n = u) by (unfold ulp; cbn [mant float32]; change (floor0 float32) with 925; lia).
  pose proof (behind_le n ltac:(lia) Hb) as Bn. pose proof (Z.log2_spec n Hp) as [Ln _].
  pose proof (addend_bounds (Z.log2 n - 1075)) as [_ Ba]. replace (Z.max (Z.log2 n - 1075) (-126) + 1050) with (u - 2) in Ba by lia.
  assert (P : 2 ^ Z.log2 n = 2 ^ 30 * 2 ^ (u - 7) /\ 2 ^ (Z.log2 n - 30) = 2 ^ (u - 7) /\ 2 ^ (u - 2) = 2 ^ 5 * 2 ^ (u - 7) /\
    2 ^ (u - 1) = 2 ^ 6 * 2 ^ (u - 7) /\ 2 ^ u = 2 ^ 7 * 2 ^ (u - 7)).
  { rewrite <-!Z.pow_add_r by lia. repeat split; f_equal; lia. }
  destruct P as (P1 & P2 & P3 & P4 & P5). pose proof (pow2_pos (u - 7) ltac:(lia)) as P0. rewrite P1, P2 in *. rewrite P3 in Ba.
  assert (V1 : n <= V) by by apply sum_ge.
  assert (V2 : V <= (2 ^ 24 + 1) * 2 ^ (u - 1)) by (apply sum_le; [done|apply rep_intro; lia|lia]).
  assert (Lv : Z.log2 V = Z.log2 n).
  { apply log2_eq; [lia|]. rewrite Z.pow_add_r, P1 by lia. lia. }
  unfold cut, magnitude. rewrite Eu. replace (ulp float32 V) with u by (unfold ulp in *; by rewrite Lv).
  f_equal. rewrite P5. transitivity (2 ^ 23); [symmetry; apply (Z.div_unique_pos _ _ _ (V - 2 ^ 23 * (2 ^ 7 * 2 ^ (u - 7)))); lia|].
  replace (2 ^ 7 * 2 ^ (u - 7) / 2) with (2 ^ 6 * 2 ^ (u - 7)) by (apply (Z.div_unique_pos _ _ _ 0); lia).
  apply (Z.div_unique_pos _ _ _ (n + 2 ^ 6 * 2 ^ (u - 7) - 2 ^ 23 * (2 ^ 7 * 2 ^ (u - 7)))); lia.
Qed.
