(* ===== verification/FloatExponent.v ===== *)
(** The exponent [write] begins with: whatever the logarithm does within its
    accuracy, the fields found are those of the number rounded. *)

From S2P Require Import Prelude JsVal Int32 BufferMem BufferNum BufferMemSpec BufferNumSpec JsNum Rounding Float FloatFields.

(** ** The exponent found *)

Section fields.
Context (log : MathLog) (Hlog : accurate log).

(** After the first correction [c] is the inverse of the exponent, unless it has
    overflowed. *)
Lemma first_step n : rep n -> 0 < n < 2 ^ 2098 -> let v := Fin false n in let E := Z.log2 n - 1074 in
  exists e, e <= 1023 /\
    (if ltb (mul v (pow2_opp (exponent v))) (of_Z 1) then (plus_ (exponent v) (-1), mul (pow2_opp (exponent v)) (of_Z 2))
     else (exponent v, pow2_opp (exponent v))) = (Some e, pow2 (- e)) /\
    ((-1023 <= e /\ (e = E \/ (e = E - 1 /\ behind_power n))) \/
     (e <= -1024 /\ (e = E \/ E <= -1023 /\ (e = E - 1 -> behind_power n)))).
Proof.
  intros Hn Hp v E. pose proof (double_below n Hp) as Hd. subst v. cbn [exponent]. rewrite (proj2 (Z.eqb_neq n 0)) by lia.
  unfold floor_log2. cbn [pow2_opp]. pose proof (Hlog n Hn Hp) as Hl. cbv zeta in Hl. fold E in Hl.
  destruct (Z.le_gt_cases (log n) (-1024)) as [Hs|Hs].
  - exists (log n). rewrite pow2_inf by lia. cbn [mul]. rewrite (proj2 (Z.eqb_neq n 0)) by lia.
    split; [lia|]. split; [by rewrite of_Z_1|]. right. split; [lia|]. right. split; [lia|]. intros E1. destruct Hl as [|[|[]]]; [lia|lia|done].
  - destruct (mul_pow2 false n (- log n) Hn ltac:(lia) ltac:(lia) ltac:(lia) ltac:(lia)) as (y & -> & Hy & Py & Ly & Ey).
    rewrite ltb_1 by done. destruct (Z.ltb_spec (Z.log2 y) 1074) as [H|H].
    + exists (log n - 1). split; [lia|]. split.
      * cbn [plus_ option_map]. replace (log n + -1) with (log n - 1) by lia. f_equal. replace (- (log n - 1)) with (- log n + 1) by lia.
        destruct (Z.eq_dec (- log n) 1023) as [->|]; [by vm_compute|]. apply pow2_double. lia.
      * destruct (Z.le_gt_cases (-1023) (log n - 1)); [left|right]; (split; [lia|left; lia]).
    + exists (log n). split; [lia|]. split; [done|]. left. split; [lia|]. destruct Hl as [|[|[]]]; [by left|lia|by right].
Qed.

Lemma fields_step F n e : e <= 1023 -> a_format F -> 0 < n -> let v := Fin false n in
  (if ltb (mul v (pow2_opp (exponent v))) (of_Z 1) then (plus_ (exponent v) (-1), mul (pow2_opp (exponent v)) (of_Z 2))
   else (exponent v, pow2_opp (exponent v))) = (Some e, pow2 (- e)) ->
  fields (mant F) (top F) (bias F) v = pack F (Some e) (pow2 (- e)) (fin false (rnd (n + addend F e) 1)).
Proof.
  intros He HF Hn v E. rewrite <-(added F n e HF Hn He). unfold fields, pack. cbn [isNaN eqb orb v]. by rewrite E.
Qed.

Lemma fields_double n : rep n -> 0 < n < 2 ^ 2098 ->
  holds float64 (fields 52 2047 1023 (Fin false n)) (magnitude float64 n).
Proof.
  intros Hn Hp. destruct (first_step n Hn Hp) as (e & He & E & Hc). pose proof (double_below n Hp) as Hd.
  pose proof (fields_step float64 n e He (or_intror eq_refl) ltac:(lia) E) as F. change (top float64) with 2047 in F. change (bias float64) with 1023 in F.
  change (mant float64) with 52 in F. rewrite F. change (addend float64 e) with 0.
  rewrite Z.add_0_r. rewrite (rnd_1 n Hn), (fin_small _ n (proj2 Hp)), <-(cut_double n Hn).
  assert (Hf : fine float64 n).
  { intros _. exists (n * 2 ^ 74). rewrite <-Z.mul_assoc, <-Z.pow_add_r by lia. done. }
  destruct Hc as [[H1 H2]|[H1 H2]].
  - apply pack_near; [by right|exact Hn|exact Hp|exact Hf|lia|lia].
  - apply pack_low; [by right|exact Hn|lia| |exact Hf|].
    + change (bias float64) with 1023. apply Z.log2_lt_pow2; lia.
    + change (bias float64) with 1023. cbn [ge_]. apply Z.leb_gt. lia.
Qed.

(** From [2 ^ 128] on the format is at its end. *)
Lemma magnitude_top n : 0 < n -> 1202 <= Z.log2 n -> magnitude float32 n = 255 * 2 ^ 23.
Proof.
  intros Hn Hl. unfold magnitude. assert (E : ulp float32 n = Z.log2 n - 23) by (unfold ulp; cbn [mant float32]; change (floor0 float32) with 925; lia).
  rewrite E. apply encoded_top; [by left|change (floor0 float32) with 925; change (top float32) with 255; lia|].
  cbn [mant float32]. pose proof (quotient_bits n 23 Hn ltac:(lia)) as [Q _]. eapply Z.le_trans; [exact Q|].
  apply Z.div_le_mono; [apply pow2_pos; lia|]. pose proof (pow2_pos (Z.log2 n - 23) ltac:(lia)).
  assert (0 <= 2 ^ (Z.log2 n - 23) / 2) by (apply Z.div_pos; lia). lia.
Qed.

Lemma sum_log n e : rep n -> 0 < n -> -127 <= e -> let E := Z.log2 n - 1074 in e = E \/ (e = E - 1 /\ behind_power n) ->
  let V := rnd (n + addend float32 e) 1 in Z.log2 V - 1074 = e \/ Z.log2 V - 1074 = e + 1.
Proof.
  intros Hn Hp He E Hc V. pose proof (sum_ge n e Hn Hp) as Hge. fold V in Hge. pose proof (Z.log2_le_mono _ _ Hge) as Hl.
  pose proof (addend_bounds e) as [_ B]. pose proof (Z.log2_spec n Hp) as [L1 L2]. rewrite Z.pow_succ_r in L2 by lia.
  assert (P0 : 0 < 2 ^ (Z.log2 n - 30)) by (apply pow2_pos; lia).
  assert (P1 : 2 ^ Z.log2 n = 2 ^ 30 * 2 ^ (Z.log2 n - 30)) by (rewrite <-Z.pow_add_r by lia; f_equal; lia).
  destruct Hc as [Hc|[Hc Hb]].
  - assert (B2 : 2 ^ (Z.max e (-126) + 1050) <= 2 ^ Z.log2 n) by (apply Z.pow_le_mono_r; lia).
    assert (U : V <= 3 * 2 ^ Z.log2 n) by (apply sum_le; [done|apply rep_intro; lia|lia]).
    assert (Z.log2 V < Z.log2 n + 2) by (apply Z.log2_lt_pow2; [lia|]; rewrite Z.pow_add_r by lia; lia). lia.
  - pose proof (behind_le n ltac:(lia) Hb) as Bn.
    assert (B2 : 2 ^ (Z.max e (-126) + 1050) <= 2 ^ (Z.log2 n - 1)) by (apply Z.pow_le_mono_r; lia).
    assert (P2 : 2 ^ (Z.log2 n - 1) = 2 ^ 29 * 2 ^ (Z.log2 n - 30)) by (rewrite <-Z.pow_add_r by lia; f_equal; lia).
    assert (U : V <= (2 ^ 30 + 1 + 2 ^ 29) * 2 ^ (Z.log2 n - 30)) by (apply sum_le; [done|apply rep_intro; lia|lia]).
    assert (Z.log2 V < Z.log2 n + 1) by (apply Z.log2_lt_pow2; [lia|]; rewrite Z.pow_add_r, P1 by lia; lia). lia.
Qed.

Lemma fields_float n : rep n -> 0 < n < 2 ^ 2098 ->
  holds float32 (fields 23 255 127 (Fin false n)) (magnitude float32 n).
Proof.
  intros Hn Hp. destruct (first_step n Hn Hp) as (e & He & E & Hc). pose proof (double_below n Hp) as Hd.
  pose proof (fields_step float32 n e He (or_introl eq_refl) ltac:(lia) E) as F. change (top float32) with 255 in F. change (bias float32) with 127 in F.
  change (mant float32) with 23 in F. rewrite F.
  destruct (Z.le_gt_cases 128 e) as [He1|He1].
  { rewrite pack_high by (try (by left); change (top float32) with 255; change (bias float32) with 127; lia).
    rewrite magnitude_top by lia. replace (255 * 2 ^ 23) with (cut float32 n); [apply holds_top; [by left|lia|change (1074 - bias float32 + top float32) with 1202; lia]|].
    unfold cut. assert (Eu : ulp float32 n = Z.log2 n - 23) by (unfold ulp; cbn [mant float32]; change (floor0 float32) with 925; lia).
    rewrite Eu. apply encoded_top; [by left|change (floor0 float32) with 925; change (top float32) with 255; lia|].
    apply (quotient_bits n 23); lia. }
  pose proof (addend_bounds e) as [Ba1 Ba2].
  set (V := rnd (n + addend float32 e) 1). assert (Hr : rep V) by (apply rep_rnd; lia).
  pose proof (sum_ge n e Hn ltac:(lia)) as Hge. fold V in Hge. pose proof (sum_fine n e ltac:(lia)) as Hf. fold V in Hf.
  assert (Hcut : cut float32 V = magnitude float32 n).
  { assert (D : e = Z.log2 n - 1074 \/ (e = Z.log2 n - 1075 /\ behind_power n) \/ (e <= -126 /\ Z.log2 n - 1074 <= -126)).
    { destruct Hc as [[H1 [H2|[H2 H3]]]|[H1 [H2|[H2 H3]]]]; [by left|right; left; split; [lia|done]|by left|right; right; lia]. }
    destruct D as [->|[[-> Hb]|[D1 D2]]].
    - apply cut_rounded; [done|lia|apply below_ulp; lia].
    - apply cut_behind; [done|lia|done].
    - replace V with (rnd (n + addend float32 (Z.log2 n - 1074)) 1) by (subst V; unfold addend; by replace (Z.max e (-126)) with (Z.max (Z.log2 n - 1074) (-126)) by lia).
      apply cut_rounded; [done|lia|apply below_ulp; lia]. }
  rewrite <-Hcut. destruct (Z.le_gt_cases (-127) e) as [He2|He2].
  - assert (Hl : Z.log2 V - 1074 = e \/ Z.log2 V - 1074 = e + 1) by (apply sum_log; [done|lia|done|]; destruct Hc as [[]|[]]; [done|lia]).
    assert (HV : V < 2 ^ 2098) by (apply below_2098; lia). rewrite fin_small by done.
    apply pack_near; [by left|done|lia|done|lia|done].
  - assert (HV : V < 2 ^ 948).
    { assert (Hn2 : n <= 2 ^ 947 + 2 ^ 917).
      { destruct (Z.le_gt_cases (Z.log2 n) 946) as [Hl|Hl].
        - apply Z.lt_le_incl, Z.lt_trans with (2 ^ 947); [apply Z.log2_lt_pow2; lia|]. pose proof (pow2_pos 917 ltac:(lia)). lia.
        - assert (El : Z.log2 n = 947) by lia. assert (Hb : behind_power n) by (destruct Hc as [[? [|[]]]|[? [|[? Hb]]]]; [lia|done|lia|apply Hb; lia]).
          apply behind_le in Hb; [|lia]. by rewrite El in Hb. }
      assert (U : V <= (2 ^ 30 + 1 + 2 ^ 7) * 2 ^ 917).
      { apply sum_le; [lia|apply rep_intro; lia|]. replace (Z.max e (-126) + 1050) with 924 in Ba2 by lia.
        pose proof (Z.pow_add_r 2 7 917 ltac:(lia) ltac:(lia)) as E1. change (7 + 917) with 924 in E1.
        pose proof (Z.pow_add_r 2 30 917 ltac:(lia) ltac:(lia)) as E2. change (30 + 917) with 947 in E2. lia. }
      eapply Z.le_lt_trans; [exact U|]. by apply Z.ltb_lt; vm_compute. }
    rewrite fin_small by (eapply Z.lt_trans; [exact HV|by apply Z.pow_lt_mono_r]).
    apply pack_low; [by left|done|lia|done|done|]. change (bias float32) with 127. cbn [ge_]. apply Z.leb_gt. lia.
Qed.

(** Zero. *)
Lemma fields_zero F : a_format F -> holds F (fields (mant F) (top F) (bias F) (Fin false 0)) 0.
Proof.
  intros [->| ->].
  - exists 0, (2 ^ 1073 - 2 ^ 1020). split; [by vm_compute|]. split; [by vm_compute|]. split; [by vm_compute|].
    split; [by exists (2 ^ 53 - 1), 1020|]. split; [by vm_compute|]. split; [by exists (2 ^ 73 - 2 ^ 20)|by vm_compute].
  - exists 0, 0. split; [by vm_compute|]. split; [by vm_compute|]. split; [by vm_compute|]. split; [by apply rep_small|]. split; [done|]. split; [by exists 0|by vm_compute].
Qed.
End fields.
