(* ===== verification/FloatSpec.v ===== *)
(** Floating-point numbers in Buffers: what [write] stores are the bits of the
    format, in the byte order asked for, and [read] takes any bits for the
    number they stand for. *)

From S2P Require Import Prelude JsVal Int32 TextEncoding Utf8Step WireSpec WireFields.
From S2P Require Import BufferMem BufferNum BufferMemSpec BufferTextSpec BufferNumSpec JsNum Float FloatFields FloatExponent.

(** ** Bytes in either order *)

Definition place (isLE : bool) (n : nat) (j : Z) : Z := if isLE then j else Z.of_nat n - 1 - j.
Definition dir (isLE : bool) : Z := if isLE then 1 else -1.
Definition ordered (isLE : bool) (n : nat) (w : Z) : list Z := if isLE then le_bytes n w else be_bytes n w.
Lemma place_next isLE n j : place isLE n j + dir isLE = place isLE n (j + 1).
Proof. destruct isLE; cbn [place dir]; lia. Qed.
Lemma length_ordered isLE n w : length (ordered isLE n w) = n.
Proof. destruct isLE; [apply length_le_bytes|apply length_be_bytes]. Qed.

Section store.
Variables (b : view) (bs : list Z) (off : Z) (n : nat) (isLE : bool).
Hypothesis Hbs : length bs = v_length b.
Hypothesis Hoff : 0 <= off.
Hypothesis Hfit : off + Z.of_nat n <= len b.

(** The first [j] bytes of [v] are stored, [ys] is what the places of the
    others hold, the next one first. *)
Definition filled (v : Z) (j : nat) (ys : list Z) : list Z := if isLE then le_bytes j v ++ ys else rev ys ++ be_bytes j v.
Definition state (v : Z) (j : nat) (ys : list Z) (m : mem) : Prop :=
  valid b m /\ bytes b m = window bs off (filled v j ys) /\ (length ys + j = n)%nat.

Lemma state_store v j y ys m : state v j (y :: ys) m ->
  leaves b (put b (off + place isLE n (Z.of_nat j)) (byte_at v j)) m tt (window bs off (filled v (S j) ys)).
Proof.
  unfold state, filled, place. intros (Hv & E & Hl). destruct isLE.
  - apply (le_store b v bs off n Hbs Hoff Hfit j y ys). done.
  - cbn [rev] in E. cbn [length] in Hl.
    replace (Z.of_nat n - 1 - Z.of_nat j) with (Z.of_nat (length (rev ys))) by (rewrite length_rev; lia).
    apply (be_store b v bs off n Hbs Hoff Hfit j y (rev ys)). split; [done|]. split; [done|]. rewrite length_app, length_rev. cbn [length]. lia.
Qed.

(** [r] rounds of the loop, for the bytes of [v] from [j] on. *)
Lemma put_bits_ok limit v r : forall x j ys m k fuel, state v j ys m -> (r <= length ys)%nat -> (r <= fuel)%nat ->
  rep x -> x < 2 ^ 2098 -> (exists q, x = q * 256 ^ Z.of_nat r) ->
  (r = 0%nat \/ limit <= k - 8 * (Z.of_nat r - 1)) -> k - 8 * Z.of_nat r < limit ->
  (forall i, (i < r)%nat -> (x / one / 256 ^ Z.of_nat i) mod 256 = byte_at v (j + i)) ->
  leaves b (put_bits fuel limit b off (dir isLE) (Fin false x) (place isLE n (Z.of_nat j)) k) m
    (Fin false (x / 256 ^ Z.of_nat r), place isLE n (Z.of_nat (j + r)), k - 8 * Z.of_nat r)
    (window bs off (filled v (j + r) (drop r ys))).
Proof.
  induction r as [|r IH]; intros x j ys m k fuel Hs Hr Hf Hx Hb [q Hq] H1 H2 Hbytes.
  - change (Z.of_nat 0) with 0 in *. rewrite Z.pow_0_r, Z.div_1_r, Nat.add_0_r, Z.mul_0_r, Z.sub_0_r in *. rewrite drop_0.
    destruct Hs as (V & E & _). destruct fuel; cbn [put_bits]; [by apply leaves_result|].
    rewrite (proj2 (Z.leb_gt _ _)) by lia. by apply leaves_result.
  - destruct fuel as [|fuel]; [lia|]. destruct ys as [|y ys]; [cbn in Hr; lia|]. cbn [put_bits].
    rewrite (proj2 (Z.leb_le _ _)) by lia.
    assert (Hbyte : Z.land (to_i32 (Fin false x)) 0xff = byte_at v j).
    { change (Z.land (to_i32 (Fin false x)) 0xff) with (low_byte (x / one)). rewrite low_byte_mod, <-(Nat.add_0_r j), <-(Hbytes 0%nat) by lia.
      change (256 ^ Z.of_nat 0) with 1. by rewrite Z.div_1_r. }
    rewrite Hbyte. eapply leaves_bind; [by apply (state_store v j y ys)|by apply Hs|]. intros m' V' E'.
    assert (Hp : 256 ^ Z.of_nat (S r) = 256 * 256 ^ Z.of_nat r) by (rewrite <-pow256_S; lia).
    assert (Hd : x = x / 256 * 256).
    { rewrite Hq, Hp. replace (q * (256 * 256 ^ Z.of_nat r)) with (q * 256 ^ Z.of_nat r * 256) by lia. by rewrite Z.div_mul. }
    assert (Hr' : rep (x / 256)) by (apply (rep_shift x _ 0 8); [done|lia|lia|]; rewrite Z.mul_1_r; exact Hd).
    pose proof (rep_nonneg x Hx) as H0. pose proof (rep_nonneg _ Hr').
    assert (Ediv : div (Fin false x) (of_Z 256) = Fin false (x / 256)).
    { rewrite of_Z_small by lia. pose proof one_pos. apply (div_exact false false); [done|lia|lia|]. rewrite Hd at 1. lia. }
    rewrite Ediv, place_next. replace (Z.of_nat j + 1) with (Z.of_nat (S j)) by lia.
    replace (k - 8 * Z.of_nat (S r)) with (k - 8 - 8 * Z.of_nat r) by lia.
    replace (j + S r)%nat with (S j + r)%nat by lia. cbn [drop].
    rewrite Hp, <-Z.div_div by lia. apply IH.
    + destruct Hs as (_ & _ & Hl). split; [done|]. split; [done|cbn in Hl; lia].
    + cbn in Hr. lia.
    + lia.
    + done.
    + lia.
    + exists q. rewrite Hq, Hp. replace (q * (256 * 256 ^ Z.of_nat r)) with (q * 256 ^ Z.of_nat r * 256) by lia. by rewrite Z.div_mul.
    + destruct r; [by left|right; lia].
    + lia.
    + intros i Hi. replace (S j + i)%nat with (j + S i)%nat by lia. rewrite <-Hbytes by lia.
      pose proof one_pos. rewrite Nat2Z.inj_succ, Z.pow_succ_r, <-(Z.div_div (x / one)), (Z.div_div x 256), (Z.mul_comm 256), <-(Z.div_div x one) by (try apply Z.pow_pos_nonneg; lia). done.
Qed.
End store.

(** ** Writing *)

(** The width in bytes, and the two loops' rounds. *)
Definition width (F : format) : nat := Z.to_nat ((mant F + expo F + 1) / 8).
Definition sign_of (x : num) : bool := match x with NaN => false | Inf s | Fin s _ => s end.
Lemma to_bits_abs F x : to_bits F x = to_bits F (abs_ x) + sign_bit F (sign_of x).
Proof. destruct x as [|s|s n]; cbn; lia. Qed.

Lemma sign_found x : double x ->
  (if ltb x (of_Z 0) || (eqb x (of_Z 0) && ltb (div (of_Z 1) x) (of_Z 0)) then 1 else 0) = if sign_of x then 1 else 0.
Proof.
  change (of_Z 0) with (Fin false 0). destruct x as [|[]|s n]; [done..|]. intros [Hn%rep_nonneg _].
  cbn [ltb eqb signed sign_of]. destruct (Z.eqb_spec n 0) as [->|].
  - rewrite of_Z_1. cbn [div]. rewrite (proj2 (Z.eqb_neq one 0)) by (pose proof one_pos; lia). by destruct s.
  - destruct s; cbn [signed]; [by rewrite (proj2 (Z.ltb_lt _ _)) by lia|].
    by rewrite (proj2 (Z.ltb_ge _ _)), (proj2 (Z.eqb_neq _ _)) by lia.
Qed.

Section writing_ok.
Context (log : MathLog) (Hlog : accurate log).

Lemma fields_ok F x : a_format F -> double x -> holds F (fields (mant F) (top F) (bias F) (abs_ x)) (to_bits F (abs_ x)).
Proof.
  intros HF Hx. pose proof (format_facts F HF) as (M & B & T & F0). pose proof (pow2_pos (mant F) ltac:(lia)) as Pm. pose proof one_pos.
  destruct x as [|s|s n]; cbn [abs_ to_bits].
  - unfold fields. cbn [isNaN orb]. rewrite of_Z_1. exists (top F), one. rewrite Z.div_same by lia. split; [done|].
    split; [lia|]. split; [split; [done|]; change 1 with (2 ^ 0); apply Z.pow_lt_mono_r; lia|]. split; [rewrite one_eq; apply rep_pow2; lia|].
    split; [rewrite one_eq; by apply Z.pow_lt_mono_r|]. split; [|done]. exists (2 ^ 74). by rewrite one_eq, <-Z.pow_add_r by lia.
  - unfold fields. cbn [isNaN eqb orb Bool.eqb]. change (of_Z 0) with (Fin false 0). exists (top F), 0. rewrite Z.div_0_l by lia. split; [done|].
    split; [lia|]. split; [lia|]. split; [by apply rep_small|]. split; [done|]. split; [by exists 0|]. unfold sign_bit. lia.
  - destruct Hx as [Hn Hl]. pose proof (rep_nonneg n Hn). unfold sign_bit. rewrite Z.add_0_l. destruct (Z.eq_dec n 0) as [->|].
    + replace (magnitude F 0) with 0 by (destruct HF as [->| ->]; by vm_compute). by apply fields_zero.
    + destruct HF as [->| ->]; [apply fields_float|apply fields_double]; done || lia.
Qed.

(** The second loop starts with the rest of the mantissa under the exponent. *)
Lemma middle e x k r w : 0 <= e <= 2047 -> 0 <= x / one < 2 ^ (8 * Z.of_nat r + k) -> 0 <= k <= 8 ->
  w = e * 2 ^ (8 * Z.of_nat r + k) + x / one ->
  Z.lor (shl e k) (to_i32 (Fin false (x / 256 ^ Z.of_nat r))) = w / 256 ^ Z.of_nat r.
Proof.
  intros He Hx Hk ->. unfold to_i32. cbn [trunc signed]. pose proof one_pos. pose proof (pow256_pos r) as P.
  rewrite Z.div_div, (Z.mul_comm (256 ^ _)), <-Z.div_div by lia.
  pose proof (pow2_pos k ltac:(lia)). assert (2 ^ k <= 2 ^ 8) by (apply Z.pow_le_mono_r; lia).
  assert (Hs : shl e k = e * 2 ^ k) by (rewrite shl_small, Z.shiftl_mul_pow2 by (change (2 ^ 31) with 2147483648; change (2 ^ 8) with 256 in *; nia); done).
  rewrite Z.pow_add_r, <-pow256_bits in * by lia.
  assert (Hm : 0 <= x / one / 256 ^ Z.of_nat r < 2 ^ k) by (split; [apply Z.div_pos; lia|apply Z.div_lt_upper_bound; lia]).
  rewrite i32_id by lia. rewrite Hs, Z.lor_comm, lor_high by lia.
  replace (e * (256 ^ Z.of_nat r * 2 ^ k) + x / one) with (x / one + e * 2 ^ k * 256 ^ Z.of_nat r) by lia.
  by rewrite Z.div_add by lia.
Qed.

(** The last byte gets the sign. *)
Lemma sign_stored b bs off n isLE v w s m : length bs = v_length b -> 0 <= off -> off + Z.of_nat (S n) <= len b ->
  state b bs off (S n) isLE v (S n) [] m -> 0 <= v < 128 * 256 ^ Z.of_nat n -> w = v + (if s : bool then 128 * 256 ^ Z.of_nat n else 0) ->
  leaves b (x ← get b (off + place isLE (S n) (Z.of_nat (S n)) - dir isLE);
            put b (off + place isLE (S n) (Z.of_nat (S n)) - dir isLE) (Z.lor (bits x) ((if s then 1 else 0) * 128))) m tt
    (window bs off (ordered isLE (S n) w)).
Proof.
  intros Hbs Ho Hl (V & E & _) Hv Hw. unfold len in Hl. pose proof (pow256_pos n) as P.
  assert (Ep : off + place isLE (S n) (Z.of_nat (S n)) - dir isLE = off + place isLE (S n) (Z.of_nat n)) by (destruct isLE; cbn [place dir]; lia).
  assert (Ef : filled isLE v (S n) [] = ordered isLE (S n) v) by (unfold filled, ordered; destruct isLE; cbn [rev app]; [apply app_nil_r|done]).
  rewrite Ep. apply leaves_get. rewrite E, Ef.
  assert (Ea : at_ (window bs off (ordered isLE (S n) v)) (off + place isLE (S n) (Z.of_nat n)) = Some (byte_at v n)).
  { destruct isLE; cbn [ordered place].
    - apply at_le; lia.
    - replace (Z.of_nat (S n) - 1 - Z.of_nat n) with (Z.of_nat (S n - 1 - n)) by lia. apply at_be; lia. }
  rewrite Ea. cbn [bits default from_option id].
  assert (Hb : byte_at v n = v / 256 ^ Z.of_nat n).
  { unfold byte_at. apply Z.mod_small. split; [apply Z.div_pos; lia|apply Z.div_lt_upper_bound; lia]. }
  assert (Hh : 0 <= byte_at v n < 128) by (rewrite Hb; split; [apply Z.div_pos; lia|apply Z.div_lt_upper_bound; lia]).
  assert (Ex : Z.lor (byte_at v n) ((if s then 1 else 0) * 128) = byte_at w n).
  { change 128 with (2 ^ 7) at 1. rewrite lor_high by (change (2 ^ 7) with 128; lia). change (2 ^ 7) with 128. rewrite Hw. destruct s.
    - unfold byte_at at 2. rewrite Z.div_add by lia. rewrite <-Hb. rewrite Z.mod_small by lia. done.
    - by rewrite !Z.add_0_r. }
  rewrite Ex. assert (Hlow : le_bytes n v = le_bytes n w).
  { apply le_bytes_cong. rewrite Hw. destruct s; [by rewrite Z.mod_add by lia|by rewrite Z.add_0_r]. }
  assert (Fw : forall u, filled isLE u (S n) [] = ordered isLE (S n) u) by (intros u; unfold filled, ordered; destruct isLE; cbn [rev app]; [apply app_nil_r|done]).
  rewrite <-(Fw w). apply (state_store b bs off (S n) isLE Hbs Ho Hl w n (byte_at v n) []).
  split; [done|]. split; [|done]. rewrite E. f_equal. rewrite Fw. unfold ordered, filled. destruct isLE.
  - by rewrite le_bytes_snoc, Hlow.
  - rewrite be_bytes_S. unfold be_bytes. by rewrite Hlow.
Qed.

Lemma sign_bit_width F s : a_format F -> sign_bit F s = if s then 128 * 256 ^ Z.of_nat (width F - 1) else 0.
Proof. intros [->| ->]; by destruct s. Qed.
Lemma holds_bound F r w : a_format F -> holds F r w -> 0 <= w < 128 * 256 ^ Z.of_nat (width F - 1).
Proof.
  intros HF (e & x & _ & He & Hx & _ & _ & _ & ->).
  replace (128 * 256 ^ Z.of_nat (width F - 1)) with ((top F + 1) * 2 ^ mant F) by (by destruct HF as [->| ->]).
  pose proof (format_facts F HF) as (M & _). pose proof (pow2_pos (mant F) ltac:(lia)). nia.
Qed.

(** The two loops and the sign. *)
Definition store_fields (F : format) (isLE : bool) (b : view) (off : Z) (e : Z) (v : num) (s : Z) : BM unit :=
  '(v, i, mLen) ← put_bits (Z.to_nat (mant F)) 8 b off (dir isLE) v (place isLE (width F) 0) (mant F);
  let e := Z.lor (shl e mLen) (to_i32 v) in
  let eLen := expo F + mLen in
  '(_, i, _) ← put_bits (Z.to_nat eLen) 1 b off (dir isLE) (of_Z e) i eLen;
  x ← get b (off + i - dir isLE);
  put b (off + i - dir isLE) (Z.lor (bits x) (s * 128)).
Lemma format_bytes F : a_format F -> exists r k, mant F = 8 * Z.of_nat r + k /\ 0 <= k < 8 /\ expo F + k = 15 /\
  width F = (r + 2)%nat /\ (r <= 6)%nat /\ top F <= 2047.
Proof. intros [->| ->]; [exists 2%nat, 7|exists 6%nat, 4]; (repeat split; try done; lia). Qed.

Lemma store_fields_ok F isLE b bs m off e v w s ys (n := width F) : a_format F -> length bs = v_length b -> 0 <= off -> off + Z.of_nat n <= len b ->
  state b bs off n isLE w 0 ys m -> holds F (e, v) w ->
  leaves b (store_fields F isLE b off e v (if s : bool then 1 else 0)) m tt
    (window bs off (ordered isLE n (w + if s then 128 * 256 ^ Z.of_nat (n - 1) else 0))).
Proof.
  intros HF Hbs Ho Hl Hs Hh. pose proof (holds_bound F _ _ HF Hh) as Hw.
  destruct Hh as (e' & x & [= <- ->] & He & Hx & Hr & Hlx & [q Hq] & Hwe).
  destruct (format_bytes F HF) as (r & k & Em & Hk & Ek & En & Hr6 & Ht). subst n. rewrite En in *. unfold store_fields.
  pose proof Hs as (V & E & Hys). rewrite En. change 0 with (Z.of_nat 0) at 1.
  eapply leaves_bind.
  - apply (put_bits_ok b bs off (r + 2) isLE Hbs Ho Hl 8 w r x 0 ys m (mant F)); [done|lia|lia|done|done| |lia|lia|].
    + exists (q * 2 ^ (1000 - 8 * Z.of_nat r)). rewrite Hq, pow256_bits, <-Z.mul_assoc, <-Z.pow_add_r by lia. do 2 f_equal. lia.
    + intros i Hi. rewrite Hwe. unfold byte_at. cbn [Nat.add].
      assert (P : exists c, 2 ^ mant F = c * 256 * 256 ^ Z.of_nat i).
      { exists (2 ^ (mant F - 8 - 8 * Z.of_nat i)). rewrite pow256_bits. change 256 with (2 ^ 8). rewrite <-!Z.pow_add_r by lia. f_equal. lia. }
      destruct P as [c ->]. replace (e * (c * 256 * 256 ^ Z.of_nat i) + x / one) with (x / one + e * c * 256 * 256 ^ Z.of_nat i) by lia.
      rewrite Z.div_add by (pose proof (pow256_pos i); lia). by rewrite Z.mod_add.
  - done.
  - intros m1 V1 E1. cbv beta iota. cbn [Nat.add] in *. replace (mant F - 8 * Z.of_nat r) with k by lia.
    rewrite (middle e x k r w) by (rewrite <-?Em; lia).
    pose proof (pow256_pos r). assert (Hw' : 0 <= w / 256 ^ Z.of_nat r < 2 ^ 15).
    { split; [apply Z.div_pos; lia|]. apply Z.div_lt_upper_bound; [done|]. replace (r + 2 - 1)%nat with (S r) in Hw by lia. rewrite <-pow256_S in Hw. lia. }
    rewrite of_Z_small, Ek by lia. pose proof one_pos.
    assert (S1 : state b bs off (r + 2) isLE w r (drop r ys) m1).
    { split; [done|]. split; [done|]. rewrite length_drop. lia. }
    eapply leaves_bind.
    + apply (put_bits_ok b bs off (r + 2) isLE Hbs Ho Hl 1 w 2 (w / 256 ^ Z.of_nat r * one) r (drop r ys) m1 15);
        [done|rewrite length_drop; lia|lia| | | |lia|lia|].
      * rewrite one_eq. apply rep_intro; lia.
      * rewrite one_eq. apply Z.lt_trans with (2 ^ 15 * 2 ^ 1074); [apply Z.mul_lt_mono_pos_r; [by apply pow2_pos|lia]|].
        rewrite <-Z.pow_add_r by lia. by apply Z.pow_lt_mono_r.
      * exists (w / 256 ^ Z.of_nat r * 2 ^ 1058). change (256 ^ Z.of_nat 2) with (2 ^ 16). by rewrite one_eq, <-Z.mul_assoc, <-Z.pow_add_r by lia.
      * intros i Hi. rewrite Z.div_mul by lia. unfold byte_at. rewrite Z.div_div by (try apply pow256_pos; lia).
        rewrite <-Z.pow_add_r by lia. do 3 f_equal. lia.
    + done.
    + intros m2 V2 E2. cbv beta iota. replace (r + 2)%nat with (S (r + 1)) in * by lia.
      replace (S (r + 1) - 1)%nat with (r + 1)%nat in * by lia.
      apply (sign_stored b bs off (r + 1) isLE w); [done|done|done| |done|done].
      split; [done|]. split; [|cbn; lia]. rewrite E2. rewrite drop_ge; [done|]. rewrite length_drop. lia.
Qed.

Lemma ieee754_write_ok F isLE b m x off (n := width F) : a_format F -> double x -> valid b m -> 0 <= off -> off + Z.of_nat n <= len b ->
  leaves b (ieee754_write b x off isLE (mant F) (Z.of_nat n)) m tt (window (bytes b m) off (ordered isLE n (to_bits F x))).
Proof.
  intros HF Hx Hv Ho Hl. pose proof (fields_ok F x HF Hx) as Hh. pose proof (len_bytes b m Hv) as Hbs.
  rewrite to_bits_abs, sign_bit_width by done.
  destruct (window_self (bytes b m) off n) as (xs & Hxs & E); [lia|unfold len in Hl; lia|].
  assert (Hs : state b (bytes b m) off n isLE (to_bits F (abs_ x)) 0 (if isLE then xs else rev xs) m).
  { split; [done|]. split; [rewrite E at 1; f_equal; unfold filled; destruct isLE; cbn; [done|by rewrite rev_involutive, app_nil_r]|].
    destruct isLE; rewrite ?length_rev; lia. }
  assert (Ew : ieee754_write b x off isLE (mant F) (Z.of_nat n)
    = let '(e, v) := fields (mant F) (top F) (bias F) (abs_ x) in store_fields F isLE b off e v (if sign_of x then 1 else 0)).
  { rewrite <-(sign_found x Hx). subst n. by destruct HF as [->| ->]; destruct isLE. }
  rewrite Ew. destruct (fields _ _ _ _) as [e v]. eapply store_fields_ok; done.
Qed.
End writing_ok.

(** ** Reading *)

(** The number bits stand for. *)
Definition of_bits (F : format) (w : Z) : num :=
  let s := 1 <=? w / 2 ^ (mant F + expo F) in
  let e := (w / 2 ^ mant F) mod 2 ^ expo F in
  let m := w mod 2 ^ mant F in
  if e =? top F then (if m =? 0 then Inf s else NaN)
  else if e =? 0 then Fin s (m * 2 ^ floor0 F)
  else Fin s ((m + 2 ^ mant F) * 2 ^ (e - 1 + floor0 F)).

Lemma at_ordered bs off isLE n w j : 0 <= off -> off + Z.of_nat n <= Z.of_nat (length bs) -> (j < n)%nat ->
  at_ (window bs off (ordered isLE n w)) (off + place isLE n (Z.of_nat j)) = Some (byte_at w j).
Proof.
  intros Ho Hl Hj. destruct isLE; cbn [ordered place]; [by apply at_le|].
  replace (Z.of_nat n - 1 - Z.of_nat j) with (Z.of_nat (n - 1 - j)) by lia. by apply at_be.
Qed.

Lemma more_bits_ok bs off isLE n w j0 : forall r a k fuel, (r <= fuel)%nat -> (r = 0%nat \/ 0 < k - 8 * (Z.of_nat r - 1)) -> k - 8 * Z.of_nat r <= 0 ->
  (forall j, (j < j0 + r)%nat -> at_ bs (off + place isLE n (Z.of_nat j)) = Some (byte_at w j)) ->
  0 <= a -> (a + 1) * 256 ^ Z.of_nat r <= 2 ^ 53 ->
  more_bits fuel bs off (- dir isLE) (Some a) (place isLE n (Z.of_nat (j0 + r) - 1)) k
  = (Some (a * 256 ^ Z.of_nat r + (w / 256 ^ Z.of_nat j0) mod 256 ^ Z.of_nat r), place isLE n (Z.of_nat j0 - 1), k - 8 * Z.of_nat r).
Proof.
  induction r as [|r IH]; intros a k fuel Hf H1 H2 Hat Ha Hb.
  - change (256 ^ Z.of_nat 0) with 1. rewrite Z.mod_1_r, Nat.add_0_r. replace (a * 1 + 0) with a by lia.
    replace (k - 8 * Z.of_nat 0) with k by lia. destruct fuel; cbn [more_bits]; [done|]. by rewrite (proj2 (Z.ltb_ge 0 k)) by lia.
  - destruct fuel as [|fuel]; [lia|]. cbn [more_bits]. rewrite (proj2 (Z.ltb_lt 0 k)) by lia.
    replace (Z.of_nat (j0 + S r) - 1) with (Z.of_nat (j0 + r)) by lia. rewrite Hat by lia.
    pose proof (pow256_pos r) as P. assert (E : 256 ^ Z.of_nat (S r) = 256 * 256 ^ Z.of_nat r) by (rewrite <-pow256_S; lia).
    assert (B : 0 <= byte_at w (j0 + r) < 256) by apply byte_of.
    assert (Hs : add_ (mul_ (Some a) 256) (Some (byte_at w (j0 + r))) = Some (a * 256 + byte_at w (j0 + r))).
    { unfold add_, mul_. cbn [mbind option_bind]. rewrite (dbl_id (a * 256)), dbl_id by nia. done. }
    rewrite Hs. replace (place isLE n (Z.of_nat (j0 + r)) + - dir isLE) with (place isLE n (Z.of_nat (j0 + r) - 1)) by (destruct isLE; cbn [place dir]; lia).
    rewrite IH; [|lia|destruct r; [by left|right; lia]|lia|intros; apply Hat; lia|lia|nia].
    replace (k - 8 - 8 * Z.of_nat r) with (k - 8 * Z.of_nat (S r)) by lia. do 3 f_equal.
    rewrite E, (Z.mul_comm 256), Z.rem_mul_r by lia. rewrite Z.div_div by (try apply pow256_pos; lia).
    unfold byte_at. rewrite Nat2Z.inj_add, Z.pow_add_r by lia. lia.
Qed.

Lemma sign_mul s n : rep n -> n < 2 ^ 2098 -> mul (sign_ (if s : bool then 1 else 0)) (Fin false n) = Fin s n.
Proof.
  intros Hn Hl. assert (E : sign_ (if s then 1 else 0) = Fin s one).
  { destruct s; unfold sign_; cbn [Z.eqb]; [|by rewrite of_Z_1]. unfold of_Z. cbn [Z.ltb Z.compare Z.abs]. rewrite rnd_1, Z.mul_1_l; [|rewrite Z.mul_1_l, one_eq; by apply rep_pow2].
    apply fin_small. rewrite one_eq. by apply Z.pow_lt_mono_r. }
  rewrite E, (mul_exact s false one n n); [by destruct s|done|done|lia].
Qed.
(** The value of a mantissa below [2 ^ 53]. *)
Lemma value_of s m k : 0 <= m < 2 ^ 53 -> -1074 <= k <= 971 ->
  mul (mul (sign_ (if s : bool then 1 else 0)) (Fin false (m * one))) (pow2 k) = Fin s (m * 2 ^ (k + 1074)).
Proof.
  intros Hm Hk. assert (B : forall j, 0 <= j <= 2045 -> rep (m * 2 ^ j) /\ m * 2 ^ j < 2 ^ 2098).
  { intros j Hj. split; [apply rep_intro; lia|]. apply Z.lt_le_trans with (2 ^ 53 * 2 ^ j); [apply Z.mul_lt_mono_pos_r; [apply pow2_pos|]; lia|].
    rewrite <-Z.pow_add_r by lia. apply Z.pow_le_mono_r; lia. }
  destruct (B 1074 ltac:(lia)). rewrite sign_mul by (rewrite one_eq; done).
  destruct (B (k + 1074) ltac:(lia)). rewrite pow2_Fin by lia.
  rewrite (mul_exact s false _ _ (m * 2 ^ (k + 1074))); [by destruct s|done|done|lia].
Qed.

Lemma band_ones v k : 0 <= k -> band (Some v) (2 ^ k - 1) = v mod 2 ^ k.
Proof. intros Hk. cbn [band]. rewrite Z.sub_1_r, <-Z.ones_equiv. by apply Z.land_ones. Qed.
Lemma sar_div v k : 0 <= v < 2 ^ 31 -> 0 <= k -> sar v k = v / 2 ^ k.
Proof. intros Hv Hk. unfold sar. rewrite i32_id by lia. by apply Z.shiftr_div_pow2. Qed.

(** The fields of the bits as the two loops collect them. *)
Lemma format_fields_read w r k : 0 <= w < 256 ^ Z.of_nat (r + 2) -> 0 <= k < 8 ->
  let e := byte_at w (r + 1) mod 2 ^ 7 * 256 ^ Z.of_nat 1 + (w / 256 ^ Z.of_nat r) mod 256 ^ Z.of_nat 1 in
  0 <= e < 2 ^ 15 /\ e / 2 ^ k = (w / 2 ^ (8 * Z.of_nat r + k)) mod 2 ^ (15 - k) /\
  e mod 2 ^ k * 256 ^ Z.of_nat r + (w / 256 ^ Z.of_nat 0) mod 256 ^ Z.of_nat r = w mod 2 ^ (8 * Z.of_nat r + k) /\
  byte_at w (r + 1) / 2 ^ 7 = w / 2 ^ (8 * Z.of_nat r + 15) /\ 0 <= byte_at w (r + 1) / 2 ^ 7 <= 1.
Proof.
  intros Hw Hk e. change (256 ^ Z.of_nat 0) with 1. rewrite Z.div_1_r. change (256 ^ Z.of_nat 1) with (2 ^ 8) in *.
  pose proof (pow256_pos r) as P. set (h := w / 256 ^ Z.of_nat r).
  assert (Hh : 0 <= h < 2 ^ 16).
  { split; [apply Z.div_pos; lia|]. apply Z.div_lt_upper_bound; [done|]. rewrite Nat2Z.inj_add, Z.pow_add_r in Hw by lia. change (256 ^ Z.of_nat 2) with (2 ^ 16) in Hw. lia. }
  assert (Hb : byte_at w (r + 1) = h / 2 ^ 8).
  { unfold byte_at. rewrite Nat2Z.inj_add, Z.pow_add_r, <-Z.div_div by lia. fold h. change (256 ^ Z.of_nat 1) with (2 ^ 8).
    apply Z.mod_small. split; [apply Z.div_pos; lia|apply Z.div_lt_upper_bound; lia]. }
  assert (He : e = h mod 2 ^ 15).
  { subst e. rewrite Hb. fold h. change (2 ^ 15) with (2 ^ 8 * 2 ^ 7). rewrite Z.rem_mul_r by lia. lia. }
  assert (Hp : 2 ^ (8 * Z.of_nat r + k) = 256 ^ Z.of_nat r * 2 ^ k) by (rewrite pow256_bits, Z.pow_add_r by lia; done).
  pose proof (pow2_pos k ltac:(lia)). pose proof (pow2_pos (15 - k) ltac:(lia)).
  assert (H15 : 2 ^ 15 = 2 ^ k * 2 ^ (15 - k)) by (rewrite <-Z.pow_add_r by lia; f_equal; lia).
  rewrite He. split; [by apply Z.mod_pos_bound|]. split; [|split; [|split]].
  - rewrite Hp, <-Z.div_div by lia. fold h. rewrite H15, Z.rem_mul_r by lia.
    rewrite (Z.mul_comm (2 ^ k)), Z.div_add, (Z.div_small (h mod 2 ^ k)) by (try apply Z.mod_pos_bound; lia). lia.
  - rewrite Hp, Z.rem_mul_r by lia. fold h. rewrite H15.
    rewrite (Z.rem_mul_r h) by lia. rewrite Z.mul_comm, (Z.mul_comm (2 ^ k)), Z.mod_add, Z.mod_mod by lia. lia.
  - rewrite Hb, Z.div_div by lia. subst h. rewrite Z.div_div by lia. rewrite Z.pow_add_r, pow256_bits by lia. done.
  - rewrite Hb. split; [apply Z.div_pos; [apply Z.div_pos; lia|lia]|]. apply Z.lt_succ_r, Z.div_lt_upper_bound; [lia|]. apply Z.div_lt_upper_bound; lia.
Qed.

Definition value_read (F : format) (s e m : Z) : num :=
  let value m e := mul (mul (sign_ s) m) (pow2 (e - mant F)) in
  if e =? 0 then value (of_Z m) (1 - bias F)
  else if e =? top F then (if isNaN (of_Z m) || eqb (of_Z m) (of_Z 0) then mul (sign_ s) (Inf false) else NaN)
  else value (add (of_Z m) (pow2 (mant F))) (e - bias F).

Lemma value_read_ok F w : a_format F -> 0 <= w < 256 ^ Z.of_nat (width F) ->
  value_read F (w / 2 ^ (mant F + expo F)) ((w / 2 ^ mant F) mod 2 ^ expo F) (w mod 2 ^ mant F) = of_bits F w.
Proof.
  intros HF Hw. pose proof (format_facts F HF) as (M & B & T & F0). pose proof (pow2_pos (mant F) ltac:(lia)) as Pm.
  assert (Hs : w / 2 ^ (mant F + expo F) = if 1 <=? w / 2 ^ (mant F + expo F) then 1 else 0).
  { assert (0 <= w / 2 ^ (mant F + expo F) < 2).
    { split; [apply Z.div_pos; [lia|apply pow2_pos; destruct HF as [->| ->]; by vm_compute]|].
      apply Z.div_lt_upper_bound; [apply pow2_pos; destruct HF as [->| ->]; by vm_compute|].
      replace (2 ^ (mant F + expo F) * 2) with (256 ^ Z.of_nat (width F)) by (destruct HF as [->| ->]; by vm_compute). lia. }
    destruct (Z.leb_spec 1 (w / 2 ^ (mant F + expo F))); lia. }
  unfold value_read, of_bits. rewrite Hs. set (s := 1 <=? w / 2 ^ (mant F + expo F)).
  replace (1 <=? (if s then 1 else 0)) with s by (by destruct s).
  pose proof (Z.mod_pos_bound w (2 ^ mant F) Pm) as Hm. set (m := w mod 2 ^ mant F) in *.
  assert (Hpm : 2 ^ mant F <= 2 ^ 52) by (apply Z.pow_le_mono_r; lia).
  assert (He : 0 <= (w / 2 ^ mant F) mod 2 ^ expo F < 2 ^ expo F) by (apply Z.mod_pos_bound, pow2_pos; destruct HF as [->| ->]; by vm_compute).
  set (e := (w / 2 ^ mant F) mod 2 ^ expo F) in *.
  assert (Ht : top F = 2 ^ expo F - 1) by done. rewrite (of_Z_small m) by lia. change (of_Z 0) with (Fin false 0). pose proof one_pos as P1.
  destruct (Z.eqb_spec e 0) as [->|Ne].
  - rewrite (proj2 (Z.eqb_neq 0 (top F))) by lia. rewrite value_of by (unfold floor0 in F0; lia). do 3 f_equal. unfold floor0. lia.
  - destruct (Z.eqb_spec e (top F)) as [Et|Nt].
    + cbn [isNaN orb eqb signed]. replace (m * one =? 0) with (m =? 0) by (destruct (Z.eqb_spec m 0), (Z.eqb_spec (m * one) 0); lia || nia).
      destruct (m =? 0); [|done]. destruct s; unfold sign_; cbn [Z.eqb]; [|rewrite of_Z_1; cbn [mul]; rewrite (proj2 (Z.eqb_neq one 0)) by lia; done].
      by vm_compute.
    + assert (Ea : add (Fin false (m * one)) (pow2 (mant F)) = Fin false ((m + 2 ^ mant F) * one)).
      { rewrite pow2_Fin by lia. cbn [add signed]. replace (m * one + 2 ^ (mant F + 1074)) with ((m + 2 ^ mant F) * one) by (rewrite Z.pow_add_r, <-one_eq by lia; lia).
        rewrite (proj2 (Z.eqb_neq _ 0)), (proj2 (Z.ltb_ge _ 0)), Z.abs_eq by nia. rewrite rnd_1 by (rewrite one_eq; apply rep_intro; lia).
        apply fin_small. rewrite one_eq. apply Z.lt_le_trans with (2 ^ 53 * 2 ^ 1074); [apply Z.mul_lt_mono_pos_r; [by apply pow2_pos|lia]|].
        rewrite <-Z.pow_add_r by lia. by apply Z.pow_le_mono_r. }
      assert (bias F - mant F <= 971) by (by destruct HF as [->| ->]).
      rewrite Ea, value_of by (unfold floor0 in F0; lia). do 3 f_equal. unfold floor0. lia.
Qed.

Lemma ieee754_read_ok F isLE bs off w (n := width F) : a_format F -> 0 <= off -> off + Z.of_nat n <= Z.of_nat (length bs) ->
  0 <= w < 256 ^ Z.of_nat n -> ieee754_read (window bs off (ordered isLE n w)) off isLE (mant F) (Z.of_nat n) = of_bits F w.
Proof.
  intros HF Ho Hl Hw. rewrite <-value_read_ok by done. destruct (format_bytes F HF) as (r & k & Em & Hk & Ek & En & Hr6 & Ht).
  assert (Hat := fun j => at_ordered bs off isLE n w j Ho Hl). subst n. set (ws := window bs off (ordered isLE (width F) w)) in *.
  rewrite En in *. unfold ieee754_read.
  replace (Z.of_nat (r + 2) * 8 - mant F - 1) with (expo F) by lia.
  replace (shl 1 (expo F) - 1) with (top F) by (by destruct HF as [->| ->]).
  replace (sar (top F) 1) with (bias F) by (by destruct HF as [->| ->]).
  change (- -7) with 7. change (shl 1 7 - 1) with (2 ^ 7 - 1).
  assert (Ep : (if isLE then Z.of_nat (r + 2) - 1 else 0) = place isLE (r + 2) (Z.of_nat (r + 1))) by (destruct isLE; cbn [place]; lia).
  assert (Ed : (if isLE then -1 else 1) = - dir isLE) by (by destruct isLE).
  rewrite Ep, Ed. rewrite (Hat (r + 1)%nat) by lia.
  replace (place isLE (r + 2) (Z.of_nat (r + 1)) + - dir isLE) with (place isLE (r + 2) (Z.of_nat (r + 1) - 1)) by (destruct isLE; cbn [place dir]; lia).
  rewrite band_ones by lia. cbn [bits default from_option id].
  assert (Bb : 0 <= byte_at w (r + 1) < 256) by apply byte_of. rewrite (sar_div (byte_at w (r + 1))) by lia.
  pose proof (Z.mod_pos_bound (byte_at w (r + 1)) (2 ^ 7) ltac:(lia)) as B7.
  rewrite (more_bits_ok ws off isLE (r + 2) w r 1) by (try lia; try (intros; apply Hat; lia); change (256 ^ Z.of_nat 1) with 256; lia).
  destruct (format_fields_read w r k Hw Hk) as (H1 & H2 & H3 & H4 & H5). cbv zeta in H1, H2, H3. set (e := byte_at w (r + 1) mod 2 ^ 7 * _ + _) in *.
  replace (-7 + expo F - 8 * Z.of_nat 1) with (- k) by lia. rewrite Z.opp_involutive.
  replace (shl 1 k - 1) with (2 ^ k - 1) by (destruct HF as [->| ->]; cbn [expo float32 float64] in Ek; [replace k with 7 by lia|replace k with 4 by lia]; done).
  rewrite band_ones by lia. cbn [bits default from_option id]. rewrite (sar_div e) by lia.
  replace (Z.of_nat r - 1) with (Z.of_nat (0 + r) - 1) by lia. replace (- k + mant F) with (8 * Z.of_nat r) by lia.
  pose proof (Z.mod_pos_bound e (2 ^ k) (pow2_pos k ltac:(lia))) as Bk.
  rewrite (more_bits_ok ws off isLE (r + 2) w 0 r); [|lia|destruct r; [by left|right; lia]|lia|intros; apply Hat; lia|lia|].
  2: { apply Z.le_trans with (2 ^ k * 256 ^ Z.of_nat r); [apply Z.mul_le_mono_nonneg_r; [pose proof (pow256_pos r); lia|lia]|].
       pose proof (format_facts F HF) as (M & _). rewrite pow256_bits, <-Z.pow_add_r by lia. apply Z.pow_le_mono_r; lia. }
  rewrite H3, H2, H4. unfold value_read. rewrite <-Em. replace (15 - k) with (expo F) by lia. replace (8 * Z.of_nat r + 15) with (mant F + expo F) by lia. done.
Qed.
