(* ===== verification/FloatRound.v ===== *)
(** The accessors for floats and doubles: what is written is read back as the
    number rounded to the format, a double as it was; out of range they throw. *)

From S2P Require Import Prelude JsVal Int32 TextEncoding Utf8Step WireSpec WireFields.
From S2P Require Import BufferMem BufferNum BufferMemSpec BufferTextSpec BufferNumSpec JsNum Float FloatFields FloatExponent FloatSpec.

(** ** The value of the bits written *)

(** [n] rounded to the format, half up. *)
Definition rounded (F : format) (n : Z) : Z := (n + 2 ^ ulp F n / 2) / 2 ^ ulp F n * 2 ^ ulp F n.
Definition round_to (F : format) (x : num) : num :=
  match x with
  | Fin s n => if 2 ^ (1075 + bias F) <=? rounded F n then Inf s else Fin s (rounded F n)
  | x => x
  end.

Lemma split_bits F s e m : a_format F -> 0 <= e <= top F -> 0 <= m < 2 ^ mant F ->
  of_bits F (sign_bit F s + (e * 2 ^ mant F + m)) =
    if e =? top F then (if m =? 0 then Inf s else NaN)
    else if e =? 0 then Fin s (m * 2 ^ floor0 F) else Fin s ((m + 2 ^ mant F) * 2 ^ (e - 1 + floor0 F)).
Proof.
  intros HF He Hm. pose proof (format_facts F HF) as (M & B & T & F0). pose proof (pow2_pos (mant F) ltac:(lia)) as Pm.
  assert (Pe : 1 <= expo F <= 11) by (by destruct HF as [->| ->]).
  pose proof (pow2_pos (expo F) ltac:(lia)) as Px. assert (Ht : top F = 2 ^ expo F - 1) by done.
  set (c := if s then 2 ^ expo F else 0).
  assert (E : sign_bit F s + (e * 2 ^ mant F + m) = m + (c + e) * 2 ^ mant F).
  { unfold sign_bit. subst c. destruct s; rewrite ?Z.pow_add_r by lia; lia. }
  unfold of_bits. rewrite E, Z.pow_add_r, <-Z.div_div by lia.
  rewrite Z.div_add, Z.mod_add, (Z.div_small m), (Z.mod_small m), Z.add_0_l by lia.
  assert (E1 : (c + e) mod 2 ^ expo F = e) by (subst c; destruct s; [rewrite <-Z.add_mod_idemp_l, Z.mod_same, Z.add_0_l by lia|rewrite Z.add_0_l]; apply Z.mod_small; lia).
  assert (E2 : (1 <=? (c + e) / 2 ^ expo F) = s).
  { subst c. destruct s; [|rewrite Z.add_0_l, Z.div_small by lia; done].
    rewrite <-(Z.mul_1_l (2 ^ expo F)) at 1. rewrite Z.div_add_l, Z.div_small by lia. done. }
  by rewrite E1, E2.
Qed.

Lemma ulp_above F n : a_format F -> 0 <= n -> n < 2 ^ (ulp F n + mant F + 1).
Proof.
  intros (M & B & T & F0)%format_facts Hn. destruct (Z.eq_dec n 0) as [->|].
  - apply pow2_pos. unfold ulp. lia.
  - eapply Z.lt_le_trans; [apply Z.log2_spec; lia|]. apply Z.pow_le_mono_r; unfold ulp; lia.
Qed.

(** The rounded number in last bits. *)
Lemma kept_bounds F n (u := ulp F n) (k := (n + 2 ^ u / 2) / 2 ^ u) : a_format F -> 0 <= n ->
  0 <= k <= 2 ^ (mant F + 1) /\ floor0 F <= u /\ (floor0 F < u -> 2 ^ mant F <= k).
Proof.
  intros HF Hn. pose proof (format_facts F HF) as (M & B & T & F0). assert (Hu : floor0 F <= u) by (unfold u, ulp; lia).
  pose proof (pow2_pos u ltac:(lia)) as P. pose proof (ulp_above F n HF Hn) as A. fold u in A.
  assert (Hh : 0 <= 2 ^ u / 2 < 2 ^ u) by (split; [by apply Z.div_pos; lia|by apply Z.div_lt; lia]).
  split; [split; [apply Z.div_pos; lia|]|split; [done|]].
  - apply Z.lt_succ_r, Z.div_lt_upper_bound; [done|]. replace (u + mant F + 1) with (mant F + 1 + u) in A by lia. rewrite Z.pow_add_r in A by lia. lia.
  - intros Hlt. assert (Eu : u = Z.log2 n - mant F) by (unfold u, ulp in *; lia).
    assert (0 < n) by (destruct (Z.eq_dec n 0) as [->|]; [cbn in Eu; lia|lia]).
    eapply Z.le_trans; [apply (quotient_bits n (mant F)); lia|]. rewrite <-Eu. apply Z.div_le_mono; lia.
Qed.

Lemma of_to_bits F x : a_format F -> double x -> of_bits F (to_bits F x) = round_to F x.
Proof.
  intros HF Hx. pose proof (format_facts F HF) as (M & B & T & F0). pose proof (pow2_pos (mant F) ltac:(lia)) as Pm.
  destruct x as [|s|s n]; cbn [to_bits round_to].
  - destruct HF as [->| ->]; by vm_compute.
  - replace (top F * 2 ^ mant F) with (top F * 2 ^ mant F + 0) by lia. rewrite split_bits by (done || lia). by rewrite Z.eqb_refl.
  - destruct Hx as [Hn%rep_nonneg _]. destruct (kept_bounds F n HF Hn) as (Hk & Hu & Hk2). unfold magnitude, rounded, encoded.
    set (u := ulp F n) in *. set (k := (n + 2 ^ u / 2) / 2 ^ u) in *. clearbody k u. rewrite Z.pow_add_r in Hk by lia.
    pose proof (pow2_pos u ltac:(lia)) as Pu. set (t := u - floor0 F) in *.
    assert (Elim : 2 ^ (1075 + bias F) = 2 ^ mant F * 2 ^ (top F - 1 + floor0 F)) by (rewrite <-Z.pow_add_r by lia; f_equal; unfold floor0; lia).
    destruct (Z.leb_spec (2 ^ (1075 + bias F)) (k * 2 ^ u)) as [Hl|Hl].
    + rewrite Z.min_r; [replace (top F * 2 ^ mant F) with (top F * 2 ^ mant F + 0) by lia; rewrite split_bits by (done || lia); by rewrite Z.eqb_refl|].
      (* the exponent is at its end *)
      destruct (Z.le_gt_cases (top F - 1) t) as [Ht|Ht]; [assert (2 ^ mant F <= k) by (apply Hk2; lia); nia|].
      assert (E : 2 ^ (top F - 1 + floor0 F) = 2 ^ (top F - 1 - t) * 2 ^ u) by (rewrite <-Z.pow_add_r by lia; f_equal; lia).
      assert (K : 2 ^ mant F * 2 ^ (top F - 1 - t) <= k) by (apply (Z.mul_le_mono_pos_r _ _ (2 ^ u)); [done|]; lia).
      destruct (Z.eq_dec t (top F - 2)) as [Et|Nt].
      * rewrite Et in K. replace (top F - 1 - (top F - 2)) with 1 in K by lia. lia.
      * assert (2 ^ 2 <= 2 ^ (top F - 1 - t)) by (apply Z.pow_le_mono_r; lia). nia.
    + assert (Ht : t <= top F - 2).
      { destruct (Z.le_gt_cases t (top F - 2)); [done|]. exfalso.
        assert (2 ^ (top F - 1 + floor0 F) <= 2 ^ u) by (apply Z.pow_le_mono_r; lia). assert (2 ^ mant F <= k) by (apply Hk2; lia). nia. }
      assert (Hk3 : t = top F - 2 -> k < 2 ^ mant F * 2 ^ 1).
      { intros Et. assert (E : 2 ^ (top F - 1 + floor0 F) = 2 * 2 ^ u) by (rewrite <-Z.pow_succ_r by lia; f_equal; lia).
        apply (Z.mul_lt_mono_pos_r (2 ^ u)); [done|]. lia. }
      rewrite Z.min_l by nia.
      destruct (Z.lt_ge_cases k (2 ^ mant F)) as [C|C].
      * assert (t = 0) as -> by lia. replace (k + 0 * 2 ^ mant F) with (0 * 2 ^ mant F + k) by lia.
        rewrite split_bits by (done || lia). rewrite (proj2 (Z.eqb_neq 0 _)) by lia. cbn [Z.eqb]. do 3 f_equal. lia.
      * destruct (Z.eq_dec k (2 ^ mant F * 2 ^ 1)) as [Ek|Nk].
        -- replace (k + t * 2 ^ mant F) with ((t + 2) * 2 ^ mant F + 0) by lia. rewrite split_bits by (done || lia).
           rewrite (proj2 (Z.eqb_neq _ (top F))), (proj2 (Z.eqb_neq _ 0)) by lia. f_equal. rewrite Ek, Z.add_0_l, <-Z.mul_assoc. f_equal.
           rewrite <-Z.pow_add_r by lia. f_equal. lia.
        -- replace (k + t * 2 ^ mant F) with ((t + 1) * 2 ^ mant F + (k - 2 ^ mant F)) by lia. rewrite split_bits by (done || lia).
           rewrite (proj2 (Z.eqb_neq _ (top F))), (proj2 (Z.eqb_neq _ 0)) by lia. f_equal. do 2 f_equal; lia.
Qed.

(** Nothing is rounded off a number of the format. *)
Lemma magnitude_kept F k u : a_format F -> ulp F (k * 2 ^ u) = u -> magnitude F (k * 2 ^ u) = encoded F k u.
Proof.
  intros HF Eu. pose proof (format_facts F HF) as (M & B & T & F0). assert (Hu : 0 <= u) by (unfold ulp in Eu; lia). pose proof (pow2_pos u Hu).
  unfold magnitude. rewrite Eu. f_equal. assert (0 <= 2 ^ u / 2 < 2 ^ u) by (split; [by apply Z.div_pos; lia|by apply Z.div_lt; lia]).
  rewrite Z.div_add_l, (Z.div_small (2 ^ u / 2)) by lia. lia.
Qed.

(** Bits of a number are the bits written for it. *)
Lemma bits_parts F w : a_format F -> 0 <= w < 256 ^ Z.of_nat (width F) -> exists s e m,
  0 <= e <= top F /\ 0 <= m < 2 ^ mant F /\ w = sign_bit F s + (e * 2 ^ mant F + m).
Proof.
  intros HF Hw. pose proof (format_facts F HF) as (M & B & T & F0). pose proof (pow2_pos (mant F) ltac:(lia)) as Pm.
  assert (Pe : 0 < 2 ^ expo F) by (by destruct HF as [->| ->]).
  set (h := w / 2 ^ mant F). exists (1 <=? h / 2 ^ expo F), (h mod 2 ^ expo F), (w mod 2 ^ mant F).
  assert (Ht : top F = 2 ^ expo F - 1) by done. pose proof (Z.mod_pos_bound h (2 ^ expo F) Pe). pose proof (Z.mod_pos_bound w (2 ^ mant F) Pm).
  split; [lia|]. split; [done|].
  assert (Hh : 0 <= h / 2 ^ expo F < 2).
  { split; [apply Z.div_pos; [apply Z.div_pos; lia|done]|]. subst h. rewrite Z.div_div by lia. apply Z.div_lt_upper_bound; [lia|].
    replace (2 ^ mant F * 2 ^ expo F * 2) with (256 ^ Z.of_nat (width F)) by (by destruct HF as [->| ->]). lia. }
  assert (Es : sign_bit F (1 <=? h / 2 ^ expo F) = h / 2 ^ expo F * (2 ^ expo F * 2 ^ mant F)).
  { unfold sign_bit. replace (2 ^ (mant F + expo F)) with (2 ^ expo F * 2 ^ mant F) by (by destruct HF as [->| ->]).
    destruct (Z.leb_spec 1 (h / 2 ^ expo F)); [replace (h / 2 ^ expo F) with 1 by lia|replace (h / 2 ^ expo F) with 0 by lia]; lia. }
  rewrite Es. pose proof (Z.div_mod w (2 ^ mant F) ltac:(lia)) as D1. pose proof (Z.div_mod h (2 ^ expo F) ltac:(lia)) as D2. fold h in D1. nia.
Qed.
Lemma to_of_bits F w : a_format F -> 0 <= w < 256 ^ Z.of_nat (width F) ->
  double (of_bits F w) /\ (of_bits F w <> NaN -> to_bits F (of_bits F w) = w) /\
  match of_bits F w with Fin _ n => exists k u, n = k * 2 ^ u /\ 0 <= k < 2 ^ (mant F + 1) /\ ulp F n = u /\ n < 2 ^ (1075 + bias F) | _ => True end.
Proof.
  intros HF Hw. destruct (bits_parts F w HF Hw) as (s & e & m & He & Hm & ->). rewrite split_bits by done.
  pose proof (format_facts F HF) as (M & B & T & F0). pose proof (pow2_pos (mant F) ltac:(lia)) as Pm. pose proof (pow2_pos (floor0 F) F0) as Pf.
  assert (Hpm : 2 ^ mant F <= 2 ^ 52) by (apply Z.pow_le_mono_r; lia).
  assert (Hpm1 : 2 ^ (mant F + 1) = 2 * 2 ^ mant F) by (rewrite <-Z.pow_succ_r by lia; done).
  assert (Lim : forall k u, 0 <= k < 2 ^ (mant F + 1) -> floor0 F <= u <= floor0 F + top F - 2 -> k * 2 ^ u < 2 ^ (1075 + bias F) /\ rep (k * 2 ^ u) /\ k * 2 ^ u < 2 ^ 2098).
  { intros k u Hk Hu. pose proof (pow2_pos u ltac:(lia)). assert (Hl : k * 2 ^ u < 2 ^ (1075 + bias F)).
    { apply Z.lt_le_trans with (2 ^ (mant F + 1) * 2 ^ u); [apply Z.mul_lt_mono_pos_r; lia|]. rewrite <-Z.pow_add_r by lia. apply Z.pow_le_mono_r; [lia|unfold floor0 in *; lia]. }
    split; [done|]. split; [apply rep_intro; lia|]. eapply Z.lt_le_trans; [exact Hl|]. apply Z.pow_le_mono_r; lia. }
  destruct (Z.eqb_spec e (top F)) as [->|Ne].
  { destruct (Z.eqb_spec m 0) as [->|]; [|done]. split; [done|]. split; [|done]. intros _. cbn [to_bits]. lia. }
  destruct (Z.eqb_spec e 0) as [->|Nz].
  - destruct (Lim m (floor0 F) ltac:(lia) ltac:(lia)) as (L1 & L2 & L3).
    assert (Eu : ulp F (m * 2 ^ floor0 F) = floor0 F).
    { unfold ulp. apply Z.max_r. destruct (Z.eq_dec m 0) as [->|]; [rewrite Z.mul_0_l; change (Z.log2 0) with 0; lia|]. rewrite Z.log2_mul_pow2 by lia.
      assert (Z.log2 m < mant F) by (apply Z.log2_lt_pow2; lia). lia. }
    split; [done|]. split; [|exists m, (floor0 F); split; [done|split; [lia|by split]]]. intros _. cbn [to_bits]. f_equal.
    rewrite (magnitude_kept F m (floor0 F)) by (done || lia). rewrite encoded_below by (done || lia). lia.
  - destruct (Lim (m + 2 ^ mant F) (e - 1 + floor0 F) ltac:(lia) ltac:(lia)) as (L1 & L2 & L3).
    assert (Eu : ulp F ((m + 2 ^ mant F) * 2 ^ (e - 1 + floor0 F)) = e - 1 + floor0 F).
    { unfold ulp. rewrite Z.log2_mul_pow2 by lia. replace (Z.log2 (m + 2 ^ mant F)) with (mant F); [lia|].
      symmetry. apply log2_eq; lia. }
    split; [done|]. split; [|exists (m + 2 ^ mant F), (e - 1 + floor0 F); split; [done|split; [lia|by split]]]. intros _. cbn [to_bits]. f_equal.
    rewrite (magnitude_kept F (m + 2 ^ mant F) (e - 1 + floor0 F)) by (done || lia). rewrite encoded_below by (done || lia). lia.
Qed.

(** ** Rounding *)

(** The numbers of the format, overflow aside. *)
Definition in_format (F : format) (z : Z) : Prop := exists j, 0 <= j /\ z = j * 2 ^ ulp F z.
Lemma ulp_pos F n : a_format F -> 0 < 2 ^ ulp F n.
Proof. intros (M & B & T & F0)%format_facts. apply pow2_pos. unfold ulp. lia. Qed.
Lemma rounded_exact F z : a_format F -> in_format F z -> rounded F z = z.
Proof.
  intros HF [j [_ E]]. pose proof (ulp_pos F z HF) as P. unfold rounded. set (u := ulp F z) in *.
  assert (0 <= 2 ^ u / 2 < 2 ^ u) by (split; [by apply Z.div_pos; lia|by apply Z.div_lt; lia]).
  rewrite E. rewrite Z.div_add_l, (Z.div_small (2 ^ u / 2)) by lia. lia.
Qed.
Lemma in_double n : rep n -> in_format float64 n.
Proof.
  intros Hn. unfold in_format. rewrite ulp_of_double. destruct (rep_multiple n Hn) as [j E]. exists j. split; [|done].
  apply rep_nonneg in Hn. pose proof (pow2_pos (quantum n) (quantum_nonneg n)). nia.
Qed.
Lemma round_to_double x : double x -> round_to float64 x = x.
Proof.
  destruct x as [| |s n]; [done..|]. intros [Hn Hl]. cbn [round_to]. rewrite rounded_exact; [|by right|by apply in_double].
  change (1075 + bias float64) with 2098. by rewrite (proj2 (Z.leb_gt _ _)).
Qed.

Lemma rounded_multiple F n j : a_format F -> 2 * Z.abs (n - rounded F n) <= 2 * Z.abs (n - j * 2 ^ ulp F n).
Proof.
  intros HF. pose proof (ulp_pos F n HF) as P. unfold rounded. set (q := 2 ^ ulp F n) in *.
  pose proof (Z.div_mod (n + q / 2) q ltac:(lia)) as D. pose proof (Z.mod_pos_bound (n + q / 2) q P) as R.
  pose proof (Z.div_mod q 2 ltac:(lia)) as D2. pose proof (Z.mod_pos_bound q 2 ltac:(lia)) as R2.
  set (k := (n + q / 2) / q) in *. set (h := q / 2) in *. destruct (Z.lt_trichotomy j k) as [Hj|[->|Hj]]; [|lia|].
  - assert (j * q <= k * q - q) by nia. lia.
  - assert (k * q + q <= j * q) by nia. lia.
Qed.
(** No number of the format is nearer. *)
Lemma rounded_nearest F n z : a_format F -> 0 <= n -> in_format F z -> Z.abs (n - rounded F n) <= Z.abs (n - z).
Proof.
  intros HF Hn (j & Hj & Ez). pose proof (format_facts F HF) as (M & B & T & F0).
  destruct (Z.le_gt_cases (ulp F n) (ulp F z)) as [L|L].
  - pose proof (rounded_multiple F n (j * 2 ^ (ulp F z - ulp F n)) HF) as H.
    rewrite <-Z.mul_assoc, <-Z.pow_add_r in H by (unfold ulp in *; lia).
    replace (ulp F z - ulp F n + ulp F n) with (ulp F z) in H by lia. rewrite <-Ez in H. lia.
  - assert (Hl : Z.log2 z < Z.log2 n) by (unfold ulp in L; lia).
    assert (En : ulp F n = Z.log2 n - mant F) by (unfold ulp in *; lia).
    assert (0 < n) by (destruct (Z.eq_dec n 0) as [->|]; [cbn in Hl; pose proof (Z.log2_nonneg z); lia|lia]).
    assert (Hz : z <= 2 ^ Z.log2 n).
    { destruct (Z.le_gt_cases z 0); [pose proof (pow2_pos (Z.log2 n) (Z.log2_nonneg n)); lia|]. apply Z.lt_le_incl, Z.log2_lt_pow2; lia. }
    pose proof (rounded_multiple F n (2 ^ mant F) HF) as Hm. rewrite <-Z.pow_add_r in Hm by (unfold ulp; lia).
    replace (mant F + ulp F n) with (Z.log2 n) in Hm by lia. pose proof (Z.log2_spec n ltac:(done)). lia.
Qed.

(** ** The accessors *)

Record accessors := Accessors {
  a_fmt : format;
  a_LE : bool;
  a_write : MathLog -> view -> num -> Z -> bool -> BM Z;
  a_read : view -> Z -> bool -> BM num }.
Definition float_accessors : list accessors :=
  [Accessors float32 true (@writeFloatLE) readFloatLE; Accessors float32 false (@writeFloatBE) readFloatBE;
   Accessors float64 true (@writeDoubleLE) readDoubleLE; Accessors float64 false (@writeDoubleBE) readDoubleBE].

Lemma checked_passes {A} b off n (k : unit -> BM A) m : 0 <= off -> off + n <= len b ->
  (lift (checkIEEE754 b off n) ≫= k) m = k tt m.
Proof.
  intros Ho H. unfold checkIEEE754. by rewrite (proj2 (Z.ltb_ge (len b) _)), (proj2 (Z.ltb_ge off 0)) by lia.
Qed.
Lemma checked_throws {A} b off n (k : unit -> BM A) m : ~ (off + n <= len b) ->
  exists e, (lift (checkIEEE754 b off n) ≫= k) m = (Throw (JErr RangeErr e), m).
Proof. intros H. unfold checkIEEE754. rewrite (proj2 (Z.ltb_lt (len b) _)) by lia. by eexists. Qed.

Lemma to_bits_bound F x : a_format F -> double x -> 0 <= to_bits F x < 256 ^ Z.of_nat (width F).
Proof.
  intros HF Hx. pose proof (holds_bound F _ _ HF (fields_ok (fun n => Z.log2 n - 1074) (fun n _ _ => or_introl eq_refl) F x HF Hx)) as H.
  rewrite to_bits_abs, sign_bit_width by done.
  replace (256 ^ Z.of_nat (width F)) with (2 * (128 * 256 ^ Z.of_nat (width F - 1))) by (by destruct HF as [->| ->]).
  destruct (sign_of x); lia.
Qed.

Lemma accessor_cases (P : accessors -> Prop) : Forall P float_accessors -> forall G, G ∈ float_accessors -> P G.
Proof. intros H. by apply list.Forall_forall. Qed.
Lemma accessor_format G : G ∈ float_accessors -> a_format (a_fmt G).
Proof. revert G. apply accessor_cases. unfold float_accessors. repeat (apply Forall_cons_2; [first [by left|by right]|]). by apply Forall_nil_2. Qed.
(** What all of them are. *)
Lemma accessor_writes G : G ∈ float_accessors -> forall log b m x off, 0 <= off < 2 ^ 32 -> a_write G log b x off false m
  = (lift (checkIEEE754 b off (Z.of_nat (width (a_fmt G)))) ≫= fun _ =>
       ieee754_write b x off (a_LE G) (mant (a_fmt G)) (Z.of_nat (width (a_fmt G)));; mret (off + Z.of_nat (width (a_fmt G)))) m.
Proof.
  intros HG. pattern G. revert G HG. apply accessor_cases. unfold float_accessors. repeat (apply Forall_cons_2; [|]); [..|by apply Forall_nil_2];
    intros log b m x off Ho; cbn [a_write a_fmt a_LE]; unfold writeFloatLE, writeFloatBE, writeDoubleLE, writeDoubleBE, writeFloat, writeDouble; by rewrite u32_id by lia.
Qed.
Lemma accessor_reads G : G ∈ float_accessors -> forall b m off, a_read G b off false m
  = (reading b off (Z.of_nat (width (a_fmt G))) false ≫= fun '(off, bs) =>
       mret (ieee754_read bs off (a_LE G) (mant (a_fmt G)) (Z.of_nat (width (a_fmt G))))) m.
Proof.
  intros HG. pattern G. revert G HG. apply accessor_cases. unfold float_accessors. repeat (apply Forall_cons_2; [|]); [..|by apply Forall_nil_2]; done.
Qed.

(** C35. Each of the accessors for floats and doubles, in both byte orders: what is
    written are the bits of the number rounded to the format, and the reader
    gives that number, no number of the format being nearer to what was
    written; a double comes back as it was, signs, zeros, subnormals, infinities
    and NaN with it. Nothing else in memory changes. Out of range both throw. *)
Theorem floats_roundtrip log G b m x off : accurate log -> G ∈ float_accessors -> double x -> valid b m -> 0 <= off < 2 ^ 32 ->
  let n := Z.of_nat (width (a_fmt G)) in
  (off + n <= len b -> exists m', a_write G log b x off false m = (Ret (off + n), m') /\ writes_only b m m' /\
     bytes b m' = window (bytes b m) off (ordered (a_LE G) (width (a_fmt G)) (to_bits (a_fmt G) x)) /\
     a_read G b off false m' = (Ret (round_to (a_fmt G) x), m')) /\
  round_to float64 x = x /\
  (forall s k z, x = Fin s k -> in_format (a_fmt G) z -> Z.abs (k - rounded (a_fmt G) k) <= Z.abs (k - z)) /\
  (~ off + n <= len b -> (exists e, a_write G log b x off false m = (Throw (JErr RangeErr e), m)) /\
     exists e, a_read G b off false m = (Throw (JErr RangeErr e), m)).
Proof.
  intros Hlog HG Hx Hv Ho n. pose proof (accessor_format G HG) as HF.
  split; [|split; [by apply round_to_double|split; [intros s k z ->; apply rounded_nearest; [done|by apply rep_nonneg, Hx]|]]].
  - intros Hl. pose proof (ieee754_write_ok log Hlog (a_fmt G) (a_LE G) b m x off HF Hx Hv ltac:(lia) Hl) as (m' & E & W & B).
    exists m'. pose proof (to_bits_bound (a_fmt G) x HF Hx) as Hb. pose proof (len_bytes b m Hv) as Hlen.
    pose proof (ieee754_read_ok (a_fmt G) (a_LE G) (bytes b m) off (to_bits (a_fmt G) x) HF ltac:(lia) ltac:(unfold len in Hl; lia) Hb) as R.
    rewrite <-B, of_to_bits in R by done. split; [|split; [done|split; [done|]]].
    + rewrite (accessor_writes G HG log b m x off Ho). rewrite checked_passes by (done || lia). unfold mbind, BM_bind. by rewrite E.
    + rewrite (accessor_reads G HG). rewrite reading_passes by (done || lia). by rewrite <-R.
  - intros Hl. split; [rewrite (accessor_writes G HG) by done; by apply checked_throws|].
    rewrite (accessor_reads G HG). by apply reading_throws.
Qed.
(** The logarithm without an error. *)
Definition exact_log : MathLog := fun n => Z.log2 n - 1074.
Lemma exact_accurate : accurate exact_log.
Proof. intros n _ _. by left. Qed.
Lemma floats_roundtrip_witness :
  let b := View 0 0 10 in let m := [replicate 10 7] in
  exists m', writeDoubleBE (H := exact_log) b (lit 1 (-1)) 1 false m = (Ret 9, m') /\
    bytes b m' = [7; 63; 185; 153; 153; 153; 153; 153; 154; 7] /\ readDoubleBE b 1 false m' = (Ret (lit 1 (-1)), m').
Proof.
  intros b m.
  destruct (floats_roundtrip exact_log (Accessors float64 false (@writeDoubleBE) readDoubleBE) b m (Fin false (7205759403792794 * 2 ^ 1018)) 1 exact_accurate)
    as [(m' & E & _ & B & R) (Hr & _)].
  - exact (list_elem_of_lookup_2 float_accessors 3 _ eq_refl).
  - split; [by exists 7205759403792794, 1018|]. by apply Z.ltb_lt; vm_compute.
  - split; cbn; lia.
  - lia.
  - by apply Z.leb_le; vm_compute.
  - replace (lit 1 (-1)) with (Fin false (7205759403792794 * 2 ^ 1018)) by (vm_compute; reflexivity).
    exists m'. split; [exact E|]. split; [rewrite B; vm_compute; reflexivity|]. cbn [a_fmt a_read] in R. by rewrite R, Hr.
Defined.

(** Halves are rounded up, where IEEE 754 takes the even neighbour: the float
    halfway between 1 and the next one becomes the next one. *)
Lemma half_up : round_to float32 (add (of_Z 1) (pow2 (-24))) = add (of_Z 1) (pow2 (-23)).
Proof. vm_compute. reflexivity. Qed.
(** The operations agree with the Standard Library's specification of floating
    point arithmetic where both are tried. *)
