(* ===== verification/WireFloat.v ===== *)
(** Floating-point numbers on the wire (bundle.js 7121-7127, 7155-7156,
    7181-7191, 7256-7257, 7279-7308): jspb.utils takes a number apart into the
    two words of its format and puts it together, the encoder and the decoder,
    the reader and the writer have a float and a double of each kind. *)

From S2P Require Import Prelude JsVal Int32 TextEncoding Labels Wire WireReader Int64 WireScalar JsNum.

Definition FLOAT32_MIN : num := lit 11754943508222875 (-54).
Definition FLOAT32_MAX : num := lit 34028234663852886 22.
Definition FLOAT64_MIN : num := lit 22250738585072014 (-324).
Definition FLOAT64_MAX : num := lit 17976931348623157 292.
Definition TWO_TO_20 : num := of_Z 1048576.
Definition TWO_TO_23 : num := of_Z 8388608.
Definition TWO_TO_32 : num := of_Z 4294967296.
Definition TWO_TO_52 : num := of_Z 4503599627370496.

(** The low and the high word, [split64Low] and [split64High]. *)
Definition splitFloat32 `{MathLog} (a : num) : Z * Z :=
  let b := if ltb a (of_Z 0) then 1 else 0 in
  let a := if ltb a (of_Z 0) then opp a else a in
  if eqb (of_Z 0) a then (if ltb (of_Z 0) (div (of_Z 1) a) then (0, 0) else (2147483648, 0))
  else if isNaN a then (2147483647, 0)
  else if ltb FLOAT32_MAX a then (u32 (Z.lor (shl b 31) 2139095040), 0)
  else if ltb a FLOAT32_MIN then (u32 (Z.lor (shl b 31) (to_i32 (round_ (div a (pow2 (-149)))))), 0)
  else
    let c := match a with Fin _ n => floor_log2 n | _ => 0 end in
    let a := mul a (pow2 (- c)) in
    let a := Z.land (to_i32 (round_ (mul a TWO_TO_23))) 8388607 in
    (u32 (Z.lor (Z.lor (shl b 31) (shl (c + 127) 23)) a), 0).

(** [for (; 2 <= c && 1023 > d;) d++, c /= 2] and
    [for (; 1 > c && -1022 < d;) c *= 2, d--]: [d] after them. *)
Fixpoint halve_loop (fuel : nat) (c : num) (d : Z) : Z :=
  match fuel with
  | O => d
  | S f => if leb (of_Z 2) c && (d <? 1023) then halve_loop f (div c (of_Z 2)) (d + 1) else d
  end.
Fixpoint double_loop (fuel : nat) (c : num) (d : Z) : Z :=
  match fuel with
  | O => d
  | S f => if ltb c (of_Z 1) && (-1022 <? d) then double_loop f (mul c (of_Z 2)) (d - 1) else d
  end.
Definition splitFloat64 (a : num) : Z * Z :=
  let b := if ltb a (of_Z 0) then 1 else 0 in
  let a := if ltb a (of_Z 0) then opp a else a in
  if eqb (of_Z 0) a then (0, if ltb (of_Z 0) (div (of_Z 1) a) then 0 else 2147483648)
  else if isNaN a then (4294967295, 2147483647)
  else if ltb FLOAT64_MAX a then (0, u32 (Z.lor (shl b 31) 2146435072))
  else if ltb a FLOAT64_MIN then
    let c := div a (pow2 (-1074)) in
    let a := div c TWO_TO_32 in
    (to_u32 c, u32 (Z.lor (shl b 31) (to_i32 a)))
  else
    let d := if leb (of_Z 2) a then halve_loop 1023 a 0 else double_loop 1022 a 0 in
    let c := mul a (pow2 (- d)) in
    let a := Z.land (to_i32 (mul c TWO_TO_20)) 1048575 in
    (to_u32 (mul c TWO_TO_52), u32 (Z.lor (Z.lor (shl b 31) (shl (d + 1023) 20)) a)).

Definition joinFloat32 (a b : Z) : num :=
  let b := of_Z (2 * sar a 31 + 1) in
  let c := Z.land (shr a 23) 255 in
  let a := Z.land a 8388607 in
  if c =? 255 then (if negb (a =? 0) then NaN else mul (Inf false) b)
  else if c =? 0 then mul (mul b (pow2 (-149))) (of_Z a)
  else mul (mul b (pow2 (c - 150))) (add (of_Z a) (pow2 23)).
Definition joinFloat64 (a b : Z) : num :=
  let c := of_Z (2 * sar b 31 + 1) in
  let d := Z.land (shr b 20) 2047 in
  let a := add (mul TWO_TO_32 (of_Z (Z.land b 1048575))) (of_Z a) in
  if d =? 2047 then (if eqb a (of_Z 0) || isNaN a then mul (Inf false) c else NaN)
  else if d =? 0 then mul (mul c (pow2 (-1074))) a
  else mul (mul c (pow2 (d - 1075))) (add a TWO_TO_52).

(** ** The encoder and the decoder *)

Definition in_float (max a : num) : bool :=
  eqb (Inf false) a || eqb (Inf true) a || isNaN a || (leb (opp max) a && leb a max).
Definition encoder_writeFloat `{MathLog} : Put num := fun a e =>
  asserted (in_float FLOAT32_MAX a) (encoder_writeUint32 (splitFloat32 a).1 e).
Definition encoder_writeDouble : Put num := fun a e =>
  asserted (in_float FLOAT64_MAX a)
    (e ← encoder_writeUint32 (splitFloat64 a).1 e; encoder_writeUint32 (splitFloat64 a).2 e).
Definition decoder_readFloat : D num := a ← decoder_readUint32; mret (joinFloat32 a 0).
Definition decoder_readDouble : D num := a ← decoder_readUint32; b ← decoder_readUint32; mret (joinFloat64 a b).

(** ** The reader and the writer *)

Definition readFloat : R num := reading_as FIXED32 decoder_readFloat.
Definition readDouble : R num := reading_as FIXED64 decoder_readDouble.
Definition readPackedFloat := readPackedField_ decoder_readFloat.
Definition readPackedDouble := readPackedField_ decoder_readDouble.
Definition writeFloat `{MathLog} (a : Z) (b : option num) := present b (tagged FIXED32 encoder_writeFloat a).
Definition writeDouble (a : Z) (b : option num) := present b (tagged FIXED64 encoder_writeDouble a).
Definition writeRepeatedFloat `{MathLog} (a : Z) (b : option (list (option num))) := each (writeFloat a) b.
Definition writeRepeatedDouble (a : Z) (b : option (list (option num))) := each (writeDouble a) b.
Definition writePackedFloat `{MathLog} := packed_sized 4 encoder_writeFloat.
Definition writePackedDouble := packed_sized 8 encoder_writeDouble.
