(* ===== verification/WireFloatSpec.v ===== *)
(** The words that jspb.utils takes a number apart into are those of its format,
    and what they are put together to is the number: of every double, and of
    every float of which the logarithm is exact. *)

From S2P Require Import Prelude JsVal Int32 TextEncoding Utf8Step Wire WireReader WireSpec WireFields Int64 Int64Spec WireScalar.
From S2P Require Import BufferTextSpec BufferNumSpec JsNum Rounding FloatFields FloatExponent FloatSpec FloatRound WireFloat.

(** ** The constants *)

Lemma float32_min : FLOAT32_MIN = Fin false (2 ^ 948). Proof. by vm_compute. Qed.
Lemma float32_max : FLOAT32_MAX = Fin false ((2 ^ 24 - 1) * 2 ^ 1178). Proof. by vm_compute. Qed.
Lemma float64_min : FLOAT64_MIN = Fin false (2 ^ 52). Proof. by vm_compute. Qed.
Lemma float64_max : FLOAT64_MAX = Fin false ((2 ^ 53 - 1) * 2 ^ 2045). Proof. by vm_compute. Qed.

Lemma below_max n : rep n -> n < 2 ^ 2098 -> n <= (2 ^ 53 - 1) * 2 ^ 2045.
Proof.
  intros Hn Hl. pose proof (rep_pred n 2098 Hn ltac:(lia) Hl) as H. change (2098 - 53) with 2045 in H.
  pose proof (Z.pow_add_r 2 53 2045 ltac:(lia) ltac:(lia)) as E. change (53 + 2045) with 2098 in E. lia.
Qed.

(** ** Taking doubles apart *)

Lemma halve_exact y : rep y -> 1075 <= Z.log2 y -> y < 2 ^ 2098 -> exists z, div (Fin false y) (of_Z 2) = Fin false z /\ rep z /\ 0 < z /\ z < 2 ^ 2098 /\ Z.log2 z = Z.log2 y - 1.
Proof.
  intros Hy Hl Hb. destruct (rep_multiple y Hy) as [j E]. assert (Q : 1 <= quantum y) by (unfold quantum; lia).
  assert (E2 : y = j * 2 ^ (quantum y - 1) * 2 ^ 1) by (rewrite <-Z.mul_assoc, <-Z.pow_add_r by lia; replace (quantum y - 1 + 1) with (quantum y) by lia; done).
  set (z := j * 2 ^ (quantum y - 1)) in *. assert (Hz : rep z) by (apply (rep_shift y z 0 1); [done|lia|lia|]; rewrite Z.mul_1_r; exact E2).
  assert (P : 0 < z) by (destruct (Z.le_gt_cases y 0); [rewrite Z.log2_nonpos in Hl by done; lia|lia]).
  exists z. rewrite of_Z_2. pose proof one_pos. rewrite (div_exact false false y _ z); [|done|lia|lia|rewrite E2; lia]. split; [done|]. split; [done|]. split; [done|].
  split; [lia|]. rewrite E2, Z.log2_mul_pow2 by lia. lia.
Qed.
Lemma halve_loop_ok : forall fuel y d, rep y -> y < 2 ^ 2098 -> 1074 <= Z.log2 y -> d + (Z.log2 y - 1074) <= 1023 ->
  Z.log2 y - 1074 <= Z.of_nat fuel -> halve_loop fuel (Fin false y) d = d + (Z.log2 y - 1074).
Proof.
  induction fuel as [|fuel IH]; intros y d Hy Hb Hl Hd Hf; cbn [halve_loop]; [lia|].
  assert (P : 0 < y) by (destruct (Z.le_gt_cases y 0); [rewrite Z.log2_nonpos in Hl by done; lia|done]).
  rewrite leb_2 by done. destruct (Z.leb_spec 1075 (Z.log2 y)); cbn [andb]; [|lia].
  rewrite (proj2 (Z.ltb_lt d 1023)) by lia. destruct (halve_exact y Hy ltac:(lia) Hb) as (z & -> & Hz & Pz & Bz & Lz).
  rewrite IH by (done || lia). lia.
Qed.
Lemma double_loop_ok : forall fuel y d, rep y -> 0 < y -> Z.log2 y <= 1074 -> -1022 <= d + (Z.log2 y - 1074) ->
  1074 - Z.log2 y <= Z.of_nat fuel -> double_loop fuel (Fin false y) d = d + (Z.log2 y - 1074).
Proof.
  induction fuel as [|fuel IH]; intros y d Hy P Hl Hd Hf; cbn [double_loop]; [lia|].
  rewrite ltb_1 by done. destruct (Z.ltb_spec (Z.log2 y) 1074); cbn [andb]; [|lia].
  rewrite (proj2 (Z.ltb_lt (-1022) d)) by lia.
  assert (E : mul (Fin false y) (of_Z 2) = Fin false (y * 2 ^ 1)).
  { rewrite of_Z_2. apply (mul_exact false false); [apply (rep_shift y _ 1 0); [done|lia|lia|lia]| |rewrite Z.pow_1_r; lia].
    apply below_2098; [lia|]. rewrite Z.log2_mul_pow2 by lia. lia. }
  rewrite E. assert (Lz : Z.log2 (y * 2 ^ 1) = Z.log2 y + 1) by (rewrite Z.log2_mul_pow2; lia).
  rewrite IH; [lia|apply (rep_shift y _ 1 0); [done|lia|lia|lia]|lia|lia|lia|lia].
Qed.

(** Words with the sign on top. *)
Lemma sign_word s a : 0 <= a < 2 ^ 31 -> u32 (Z.lor (shl (if s : bool then 1 else 0) 31) a) = (if s then 2 ^ 31 else 0) + a.
Proof.
  intros Ha. rewrite u32_lor, (u32_id a) by lia. destruct s.
  - change (u32 (shl 1 31)) with (1 * 2 ^ 31). by rewrite lor_add_disjoint.
  - change (u32 (shl 0 31)) with 0. by rewrite Z.lor_0_l.
Qed.
Lemma exponent_word s e m k : 0 <= k <= 23 -> 0 <= e < 2 ^ (31 - k) -> 0 <= m < 2 ^ k ->
  u32 (Z.lor (Z.lor (shl (if s : bool then 1 else 0) 31) (shl e k)) m) = (if s then 2 ^ 31 else 0) + (e * 2 ^ k + m).
Proof.
  intros Hk He Hm. assert (E31 : 2 ^ (31 - k) * 2 ^ k = 2 ^ 31) by (rewrite <-Z.pow_add_r by lia; f_equal; lia).
  pose proof (pow2_pos k ltac:(lia)). assert (Hs : shl e k = e * 2 ^ k) by (rewrite shl_small, Z.shiftl_mul_pow2 by nia; done).
  rewrite Hs, <-Z.lor_assoc, lor_add_disjoint by lia. apply sign_word. nia.
Qed.

Definition words_of (w : Z) : Z * Z := (w mod 2 ^ 32, w / 2 ^ 32).
Lemma words_sign s w : 0 <= w < 2 ^ 63 -> words_of (sign_bit float64 s + w) = (w mod 2 ^ 32, (if s : bool then 2 ^ 31 else 0) + w / 2 ^ 32).
Proof.
  intros Hw. unfold words_of. replace (sign_bit float64 s) with ((if s then 2 ^ 31 else 0) * 2 ^ 32) by (by destruct s).
  rewrite (Z.add_comm (_ * _)), Z.mod_add, Z.div_add by lia. f_equal. lia.
Qed.

Lemma magnitude_sub n : 0 <= n < 2 ^ 52 -> magnitude float64 n = n.
Proof.
  intros Hn. assert (Eu : ulp float64 n = 0).
  { rewrite ulp_of_double. unfold quantum. destruct (Z.eq_dec n 0) as [->|]; [done|].
    assert (Z.log2 n < 52) by (apply Z.log2_lt_pow2; lia). lia. }
  unfold magnitude. rewrite Eu. change (2 ^ 0) with 1. change (1 / 2) with 0. rewrite Z.add_0_r, Z.div_1_r.
  rewrite encoded_below; [change (floor0 float64) with 0; cbn [mant float64]; lia|by right|by vm_compute|]. cbn [mant float64]. change (2 ^ (52 + 1)) with (2 ^ 53). lia.
Qed.
Lemma magnitude_normal n (L := Z.log2 n) : rep n -> 2 ^ 52 <= n < 2 ^ 2098 ->
  magnitude float64 n = (L - 51) * 2 ^ 52 + (n / 2 ^ (L - 52) - 2 ^ 52) /\ 2 ^ 52 <= n / 2 ^ (L - 52) < 2 ^ 53 /\ 52 <= L < 2098.
Proof.
  intros Hn Hl. assert (H1 : 52 <= L) by (apply Z.log2_le_pow2; lia). assert (H2 : L < 2098) by (apply Z.log2_lt_pow2; lia).
  pose proof (quotient_bits n 52 ltac:(lia) ltac:(unfold L in *; lia)) as Q. fold L in Q. change (2 ^ (52 + 1)) with (2 ^ 53) in Q.
  split; [|done]. rewrite <-cut_double by done. unfold cut. rewrite ulp_of_double. unfold quantum. fold L. rewrite Z.max_r by lia.
  rewrite encoded_below; [change (floor0 float64) with 0; cbn [mant float64]; lia|by right|change (floor0 float64) with 0; change (top float64) with 2047; lia|].
  cbn [mant float64]. change (2 ^ (52 + 1)) with (2 ^ 53). lia.
Qed.

Lemma split_normal n s (L := Z.log2 n) : rep n -> 2 ^ 52 <= n < 2 ^ 2098 ->
  let d := L - 1074 in let c := mul (Fin false n) (pow2 (- d)) in
  (to_u32 (mul c TWO_TO_52), u32 (Z.lor (Z.lor (shl (if s : bool then 1 else 0) 31) (shl (d + 1023) 20)) (Z.land (to_i32 (mul c TWO_TO_20)) 1048575)))
  = words_of (sign_bit float64 s + magnitude float64 n).
Proof.
  intros Hn Hl d c. destruct (magnitude_normal n Hn Hl) as (Em & Hq & HL). fold L in Em, Hq, HL.
  rewrite words_sign, Em. 2: { rewrite Em. pose proof (pow2_pos 52). nia. }
  destruct (mul_pow2 false n (- d) Hn ltac:(lia) ltac:(lia) ltac:(fold L; lia) ltac:(fold L; lia)) as (y & Ec & Hy & Py & Ly & Ey).
  fold L in Ly. subst c. rewrite Ec. assert (Hyb : y < 2 ^ 1075) by (apply Z.log2_lt_pow2; lia).
  assert (T : forall k, 0 <= k <= 52 -> mul (Fin false y) (of_Z (2 ^ k)) = Fin false (y * 2 ^ k) /\ y * 2 ^ k / one = n / 2 ^ (L - k)).
  { intros k Hk. assert (2 ^ k <= 2 ^ 52) by (apply Z.pow_le_mono_r; lia). pose proof (pow2_pos k ltac:(lia)). rewrite of_Z_small by lia. split.
    - apply (mul_exact false false); [apply (rep_shift y _ k 0); [done|lia|lia|lia]| |lia].
      apply below_2098; [lia|]. rewrite Z.log2_mul_pow2 by lia. lia.
    - apply (shifted_quotient n y (- d) k); lia. }
  destruct (T 52 ltac:(lia)) as [T1 T2], (T 20 ltac:(lia)) as [T3 T4].
  change TWO_TO_52 with (of_Z (2 ^ 52)). change TWO_TO_20 with (of_Z (2 ^ 20)). rewrite T1, T3.
  unfold to_u32, to_i32. cbn [trunc signed]. rewrite T2, T4. set (q := n / 2 ^ (L - 52)) in *.
  assert (E20 : n / 2 ^ (L - 20) = q / 2 ^ 32).
  { subst q. rewrite Z.div_div by (try apply pow2_pos; lia). rewrite <-Z.pow_add_r by lia. do 2 f_equal. lia. }
  rewrite E20. assert (B20 : 2 ^ 20 <= q / 2 ^ 32 < 2 ^ 21).
  { split; [apply Z.div_le_lower_bound; lia|apply Z.div_lt_upper_bound; lia]. }
  rewrite i32_id by lia. change 1048575 with (Z.ones 20). rewrite Z.land_ones by lia.
  rewrite exponent_word by (try (apply Z.mod_pos_bound; lia); lia).
  replace ((L - 51) * 2 ^ 52 + (q - 2 ^ 52)) with (q + (L - 52) * 2 ^ 20 * 2 ^ 32) by lia.
  rewrite Z.mod_add, Z.div_add by lia. unfold u32. f_equal.
  assert (Em2 : (q / 2 ^ 32) mod 2 ^ 20 = q / 2 ^ 32 - 2 ^ 20) by (symmetry; apply (Z.mod_unique_pos _ _ 1); lia).
  rewrite Em2. lia.
Qed.

Lemma splitFloat64_ok x : double x -> x <> NaN -> splitFloat64 x = words_of (to_bits float64 x).
Proof.
  intros Hx Hnan. destruct x as [|s|s n]; [done|by destruct s; vm_compute|]. destruct Hx as [Hn Hl]. pose proof (rep_nonneg n Hn) as H0.
  unfold splitFloat64. change (of_Z 0) with (Fin false 0). cbn [to_bits].
  destruct (Z.eq_dec n 0) as [->|Nz]; [by destruct s; vm_compute|].
  assert (Es : ltb (Fin s n) (Fin false 0) = s) by (destruct s; cbn [ltb signed]; [apply Z.ltb_lt; lia|apply Z.ltb_ge; lia]).
  rewrite Es. assert (Ea : (if s then opp (Fin s n) else Fin s n) = Fin false n) by (by destruct s). rewrite Ea.
  cbn [eqb signed isNaN]. rewrite (proj2 (Z.eqb_neq 0 n)) by lia. rewrite float64_max, float64_min. cbn [ltb signed].
  rewrite (proj2 (Z.ltb_ge _ n)) by (by apply below_max).
  destruct (Z.ltb_spec n (2 ^ 52)) as [Hs|Hs].
  - pose proof one_pos. rewrite words_sign, magnitude_sub by (rewrite ?magnitude_sub by lia; lia).
    rewrite pow2_Fin by lia. change (2 ^ (-1074 + 1074)) with 1.
    assert (Rn : forall k, 0 <= k <= 1074 -> rep (n * 2 ^ k) /\ n * 2 ^ k < 2 ^ 2098).
    { intros k Hk. split; [apply (rep_shift n _ k 0); [done|lia|lia|lia]|].
      apply Z.lt_le_trans with (2 ^ 52 * 2 ^ k); [apply Z.mul_lt_mono_pos_r; [apply pow2_pos; lia|lia]|].
      rewrite <-Z.pow_add_r by lia. apply Z.pow_le_mono_r; lia. }
    destruct (Rn 1074 ltac:(lia)) as [R1 B1], (Rn 1042 ltac:(lia)) as [R2 B2].
    rewrite (div_exact false false n 1 (n * 2 ^ 1074)) by (done || (rewrite one_eq; lia)). cbn [xorb]. unfold TWO_TO_32. rewrite of_Z_small by lia.
    assert (E32 : 2 ^ 1074 = 2 ^ 1042 * 4294967296) by (change 4294967296 with (2 ^ 32); by rewrite <-Z.pow_add_r).
    rewrite (div_exact false false _ _ (n * 2 ^ 1042)); [|done|done|lia|rewrite E32; lia].
    cbn [xorb]. unfold to_u32, to_i32. cbn [trunc signed]. rewrite one_eq at 1. rewrite Z.div_mul by lia.
    assert (Eh : n * 2 ^ 1042 / one = n / 2 ^ 32).
    { rewrite one_eq, E32, (Z.mul_comm (2 ^ 1042)). apply Z.div_mul_cancel_r; lia. }
    rewrite Eh. assert (B : 0 <= n / 2 ^ 32 < 2 ^ 20) by (split; [apply Z.div_pos; lia|apply Z.div_lt_upper_bound; lia]).
    rewrite i32_id, sign_word by lia. done.
  - destruct (magnitude_normal n Hn ltac:(lia)) as (_ & _ & HL).
    assert (Ed : (if leb (of_Z 2) (Fin false n) then halve_loop 1023 (Fin false n) 0 else double_loop 1022 (Fin false n) 0) = Z.log2 n - 1074).
    { rewrite leb_2 by lia. destruct (Z.leb_spec 1075 (Z.log2 n)); [rewrite halve_loop_ok by (done || lia)|rewrite double_loop_ok by (done || lia)]; lia. }
    rewrite Ed. apply (split_normal n s Hn). lia.
Qed.

(** ** Putting together *)

Lemma of_Z_sign s : of_Z (2 * (if s : bool then -1 else 0) + 1) = Fin s one.
Proof. destruct s; [by vm_compute|apply of_Z_1]. Qed.
Lemma sign_read a : 0 <= a < 2 ^ 32 -> of_Z (2 * sar a 31 + 1) = Fin (1 <=? a / 2 ^ 31) one.
Proof.
  intros Ha. rewrite <-of_Z_sign. do 3 f_equal. unfold sar. rewrite Z.shiftr_div_pow2 by lia.
  destruct (Z.lt_ge_cases a (2 ^ 31)) as [H|H].
  - rewrite i32_id by lia. rewrite Z.div_small by lia. done.
  - rewrite i32_high by lia. replace (a / 2 ^ 31) with 1 by (apply (Z.div_unique_pos _ _ _ (a - 2 ^ 31)); lia).
    change (1 <=? 1) with true. cbv iota. symmetry. apply (Z.div_unique_pos _ _ _ (a - 2 ^ 31)); lia.
Qed.
Lemma scaled_mantissa s m k : 0 <= m < 2 ^ 53 -> -1074 <= k <= 971 ->
  mul (mul (Fin s one) (pow2 k)) (Fin false (m * one)) = Fin s (m * 2 ^ (k + 1074)).
Proof.
  intros Hm Hk. rewrite pow2_Fin by lia. rewrite (mul_exact s false one _ (2 ^ (k + 1074))); [|apply rep_pow2; lia|apply Z.pow_lt_mono_r; lia|lia].
  rewrite (mul_exact (xorb s false) false _ _ (m * 2 ^ (k + 1074))); [by destruct s|apply rep_intro; lia| |lia].
  apply Z.lt_le_trans with (2 ^ 53 * 2 ^ (k + 1074)); [apply Z.mul_lt_mono_pos_r; [apply pow2_pos; lia|lia]|].
  rewrite <-Z.pow_add_r by lia. apply Z.pow_le_mono_r; lia.
Qed.
Lemma add_small m k : 0 <= m -> 0 <= k -> m + k < 2 ^ 53 -> add (Fin false (m * one)) (Fin false (k * one)) = Fin false ((m + k) * one).
Proof.
  intros Hm Hk Hs. pose proof one_pos. rewrite <-(of_Z_small (m + k)) by lia. unfold of_Z. rewrite (proj2 (Z.ltb_ge (m + k) 0)), (Z.abs_eq (m + k)) by lia.
  cbn [add signed]. rewrite <-Z.mul_add_distr_r. destruct (Z.eqb_spec ((m + k) * one) 0) as [->|]; [done|].
  rewrite (proj2 (Z.ltb_ge _ 0)), Z.abs_eq by nia. done.
Qed.
Lemma times_infinity s : mul (Inf false) (Fin s one) = Inf s.
Proof. cbn [mul]. rewrite (proj2 (Z.eqb_neq one 0)) by (pose proof one_pos; lia). by destruct s. Qed.
Lemma mantissa_zero m : (eqb (Fin false (m * one)) (of_Z 0) || isNaN (Fin false (m * one))) = (m =? 0).
Proof.
  change (of_Z 0) with (Fin false 0). cbn [eqb signed isNaN]. rewrite orb_false_r. pose proof one_pos.
  destruct (Z.eqb_spec (m * one) 0), (Z.eqb_spec m 0); lia || nia.
Qed.

Lemma joinFloat64_ok a b : 0 <= a < 2 ^ 32 -> 0 <= b < 2 ^ 32 -> joinFloat64 a b = of_bits float64 (a + b * 2 ^ 32).
Proof.
  intros Ha Hb. unfold joinFloat64, of_bits. cbn [mant expo float64]. change (52 + 11) with 63.
  assert (E1 : (a + b * 2 ^ 32) / 2 ^ 63 = b / 2 ^ 31).
  { change (2 ^ 63) with (2 ^ 32 * 2 ^ 31). rewrite <-Z.div_div, Z.div_add, (Z.div_small a) by lia. done. }
  assert (E2 : (a + b * 2 ^ 32) / 2 ^ 52 = b / 2 ^ 20).
  { change (2 ^ 52) with (2 ^ 32 * 2 ^ 20). rewrite <-Z.div_div, Z.div_add, (Z.div_small a) by lia. done. }
  assert (E3 : (a + b * 2 ^ 32) mod 2 ^ 52 = b mod 2 ^ 20 * 2 ^ 32 + a).
  { change (2 ^ 52) with (2 ^ 32 * 2 ^ 20). rewrite Z.rem_mul_r, Z.mod_add, Z.div_add, (Z.div_small a), (Z.mod_small a) by lia. rewrite Z.add_0_l. lia. }
  rewrite E1, E2, E3, sign_read by done. unfold shr. rewrite u32_id, Z.shiftr_div_pow2 by lia.
  replace (Z.land (b / 2 ^ 20) 2047) with ((b / 2 ^ 20) mod 2 ^ 11) by (symmetry; apply (Z.land_ones _ 11); lia).
  replace (Z.land b 1048575) with (b mod 2 ^ 20) by (symmetry; apply (Z.land_ones _ 20); lia).
  pose proof (Z.mod_pos_bound b (2 ^ 20) ltac:(lia)) as Hh. pose proof (Z.mod_pos_bound (b / 2 ^ 20) (2 ^ 11) ltac:(lia)) as Hd.
  set (h := b mod 2 ^ 20) in *. set (d := (b / 2 ^ 20) mod 2 ^ 11) in *. set (s := 1 <=? b / 2 ^ 31).
  unfold TWO_TO_32. rewrite (of_Z_small 4294967296), (of_Z_small h), (of_Z_small a) by lia. pose proof one_pos.
  rewrite (mul_exact false false _ _ (h * 2 ^ 32 * one)); [| | |lia].
  2: { rewrite one_eq. apply rep_intro; lia. }
  2: { rewrite one_eq. apply Z.lt_le_trans with (2 ^ 52 * 2 ^ 1074); [apply Z.mul_lt_mono_pos_r; [by apply pow2_pos|lia]|]. rewrite <-Z.pow_add_r by lia. by apply Z.pow_le_mono_r. }
  cbn [xorb]. rewrite add_small by lia. set (m := h * 2 ^ 32 + a). assert (Hm : 0 <= m < 2 ^ 52) by (subst m; lia).
  change (top float64) with 2047. change (floor0 float64) with 0. rewrite mantissa_zero, times_infinity.
  destruct (Z.eqb_spec d 2047); [done|]. destruct (Z.eqb_spec d 0).
  - rewrite scaled_mantissa by lia. done.
  - unfold TWO_TO_52. rewrite of_Z_small, add_small by lia. rewrite scaled_mantissa by lia. do 3 f_equal. lia.
Qed.
Lemma joinFloat32_ok a b : 0 <= a < 2 ^ 32 -> joinFloat32 a b = of_bits float32 a.
Proof.
  intros Ha. unfold joinFloat32, of_bits. cbn [mant expo float32]. change (23 + 8) with 31.
  rewrite sign_read by done. unfold shr. rewrite u32_id, Z.shiftr_div_pow2 by lia.
  replace (Z.land (a / 2 ^ 23) 255) with ((a / 2 ^ 23) mod 2 ^ 8) by (symmetry; apply (Z.land_ones _ 8); lia).
  replace (Z.land a 8388607) with (a mod 2 ^ 23) by (symmetry; apply (Z.land_ones _ 23); lia).
  pose proof (Z.mod_pos_bound a (2 ^ 23) ltac:(lia)) as Hm. pose proof (Z.mod_pos_bound (a / 2 ^ 23) (2 ^ 8) ltac:(lia)) as Hd.
  set (m := a mod 2 ^ 23) in *. set (c := (a / 2 ^ 23) mod 2 ^ 8) in *. set (s := 1 <=? a / 2 ^ 31).
  change (top float32) with 255. change (floor0 float32) with 925. rewrite of_Z_small, times_infinity by lia.
  destruct (Z.eqb_spec c 255); [by destruct (m =? 0)|]. destruct (Z.eqb_spec c 0).
  - rewrite scaled_mantissa by lia. done.
  - replace (pow2 23) with (Fin false (2 ^ 23 * one)) by (rewrite pow2_Fin, one_eq, <-Z.pow_add_r by lia; done).
    rewrite add_small by lia. rewrite scaled_mantissa by lia. do 3 f_equal. lia.
Qed.

(** ** Taking floats apart *)

(** A float, and the logarithm of it exact if it is not subnormal. *)
Definition a_float `{MathLog} (x : num) : Prop :=
  match x with
  | NaN | Inf _ => True
  | Fin _ n => rep n /\ n < 2 ^ 1202 /\ in_format float32 n /\ (2 ^ 948 <= n -> floor_log2 n = Z.log2 n - 1074)
  end.

Lemma round_whole k : 0 <= k -> round_ (Fin false (k * one)) = Fin false (k * one).
Proof.
  intros Hk. cbn [round_]. pose proof one_pos. rewrite Z.div_add_l, (Z.div_small (one / 2)) by (try split; try apply Z.div_pos; try apply Z.div_lt; lia).
  do 2 f_equal. lia.
Qed.
Lemma whole_word k : 0 <= k < 2 ^ 31 -> to_i32 (Fin false (k * one)) = k.
Proof. intros Hk. unfold to_i32. cbn [trunc signed]. rewrite Z.div_mul by (pose proof one_pos; lia). by apply i32_id; lia. Qed.

Lemma float_last n : in_format float32 n -> 0 <= n -> exists k, n = k * 2 ^ ulp float32 n /\ 0 <= k /\ magnitude float32 n = encoded float32 k (ulp float32 n).
Proof.
  intros [k [Hk E]] Hn. exists k. split; [done|]. split; [done|]. unfold magnitude. f_equal. pose proof (ulp_pos float32 n (or_introl eq_refl)) as P.
  set (u := ulp float32 n) in *. rewrite E. assert (0 <= 2 ^ u / 2 < 2 ^ u) by (split; [by apply Z.div_pos; lia|by apply Z.div_lt; lia]).
  rewrite Z.div_add_l, (Z.div_small (2 ^ u / 2)) by lia. lia.
Qed.

Lemma splitFloat32_ok `{MathLog} x : a_float x -> x <> NaN -> splitFloat32 x = (to_bits float32 x, 0).
Proof.
  intros Hx Hnan. destruct x as [|s|s n]; [done|by destruct s; vm_compute|]. destruct Hx as (Hn & Hl & Hf & Hlog). pose proof (rep_nonneg n Hn) as H0.
  unfold splitFloat32. change (of_Z 0) with (Fin false 0). cbn [to_bits].
  destruct (Z.eq_dec n 0) as [->|Nz]; [by destruct s; vm_compute|].
  assert (Es : ltb (Fin s n) (Fin false 0) = s) by (destruct s; cbn [ltb signed]; [apply Z.ltb_lt; lia|apply Z.ltb_ge; lia]).
  rewrite Es. assert (Ea : (if s then opp (Fin s n) else Fin s n) = Fin false n) by (by destruct s). rewrite Ea.
  cbn [eqb signed isNaN]. rewrite (proj2 (Z.eqb_neq 0 n)) by lia. rewrite float32_max, float32_min. cbn [ltb signed].
  destruct (float_last n Hf H0) as (k & En & Hk & Em). set (u := ulp float32 n) in *. pose proof one_pos as P1.
  assert (Hu : 925 <= u <= 1178).
  { subst u. unfold ulp. cbn [mant float32]. change (floor0 float32) with 925. assert (Z.log2 n < 1202) by (apply Z.log2_lt_pow2; lia). lia. }
  pose proof (pow2_pos u ltac:(lia)) as Pu.
  assert (Hk24 : k < 2 ^ 24).
  { pose proof (below_ulp n ltac:(lia)) as B. fold u in B. rewrite Z.pow_add_r in B by lia. apply (Z.mul_lt_mono_pos_r (2 ^ u)); lia. }
  assert (Hsgn : sign_bit float32 s = if s then 2 ^ 31 else 0) by done.
  rewrite (proj2 (Z.ltb_ge _ n)).
  2: { rewrite En. apply Z.mul_le_mono_nonneg; [lia|lia|lia|apply Z.pow_le_mono_r; lia]. }
  destruct (Z.ltb_spec n (2 ^ 948)) as [Hs|Hs].
  - assert (Eu : u = 925). { subst u. unfold ulp. cbn [mant float32]. change (floor0 float32) with 925. assert (Z.log2 n < 948) by (apply Z.log2_lt_pow2; lia). lia. }
    rewrite Eu in *. assert (Hk23 : k < 2 ^ 23) by (apply (Z.mul_lt_mono_pos_r (2 ^ 925)); [lia|]; rewrite <-Z.pow_add_r by lia; rewrite <-En; exact Hs).
    rewrite pow2_Fin by lia. change (-149 + 1074) with 925.
    rewrite (div_exact false false n _ (k * one)); [|rewrite one_eq; apply rep_intro; lia| |lia|rewrite En; lia].
    2: { rewrite one_eq. apply Z.lt_le_trans with (2 ^ 24 * 2 ^ 1074); [apply Z.mul_lt_mono_pos_r; [by apply pow2_pos|lia]|]. rewrite <-Z.pow_add_r by lia. by apply Z.pow_le_mono_r. }
    cbn [xorb]. rewrite round_whole, whole_word, sign_word, Em, Hsgn by lia. f_equal. f_equal.
    rewrite encoded_below; [change (floor0 float32) with 925; lia|by left|by vm_compute|cbn [mant float32]; change (2 ^ (23 + 1)) with (2 ^ 24); lia].
  - specialize (Hlog Hs). apply Z.log2_le_pow2 in Hs; [|lia].
    assert (Eu : u = Z.log2 n - 23) by (subst u; unfold ulp; cbn [mant float32]; change (floor0 float32) with 925; lia).
    assert (Hk23 : 2 ^ 23 <= k).
    { pose proof (quotient_bits n 23 ltac:(lia) ltac:(lia)) as [Q _]. rewrite <-Eu in Q. rewrite En, Z.div_mul in Q by lia. done. }
    rewrite Hlog. set (d := Z.log2 n - 1074) in *.
    destruct (mul_pow2 false n (- d) Hn ltac:(lia) ltac:(lia) ltac:(lia) ltac:(lia)) as (y & -> & Hy & Py & Ly & Ey).
    assert (E23 : y * 2 ^ 23 = k * one).
    { apply (Z.mul_reg_r _ _ one); [lia|]. replace (y * 2 ^ 23 * one) with (y * one * 2 ^ 23) by lia. rewrite Ey, En at 1.
      replace (k * one * one) with (k * (one * one)) by lia. rewrite one_eq, <-!Z.mul_assoc, <-!Z.pow_add_r by lia. do 2 f_equal. lia. }
    unfold TWO_TO_23. rewrite (of_Z_small 8388608) by lia.
    rewrite (mul_exact false false y _ (k * one)); [|rewrite one_eq; apply rep_intro; lia| |rewrite <-E23; change (2 ^ 23) with 8388608; lia].
    2: { rewrite one_eq. apply Z.lt_le_trans with (2 ^ 24 * 2 ^ 1074); [apply Z.mul_lt_mono_pos_r; [by apply pow2_pos|lia]|]. rewrite <-Z.pow_add_r by lia. by apply Z.pow_le_mono_r. }
    cbn [xorb]. rewrite round_whole, whole_word by lia. change 8388607 with (Z.ones 23). rewrite Z.land_ones by lia.
    replace (k mod 2 ^ 23) with (k - 2 ^ 23) by (apply (Z.mod_unique_pos _ _ 1); lia).
    rewrite exponent_word, Em, Hsgn by lia. f_equal. f_equal.
    rewrite encoded_below; [change (floor0 float32) with 925; cbn [mant float32]; lia|by left|change (floor0 float32) with 925; change (top float32) with 255; lia
      |cbn [mant float32]; change (2 ^ (23 + 1)) with (2 ^ 24); lia].
Qed.

(** A number that rounds to the next power of two loses its exponent: the float
    next to 2 - 2^-30 is 2, but 1 is written. *)
Lemma float32_carry_lost : round_to float32 (sub (of_Z 2) (pow2 (-30))) = of_Z 2 /\
  joinFloat32 (splitFloat32 (H := exact_log) (sub (of_Z 2) (pow2 (-30)))).1 0 = of_Z 1.
Proof. split; vm_compute; reflexivity. Qed.

(** ** Bits of either width *)

(** The bits of a number, or those the code writes for NaN. *)
Definition written_bits (F : format) (nan w : Z) : bool := (w =? nan) || match of_bits F w with NaN => false | _ => true end.
Lemma written_cases F nan w : written_bits F nan w = true -> w = nan \/ of_bits F w <> NaN.
Proof.
  unfold written_bits. rewrite orb_true_iff, Z.eqb_eq. intros [->|H]; [by left|right]. by destruct (of_bits F w).
Qed.
(** Where the logarithm has to be exact. *)
Definition log_exact `{MathLog} (w : Z) : bool :=
  match of_bits float32 w with Fin _ n => (n <? 2 ^ 948) || (floor_log2 n =? Z.log2 n - 1074) | _ => true end.

Lemma in_float_max m x : 0 <= m -> match x with Fin _ n => 0 <= n <= m | _ => True end -> in_float (Fin false m) x = true.
Proof.
  intros Hm. unfold in_float. destruct x as [|[]|s n]; [done..|]. intros Hn. cbn [eqb isNaN orb opp negb]. unfold leb. cbn [ltb eqb signed].
  apply andb_true_iff. split; apply orb_true_iff; rewrite Z.ltb_lt, Z.eqb_eq; destruct s; cbn [signed]; lia.
Qed.
Lemma double_split w : 0 <= w < 2 ^ 64 -> written_bits float64 9223372036854775807 w = true ->
  splitFloat64 (of_bits float64 w) = words_of w /\ in_float FLOAT64_MAX (of_bits float64 w) = true.
Proof.
  intros Hw Hc. destruct (to_of_bits float64 w (or_intror eq_refl) Hw) as (Hd & Hb & _). split.
  - destruct (written_cases _ _ _ Hc) as [->|Hn]; [by vm_compute|]. rewrite splitFloat64_ok by done. by rewrite Hb.
  - rewrite float64_max. apply in_float_max; [by vm_compute|]. destruct (of_bits float64 w); [done..|]. destruct Hd as [Hr Hl].
    split; [by apply rep_nonneg|by apply below_max].
Qed.
Lemma float_split `{MathLog} w : 0 <= w < 2 ^ 32 -> written_bits float32 2147483647 w = true -> log_exact w = true ->
  splitFloat32 (of_bits float32 w) = (w, 0) /\ in_float FLOAT32_MAX (of_bits float32 w) = true.
Proof.
  intros Hw Hc Hx. destruct (to_of_bits float32 w (or_introl eq_refl) Hw) as (Hd & Hb & Hf). change (1075 + bias float32) with 1202 in Hf.
  unfold log_exact in Hx. split.
  - destruct (written_cases _ _ _ Hc) as [->|Hn]; [by vm_compute|]. rewrite splitFloat32_ok; [by rewrite Hb| |done].
    destruct (of_bits float32 w) as [| |s n]; [done..|]. destruct Hd as [Hr Hl], Hf as (k & u & E & Hk & Eu & Hb2). split; [done|]. split; [done|].
    split; [exists k; rewrite Eu; split; [lia|exact E]|]. intros Hge. apply orb_true_iff in Hx as [H1%Z.ltb_lt|H1%Z.eqb_eq]; [lia|done].
  - rewrite float32_max. apply in_float_max; [by vm_compute|]. destruct (of_bits float32 w) as [| |s n]; [done..|].
    destruct Hd as [Hr Hl], Hf as (k & u & E & Hk & Eu & Hb2). split; [by apply rep_nonneg|]. rewrite E. cbn [mant float32] in Hk. change (2 ^ (23 + 1)) with (2 ^ 24) in Hk.
    assert (Hn0 : 0 <= n) by (by apply rep_nonneg). assert (Hu : 0 <= u <= 1178).
    { rewrite <-Eu. unfold ulp. cbn [mant float32]. change (floor0 float32) with 925. destruct (Z.eq_dec n 0) as [->|]; [by vm_compute|].
      assert (Z.log2 n < 1202) by (apply Z.log2_lt_pow2; lia). lia. }
    apply Z.mul_le_mono_nonneg; [lia|lia|apply Z.lt_le_incl, pow2_pos; lia|apply Z.pow_le_mono_r; lia].
Qed.

(** A double is put together as it was taken apart, and the two words are its
    bits in the format; so is a float, if the logarithm of it is exact. *)
Theorem float_words_roundtrip `{MathLog} x :
  (double x -> joinFloat64 (splitFloat64 x).1 (splitFloat64 x).2 = x /\
     (x <> NaN -> (splitFloat64 x).1 + (splitFloat64 x).2 * 2 ^ 32 = to_bits float64 x)) /\
  (a_float x -> joinFloat32 (splitFloat32 x).1 (splitFloat32 x).2 = x /\ (x <> NaN -> (splitFloat32 x).1 = to_bits float32 x)).
Proof.
  split.
  - intros Hx. destruct (decide (x = NaN)) as [->|Hn]; [split; [by vm_compute|done]|]. rewrite splitFloat64_ok by done. unfold words_of. cbn [fst snd].
    pose proof (to_bits_bound float64 x (or_intror eq_refl) Hx) as B. change (256 ^ Z.of_nat (width float64)) with (2 ^ 32 * 2 ^ 32) in B.
    assert (E : to_bits float64 x mod 2 ^ 32 + to_bits float64 x / 2 ^ 32 * 2 ^ 32 = to_bits float64 x).
    { pose proof (Z.div_mod (to_bits float64 x) (2 ^ 32) ltac:(lia)). lia. }
    split; [|done]. rewrite joinFloat64_ok, E, of_to_bits; [by apply round_to_double|by right|done|by apply Z.mod_pos_bound|].
    split; [apply Z.div_pos; lia|apply Z.div_lt_upper_bound; lia].
  - intros Hx. destruct (decide (x = NaN)) as [->|Hn]; [split; [by vm_compute|done]|]. rewrite splitFloat32_ok by done. cbn [fst snd]. split; [|done].
    assert (Hd : double x) by (destruct x as [| |s n]; [done..|]; destruct Hx as (Hr & Hl & _); split; [done|eapply Z.lt_trans; [exact Hl|by apply Z.pow_lt_mono_r]]).
    pose proof (to_bits_bound float32 x (or_introl eq_refl) Hd) as B. rewrite joinFloat32_ok, of_to_bits by (done || by left).
    destruct x as [| |s n]; [done..|]. destruct Hx as (Hr & Hl & Hf & _). cbn [round_to]. rewrite rounded_exact by (done || by left).
    change (1075 + bias float32) with 1202. by rewrite (proj2 (Z.leb_gt _ _)).
Qed.
Lemma float_words_roundtrip_witness :
  let x := Fin false (7205759403792794 * 2 ^ 1018) in let y := Fin true (3 * 2 ^ 1073) in
  x = lit 1 (-1) /\ joinFloat64 (splitFloat64 x).1 (splitFloat64 x).2 = x /\
  joinFloat32 (splitFloat32 (H := exact_log) y).1 (splitFloat32 (H := exact_log) y).2 = y.
Proof.
  intros x y. split; [vm_compute; reflexivity|]. split.
  - refine (proj1 (proj1 (float_words_roundtrip (H := exact_log) x) _)). split; [by exists 7205759403792794, 1018|]. by apply Z.ltb_lt; vm_compute.
  - refine (proj1 (proj2 (float_words_roundtrip (H := exact_log) y) _)). split; [by exists 3, 1073|]. split; [by apply Z.ltb_lt; vm_compute|].
    split; [|reflexivity]. exists (3 * 2 ^ 22). split; [lia|]. by vm_compute.
Defined.
