(* ===== verification/WireScalarSpec.v ===== *)
(** The scalar formats of the wire: whatever value a method writes, alone, in a
    repeated or in a packed field, the reader's method of the same name reads
    back; the format is base-128 digits or little-endian bytes of the number,
    of its zigzag code or of its two's complement. *)

From S2P Require Import JsNum FloatFields FloatExponent FloatSpec FloatRound WireFloat WireFloatSpec.
From S2P Require Import Prelude JsVal Int32 TextEncoding Labels Utf8Step Wire WireReader WireSpec WireFields Message Numbers.
From S2P Require Import UserMessage UserMessageSpec Int64 Int64Spec WireScalar.

(** ** Reading 64 bits in base 128 *)

Lemma at_end_of p b s : at_ (p ++ b :: s) (Z.of_nat (length p)) = Some b.
Proof. apply at_app_mid. Qed.
Lemma len_snoc (p : list Z) b : Z.of_nat (length (p ++ [b])) = Z.of_nat (length p) + 1.
Proof. rewrite length_app. cbn. lia. Qed.

(** A digit added above the [m] bits that are there. *)
Lemma lor_digit acc x m : 0 <= m <= 31 -> 0 <= u32 acc < 2 ^ m -> 0 <= x < 128 ->
  u32 (i32 (Z.lor acc (shl x m))) = (u32 acc + x * 2 ^ m) mod W32.
Proof.
  intros Hm Ha Hx. rewrite u32_i32, u32_lor, u32_shl by lia.
  assert (E : x * 2 ^ m mod W32 = (x mod 2 ^ (32 - m)) * 2 ^ m).
  { change W32 with (2 ^ 32). replace (2 ^ 32) with (2 ^ (32 - m) * 2 ^ m) by (rewrite <-Z.pow_add_r by lia; f_equal; lia).
    apply Z.mul_mod_distr_r; apply Z.pow_nonzero; lia. }
  assert (Hx' : 0 <= x mod 2 ^ (32 - m) < 2 ^ (32 - m)) by (apply Z.mod_pos_bound, Z.pow_pos_nonneg; lia).
  assert (H2 : 0 < 2 ^ m) by (apply Z.pow_pos_nonneg; lia).
  assert (HW : x mod 2 ^ (32 - m) * 2 ^ m + 2 ^ m <= W32).
  { replace W32 with (2 ^ (32 - m) * 2 ^ m) by (rewrite <-Z.pow_add_r by lia; replace (32 - m + m) with 32 by lia; done). nia. }
  rewrite <-(Z.add_mod_idemp_r (u32 acc)), E by done. rewrite Z.lor_comm, lor_add_disjoint by lia.
  assert (0 <= x mod 2 ^ (32 - m) * 2 ^ m) by (apply Z.mul_nonneg_nonneg; lia).
  set (t := x mod 2 ^ (32 - m) * 2 ^ m) in *. clearbody t. rewrite Z.mod_small by lia. lia.
Qed.

Lemma split_bytes_leb k : forall f e0 sh w p s acc b, (k <= f)%nat -> 0 <= e0 -> 0 <= sh ->
  7 * (e0 + Z.of_nat k - 1) + sh <= 31 -> 0 <= w < 128 ^ Z.of_nat f -> u32 acc < 2 ^ (7 * e0 + sh) -> ge_ b 128 = true ->
  exists b' acc',
   (w < 128 ^ Z.of_nat k /\ (0 < k)%nat /\ ge_ b' 128 = false /\ lt_ b' 128 = true /\
    split_bytes k e0 sh (p ++ leb128 f w ++ s) (Z.of_nat (length p)) b acc = (Z.of_nat (length (p ++ leb128 f w)), b', acc') /\
    u32 acc' = (u32 acc + w * 2 ^ (7 * e0 + sh)) mod W32) \/
   (128 ^ Z.of_nat k <= w \/ k = O) /\ exists pre, length pre = k /\ leb128 f w = pre ++ leb128 (f - k) (w / 128 ^ Z.of_nat k) /\ ge_ b' 128 = true /\
    split_bytes k e0 sh (p ++ leb128 f w ++ s) (Z.of_nat (length p)) b acc = (Z.of_nat (length (p ++ pre)), b', acc') /\
    u32 acc' = (u32 acc + w mod 128 ^ Z.of_nat k * 2 ^ (7 * e0 + sh)) mod W32.
Proof.
  induction k as [|k IH]; intros f e0 sh w p s acc b Hf He Hs Hm Hw Ha Hb.
  { exists b, acc. right. split; [by right|]. exists []. rewrite app_nil_r, Nat.sub_0_r, Z.div_1_r, Z.mod_1_r, Z.add_0_r.
    repeat split; [done|]. rewrite u32_W. by rewrite Z.mod_mod. }
  destruct f as [|f]; [lia|]. rewrite Nat2Z.inj_succ, Z.pow_succ_r in * by lia.
  assert (Hm' : 0 <= 7 * e0 + sh <= 31) by lia. assert (Hacc : 0 <= u32 acc < 2 ^ (7 * e0 + sh)) by (split; [apply u32_bound|done]).
  assert (Hk : 1 <= 128 ^ Z.of_nat k) by (pose proof (Z.pow_pos_nonneg 128 (Z.of_nat k)); lia).
  cbn [split_bytes leb128]. rewrite Hb. destruct (Z.ltb_spec w 128) as [Hlt|Hge].
  - cbn [app]. rewrite at_end_of. cbn [band]. exists (Some w), (i32 (Z.lor acc (shl (Z.land w 127) (7 * e0 + sh)))). left.
    assert (E : forall x y, split_bytes k x sh (p ++ w :: s) y (Some w) (i32 (Z.lor acc (shl (Z.land w 127) (7 * e0 + sh)))) = (y, Some w, i32 (Z.lor acc (shl (Z.land w 127) (7 * e0 + sh))))).
    { intros. destruct k; cbn [split_bytes ge_]; [done|]. by rewrite (proj2 (Z.leb_gt 128 w)) by lia. }
    rewrite E, len_snoc. cbn [ge_ lt_]. rewrite (proj2 (Z.leb_gt 128 w)), (proj2 (Z.ltb_lt w 128)) by lia.
    repeat split; [nia|lia|]. rewrite land_127, Z.mod_small by lia. apply lor_digit; lia.
  - rewrite <-app_comm_cons, at_end_of. cbn [band].
    set (d := w mod 128 + 128). set (acc1 := i32 (Z.lor acc (shl (Z.land d 127) (7 * e0 + sh)))).
    assert (E1 : u32 acc1 = (u32 acc + w mod 128 * 2 ^ (7 * e0 + sh)) mod W32).
    { subst acc1 d. rewrite land_127, mod_high. apply lor_digit; [done|done|apply Z.mod_pos_bound; lia]. }
    change (p ++ d :: leb128 f (w / 128) ++ s) with (p ++ ([d] ++ (leb128 f (w / 128) ++ s))). rewrite app_assoc, <-len_snoc with (b := d).
    assert (P7 : 2 ^ (7 * (e0 + 1) + sh) = 128 * 2 ^ (7 * e0 + sh)).
    { replace (7 * (e0 + 1) + sh) with (7 + (7 * e0 + sh)) by lia. by rewrite Z.pow_add_r by lia. }
    destruct (decide (k = 0%nat)) as [->|Hk0].
    + exists (Some d), acc1. right. split; [left; change (128 ^ Z.of_nat 0) with 1; lia|]. exists [d]. cbn [split_bytes length app Nat.sub]. rewrite Nat.sub_0_r.
      change (128 ^ Z.of_nat 0) with 1. rewrite Z.mul_1_r. repeat split; [|by rewrite E1].
      cbn. apply Z.leb_le. subst d. pose proof (Z.mod_pos_bound w 128). lia.
    + assert (E2 : u32 acc1 = u32 acc + w mod 128 * 2 ^ (7 * e0 + sh) /\ u32 acc1 < 2 ^ (7 * (e0 + 1) + sh)).
      { pose proof (Z.mod_pos_bound w 128 ltac:(lia)). rewrite P7. rewrite E1, Z.mod_small; [nia|]. split; [nia|].
        apply Z.lt_le_trans with (128 * 2 ^ (7 * e0 + sh)); [nia|]. rewrite <-P7. change W32 with (2 ^ 32).
        apply Z.pow_le_mono_r; lia. }
      destruct E2 as [E2 B2].
      destruct (IH f (e0 + 1) sh (w / 128) (p ++ [d]) s acc1 (Some d)) as (b' & acc' & H);
        [lia|lia|lia|lia|split; [apply Z.div_pos; lia|apply Z.div_lt_upper_bound; lia]|done|
         cbn; apply Z.leb_le; subst d; pose proof (Z.mod_pos_bound w 128); lia|].
      exists b', acc'. rewrite E2, P7 in H. destruct H as [(Hw' & _ & Hb' & Hl' & -> & ->)|(Hw' & pre & Hp & -> & Hb' & -> & ->)]; [left|right].
      * repeat split; [|lia|done|done| |]; [apply Z.div_lt_upper_bound in Hw' || idtac; euclid|by rewrite <-app_assoc|].
        f_equal. rewrite (Z.div_mod w 128) at 3 by lia. lia.
      * destruct Hw' as [Hw'|]; [|done]. split; [left; euclid|]. exists (d :: pre). cbn [length app Nat.sub].
        rewrite Z.div_div by lia. repeat split; [by rewrite Hp|done|by rewrite <-app_assoc|].
        f_equal. rewrite Z.rem_mul_r by lia. lia.
Qed.

Lemma i32_of_u32 z : i32 z = i32 (u32 z).
Proof. by rewrite i32_u32. Qed.
Lemma set_cursor_to p x s : set_cursor (Z.of_nat (length (p ++ x))) (dec p (x ++ s)) = dec (p ++ x) s.
Proof. rewrite length_app, Nat2Z.inj_add. apply set_cursor_dec. Qed.

(** The fifth byte is shared by the halves. *)
Lemma shared_byte c w d v : 0 <= v < 2 ^ 64 -> w = v / 268435456 -> u32 c = v mod 268435456 -> Z.land d 127 = w mod 128 ->
  u32 (i32 (Z.lor c (shl (Z.land d 127) 28))) = v mod W32 /\ Z.shiftr (Z.land d 127) 4 = w mod 128 / 16.
Proof.
  intros Hv Hw Hc Hd. rewrite Hd. rewrite lor_digit, Hc by (lia || (rewrite ?Hc; pow_norm; euclid)).
  split; [|by rewrite Z.shiftr_div_pow2]. subst w. unfold W32. pow_norm. euclid.
Qed.
Lemma read_split {A} (a : Z -> Z -> A) p v s : 0 <= v < 2 ^ 64 ->
  readSplitVarint64 a (dec p (leb v ++ s)) = Ret (a (v mod W32) (v / W32), dec (p ++ leb v) s).
Proof.
  intros Hv. rewrite <-set_cursor_to. unfold readSplitVarint64. cbv zeta. unfold leb in *.
  set (d := dec p (leb128 10 v ++ s)). change (bytes_ d) with (p ++ leb128 10 v ++ s). change (cursor_ d) with (Z.of_nat (length p)).
  destruct (split_bytes_leb 4 10 0 0 v p s 0 (Some 128)) as (b1 & c1 & H); try done; [lia|change (128 ^ Z.of_nat 10) with (2 ^ 70); lia|].
  change (128 ^ Z.of_nat 4) with 268435456 in H. change (2 ^ (7 * 0 + 0)) with 1 in H. change (u32 0) with 0 in H.
  rewrite Z.add_0_l, !Z.mul_1_r in H.
  destruct H as [(Hw & _ & G1 & L1 & -> & E1)|(Hw & pre & Hp & El & G1 & -> & E1)].
  { rewrite !G1, L1. rewrite E1. unfold W32. rewrite Z.div_small by lia. done. }
  rewrite Z.add_0_l in E1. destruct Hw as [Hw|]; [|done]. rewrite G1.
  assert (Ec1 : u32 c1 = v mod 268435456) by (rewrite E1; unfold W32; euclid).
  rewrite El. subst d. set (d := dec _ _). change (10 - 4)%nat with 6%nat. set (w1 := v / 268435456) in *. assert (Hw1 : 1 <= w1 < 2 ^ 36) by (subst w1; pow_norm; euclid).
  rewrite <-(app_assoc pre), (app_assoc p pre). set (q := p ++ pre) in *. rewrite (leb128_step 5) by lia.
  destruct (Z.ltb_spec w1 128) as [Hlt|Hge].
  - change ([w1] ++ s) with (w1 :: s). rewrite at_end_of. cbn [band].
    destruct (shared_byte c1 w1 w1 v) as [Ec Ed]; [done|done|done|by rewrite land_127|].
    unfold ge_, lt_. rewrite (proj2 (Z.leb_gt 128 w1)), (proj2 (Z.ltb_lt w1 128)) by lia. rewrite Ec, Ed, <-len_snoc with (b := w1).
    unfold q. rewrite <-app_assoc. do 3 f_equal. subst w1. unfold W32, u32. pow_norm. euclid.
  - change ((w1 mod 128 + 128 :: leb128 5 (w1 / 128)) ++ s) with (w1 mod 128 + 128 :: leb128 5 (w1 / 128) ++ s). rewrite at_end_of. cbn [band].
    destruct (shared_byte c1 w1 (w1 mod 128 + 128) v) as [Ec Ed]; [done|done|done|by rewrite land_127, mod_high|].
    assert (G2 : ge_ (Some (w1 mod 128 + 128)) 128 = true) by (cbn; apply Z.leb_le; pose proof (Z.mod_pos_bound w1 128); lia).
    rewrite G2. set (x := w1 mod 128 + 128) in *. rewrite <-len_snoc with (b := x). change (x :: ?l) with ([x] ++ l). rewrite ?app_nil_r, (app_assoc q [x]).
    set (b2 := Z.shiftr (Z.land x 127) 4) in *.
    assert (Hb2 : u32 b2 = b2) by (apply u32_id; rewrite Ed; pow_norm; euclid).
    destruct (split_bytes_leb 5 5 0 3 (w1 / 128) (q ++ [x]) s b2 (Some x)) as (b3 & c3 & [(Hw2 & _ & G3 & L3 & -> & E3)|(Hw2 & _)]); try done; try lia.
    + change (128 ^ Z.of_nat 5) with (2 ^ 35). pow_norm. euclid.
    + rewrite Hb2, Ed. change (2 ^ (7 * 0 + 3)) with 8. euclid.
    + rewrite L3, Ec, E3, Hb2, Ed. unfold q. rewrite <-!app_assoc. do 3 f_equal. change (2 ^ (7 * 0 + 3)) with 8. subst w1. unfold W32. pow_norm. euclid.
    + change (128 ^ Z.of_nat 5) with (2 ^ 35) in Hw2. destruct Hw2 as [Hw2|]; [|done]. exfalso. revert Hw2 Hw1. pow_norm. intros. euclid.
Qed.

(** ** Signed numbers in ten bytes *)

Lemma marked_digit a : Z.lor (Z.land a 127) 128 = a mod 128 + 128.
Proof.
  rewrite land_127, Z.lor_comm. change 128 with (1 * 2 ^ 7) at 1. rewrite lor_add_disjoint; [lia|lia|]. apply Z.mod_pos_bound. lia.
Qed.
Lemma negative_leb n : forall a, - 2 ^ 31 <= a < 0 ->
  negative_varint n a = leb128 (S n) (a mod 128 ^ Z.of_nat n + 128 ^ Z.of_nat n).
Proof.
  induction n as [|n IH]; intros a Ha; [by rewrite Z.mod_1_r|].
  cbn [negative_varint]. rewrite marked_digit, Nat2Z.inj_succ, Z.pow_succ_r by lia.
  assert (Hp : 0 < 128 ^ Z.of_nat n) by (apply Z.pow_pos_nonneg; lia).
  rewrite leb128_step, Z.rem_mul_r by (pose proof (Z.mod_pos_bound a (128 * 128 ^ Z.of_nat n)); lia).
  pose proof (Z.mod_pos_bound a 128 ltac:(lia)) as B1. pose proof (Z.mod_pos_bound (a / 128) (128 ^ Z.of_nat n) Hp) as B2.
  rewrite (proj2 (Z.ltb_ge _ 128)) by nia.
  replace (a mod 128 + 128 * ((a / 128) mod 128 ^ Z.of_nat n) + 128 * 128 ^ Z.of_nat n)
    with (a mod 128 + ((a / 128) mod 128 ^ Z.of_nat n + 128 ^ Z.of_nat n) * 128) by lia.
  rewrite Z_mod_plus_full, Z.mod_mod, Z.div_add, (Z.div_small (a mod 128)), Z.add_0_l by lia. f_equal.
  unfold sar. rewrite i32_id, Z.shiftr_div_pow2 by lia. apply IH. pow_norm. euclid.
Qed.
Lemma negative_varint_leb a : - 2 ^ 31 <= a < 0 -> negative_varint 9 a = leb (a mod 2 ^ 64).
Proof.
  intros Ha. rewrite negative_leb by done. unfold leb. f_equal. change (128 ^ Z.of_nat 9) with (2 ^ 63). pow_norm. euclid.
Qed.

Lemma negative_step n a : - 2 ^ 31 <= a < 0 ->
  exists a', a' = a / 128 /\ - 2 ^ 31 <= a' < 0 /\ negative_varint (S n) a = a mod 128 + 128 :: negative_varint n a'.
Proof.
  intros Ha. exists (a / 128). split; [done|]. split; [pow_norm; euclid|]. cbn [negative_varint].
  rewrite marked_digit. unfold sar. by rewrite i32_id, Z.shiftr_div_pow2 by lia.
Qed.
Lemma read_negative p a s : - 2 ^ 31 <= a < 0 ->
  readUnsignedVarint32 (dec p (negative_varint 9 a ++ s)) = Ret (a, dec (p ++ negative_varint 9 a) s).
Proof.
  intros Ha. rewrite <-set_cursor_to.
  assert (El : length (negative_varint 9 a) = 10%nat) by done. rewrite length_app, El.
  destruct (negative_step 8 a Ha) as (a1 & E1 & H1 & ->), (negative_step 7 a1 H1) as (a2 & E2 & H2 & ->),
    (negative_step 6 a2 H2) as (a3 & E3 & H3 & ->), (negative_step 5 a3 H3) as (a4 & E4 & H4 & ->), (negative_step 4 a4 H4) as (a5 & _ & H5 & ->).
  destruct (negative_step 3 a5 H5) as (a6 & _ & H6 & ->), (negative_step 2 a6 H6) as (a7 & _ & H7 & ->),
    (negative_step 1 a7 H7) as (a8 & _ & H8 & ->), (negative_step 0 a8 H8) as (a9 & _ & _ & ->). cbn [negative_varint app].
  assert (Hd : forall x, lt_ (Some (x mod 128 + 128)) 128 = false) by (intros; apply Z.ltb_ge; pose proof (Z.mod_pos_bound x 128); lia).
  assert (Hg : forall x, ge_ (Some (x mod 128 + 128)) 128 = true) by (intros; apply Z.leb_le; pose proof (Z.mod_pos_bound x 128); lia).
  set (l := a mod 128 + 128 :: _). unfold readUnsignedVarint32. cbv zeta. rewrite !at_dec by lia.
  change (at_ l 0) with (Some (a mod 128 + 128)). change (at_ l 1) with (Some (a1 mod 128 + 128)). change (at_ l 2) with (Some (a2 mod 128 + 128)).
  change (at_ l 3) with (Some (a3 mod 128 + 128)). change (at_ l 4) with (Some (a4 mod 128 + 128)). rewrite !Hd. cbn [band]. masks.
  set (c := i32 _). assert (Ec : c = a).
  { subst c. rewrite (i32_of_u32 (Z.lor _ _)), <-u32_i32. lor_sum. rewrite u32_lor_shl by (pow_norm; euclid).
    transitivity (i32 (a mod 4294967296)); [f_equal; pow_norm; euclid|]. unfold i32. pow_norm. euclid. }
  rewrite Ec. clearbody c. clear Ec c.
  cbn [skip_high]. rewrite <-!Z.add_assoc, !at_dec by lia.
  change (at_ l 5) with (Some (a5 mod 128 + 128)). change (at_ l (5 + 1)) with (Some (a6 mod 128 + 128)).
  change (at_ l (5 + (1 + 1))) with (Some (a7 mod 128 + 128)). change (at_ l (5 + (1 + (1 + 1)))) with (Some (a8 mod 128 + 128)).
  change (at_ l (5 + (1 + (1 + (1 + 1))))) with (Some 1). rewrite !Hg. change (ge_ (Some 1) 128) with false. cbv iota.
  assert (Hl : Z.of_nat (length p) + 10 <= Z.of_nat (length (p ++ l))).
  { rewrite length_app. unfold l. cbn [length]. lia. }
  unfold advance, setCursor, modify_, get_, assert_, mbind, ST_bind, mret, ST_ret, set_cursor, dec. cbn [bytes_ start_ end_ cursor_ error_].
  change (5 + (1 + (1 + (1 + (1 + 1))))) with 10. rewrite Z.add_0_r, (proj2 (Z.leb_le _ _)) by done.
  do 4 f_equal. lia.
Qed.

(** ** Little-endian bytes *)

Lemma le_le_bytes k v : le (le_bytes k v) = v mod 256 ^ Z.of_nat k.
Proof.
  revert v. induction k as [|k IH]; intros v; cbn [le_bytes le]; [by rewrite Z.mod_1_r|].
  rewrite IH, Nat2Z.inj_succ, Z.pow_succ_r, Z.rem_mul_r by (try apply Z.pow_pos_nonneg; lia). lia.
Qed.
Lemma word_range x : - 2 ^ 31 <= x < 2 ^ 31 <-> Z.shiftr x 31 = 0 \/ Z.shiftr x 31 = -1.
Proof. rewrite Z.shiftr_div_pow2 by lia. pow_norm. split; intros; euclid. Qed.
Lemma lor_word x y : - 2 ^ 31 <= x < 2 ^ 31 -> - 2 ^ 31 <= y < 2 ^ 31 -> - 2 ^ 31 <= Z.lor x y < 2 ^ 31.
Proof.
  rewrite !word_range, Z.shiftr_lor. intros [-> | ->] [-> | ->]; rewrite ?Z.lor_0_l, ?Z.lor_0_r; auto.
Qed.
Lemma shl_word x n : - 2 ^ 31 <= shl x n < 2 ^ 31.
Proof. apply i32_bound. Qed.
Lemma word_bytes b0 b1 b2 b3 : is_byte b0 -> is_byte b1 -> is_byte b2 -> is_byte b3 ->
  let w := Z.lor (Z.lor (Z.lor (shl b0 0) (shl b1 8)) (shl b2 16)) (shl b3 24) in
  u32 w = le [b0; b1; b2; b3] /\ w = i32 (le [b0; b1; b2; b3]).
Proof.
  intros H0 H1 H2 H3 w.
  assert (E : u32 w = le [b0; b1; b2; b3]).
  { unfold w. rewrite !u32_lor, !u32_shl by lia. unfold is_byte in *. pow_norm. unfold W32.
    rewrite !(Z.mod_small _ 4294967296) by lia. cbn [le].
    change 256 with (2 ^ 8) at 1. change 65536 with (2 ^ 16). change 16777216 with (2 ^ 24).
    rewrite (Z.lor_comm (b0 * 1)), lor_add_disjoint by (pow_norm; lia).
    rewrite (Z.lor_comm (_ + _)), lor_add_disjoint by (pow_norm; lia).
    rewrite Z.lor_comm, lor_add_disjoint by (pow_norm; lia). pow_norm. lia. }
  split; [done|]. rewrite <-E, i32_u32. symmetry. apply i32_id. unfold w. auto using lor_word, shl_word.
Qed.

Lemma take_bytes_dec p x s : take_bytes (length x) (dec p (x ++ s)) = Ret (x, dec (p ++ x) s).
Proof.
  unfold take_bytes. cbv zeta. unfold mbind, ST_bind. rewrite advance_dec. unfold mret, ST_ret. do 2 f_equal.
  apply list_eq. intros i. rewrite list_lookup_fmap. destruct (Nat.lt_ge_cases i (length x)) as [Hi|Hi].
  - rewrite lookup_seq_lt by done. cbn [fmap option_fmap option_map]. rewrite at_dec by lia. unfold at_.
    rewrite (proj2 (Z.ltb_ge _ 0)), Nat2Z.id by lia. cbn [Nat.add]. rewrite lookup_app_l by done.
    destruct (lookup_lt_is_Some_2 x i Hi) as [y ->]. done.
  - rewrite lookup_seq_ge, (lookup_ge_None_2 x i) by done. done.
Qed.
Lemma byte_le_bytes v : le_bytes 4 v = [v mod 256; v / 256 mod 256; v / 256 / 256 mod 256; v / 256 / 256 / 256 mod 256].
Proof. done. Qed.
Lemma mod_byte v : is_byte (v mod 256).
Proof. apply Z.mod_pos_bound. lia. Qed.
Lemma read_uint32 p v s : 0 <= v < 2 ^ 32 ->
  decoder_readUint32 (dec p (le_bytes 4 v ++ s)) = Ret (v, dec (p ++ le_bytes 4 v) s).
Proof.
  intros Hv. unfold decoder_readUint32. cbv zeta. rewrite !at_dec by lia.
  change (at_ (le_bytes 4 v ++ s) 0) with (Some (v mod 256)). change (at_ (le_bytes 4 v ++ s) 1) with (Some (v / 256 mod 256)).
  change (at_ (le_bytes 4 v ++ s) 2) with (Some (v / 256 / 256 mod 256)). change (at_ (le_bytes 4 v ++ s) 3) with (Some (v / 256 / 256 / 256 mod 256)).
  unfold mbind, ST_bind. change 4 with (Z.of_nat (length (le_bytes 4 v))) at 1. rewrite advance_dec. unfold mret, ST_ret. do 2 f_equal.
  cbv iota. destruct (word_bytes _ _ _ _ (mod_byte v) (mod_byte (v / 256)) (mod_byte (v / 256 / 256)) (mod_byte (v / 256 / 256 / 256))) as [-> _].
  rewrite <-byte_le_bytes, le_le_bytes. by apply Z.mod_small.
Qed.
Lemma read_int32 p v s : - 2 ^ 31 <= v < 2 ^ 31 ->
  decoder_readInt32 (dec p (le_bytes 4 (v mod 2 ^ 32) ++ s)) = Ret (v, dec (p ++ le_bytes 4 (v mod 2 ^ 32)) s).
Proof.
  intros Hv. unfold decoder_readInt32. set (u := v mod 2 ^ 32). unfold mbind, ST_bind. change 4%nat with (length (le_bytes 4 u)) at 1.
  rewrite take_bytes_dec. unfold mret, ST_ret, byte. rewrite byte_le_bytes. cbn [nth]. do 2 f_equal.
  destruct (word_bytes _ _ _ _ (mod_byte u) (mod_byte (u / 256)) (mod_byte (u / 256 / 256)) (mod_byte (u / 256 / 256 / 256))) as [_ ->].
  rewrite <-byte_le_bytes, le_le_bytes. change (256 ^ Z.of_nat 4) with (2 ^ 32). fold (u32 u). rewrite i32_u32. unfold u. fold (u32 v).
  rewrite i32_u32. by apply i32_id.
Qed.

(** ** Codecs: an encoder's method and the decoder's that undoes it *)

(** [put] writes the number [v], handed over as [give v], as the bytes
    [code v]; [take] reads them as [got v]. *)
Class Codec {G T} (put : Put G) (take : D T) (give : Z -> G) (got : Z -> T) (code : Z -> list Z) (dom : Z -> bool) := {
  codec_put v e : dom v = true -> put (give v) e = Ret (e ++ code v);
  codec_take v p s : dom v = true -> take (dec p (code v ++ s)) = Ret (got v, dec (p ++ code v) s);
  codec_byte v : dom v = true -> Forall is_byte (code v);
  codec_length v : dom v = true -> (1 <= length (code v))%nat }.

(** The laws of a given codec. *)
Lemma put_of {G T} {put : Put G} {take : D T} {give got code dom} (C : Codec put take give got code dom) v e :
  dom v = true -> put (give v) e = Ret (e ++ code v).
Proof. apply codec_put. Qed.
Lemma take_of {G T} {put : Put G} {take : D T} {give got code dom} (C : Codec put take give got code dom) v p s :
  dom v = true -> take (dec p (code v ++ s)) = Ret (got v, dec (p ++ code v) s).
Proof. apply codec_take. Qed.

Section Fields.
Context {G T} {put : Put G} {take : D T} {give : Z -> G} {got : Z -> T} {code : Z -> list Z} {dom : Z -> bool}.
Context {C : Codec put take give got code dom}.

Lemma writes_put v : dom v = true -> writes (on_encoder (put (give v))) (code v).
Proof using C. intros Hv. apply writes_encoder. intros e. by apply codec_put. Qed.
Lemma writes_one t n v : 1 <= n < 2 ^ 29 -> 0 <= t < 8 -> dom v = true -> writes (tagged t put n (give v)) (tag n t ++ code v).
Proof using C. intros. apply writes_tagged; [done|done|]. by apply writes_put. Qed.
Lemma reads_one t v p s fc n : dom v = true ->
  reading_as t take (rdr p (code v ++ s) fc n t) = Ret (got v, rdr (p ++ code v) s fc n t).
Proof using C.
  intros Hv. unfold reading_as, mbind at 1, ST_bind at 1. rewrite expect_ok by done.
  by apply read_over, codec_take.
Qed.

Definition codes (vs : list Z) : list Z := concat (map code vs).
Lemma writes_each vs : forallb dom vs = true -> writes (put_each put (map give vs)) (codes vs).
Proof using C.
  unfold put_each, codes. induction vs as [|v vs IH]; cbn [forallb map foldr concat]; [intros; apply writes_ret|].
  intros [Hv Hvs]%andb_true_iff. apply writes_bind; [by apply writes_put|by apply IH].
Qed.
Lemma writes_delimited_all n vs : 1 <= n < 2 ^ 29 -> size_ok (codes vs) = true -> forallb dom vs = true ->
  writes (delimited_all put n (map give vs)) (delimited n (codes vs)).
Proof using C. intros Hn Hs%size_ok_iff Hv. by apply writes_delimited; [| |apply writes_each]. Qed.
Lemma writes_packed n vs : 1 <= n < 2 ^ 29 -> size_ok (codes vs) = true -> forallb dom vs = true -> vs <> [] ->
  writes (packed put n (Some (map give vs))) (delimited n (codes vs)).
Proof using C.
  intros Hn Hs Hv Hne. pose proof (writes_delimited_all n vs Hn Hs Hv). destruct vs; [done|]. done.
Qed.
Lemma codes_length k vs : (forall v, length (code v) = k) -> length (codes vs) = (k * length vs)%nat.
Proof using. intros Hk. unfold codes. induction vs as [|v vs IH]; cbn; [lia|]. rewrite length_app, Hk, IH. lia. Qed.
Lemma writes_packed_sized k n vs : (forall v, length (code v) = k) ->
  1 <= n < 2 ^ 29 -> size_ok (codes vs) = true -> forallb dom vs = true -> vs <> [] ->
  writes (packed_sized (Z.of_nat k) put n (Some (map give vs))) (delimited n (codes vs)).
Proof using C.
  intros Hk Hn Hs%size_ok_iff Hv Hne. pose proof (writes_each vs Hv) as Hw. pose proof (codes_length k vs Hk) as Hl.
  destruct vs as [|v vs]; [done|]. unfold packed_sized, non_empty. cbn [map] in *. unfold delimited.
  apply writes_bind; [by apply writes_header|]. apply writes_bind; [|done]. cbn [length]. rewrite length_map, <-Nat2Z.inj_mul.
  rewrite Hl in *. cbn [length] in *. apply writes_varint. lia.
Qed.

Lemma packed_loop_reads vs : forallb dom vs = true -> forall fuel p s, (length (codes vs) <= fuel)%nat ->
  packed_loop fuel take (Z.of_nat (length (p ++ codes vs))) (dec p (codes vs ++ s)) = Ret (map got vs, dec (p ++ codes vs) s).
Proof using C.
  induction vs as [|v vs IH]; intros Hd fuel p s Hf.
  - unfold codes. cbn [map concat]. rewrite app_nil_r. destruct fuel; cbn [packed_loop]; cbn [dec cursor_]; by rewrite Z.ltb_irrefl.
  - cbn [forallb] in Hd. apply andb_true_iff in Hd as [Hv Hvs]. change (codes (v :: vs)) with (code v ++ codes vs) in *.
    pose proof (codec_length v Hv). rewrite length_app in Hf. destruct fuel as [|fuel]; [lia|]. cbn [packed_loop].
    change (cursor_ (dec p ((code v ++ codes vs) ++ s))) with (Z.of_nat (length p)).
    rewrite (proj2 (Z.ltb_lt _ _)) by (rewrite !length_app; lia). rewrite <-app_assoc. unfold mbind at 1, ST_bind at 1.
    rewrite codec_take by done. rewrite app_assoc. unfold mbind, ST_bind. rewrite IH by (done || lia). done.
Qed.
Lemma reads_packed vs p s fc n : forallb dom vs = true -> size_ok (codes vs) = true ->
  let b := leb (Z.of_nat (length (codes vs))) ++ codes vs in
  readPackedField_ take (rdr p (b ++ s) fc n DELIMITED) = Ret (map got vs, rdr (p ++ b) s fc n DELIMITED).
Proof using C.
  intros Hv Hs%size_ok_iff b. unfold readPackedField_, mbind at 1, ST_bind at 1. rewrite expect_ok by done.
  apply on_decoder_rdr. subst b. rewrite <-app_assoc. unfold mbind, ST_bind. rewrite <-varint_leb, read_varint by lia.
  unfold get_. change (cursor_ (dec (p ++ varint (Z.of_nat (length (codes vs)))) (codes vs ++ s))) with
    (Z.of_nat (length (p ++ varint (Z.of_nat (length (codes vs)))))).
  rewrite <-Nat2Z.inj_add, <-length_app, packed_loop_reads by (done || lia). by rewrite <-app_assoc.
Qed.
End Fields.

(** ** The encodings of a number *)

(** Two's complement, or its zigzag code, in base 128; four or eight bytes. *)
Definition tc (v : Z) : list Z := leb (v mod 2 ^ 64).
Definition zz (v : Z) : list Z := tc (zigzag v).
Definition f4 (v : Z) : list Z := le_bytes 4 (v mod 2 ^ 32).
Definition f8 (v : Z) : list Z := le_bytes 8 (v mod 2 ^ 64).
Definition safe (v : Z) : bool := Z.abs v <? 2 ^ 53.

Lemma mod64 v : 0 <= v mod 2 ^ 64 < 2 ^ 64. Proof. by apply Z.mod_pos_bound. Qed.
Lemma of_int_halves v : lo (of_int v) = v mod 2 ^ 64 mod W32 /\ hi (of_int v) = v mod 2 ^ 64 / W32 /\
  0 <= lo (of_int v) < W32 /\ 0 <= hi (of_int v) < W32 /\ v mod 2 ^ 64 = lo (of_int v) + hi (of_int v) * 2 ^ 32.
Proof. unfold of_int, W32. cbn [lo hi]. pow_norm. repeat split; euclid. Qed.
Lemma put_tc v e : encoder_writeSplitVarint64 (lo (of_int v)) (hi (of_int v)) e = Ret (e ++ tc v).
Proof.
  destruct (of_int_halves v) as (_ & _ & Hl & Hh & E). unfold encoder_writeSplitVarint64.
  rewrite !in_u32_true, split_digit by done. by rewrite <-E.
Qed.
Lemma le_bytes_halves v : le_bytes 8 (v mod 2 ^ 64) = le_bytes 4 (lo (of_int v)) ++ le_bytes 4 (hi (of_int v)).
Proof.
  change 8%nat with (4 + 4)%nat. rewrite le_bytes_split by apply mod64. destruct (of_int_halves v) as (-> & -> & _).
  change W32 with (256 ^ Z.of_nat 4). by rewrite le_bytes_mod by apply mod64.
Qed.
Lemma put_two v e : (e ← encoder_writeUint32 (lo (of_int v)) e; encoder_writeUint32 (hi (of_int v)) e) = Ret (e ++ f8 v).
Proof.
  destruct (of_int_halves v) as (_ & _ & Hl & Hh & _). unfold encoder_writeUint32, f8.
  rewrite !in_u32_true by done. cbn [mbind outcome_bind]. rewrite !le_byte_bytes by done. by rewrite <-app_assoc, le_bytes_halves.
Qed.
Lemma put_f8 v e : encoder_writeSplitFixed64 (lo (of_int v)) (hi (of_int v)) e = Ret (e ++ f8 v).
Proof.
  destruct (of_int_halves v) as (_ & _ & Hl & Hh & _). unfold encoder_writeSplitFixed64. rewrite !in_u32_true by done. apply put_two.
Qed.
Lemma take_tc {A} (a : Z -> Z -> A) p v s :
  readSplitVarint64 a (dec p (tc v ++ s)) = Ret (a (lo (of_int v)) (hi (of_int v)), dec (p ++ tc v) s).
Proof. unfold tc. rewrite read_split by apply mod64. by destruct (of_int_halves v) as (-> & -> & _). Qed.
Lemma take_f8 {A} (f : Z -> Z -> A) p v s :
  (a ← decoder_readUint32; b ← decoder_readUint32; mret (f a b)) (dec p (f8 v ++ s)) =
    Ret (f (lo (of_int v)) (hi (of_int v)), dec (p ++ f8 v) s).
Proof.
  destruct (of_int_halves v) as (_ & _ & Hl & Hh & _). unfold f8. rewrite le_bytes_halves, <-app_assoc. unfold mbind, ST_bind.
  rewrite !read_uint32 by done. by rewrite <-app_assoc.
Qed.
Lemma tc_byte v : Forall is_byte (tc v). Proof. apply leb_byte, mod64. Qed.
Lemma tc_length v : (1 <= length (tc v))%nat. Proof. apply leb_length, mod64. Qed.
Lemma f4_byte v : Forall is_byte (f4 v). Proof. apply le_bytes_byte. Qed.
Lemma f8_byte v : Forall is_byte (f8 v). Proof. apply le_bytes_byte. Qed.
Lemma f4_length v : length (f4 v) = 4%nat. Proof. apply le_bytes_length. Qed.
Lemma f8_length v : length (f8 v) = 8%nat. Proof. apply le_bytes_length. Qed.
Lemma f4_length' v : (1 <= length (f4 v))%nat. Proof. rewrite f4_length. lia. Qed.
Lemma f8_length' v : (1 <= length (f8 v))%nat. Proof. rewrite f8_length. lia. Qed.
#[export] Hint Resolve tc_byte tc_length f4_byte f8_byte f4_length' f8_length' : codec.

Lemma tc_small v : 0 <= v < 2 ^ 64 -> tc v = leb v.
Proof. intros. unfold tc. by rewrite Z.mod_small. Qed.
Lemma f4_small v : 0 <= v < 2 ^ 32 -> f4 v = le_bytes 4 v.
Proof. intros. unfold f4. by rewrite Z.mod_small. Qed.

Lemma in_i32_iff a : in_i32 a = true <-> - 2 ^ 31 <= a < 2 ^ 31.
Proof. unfold in_i32. rewrite andb_true_iff, Z.leb_le, Z.ltb_lt. done. Qed.
Lemma in_i64_iff a : in_i64 a = true <-> - (W32 * W32 / 2) <= a < W32 * W32 / 2.
Proof. unfold in_i64. rewrite andb_true_iff, Z.leb_le, Z.ltb_lt. done. Qed.
Lemma in_u64_iff a : in_u64 a = true <-> 0 <= a < W32 * W32.
Proof. unfold in_u64. rewrite andb_true_iff, Z.leb_le, Z.ltb_lt. done. Qed.
Lemma safe_iff a : safe a = true <-> Z.abs a < 2 ^ 53.
Proof. apply Z.ltb_lt. Qed.
Definition safe_nat (v : Z) : bool := (0 <=? v) && safe v.
Lemma safe_nat_iff a : safe_nat a = true <-> 0 <= a < 2 ^ 53.
Proof. unfold safe_nat. rewrite andb_true_iff, Z.leb_le, safe_iff. lia. Qed.
Lemma safe_i64 a : safe a = true -> in_i64 a = true.
Proof. rewrite safe_iff, in_i64_iff. unfold W32. change (4294967296 * 4294967296 / 2) with 9223372036854775808. lia. Qed.
Lemma safe_u64 a : safe_nat a = true -> in_u64 a = true.
Proof. rewrite safe_nat_iff, in_u64_iff. unfold W32. lia. Qed.

Lemma joinUint64_split v : 0 <= v < 2 ^ 53 -> joinUint64 (lo (of_int v)) (hi (of_int v)) = v.
Proof.
  intros Hv. destruct (of_int_halves v) as (_ & _ & Hl & Hh & E). rewrite joinUint64_value, u32_id by done.
  rewrite Z.mod_small in E by (pow_norm; lia). rewrite dbl_id; unfold W32; pow_norm; lia.
Qed.
Lemma signed_of v : in_i64 v = true -> signed64 (int_of (of_int v)) = v.
Proof.
  intros Hv%in_i64_iff. rewrite int_of_of. rewrite <-(signed_id v) at 2 by done. unfold signed64. by rewrite Z.mod_mod.
Qed.
Lemma unsigned_of v : in_u64 v = true -> int_of (of_int v) = v.
Proof. intros Hv%in_u64_iff. by apply value_small. Qed.

(** Numerals are read by [parseInt]. *)
Lemma dec_digits_value_spec s : forallb is_digit s = true -> forall a,
  dec_digits_value s (Some a) = Some (a * 10 ^ Z.of_nat (length s) + dec_val s).
Proof.
  induction s as [|c s IH]; intros Hd a; cbn [dec_digits_value]; [f_equal; cbn; lia|].
  cbn [forallb] in Hd. apply andb_true_iff in Hd as [Hc Hd]. unfold is_digit in Hc. rewrite Hc. cbn [default].
  rewrite IH by done. f_equal. change (c :: s) with ([c] ++ s). rewrite dec_val_app, length_app, Nat2Z.inj_add, Z.pow_add_r by lia.
  change (dec_val [c]) with (0 * 10 + (c - 48)). cbn [length]. change (10 ^ Z.of_nat 1) with 10. unfold id. lia.
Qed.
Lemma parse_digits s : forallb is_digit s = true -> s <> [] -> dec_digits_value s None = Some (dec_val s).
Proof.
  intros Hd Hne. destruct s as [|c s]; [done|].
  pose proof (dec_digits_value_spec (c :: s) Hd 0) as E. rewrite Z.mul_0_l, Z.add_0_l in E. rewrite <-E.
  cbn [forallb] in Hd. apply andb_true_iff in Hd as [Hc _]. unfold is_digit in Hc. cbn [dec_digits_value]. by rewrite Hc.
Qed.
Lemma digit_match {A} (s : jsstr) (a b : jsstr -> A) (c : A) : forallb is_digit s = true ->
  match s with 45 :: s => a s | 43 :: s => b s | _ => c end = c.
Proof.
  destruct s as [|d s]; [done|]. intros Hd. cbn in Hd. apply andb_true_iff in Hd as [Hd _]. unfold is_digit in Hd.
  destruct d as [|d|d]; try done. do 6 (destruct d as [d|d|]; try done).
Qed.
Lemma trim_digits s : forallb is_digit s = true -> trim_start s = s.
Proof.
  destruct s as [|d s]; [done|]. intros Hd. cbn in Hd. apply andb_true_iff in Hd as [Hd _]. unfold is_digit in Hd.
  cbn [trim_start]. unfold is_space. rewrite bool_decide_false; [|set_unfold; lia]. by rewrite (proj2 (Z.leb_gt _ _)) by lia.
Qed.
Lemma num_to_str_nonempty n : 0 <= n -> num_to_str n <> [].
Proof. intros Hn. destruct (num_to_str_head n Hn) as (c & s & -> & _). done. Qed.
Lemma parseInt10_numeral n : Z.abs n < 2 ^ 53 -> parseInt10 (num_to_str n) = Some n.
Proof.
  intros Hn. unfold parseInt10. destruct (Z.lt_ge_cases n 0) as [Hneg|Hpos].
  - rewrite num_to_str_neg by done. cbn [trim_start]. change (is_space 45) with false. cbv iota beta.
    rewrite parse_digits, num_to_str_val by (apply num_to_str_digits || apply num_to_str_nonempty || idtac; lia).
    cbn. f_equal. rewrite dbl_id; lia.
  - rewrite trim_digits, (digit_match _ (fun s => (-1, s)) (fun s => (1, s))), parse_digits, num_to_str_val
      by (apply num_to_str_digits || apply num_to_str_nonempty || idtac; lia).
    cbn [option_map]. f_equal. rewrite dbl_id; lia.
Qed.

(** ** The codecs of the library *)

Ltac codec := split; [..|by auto with codec|by auto with codec].

#[export] Instance uint32_codec : Codec writeUnsignedVarint32 readUnsignedVarint32 id id tc in_u32.
Proof.
  codec; intros v; intros; assert (0 <= v < 2 ^ 32) by (by apply in_u32_iff); rewrite tc_small, <-varint_leb by lia.
  - unfold writeUnsignedVarint32, id. fold (in_u32 v). by rewrite in_u32_true.
  - by apply read_varint.
Qed.
#[export] Instance uint32_text_codec : Codec (put_parsed writeUnsignedVarint32) readUnsignedVarint32String num_to_str num_to_str tc in_u32.
Proof.
  codec; intros v; intros; assert (0 <= v < 2 ^ 32) by (by apply in_u32_iff).
  - unfold put_parsed. rewrite parseInt10_numeral by lia. by apply (put_of uint32_codec v).
  - unfold readUnsignedVarint32String, mbind, ST_bind. by rewrite (take_of uint32_codec v).
Qed.
#[export] Instance int32_codec : Codec encoder_writeSignedVarint32 readSignedVarint32 id id tc in_i32.
Proof.
  codec; intros v; intros; assert (- 2 ^ 31 <= v < 2 ^ 31) by (by apply in_i32_iff).
  - unfold encoder_writeSignedVarint32, id. rewrite (proj2 (in_i32_iff v)) by done. cbn [asserted].
    destruct (Z.leb_spec 0 v); [apply (put_of uint32_codec v), in_u32_true; lia|]. by rewrite negative_varint_leb by lia.
  - unfold readSignedVarint32. destruct (Z.lt_ge_cases v 0); [|apply (take_of uint32_codec v), in_u32_true; lia].
    unfold tc. rewrite <-negative_varint_leb by lia. by apply read_negative; lia.
Qed.
#[export] Instance int32_text_codec : Codec (put_parsed encoder_writeSignedVarint32) readSignedVarint32String num_to_str num_to_str tc in_i32.
Proof.
  codec; intros v; intros; assert (- 2 ^ 31 <= v < 2 ^ 31) by (by apply in_i32_iff).
  - unfold put_parsed. rewrite parseInt10_numeral by lia. by apply (put_of int32_codec v).
  - unfold readSignedVarint32String, mbind, ST_bind. by rewrite (take_of int32_codec v).
Qed.
#[export] Instance enum_codec : Codec encoder_writeEnum decoder_readEnum id id tc in_i32.
Proof.
  codec; intros v; intros.
  - unfold encoder_writeEnum, id. match goal with H : in_i32 v = true |- _ => rewrite H end. by apply (put_of int32_codec v).
  - by apply (take_of int32_codec v).
Qed.

(** 64 bits in base 128, as a number, a numeral or a hash. *)
#[export] Instance uint64_codec : Codec encoder_writeUnsignedVarint64 readUnsignedVarint64 id id tc safe_nat.
Proof.
  codec; intros v; intros; match goal with H : safe_nat v = true |- _ => rename H into Hv end.
  - unfold encoder_writeUnsignedVarint64, id. rewrite (safe_u64 v Hv), splitInt64_halves. apply put_tc.
  - unfold readUnsignedVarint64. by rewrite take_tc, joinUint64_split by (by apply safe_nat_iff).
Qed.
#[export] Instance int64_codec : Codec encoder_writeSignedVarint64 readSignedVarint64 id id tc safe.
Proof.
  codec; intros v; intros; match goal with H : safe v = true |- _ => rename H into Hv end.
  - unfold encoder_writeSignedVarint64, id. rewrite (safe_i64 v Hv), splitInt64_halves. apply put_tc.
  - unfold readSignedVarint64. by rewrite take_tc, joinInt64_split by (by apply safe_iff).
Qed.
(** What the reader of an enumeration's single field uses. *)
Lemma enum_wide_codec : Codec encoder_writeSignedVarint32 readSignedVarint64 id id tc in_i32.
Proof.
  codec; intros v; intros; [by apply (put_of int32_codec v)|]. apply (take_of int64_codec v). apply safe_iff.
  match goal with H : in_i32 v = true |- _ => apply in_i32_iff in H end. lia.
Qed.
#[export] Instance uint64_text_codec :
  Codec (put_split encoder_writeSplitVarint64 UInt64_fromString) readUnsignedVarint64String num_to_str num_to_str tc in_u64.
Proof.
  codec; intros v; intros; match goal with H : in_u64 v = true |- _ => rename H into Hv end.
  - unfold put_split. rewrite fromString_unsigned by (apply in_u64_iff in Hv; lia). apply put_tc.
  - unfold readUnsignedVarint64String. rewrite take_tc, joinUnsigned_numeral by apply of_value_ok.
    change (_ + _ * _) with (int_of (of_int v)). by rewrite unsigned_of.
Qed.
#[export] Instance int64_text_codec :
  Codec (put_split encoder_writeSplitVarint64 Int64_fromString) readSignedVarint64String num_to_str num_to_str tc in_i64.
Proof.
  codec; intros v; intros; match goal with H : in_i64 v = true |- _ => rename H into Hv end.
  - unfold put_split. rewrite fromString_signed. apply put_tc.
  - unfold readSignedVarint64String. rewrite take_tc, joinSigned_numeral by apply of_value_ok. by rewrite signed_of.
Qed.
Lemma splitHash64_of v : splitHash64 (hash_of v) = (lo (of_int v), hi (of_int v)).
Proof. by destruct (joinHash64_of v) as [-> _]. Qed.
#[export] Instance varint_hash_codec : Codec encoder_writeVarintHash64 decoder_readVarintHash64 hash_of hash_of tc in_u64.
Proof.
  codec; intros v; intros.
  - unfold encoder_writeVarintHash64. rewrite splitHash64_of. apply put_tc.
  - unfold decoder_readVarintHash64. by rewrite take_tc.
Qed.

(** ** Zigzag codes *)

Lemma zz_byte v : Forall is_byte (zz v). Proof. apply tc_byte. Qed.
Lemma zz_length v : (1 <= length (zz v))%nat. Proof. apply tc_length. Qed.
#[export] Hint Resolve zz_byte zz_length : codec.

Lemma toZigzag64_words {A} a b (k : Z -> Z -> A) :
  toZigzag64 a b (fun x y => k (u32 x) (u32 y)) = let x := toZigzag64 a b words in k (lo x) (hi x).
Proof. done. Qed.
Lemma zigzag_halves v : in_i64 v = true -> toZigzag64 (lo (of_int v)) (hi (of_int v)) words = of_int (zigzag v).
Proof. intros Hv. rewrite toZigzag64_value by apply of_value_ok. by rewrite signed_of. Qed.
Lemma unzigzag_halves v : in_i64 v = true ->
  fromZigzag64 (lo (of_int (zigzag v))) (hi (of_int (zigzag v))) words = of_int v.
Proof.
  intros Hv%in_i64_iff. rewrite fromZigzag64_value by apply of_value_ok. rewrite value_small by (by apply zigzag_bound).
  by rewrite unzigzag_zigzag.
Qed.
#[export] Instance sint32_codec : Codec encoder_writeZigzagVarint32 readZigzagVarint32 id id zz in_i32.
Proof.
  codec; intros v; intros; match goal with H : in_i32 v = true |- _ => rename H into Hv end; assert (Hb : - 2 ^ 31 <= v < 2 ^ 31) by (by apply in_i32_iff).
  all: assert (Hz : 0 <= zigzag v < 2 ^ 32) by (unfold zigzag; destruct (Z.ltb_spec v 0); lia).
  - unfold encoder_writeZigzagVarint32, id. rewrite Hv. cbn [asserted].
    assert (E : u32 (Z.lxor (shl v 1) (sar v 31)) = zigzag v).
    { rewrite u32_lxor, u32_shl by lia. unfold sar. rewrite i32_id, Z.shiftr_div_pow2 by lia. unfold zigzag, W32. pow_norm.
      destruct (Z.ltb_spec v 0).
      - replace (v / 2147483648) with (-1) by euclid. change (u32 (-1)) with (Z.ones 32).
        rewrite <-(Z.mod_small (v * 2 mod 4294967296) (2 ^ 32)) by (pow_norm; euclid). rewrite <-Z.land_ones by lia.
        replace (Z.lxor (Z.land (v * 2 mod 4294967296) (Z.ones 32)) (Z.ones 32)) with (Z.land (Z.lnot (v * 2 mod 4294967296)) (Z.ones 32)).
        + rewrite Z.land_ones by lia. unfold Z.lnot. pow_norm. euclid.
        + apply Z.bits_inj'. intros k Hk. rewrite Z.lxor_spec, !Z.land_spec, Z.lnot_spec by done.
          destruct (Z.testbit (Z.ones 32) k), (Z.testbit (v * 2 mod 4294967296) k); done.
      - replace (v / 2147483648) with 0 by euclid. change (u32 0) with 0. rewrite Z.lxor_0_r. euclid. }
    rewrite E. unfold zz. by apply (put_of uint32_codec (zigzag v)), in_u32_true.
  - unfold readZigzagVarint32, mbind, ST_bind, zz. rewrite (take_of uint32_codec (zigzag v)) by (by apply in_u32_true).
    unfold mret, ST_ret, id. do 2 f_equal. rewrite shr_div, (Z.mod_small _ W32), land_1, i32_id by (done || (pow_norm; euclid)).
    rewrite <-(unzigzag_zigzag v) at 3. unfold unzigzag. rewrite Zeven_mod. pow_norm. destruct (Z.eqb_spec (zigzag v mod 2) 0) as [->|].
    + change (- 0) with 0. by rewrite Z.lxor_0_r.
    + replace (- (zigzag v mod 2)) with (-1) by euclid. rewrite Z.lxor_m1_r. unfold Z.lnot. lia.
Qed.
#[export] Instance sint64_codec : Codec encoder_writeZigzagVarint64 readZigzagVarint64 id id zz safe.
Proof.
  codec; intros v; intros; match goal with H : safe v = true |- _ => rename H into Hv end.
  - unfold encoder_writeZigzagVarint64, id. rewrite (safe_i64 v Hv), splitZigzag64_halves. apply put_tc.
  - unfold readZigzagVarint64, zz. by rewrite take_tc, (joinZigzag64_split v) by (by apply safe_iff).
Qed.
Lemma put_zigzag_hash v e : in_i64 v = true -> encoder_writeZigzagVarintHash64 (hash_of v) e = Ret (e ++ zz v).
Proof.
  intros Hv. unfold encoder_writeZigzagVarintHash64. rewrite splitHash64_of.
  rewrite (toZigzag64_words _ _ (fun a d => encoder_writeSplitVarint64 a d e)), zigzag_halves by done. apply put_tc.
Qed.
Lemma joinHash64_words l h : joinHash64 l h = let x := words l h in joinHash64 (lo x) (hi x).
Proof. unfold joinHash64, words. cbn [lo hi]. unfold shr. by rewrite !(u32_id (u32 _)) by apply u32_bound. Qed.
#[export] Instance sint_hash_codec : Codec encoder_writeZigzagVarintHash64 readZigzagVarintHash64 hash_of hash_of zz in_i64.
Proof.
  codec; intros v; intros; [by apply put_zigzag_hash|].
  unfold readZigzagVarintHash64, decoder_readSplitZigzagVarint64, zz. rewrite take_tc. do 2 f_equal.
  destruct (fromZigzag64_pair _ (lo (of_int (zigzag v))) (hi (of_int (zigzag v))) joinHash64) as (l & h & -> & E & _).
  by rewrite joinHash64_words, <-E, unzigzag_halves.
Qed.

(** The signed numeral of zigzag halves. The halves arrive as signed words; of
    a number that is not negative the low one is printed as it is, so it must
    not have its top bit set. *)
Definition low_positive (v : Z) : bool := in_i64 v && ((v <? 0) || (v mod 4294967296 <? 2147483648)).
Lemma low_positive_iff v : low_positive v = true <-> in_i64 v = true /\ (v < 0 \/ v mod W32 < 2 ^ 31).
Proof. unfold low_positive. rewrite andb_true_iff, orb_true_iff, !Z.ltb_lt. done. Qed.
(** Words with the sign the low half has, or any when the number is negative. *)
Lemma joinSigned_words l h v : in_i64 v = true -> words l h = of_int v -> - 2 ^ 31 <= l < 2 ^ 31 -> - 2 ^ 31 <= h < 2 ^ 31 ->
  v < 0 \/ v mod W32 < 2 ^ 31 -> joinSignedDecimalString l h = num_to_str v.
Proof.
  intros Hv E Bl Bh Hs.
  assert (Es : signed64 (int_of (words l h)) = v) by (rewrite E; by apply signed_of).
  rewrite <-Es at 1. rewrite <-(joinSigned_numeral (words l h)) by (rewrite E; apply of_value_ok).
  destruct (Z.lt_ge_cases v 0) as [Hneg|Hpos].
  - unfold joinSignedDecimalString, words. cbn [lo hi].
    assert (Ht : Z.land (u32 h) 2147483648 = Z.land h 2147483648) by (rewrite u32_land, <-Z.land_assoc; done).
    rewrite Ht. assert (Hn : negb (Z.land h 2147483648 =? 0) = true).
    { rewrite <-Ht. pose proof (negative_value (words l h)) as En. rewrite E in En at 1. specialize (En (of_value_ok v)).
      cbn [words hi] in En. rewrite En, Es. by apply Z.ltb_lt. }
    rewrite Hn, !bnot_u32. done.
  - f_equal; cbn [words lo hi]; symmetry.
    + apply (f_equal lo) in E. cbn [words lo of_int] in E. destruct Hs as [|Hs]; [lia|].
      rewrite <-E in Hs. unfold u32 in *. pow_norm. euclid.
    + apply (f_equal hi) in E. cbn [words hi of_int] in E. apply in_i64_iff in Hv. unfold u32, W32 in *. pow_norm. euclid.
Qed.
Lemma fromZigzag64_words A (c : Z -> Z -> A) v : in_i64 v = true -> exists l h,
  fromZigzag64 (lo (of_int (zigzag v))) (hi (of_int (zigzag v))) c = c l h /\ words l h = of_int v /\
  - 2 ^ 31 <= l < 2 ^ 31 /\ - 2 ^ 31 <= h < 2 ^ 31.
Proof.
  intros Hv. pose proof (unzigzag_halves v Hv) as E. revert E. unfold fromZigzag64, words.
  set (x := of_int (zigzag v)). assert (Ox : ok x) by apply of_value_ok. rewrite land_1. intros E.
  eexists _, _. split; [reflexivity|]. split; [exact E|].
  assert (Hx : forall w m, - 2 ^ 31 <= w < 2 ^ 31 -> - 2 ^ 31 <= Z.lxor w (- (m mod 2)) < 2 ^ 31).
  { intros w m Hw. destruct (Z.eqb_spec (m mod 2) 0) as [->|]; [change (- 0) with 0; by rewrite Z.lxor_0_r|].
    replace (- (m mod 2)) with (-1) by euclid. rewrite Z.lxor_m1_r. unfold Z.lnot. lia. }
  split; apply Hx; [apply i32_bound|]. destruct Ox as [_ Hh]. rewrite shr_div, Z.mod_small by (done || lia). unfold W32 in *. pow_norm. euclid.
Qed.
#[export] Instance sint64_text_codec : Codec encoder_writeZigzagVarint64String readZigzagVarint64String num_to_str num_to_str zz low_positive.
Proof.
  codec; intros v; intros; match goal with H : low_positive v = true |- _ => apply low_positive_iff in H as [Hv Hs] end.
  - unfold encoder_writeZigzagVarint64String. rewrite decimal_hash. cbn [mbind outcome_bind]. by apply put_zigzag_hash.
  - unfold readZigzagVarint64String, decoder_readSplitZigzagVarint64, zz. rewrite take_tc. do 2 f_equal.
    destruct (fromZigzag64_words _ joinSignedDecimalString v Hv) as (l & h & -> & E & Bl & Bh). by apply joinSigned_words.
Qed.

(** ** Fixed widths *)

#[export] Instance fixed32_codec : Codec encoder_writeUint32 decoder_readUint32 id id f4 in_u32.
Proof.
  codec; intros v; intros; assert (0 <= v < 2 ^ 32) by (by apply in_u32_iff); rewrite f4_small by lia.
  - unfold encoder_writeUint32, id. by rewrite in_u32_true, le_byte_bytes.
  - by apply read_uint32.
Qed.
#[export] Instance sfixed32_codec : Codec encoder_writeInt32 decoder_readInt32 id id f4 in_i32.
Proof.
  codec; intros v; intros; match goal with H : in_i32 v = true |- _ => rename H into Hv end.
  - unfold encoder_writeInt32, id. rewrite Hv. cbn [asserted]. unfold f4. fold (u32 v). rewrite <-le_byte_bytes by apply u32_bound.
    unfold shr. by rewrite !(u32_id (u32 v)) by apply u32_bound.
  - apply read_int32. by apply in_i32_iff.
Qed.
#[export] Instance fixed64_codec : Codec encoder_writeUint64 decoder_readUint64 id id f8 safe_nat.
Proof.
  codec; intros v; intros; match goal with H : safe_nat v = true |- _ => rename H into Hv end.
  - unfold encoder_writeUint64, id. rewrite (safe_u64 v Hv), splitUint64_halves. apply put_two.
  - unfold decoder_readUint64. by rewrite take_f8, joinUint64_split by (by apply safe_nat_iff).
Qed.
#[export] Instance sfixed64_codec : Codec encoder_writeInt64 decoder_readInt64 id id f8 safe.
Proof.
  codec; intros v; intros; match goal with H : safe v = true |- _ => rename H into Hv end.
  - unfold encoder_writeInt64, id. rewrite (safe_i64 v Hv), splitInt64_halves. apply put_f8.
  - unfold decoder_readInt64. by rewrite take_f8, joinInt64_split by (by apply safe_iff).
Qed.
#[export] Instance fixed64_text_codec :
  Codec (put_split encoder_writeSplitFixed64 UInt64_fromString) decoder_readUint64String num_to_str num_to_str f8 in_u64.
Proof.
  codec; intros v; intros; match goal with H : in_u64 v = true |- _ => rename H into Hv end.
  - unfold put_split. rewrite fromString_unsigned by (apply in_u64_iff in Hv; lia). apply put_f8.
  - unfold decoder_readUint64String. rewrite take_f8, joinUnsigned_numeral by apply of_value_ok.
    change (_ + _ * _) with (int_of (of_int v)). by rewrite unsigned_of.
Qed.
#[export] Instance sfixed64_text_codec :
  Codec (put_split encoder_writeSplitFixed64 Int64_fromString) decoder_readInt64String num_to_str num_to_str f8 in_i64.
Proof.
  codec; intros v; intros; match goal with H : in_i64 v = true |- _ => rename H into Hv end.
  - unfold put_split. rewrite fromString_signed. apply put_f8.
  - unfold decoder_readInt64String. rewrite take_f8, joinSigned_numeral by apply of_value_ok. by rewrite signed_of.
Qed.
Lemma hash_bytes v : hash_of v = f8 v.
Proof.
  destruct (joinHash64_of v) as [_ Hb]. apply le_8_inj; [done|apply f8_byte|by rewrite f8_length|].
  unfold f8. rewrite le_le_bytes. change (256 ^ Z.of_nat 8) with (2 ^ 64). rewrite Z.mod_mod by done.
  destruct (joinHash64_le (lo (of_int v)) (hi (of_int v))) as [E _]; try apply of_value_ok. rewrite hash_of_halves, E.
  destruct (of_int_halves v) as (_ & _ & _ & _ & ->). unfold W32. pow_norm. lia.
Qed.
#[export] Instance fixed_hash_codec : Codec encoder_writeFixedHash64 decoder_readFixedHash64 hash_of hash_of f8 in_u64.
Proof.
  codec; intros v; intros.
  - unfold encoder_writeFixedHash64. rewrite splitHash64_of. apply put_two.
  - unfold decoder_readFixedHash64. rewrite <-set_cursor_to, length_app, f8_length, Nat2Z.inj_add.
    change (cursor_ (dec p (f8 v ++ s))) with (Z.of_nat (length p)). do 2 f_equal. rewrite hash_bytes.
    transitivity (fromCharCode (f8 v)); [|apply fromCharCode_unit, (list.Forall_impl is_byte); [apply f8_byte|unfold is_byte, is_unit; lia]].
    f_equal. cbn [map]. rewrite !at_dec by lia. done.
Qed.

(** ** Booleans: a varint in a field of its own, a byte in a packed field *)

Definition a_bit (v : Z) : bool := (v =? 0) || (v =? 1).
Definition truth (v : Z) : bool := negb (v =? 0).
Definition give_bool (v : Z) : bool + Z := inl (truth v).
Lemma a_bit_cases v : a_bit v = true -> v = 0 \/ v = 1.
Proof. unfold a_bit. rewrite orb_true_iff, !Z.eqb_eq. done. Qed.
Lemma bool_codec : Codec encoder_writeBool (a ← readUnsignedVarint32; mret (negb (a =? 0))) give_bool truth tc a_bit.
Proof.
  codec; intros v; intros; match goal with H : a_bit v = true |- _ => rename H into Hv end.
  - by destruct (a_bit_cases v Hv) as [-> | ->].
  - unfold mbind, ST_bind. rewrite (take_of uint32_codec v); [done|]. by destruct (a_bit_cases v Hv) as [-> | ->].
Qed.
Definition bit (v : Z) : list Z := [v mod 2].
Lemma bit_byte v : Forall is_byte (bit v).
Proof. constructor; [|constructor]. unfold is_byte. pose proof (Z.mod_pos_bound v 2). lia. Qed.
#[export] Instance packed_bool_codec : Codec encoder_writeBool decoder_readBool give_bool truth bit a_bit.
Proof.
  split; [| |intros; apply bit_byte|done]; intros v; intros; match goal with H : a_bit v = true |- _ => rename H into Hv end.
  - by destruct (a_bit_cases v Hv) as [-> | ->].
  - unfold decoder_readBool. change (cursor_ (dec p (bit v ++ s))) with (Z.of_nat (length p)).
    rewrite <-(Z.add_0_r (Z.of_nat (length p))) at 1. rewrite at_dec by lia. rewrite <-set_cursor_to. unfold bit at 3. rewrite len_snoc. f_equal.
    by destruct (a_bit_cases v Hv) as [-> | ->].
Qed.

(** ** Floats and doubles: the numbers of the bits [v] *)

Definition float_of (v : Z) : JsNum.num := of_bits float32 v.
Definition double_of (v : Z) : JsNum.num := of_bits float64 v.
Definition a_double (v : Z) : bool := in_u64 v && written_bits float64 9223372036854775807 v.
Definition sure_float `{MathLog} (v : Z) : bool := in_u32 v && written_bits float32 2147483647 v && log_exact v.

Lemma u64_word v : in_u64 v = true -> 0 <= v < 2 ^ 64.
Proof. intros Hv%in_u64_iff. unfold W32 in Hv. lia. Qed.
#[export] Instance double_codec : Codec encoder_writeDouble decoder_readDouble double_of double_of f8 a_double.
Proof.
  codec; intros v; intros; match goal with H : a_double v = true |- _ => apply andb_true_iff in H as [Hu Hw] end; apply u64_word in Hu.
  all: destruct (of_int_halves v) as (El & Eh & Hl & Hh & E); rewrite Z.mod_small in E by done.
  - unfold encoder_writeDouble, double_of. destruct (double_split v Hu Hw) as [Es Em]. rewrite Em, Es. cbn [asserted]. unfold words_of. cbn [fst snd].
    rewrite (Z.mod_small v) in El, Eh by done. change (2 ^ 32) with W32. rewrite <-El, <-Eh. apply put_two.
  - unfold decoder_readDouble. rewrite take_f8. unfold double_of. rewrite joinFloat64_ok by done. by rewrite <-E.
Qed.
#[export] Instance float_codec `{MathLog} : Codec encoder_writeFloat decoder_readFloat float_of float_of f4 sure_float.
Proof.
  codec; intros v; intros; match goal with H : sure_float v = true |- _ => apply andb_true_iff in H as [[Hu Hw]%andb_true_iff Hx] end.
  - unfold encoder_writeFloat, float_of. destruct (float_split v ltac:(by apply in_u32_iff) Hw Hx) as [Es Em]. rewrite Em, Es. by apply (put_of fixed32_codec v).
  - unfold decoder_readFloat, mbind, ST_bind. rewrite (take_of fixed32_codec v) by done. unfold mret, ST_ret, float_of. do 2 f_equal.
    apply joinFloat32_ok. by apply in_u32_iff.
Qed.

(** ** The fields *)

(** What the reader hands its caller. *)
Inductive shown := AsNumber (n : Z) | AsText (s : jsstr) | AsBool (b : bool) | AsFloat (x : JsNum.num).

(** The methods of one kind of field, with the format they share. *)
Record kind := Kind {
  given : Type; got : Type; giving : Z -> given; getting : Z -> got; box : got -> shown;
  format : Z -> list Z; domain : Z -> bool; wtype : Z;
  write1 : Z -> option given -> W unit; read1 : R got;
  write_repeated : Z -> option (list (option given)) -> W unit }.
Definition kinds `{MathLog} : list kind := [
  Kind Z Z id id AsNumber tc in_i32 VARINT writeInt32 readInt32 writeRepeatedInt32;
  Kind jsstr jsstr num_to_str num_to_str AsText tc in_i32 VARINT writeInt32String readInt32String writeRepeatedInt32String;
  Kind Z Z id id AsNumber tc safe VARINT writeInt64 readInt64 writeRepeatedInt64;
  Kind jsstr jsstr num_to_str num_to_str AsText tc in_i64 VARINT writeInt64String readInt64String writeRepeatedInt64String;
  Kind Z Z id id AsNumber tc in_u32 VARINT writeUint32 readUint32 writeRepeatedUint32;
  Kind jsstr jsstr num_to_str num_to_str AsText tc in_u32 VARINT writeUint32String readUint32String writeRepeatedUint32String;
  Kind Z Z id id AsNumber tc safe_nat VARINT writeUint64 readUint64 writeRepeatedUint64;
  Kind jsstr jsstr num_to_str num_to_str AsText tc in_u64 VARINT writeUint64String readUint64String writeRepeatedUint64String;
  Kind Z Z id id AsNumber zz in_i32 VARINT writeSint32 readSint32 writeRepeatedSint32;
  Kind Z Z id id AsNumber zz safe VARINT writeSint64 readSint64 writeRepeatedSint64;
  Kind jsstr jsstr num_to_str num_to_str AsText zz low_positive VARINT writeSint64String readSint64String writeRepeatedSint64String;
  Kind jsstr jsstr hash_of hash_of AsText zz in_i64 VARINT writeSintHash64 readSintHash64 writeRepeatedSintHash64;
  Kind Z Z id id AsNumber f4 in_u32 FIXED32 writeFixed32 readFixed32 writeRepeatedFixed32;
  Kind Z Z id id AsNumber f8 safe_nat FIXED64 writeFixed64 readFixed64 writeRepeatedFixed64;
  Kind jsstr jsstr num_to_str num_to_str AsText f8 in_u64 FIXED64 writeFixed64String readFixed64String writeRepeatedFixed64String;
  Kind Z Z id id AsNumber f4 in_i32 FIXED32 writeSfixed32 readSfixed32 writeRepeatedSfixed32;
  Kind Z jsstr id num_to_str AsText f4 in_i32 FIXED32 writeSfixed32 readSfixed32String writeRepeatedSfixed32;
  Kind Z Z id id AsNumber f8 safe FIXED64 writeSfixed64 readSfixed64 writeRepeatedSfixed64;
  Kind jsstr jsstr num_to_str num_to_str AsText f8 in_i64 FIXED64 writeSfixed64String readSfixed64String writeRepeatedSfixed64String;
  Kind (bool + Z) bool give_bool truth AsBool tc a_bit VARINT writeBool readBool writeRepeatedBool;
  Kind Z Z id id AsNumber tc in_i32 VARINT writeEnum readEnum writeRepeatedEnum;
  Kind jsstr jsstr hash_of hash_of AsText f8 in_u64 FIXED64 writeFixedHash64 readFixedHash64 writeRepeatedFixedHash64;
  Kind jsstr jsstr hash_of hash_of AsText tc in_u64 VARINT writeVarintHash64 readVarintHash64 writeRepeatedVarintHash64;
  Kind JsNum.num JsNum.num double_of double_of AsFloat f8 a_double FIXED64 writeDouble readDouble writeRepeatedDouble;
  Kind JsNum.num JsNum.num float_of float_of AsFloat f4 sure_float FIXED32 writeFloat readFloat writeRepeatedFloat ].

(** The packed fields. *)
Record packing := Packing {
  pgiven : Type; pgot : Type; pgiving : Z -> pgiven; pgetting : Z -> pgot; pbox : pgot -> shown;
  pformat : Z -> list Z; pdomain : Z -> bool;
  write_packed : Z -> option (list pgiven) -> W unit; read_packed : R (list pgot) }.
Definition packings `{MathLog} : list packing := [
  Packing Z Z id id AsNumber tc in_i32 writePackedInt32 readPackedInt32;
  Packing jsstr jsstr num_to_str num_to_str AsText tc in_i32 writePackedInt32String readPackedInt32String;
  Packing Z Z id id AsNumber tc safe writePackedInt64 readPackedInt64;
  Packing jsstr jsstr num_to_str num_to_str AsText tc in_i64 writePackedInt64String readPackedInt64String;
  Packing Z Z id id AsNumber tc in_u32 writePackedUint32 readPackedUint32;
  Packing jsstr jsstr num_to_str num_to_str AsText tc in_u32 writePackedUint32String readPackedUint32String;
  Packing Z Z id id AsNumber tc safe_nat writePackedUint64 readPackedUint64;
  Packing jsstr jsstr num_to_str num_to_str AsText tc in_u64 writePackedUint64String readPackedUint64String;
  Packing Z Z id id AsNumber zz in_i32 writePackedSint32 readPackedSint32;
  Packing Z Z id id AsNumber zz safe writePackedSint64 readPackedSint64;
  Packing jsstr jsstr num_to_str num_to_str AsText zz low_positive writePackedSint64String readPackedSint64String;
  Packing Z Z id id AsNumber f4 in_u32 writePackedFixed32 readPackedFixed32;
  Packing Z Z id id AsNumber f8 safe_nat writePackedFixed64 readPackedFixed64;
  Packing jsstr jsstr num_to_str num_to_str AsText f8 in_u64 writePackedFixed64String readPackedFixed64String;
  Packing Z Z id id AsNumber f4 in_i32 writePackedSfixed32 readPackedSfixed32;
  Packing Z Z id id AsNumber f8 safe writePackedSfixed64 readPackedSfixed64;
  Packing (bool + Z) bool give_bool truth AsBool bit a_bit writePackedBool readPackedBool;
  Packing Z Z id id AsNumber tc in_i32 writePackedEnum readPackedEnum;
  Packing jsstr jsstr hash_of hash_of AsText f8 in_u64 writePackedFixedHash64 readPackedFixedHash64;
  Packing jsstr jsstr hash_of hash_of AsText tc in_u64 writePackedVarintHash64 readPackedVarintHash64;
  Packing JsNum.num JsNum.num double_of double_of AsFloat f8 a_double writePackedDouble readPackedDouble;
  Packing JsNum.num JsNum.num float_of float_of AsFloat f4 sure_float writePackedFloat readPackedFloat ].

(** What the methods of a kind owe one another. *)
Record lawful (k : kind) : Prop := {
  l_wire : wire_type_ok (wtype k) = true;
  l_write n v : 1 <= n < 2 ^ 29 -> domain k v = true ->
    writes (write1 k n (Some (giving k v))) (tag n (wtype k) ++ format k v);
  l_repeated n vs : 1 <= n < 2 ^ 29 -> forallb (domain k) vs = true ->
    writes (write_repeated k n (Some (map (fun v => Some (giving k v)) vs))) (concat (map (fun v => tag n (wtype k) ++ format k v) vs));
  l_read p s fc n v : domain k v = true ->
    read1 k (rdr p (format k v ++ s) fc n (wtype k)) = Ret (getting k v, rdr (p ++ format k v) s fc n (wtype k));
  l_byte v : domain k v = true -> Forall is_byte (format k v) }.
Record packs (k : packing) : Prop := {
  p_write n vs : 1 <= n < 2 ^ 29 -> vs <> [] -> forallb (pdomain k) vs = true -> size_ok (concat (map (pformat k) vs)) = true ->
    writes (write_packed k n (Some (map (pgiving k) vs))) (delimited n (concat (map (pformat k) vs)));
  p_read p s fc n vs : forallb (pdomain k) vs = true -> size_ok (concat (map (pformat k) vs)) = true ->
    let b := leb (Z.of_nat (length (concat (map (pformat k) vs)))) ++ concat (map (pformat k) vs) in
    read_packed k (rdr p (b ++ s) fc n DELIMITED) = Ret (map (pgetting k) vs, rdr (p ++ b) s fc n DELIMITED);
  p_byte v : pdomain k v = true -> Forall is_byte (pformat k v) }.

Lemma writes_checked b m bs : b = true -> writes m bs -> writes (assert_ b;; m) bs.
Proof. intros Hb Hm. rewrite <-(app_nil_l bs). apply writes_bind; [by apply writes_assert|done]. Qed.
Lemma writes_parsed v f bs : Z.abs v < 2 ^ 53 -> writes (f v) bs -> writes (parsed (num_to_str v) f) bs.
Proof. intros Hv Hf. unfold parsed. by rewrite parseInt10_numeral. Qed.
Lemma writes_each_of {G} (f : option G -> W unit) (give : Z -> G) (c : Z -> list Z) dom vs :
  (forall v, dom v = true -> writes (f (Some (give v))) (c v)) -> forallb dom vs = true ->
  writes (each f (Some (map (fun v => Some (give v)) vs))) (concat (map c vs)).
Proof.
  intros Hf. unfold each. induction vs as [|v vs IH]; cbn [forallb map foldr concat]; [intros; apply writes_ret|].
  intros [Hv Hvs]%andb_true_iff. apply writes_bind; [by apply Hf|by apply IH].
Qed.
(** A kind of which single and repeated fields go through the same bytes. *)
Lemma lawful_kind k f : wire_type_ok (wtype k) = true ->
  (forall n v, 1 <= n < 2 ^ 29 -> domain k v = true -> writes (write1 k n (Some (giving k v))) (tag n (wtype k) ++ format k v)) ->
  (forall n b, write_repeated k n b = each (f n) b) ->
  (forall n v, 1 <= n < 2 ^ 29 -> domain k v = true -> writes (f n (Some (giving k v))) (tag n (wtype k) ++ format k v)) ->
  (forall p s fc n v, domain k v = true ->
    read1 k (rdr p (format k v ++ s) fc n (wtype k)) = Ret (getting k v, rdr (p ++ format k v) s fc n (wtype k))) ->
  (forall v, domain k v = true -> Forall is_byte (format k v)) -> lawful k.
Proof.
  intros Ht Hw Hr Hf Hrd Hb. split; auto. intros n vs Hn Hv. rewrite Hr.
  apply (writes_each_of (f n) (giving k) (fun v => tag n (wtype k) ++ format k v) (domain k)); auto.
Qed.
Lemma sfixed32_text_codec : Codec encoder_writeInt32 (a ← decoder_readInt32; mret (num_to_str a)) id num_to_str f4 in_i32.
Proof.
  codec; intros v; intros; [by apply (put_of sfixed32_codec v)|]. unfold mbind, ST_bind. by rewrite (take_of sfixed32_codec v).
Qed.
Lemma i32_parsed v : in_i32 v = true -> Z.abs v < 2 ^ 53.
Proof. intros H%in_i32_iff. lia. Qed.
Lemma u32_parsed v : in_u32 v = true -> Z.abs v < 2 ^ 53.
Proof. intros H%in_u32_iff. lia. Qed.
Lemma hash_checked v : bool_decide (length (hash_of v) = 8%nat) = true.
Proof. by apply bool_decide_eq_true. Qed.
#[export] Hint Resolve safe_i64 safe_u64 i32_parsed u32_parsed hash_checked : codec.

(** The checks a method makes, then its header and its codec's bytes. *)
Ltac write_with C :=
  intros n v Hn Hv; cbn [write1 giving domain format wtype] in *;
  match goal with |- writes (?f _ _ _) _ => unfold f | |- writes (?f _ _) _ => unfold f end; cbn [present];
  repeat first [apply writes_checked; [by auto with codec|] | apply writes_parsed; [by auto with codec|]];
  by apply (writes_one (C := C)).
Ltac kind_with C C' :=
  eapply lawful_kind; [done| |intros; reflexivity| | |by auto with codec];
  [write_with C|write_with C|intros; by apply (reads_one (C := C'))].

Lemma kinds_lawful `{MathLog} : Forall lawful kinds.
Proof.
  repeat (apply list.Forall_cons; split).
  - kind_with int32_codec int32_codec.
  - kind_with int32_codec int32_text_codec.
  - kind_with int64_codec int64_codec.
  - kind_with int64_text_codec int64_text_codec.
  - kind_with uint32_codec uint32_codec.
  - kind_with uint32_codec uint32_text_codec.
  - kind_with uint64_codec uint64_codec.
  - kind_with uint64_text_codec uint64_text_codec.
  - kind_with sint32_codec sint32_codec.
  - kind_with sint64_codec sint64_codec.
  - kind_with sint64_text_codec sint64_text_codec.
  - kind_with sint_hash_codec sint_hash_codec.
  - kind_with fixed32_codec fixed32_codec.
  - kind_with fixed64_codec fixed64_codec.
  - kind_with fixed64_text_codec fixed64_text_codec.
  - kind_with sfixed32_codec sfixed32_codec.
  - kind_with sfixed32_codec sfixed32_text_codec.
  - kind_with sfixed64_codec sfixed64_codec.
  - kind_with sfixed64_text_codec sfixed64_text_codec.
  - kind_with bool_codec bool_codec.
  - kind_with int32_codec enum_wide_codec.
  - kind_with fixed_hash_codec fixed_hash_codec.
  - kind_with varint_hash_codec varint_hash_codec.
  - kind_with double_codec double_codec.
  - kind_with float_codec float_codec.
  - constructor.
Qed.

Ltac packs_with C w :=
  split; [intros n vs Hn Hne Hv Hs; first [by apply (writes_packed (C := C)) | by apply (writes_packed_sized (C := C) w)]
         |intros p s fc n vs Hv Hs; by apply (reads_packed (C := C))|by auto using bit_byte with codec].
Lemma packings_lawful `{MathLog} : Forall packs packings.
Proof.
  repeat (apply list.Forall_cons; split).
  - packs_with int32_codec 0%nat.
  - packs_with int32_text_codec 0%nat.
  - packs_with int64_codec 0%nat.
  - packs_with int64_text_codec 0%nat.
  - packs_with uint32_codec 0%nat.
  - packs_with uint32_text_codec 0%nat.
  - packs_with uint64_codec 0%nat.
  - packs_with uint64_text_codec 0%nat.
  - packs_with sint32_codec 0%nat.
  - packs_with sint64_codec 0%nat.
  - packs_with sint64_text_codec 0%nat.
  - packs_with fixed32_codec 4%nat.
  - packs_with fixed64_codec 8%nat.
  - packs_with fixed64_text_codec 8%nat.
  - packs_with sfixed32_codec 4%nat.
  - packs_with sfixed64_codec 8%nat.
  - packs_with packed_bool_codec 1%nat.
  - packs_with enum_codec 0%nat.
  - packs_with fixed_hash_codec 8%nat.
  - packs_with varint_hash_codec 0%nat.
  - packs_with double_codec 8%nat.
  - packs_with float_codec 4%nat.
  - constructor.
Qed.

(** ** Messages of scalar fields *)

(** A single field, the values of a repeated one, a packed one. *)
Inductive entry :=
  | One (k : kind) (n v : Z)
  | Several (k : kind) (n : Z) (vs : list Z)
  | Packed (k : packing) (n : Z) (vs : list Z).
Definition write_entry (e : entry) : W unit :=
  match e with
  | One k n v => write1 k n (Some (giving k v))
  | Several k n vs => write_repeated k n (Some (map (fun v => Some (giving k v)) vs))
  | Packed k n vs => write_packed k n (Some (map (pgiving k) vs))
  end.
Definition entry_bytes (e : entry) : list Z :=
  match e with
  | One k n v => tag n (wtype k) ++ format k v
  | Several k n vs => concat (map (fun v => tag n (wtype k) ++ format k v) vs)
  | Packed k n vs => delimited n (concat (map (pformat k) vs))
  end.
(** The next field's number and its value, by the method for its kind. *)
Definition next_as {A B} (m : R A) (f : A -> B) : R (Z * B) :=
  more ← nextField;
  if more : bool then n ← getFieldNumber; x ← m; mret (n, f x) else fail_ [].
Definition readers (e : entry) : list (R (Z * list shown)) :=
  match e with
  | One k _ _ => [next_as (read1 k) (fun x => [box k x])]
  | Several k _ vs => map (fun _ => next_as (read1 k) (fun x => [box k x])) vs
  | Packed k _ _ => [next_as (read_packed k) (map (pbox k))]
  end.
Definition entry_values (e : entry) : list (Z * list shown) :=
  match e with
  | One k n v => [(n, [box k (getting k v)])]
  | Several k n vs => map (fun v => (n, [box k (getting k v)])) vs
  | Packed k n vs => [(n, map (fun v => pbox k (pgetting k v)) vs)]
  end.
Fixpoint read_all {A} (ms : list (R A)) : R (list A) :=
  match ms with [] => mret [] | m :: ms => x ← m; l ← read_all ms; mret (x :: l) end.
Definition valid_entry `{MathLog} (e : entry) : Prop :=
  match e with
  | One k n v => k ∈ kinds /\ number_ok n = true /\ domain k v = true
  | Several k n vs => k ∈ kinds /\ number_ok n = true /\ forallb (domain k) vs = true
  | Packed k n vs => k ∈ packings /\ number_ok n = true /\ vs <> [] /\ forallb (pdomain k) vs = true /\
      size_ok (concat (map (pformat k) vs)) = true
  end.

Lemma kind_lawful `{MathLog} k : k ∈ kinds -> lawful k.
Proof. apply (proj1 (list.Forall_forall _ _) kinds_lawful). Qed.
Lemma packing_lawful `{MathLog} k : k ∈ packings -> packs k.
Proof. apply (proj1 (list.Forall_forall _ _) packings_lawful). Qed.
Lemma writes_entry `{MathLog} e : valid_entry e -> writes (write_entry e) (entry_bytes e).
Proof.
  destruct e as [k n v|k n vs|k n vs]; cbn [valid_entry write_entry entry_bytes].
  - intros (L%kind_lawful & Hn%number_ok_iff & Hv). by apply l_write.
  - intros (L%kind_lawful & Hn%number_ok_iff & Hv). by apply l_repeated.
  - intros (L%packing_lawful & Hn%number_ok_iff & Hne & Hv & Hs). by apply p_write.
Qed.
Lemma entry_byte `{MathLog} e : valid_entry e -> Forall is_byte (entry_bytes e).
Proof.
  destruct e as [k n v|k n vs|k n vs]; cbn [valid_entry entry_bytes].
  - intros (L%kind_lawful & Hn%number_ok_iff & Hv). apply Forall_app. split; [apply tag_byte; [lia|by apply l_wire]|by apply l_byte].
  - intros (L%kind_lawful & Hn%number_ok_iff & Hv). apply Forall_concat, Forall_map, list.Forall_forall. intros v Hin.
    apply Forall_app. split; [apply tag_byte; [lia|by apply l_wire]|]. apply l_byte; [done|].
    by apply (proj1 (forallb_forall _ _) Hv), list_elem_of_In.
  - intros (L%packing_lawful & Hn%number_ok_iff & Hne & Hv & Hs). apply delimited_byte; [lia|].
    apply Forall_concat, Forall_map, list.Forall_forall. intros v Hin. apply p_byte; [done|].
    by apply (proj1 (forallb_forall _ _) Hv), list_elem_of_In.
Qed.

(** A run of readers over a run of bytes, from any place of a message. *)
Definition reads {A} (m : R A) (bs : list Z) (a : A) : Prop := forall p s fc n t, exists fc' n' t',
  m (rdr p (bs ++ s) fc n t) = Ret (a, rdr (p ++ bs) s fc' n' t').
Lemma reads_next {A B} (m : R A) (f : A -> B) n t b a : 1 <= n < 2 ^ 29 -> wire_type_ok t = true ->
  (forall p s fc, m (rdr p (b ++ s) fc n t) = Ret (a, rdr (p ++ b) s fc n t)) -> reads (next_as m f) (tag n t ++ b) (n, f a).
Proof.
  intros Hn Ht Hm p s fc n0 t0. eexists _, _, _. unfold next_as, mbind, ST_bind.
  rewrite <-app_assoc, nextField_tag by done. unfold getFieldNumber, get_. cbn [nextField_ rdr]. fold (rdr (p ++ tag n t) (b ++ s) (Z.of_nat (length p)) n t).
  rewrite Hm, <-app_assoc. reflexivity.
Qed.
Lemma reads_nil {A} : reads (read_all (A := A) []) [] [].
Proof. intros p s fc n t. exists fc, n, t. by rewrite app_nil_r. Qed.
Lemma reads_cons {A} (m : R A) ms b a bs l : reads m b a -> reads (read_all ms) bs l -> reads (read_all (m :: ms)) (b ++ bs) (a :: l).
Proof.
  intros Hm Hms p s fc n t. rewrite <-app_assoc. destruct (Hm p (bs ++ s) fc n t) as (f1 & n1 & t1 & E1).
  destruct (Hms (p ++ b) s f1 n1 t1) as (f2 & n2 & t2 & E2). exists f2, n2, t2.
  cbn [read_all]. unfold mbind, ST_bind. by rewrite E1, E2, <-app_assoc.
Qed.
Lemma reads_single `{MathLog} k n v : k ∈ kinds -> number_ok n = true -> domain k v = true ->
  reads (next_as (read1 k) (fun x => [box k x])) (tag n (wtype k) ++ format k v) (n, [box k (getting k v)]).
Proof.
  intros L%kind_lawful Hn%number_ok_iff Hv. apply (reads_next _ (fun x => [box k x])); [done|by apply l_wire|].
  intros. by apply l_read.
Qed.
Lemma reads_entry `{MathLog} e ms bs l : valid_entry e -> reads (read_all ms) bs l ->
  reads (read_all (readers e ++ ms)) (entry_bytes e ++ bs) (entry_values e ++ l).
Proof.
  destruct e as [k n v|k n vs|k n vs]; cbn [valid_entry readers entry_bytes entry_values].
  - intros (L & Hn & Hv) Hms. by apply reads_cons; [apply reads_single|].
  - intros (L & Hn & Hv) Hms. induction vs as [|v vs IH]; [done|]. cbn [forallb] in Hv. apply andb_true_iff in Hv as [Hv Hvs].
    cbn [map concat app]. rewrite <-(app_assoc _ (concat _)). apply reads_cons; [by apply reads_single|by apply IH].
  - intros (L%packing_lawful & Hn%number_ok_iff & Hne & Hv & Hs) Hms. apply reads_cons; [|done].
    rewrite <-(map_map (pgetting k) (pbox k)). unfold delimited.
    apply (reads_next _ (map (pbox k))); [done|done|]. intros. by apply p_read.
Qed.

(** C27. Every method of the writer for scalar fields, 25 kinds in single and in
    repeated fields and 22 in packed ones, and the reader's method of the same
    name: whatever fields are written, one after the other, the result holds
    the format's bytes, and the reader hands every number and value back in
    order. *)
Theorem scalars_roundtrip `{MathLog} es : Forall valid_entry es ->
  let bytes := concat (map entry_bytes es) in
  (exists w, (write_all (map write_entry es);; getResultBuffer) new_BinaryWriter = Ret (bytes, w)) /\
  (exists r, read_all (concat (map readers es)) (new_BinaryReader (Some bytes)) = Ret (concat (map entry_values es), r)).
Proof.
  intros Hes bytes. split.
  - apply result_written.
    + subst bytes. induction Hes as [|e es He _ IH]; cbn [map write_all foldr concat]; [apply writes_ret|].
      by apply writes_bind; [apply writes_entry|].
    + subst bytes. apply Forall_concat, Forall_map. eapply list.Forall_impl; [exact Hes|]. apply entry_byte.
  - assert (Hread : reads (read_all (concat (map readers es))) bytes (concat (map entry_values es))).
    { subst bytes. induction Hes as [|e es He _ IH]; cbn [map concat]; [apply reads_nil|]. by apply reads_entry. }
    destruct (Hread [] [] 0 (-1) INVALID) as (fc & n & t & E). eexists. rewrite app_nil_r in E. exact E.
Qed.
Lemma scalars_roundtrip_witness :
  let bytes := [24; 255; 255; 255; 255; 255; 255; 255; 255; 255; 1] ++ [33; 0; 0; 0; 0; 0; 0; 0; 128; 33; 7; 0; 0; 0; 0; 0; 0; 0] ++
    [42; 4; 2; 3; 216; 4] ++ [49; 0; 0; 0; 0; 0; 0; 248; 63] in
  (exists w, (write_all [writeInt32 3 (Some (-1)); writeRepeatedSfixed64String 4 (Some [Some (js "-9223372036854775808"); Some (js "7")]);
              writePackedSint32 5 (Some [1; -2; 300]); writeDouble 6 (Some (Fin false (3 * 2 ^ 1073)))];; getResultBuffer) new_BinaryWriter = Ret (bytes, w)) /\
  (exists r, read_all [next_as readInt32 (fun x => [AsNumber x]); next_as readSfixed64String (fun x => [AsText x]);
                       next_as readSfixed64String (fun x => [AsText x]); next_as readPackedSint32 (map AsNumber);
                       next_as readDouble (fun x => [AsFloat x])]
               (new_BinaryReader (Some bytes)) =
     Ret ([(3, [AsNumber (-1)]); (4, [AsText (js "-9223372036854775808")]); (4, [AsText (js "7")]);
           (5, [AsNumber 1; AsNumber (-2); AsNumber 300]); (6, [AsFloat (Fin false (3 * 2 ^ 1073))])], r)).
Proof.
  assert (E : Fin false (3 * 2 ^ 1073) = double_of 4609434218613702656) by (vm_compute; reflexivity). rewrite E. clear E.
  destruct (scalars_roundtrip (H := exact_log) [
    One (Kind Z Z id id AsNumber tc in_i32 VARINT writeInt32 readInt32 writeRepeatedInt32) 3 (-1);
    Several (Kind jsstr jsstr num_to_str num_to_str AsText f8 in_i64 FIXED64 writeSfixed64String readSfixed64String writeRepeatedSfixed64String)
      4 [-9223372036854775808; 7];
    Packed (Packing Z Z id id AsNumber zz in_i32 writePackedSint32 readPackedSint32) 5 [1; -2; 300];
    One (Kind JsNum.num JsNum.num double_of double_of AsFloat f8 a_double FIXED64 writeDouble readDouble writeRepeatedDouble) 6 4609434218613702656]) as [[w Hw] [r Hr]].
  - repeat (apply list.Forall_cons; split); [| | | |constructor]; (split; [|split; [done|first [vm_compute; reflexivity|done]]]).
    + exact (list_elem_of_lookup_2 (kinds (H := exact_log)) 0 _ eq_refl).
    + exact (list_elem_of_lookup_2 (kinds (H := exact_log)) 18 _ eq_refl).
    + exact (list_elem_of_lookup_2 (packings (H := exact_log)) 8 _ eq_refl).
    + exact (list_elem_of_lookup_2 (kinds (H := exact_log)) 23 _ eq_refl).
  - split; [exists w; exact Hw|exists r; exact Hr].
Defined.

(** A number of which the low half has its top bit set is read as a negative
    numeral. *)
Lemma sint64_text_wrong : exists d, readZigzagVarint64String (dec [] (zz 2147483648)) = Ret (js "-2147483648", d).
Proof. eexists. vm_compute. reflexivity. Qed.
(** The header 128, of number 16 with a varint, takes two bytes; the cursor is
    set back by one. *)
Lemma sixteen_not_unskipped : leb (8 * 16 + VARINT) = [128; 1] /\ forall d, unskipVarint 128 d = Ret (tt, set_cursor (cursor_ d - 1) d).
Proof. split; reflexivity. Qed.
