(* ===== verification/WireAny.v ===== *)
(** The methods that take the type of a field as an argument (bundle.js
    6867-6868, 7171-7173, 7266-7267): [writeAny] and [readAny] are the methods
    for that type, and what the one writes the other reads back. *)

From S2P Require Import JsNum FloatFields FloatSpec WireFloat.
From S2P Require Import Prelude JsVal TextEncoding Wire WireReader WireSpec WireFields UserMessageSpec WireScalar WireScalarSpec.

Inductive FieldType :=
  | INVALID_TYPE | DOUBLE | FLOAT | INT64 | UINT64 | INT32 | FIXED64_TYPE | FIXED32_TYPE | BOOL | STRING | GROUP | MESSAGE | BYTES
  | UINT32 | ENUM | SFIXED32 | SFIXED64 | SINT32 | SINT64 | FHASH64 | VHASH64.

Definition FieldTypeToWireType (a : FieldType) : Z :=
  match a with
  | INT32 | INT64 | UINT32 | UINT64 | SINT32 | SINT64 | BOOL | ENUM | VHASH64 => VARINT
  | DOUBLE | FIXED64_TYPE | SFIXED64 | FHASH64 => FIXED64
  | STRING | MESSAGE | BYTES => DELIMITED
  | FLOAT | FIXED32_TYPE | SFIXED32 => FIXED32
  | _ => INVALID
  end.

(** The values the method for a type takes; there is none for a group, a
    message and the invalid type. *)
Definition any_value (a : FieldType) : Type :=
  match a with
  | DOUBLE | FLOAT => JsNum.num
  | BOOL => bool + Z
  | STRING | FHASH64 | VHASH64 => jsstr
  | BYTES => list Z
  | _ => Z
  end.
Definition read_of (a : FieldType) : Type :=
  match a with BOOL => bool | a => any_value a end.

Definition writeAny `{MathLog} (a : FieldType) (b : Z) : option (any_value a) -> W unit :=
  match a with
  | DOUBLE => writeDouble b
  | FLOAT => writeFloat b
  | INT64 => writeInt64 b
  | UINT64 => writeUint64 b
  | INT32 => writeInt32 b
  | FIXED64_TYPE => writeFixed64 b
  | FIXED32_TYPE => writeFixed32 b
  | BOOL => writeBool b
  | STRING => writeString b
  | GROUP => fun _ => fail_ (js "Group field type not supported in writeAny()")
  | MESSAGE => fun _ => fail_ (js "Message field type not supported in writeAny()")
  | BYTES => writeBytes b
  | UINT32 => writeUint32 b
  | ENUM => writeEnum b
  | SFIXED32 => writeSfixed32 b
  | SFIXED64 => writeSfixed64 b
  | SINT32 => writeSint32 b
  | SINT64 => writeSint64 b
  | FHASH64 => writeFixedHash64 b
  | VHASH64 => writeVarintHash64 b
  | INVALID_TYPE => fun _ => fail_ (js "Invalid field type in writeAny()")
  end.

(** [this.nextWireType_ = ...], whatever the header said. *)
Definition set_nextWireType_ (t : Z) : R unit :=
  modify_ (fun r => BinaryReader (decoder_ r) (fieldCursor_ r) (nextField_ r) t (reader_error_ r)).
Definition read_type (a : FieldType) : R (read_of a) :=
  match a with
  | DOUBLE => readDouble
  | FLOAT => readFloat
  | INT64 => readInt64
  | UINT64 => readUint64
  | INT32 => readInt32
  | FIXED64_TYPE => readFixed64
  | FIXED32_TYPE => readFixed32
  | BOOL => readBool
  | STRING => readString
  | GROUP => fail_ (js "Group field type not supported in readAny()")
  | MESSAGE => fail_ (js "Message field type not supported in readAny()")
  | BYTES => reader_readBytes
  | UINT32 => readUint32
  | ENUM => readEnum
  | SFIXED32 => readSfixed32
  | SFIXED64 => readSfixed64
  | SINT32 => readSint32
  | SINT64 => readSint64
  | FHASH64 => readFixedHash64
  | VHASH64 => readVarintHash64
  | INVALID_TYPE => fail_ (js "Invalid field type in readAny()")
  end.
Definition readAny (a : FieldType) : R (read_of a) := set_nextWireType_ (FieldTypeToWireType a);; read_type a.

(** ** What they are *)

(** Every type of a scalar is a kind of field: the methods are its methods. *)
Definition kind_of `{MathLog} (a : FieldType) : option kind :=
  let i := match a with
    | INT32 => Some 0 | INT64 => Some 2 | UINT32 => Some 4 | UINT64 => Some 6 | SINT32 => Some 8 | SINT64 => Some 9
    | FIXED32_TYPE => Some 12 | FIXED64_TYPE => Some 13 | SFIXED32 => Some 15 | SFIXED64 => Some 17 | BOOL => Some 19 | ENUM => Some 20
    | FHASH64 => Some 21 | VHASH64 => Some 22 | DOUBLE => Some 23 | FLOAT => Some 24 | _ => None
    end%nat in
  match i with Some i => kinds !! i | None => None end.
Lemma kind_of_kinds `{MathLog} a k : kind_of a = Some k -> k ∈ kinds /\ wtype k = FieldTypeToWireType a.
Proof. destruct a; cbn; try done; intros [= <-]; (split; [|done]); unfold kinds; repeat (apply list.elem_of_cons; first [by left|right]). Qed.

(** What [writeAny] writes for a scalar, its tag and its format's bytes, the
    reader of the next field with [readAny] of the same type reads back. *)
Lemma any_roundtrip `{MathLog} a n v k : kind_of a = Some k -> 1 <= n < 2 ^ 29 -> domain k v = true ->
  exists (given : any_value a) (got : read_of a),
    (existT (any_value a) given : sigT (fun T : Type => T)) = existT (WireScalarSpec.given k) (giving k v) /\
    (existT (read_of a) got : sigT (fun T : Type => T)) = existT (WireScalarSpec.got k) (getting k v) /\
    writes (writeAny a n (Some given)) (tag n (wtype k) ++ format k v) /\
    forall p s fc t, readAny a (rdr p (format k v ++ s) fc n t) = Ret (got, rdr (p ++ format k v) s fc n (wtype k)).
Proof.
  intros Hk Hn Hv. destruct (kind_of_kinds a k Hk) as [Hin _]. pose proof (kind_lawful k Hin) as [_ Hw _ Hr _].
  specialize (Hw n v Hn Hv). pose proof (fun p s fc => Hr p s fc n v Hv) as Hrd. clear Hr.
  destruct a; cbn in Hk; try done; injection Hk as <-; eexists _, _; (split; [reflexivity|split; [reflexivity|split; [exact Hw|]]]);
    intros p s fc t; unfold readAny, mbind, ST_bind; apply Hrd.
Qed.
(** [readAny] takes the caller's word for the wire type: a varint is read as
    the four bytes of a fixed number. *)
Lemma any_wire_type_ignored : exists r r',
  nextField (new_BinaryReader (Some [8; 1; 2; 3; 4])) = Ret (true, r) /\ nextWireType_ r = VARINT /\
  readFixed32 r = Throw (JErr AssertionErr (js "Assertion failed")) /\ readAny FIXED32_TYPE r = Ret (67305985, r').
Proof. eexists _, _. split; [vm_compute; reflexivity|]. split; [reflexivity|]. split; vm_compute; reflexivity. Qed.
