(* ===== verification/WireCountSpec.v ===== *)
(** The counting functions of jspb.utils count the fields of one number at the
    head of a block, up to the first field of another, for every number whose
    header they can tell apart. *)

From S2P Require Import Prelude JsVal Int32 TextEncoding Labels Utf8Step Wire WireReader WireSpec WireFields UserMessage UserMessageSpec.
From S2P Require Import Int64 Int64Spec WireScalar WireScalarSpec.

(** The loops over a header stop at 128 as if it were the last digit, so a
    header with the leading digits 1 and 0 is not compared whole; and they
    shift with the sign. *)
Definition comparable (d : Z) : bool :=
  (1 <=? d) && (d <? 2 ^ 31) && forallb (fun j => negb (d / 128 ^ j =? 128)) [0; 1; 2; 3].
Lemma comparable_spec d : comparable d = true <-> 1 <= d < 2 ^ 31 /\ forall j, 0 <= j -> d / 128 ^ j <> 128.
Proof.
  unfold comparable. rewrite !andb_true_iff, Z.leb_le, Z.ltb_lt, forallb_forall. split.
  - intros [Hd Hj]. split; [done|]. intros j Hj0. destruct (Z.le_gt_cases j 3) as [H3|H3].
    + specialize (Hj j). rewrite negb_true_iff, Z.eqb_neq in Hj. apply Hj. cbn. lia.
    + assert (2 ^ 28 <= 128 ^ j) by (change (2 ^ 28) with (128 ^ 4); apply Z.pow_le_mono_r; lia).
      assert (d / 128 ^ j < 128); [|lia]. apply Z.div_lt_upper_bound; [lia|]. pow_norm. nia.
  - intros [Hd Hj]. split; [done|]. intros j Hin. rewrite negb_true_iff, Z.eqb_neq. apply Hj. cbn in Hin. lia.
Qed.
Lemma comparable_div d : (forall j, 0 <= j -> d / 128 ^ j <> 128) -> forall j, 0 <= j -> d / 128 / 128 ^ j <> 128.
Proof.
  intros H j Hj. rewrite Z.div_div by (try apply Z.pow_pos_nonneg; lia). rewrite <-Z.pow_succ_r by lia. apply H. lia.
Qed.

Lemma match_header_step k a b f : match_header (S k) a b f =
  if 128 <? f then if bool_decide (at_ a b = Some (Z.lor (Z.land f 127) 128)) then match_header k a (b + 1) (sar f 7) else None
  else if bool_decide (at_ a b = Some f) then Some (b + 1) else None.
Proof. done. Qed.
Lemma match_header_leb k : forall f p s, 0 <= f < 128 ^ Z.of_nat (S k) -> f < 2 ^ 31 -> (forall j, 0 <= j -> f / 128 ^ j <> 128) ->
  match_header (S k) (p ++ leb128 (S k) f ++ s) (Z.of_nat (length p)) f = Some (Z.of_nat (length (p ++ leb128 (S k) f))).
Proof.
  induction k as [|k IH]; intros f p s Hf Hb Hc.
  - change (128 ^ Z.of_nat 1) with 128 in Hf. rewrite match_header_step. cbn [leb128]. rewrite (proj2 (Z.ltb_ge 128 f)), (proj2 (Z.ltb_lt f 128)) by lia.
    cbn [app]. by rewrite at_end_of, bool_decide_true, len_snoc.
  - rewrite match_header_step, leb128_step by lia. pose proof (Hc 0 ltac:(lia)) as H0. rewrite Z.div_1_r in H0.
    destruct (Z.ltb_spec f 128); destruct (Z.ltb_spec 128 f); try lia.
    + cbn [app]. by rewrite at_end_of, bool_decide_true, len_snoc.
    + rewrite <-app_comm_cons, at_end_of, marked_digit, bool_decide_true by done. unfold sar. rewrite i32_id, Z.shiftr_div_pow2 by lia.
      change (?x :: ?l ++ s) with ([x] ++ l ++ s). rewrite (app_assoc p), <-len_snoc with (b := f mod 128 + 128).
      rewrite Nat2Z.inj_succ, Z.pow_succ_r in Hf by lia.
      change (2 ^ 7) with 128. rewrite IH by (try (by apply comparable_div); pow_norm; euclid). by rewrite <-app_assoc.
Qed.
(** A header of another number is told apart. *)
Lemma match_header_other k : forall f g p s, 0 <= f < 2 ^ 31 -> 0 <= g -> f <> g -> (forall j, 0 <= j -> f / 128 ^ j <> 128) ->
  match_header (S k) (p ++ leb128 (S k) g ++ s) (Z.of_nat (length p)) f = None.
Proof.
  induction k as [|k IH]; intros f g p s Hf Hg Hn Hc; pose proof (Hc 0 ltac:(lia)) as H0; rewrite Z.div_1_r in H0;
    rewrite match_header_step, leb128_step by lia; pose proof (Z.mod_pos_bound f 128); pose proof (Z.mod_pos_bound g 128).
  - destruct (Z.ltb_spec g 128), (Z.ltb_spec 128 f); rewrite <-?app_comm_cons; cbn [app]; rewrite at_end_of, ?marked_digit;
      case_bool_decide as E; try done; injection E; intros; lia.
  - destruct (Z.ltb_spec g 128), (Z.ltb_spec 128 f); rewrite <-?app_comm_cons; cbn [app]; rewrite at_end_of, ?marked_digit;
      case_bool_decide as E; try done; injection E; intros; try lia.
    change (?x :: ?l ++ s) with ([x] ++ l ++ s). rewrite (app_assoc p), <-len_snoc with (b := g mod 128 + 128).
    unfold sar. rewrite i32_id, Z.shiftr_div_pow2 by lia. apply IH; [pow_norm; euclid|euclid|pow_norm; euclid|]. by apply comparable_div.
Qed.
Lemma leb_six d : 0 <= d < 2 ^ 42 -> leb d = leb128 6 d.
Proof. intros. unfold leb. change 10%nat with (6 + 4)%nat. by rewrite leb128_more by (change (128 ^ Z.of_nat 6) with (2 ^ 42); lia). Qed.
Lemma header_here d p s : comparable d = true -> header_at (p ++ leb d ++ s) (Z.of_nat (length p)) d = Some (Z.of_nat (length (p ++ leb d))).
Proof.
  intros (Hd & Hc)%comparable_spec. unfold header_at. rewrite leb_six by (pow_norm; lia).
  destruct (Z.ltb_spec d 128); [|by apply match_header_leb; [pow_norm; lia|lia|]].
  rewrite leb128_step, (proj2 (Z.ltb_lt d 128)) by lia. cbn [app]. by rewrite at_end_of, bool_decide_true, len_snoc.
Qed.
Lemma header_other d g p s : comparable d = true -> 0 <= g < 2 ^ 42 -> d <> g -> header_at (p ++ leb g ++ s) (Z.of_nat (length p)) d = None.
Proof.
  intros (Hd & Hc)%comparable_spec Hg Hn. unfold header_at. rewrite leb_six by done.
  destruct (Z.ltb_spec d 128); [|by apply match_header_other; [lia|lia| |]].
  pose proof (match_header_other 5 d g p s ltac:(lia) ltac:(lia) Hn Hc) as E. rewrite match_header_step in E.
  by rewrite (proj2 (Z.ltb_ge 128 d)) in E by lia.
Qed.

(** ** Values *)

Lemma value_end_leb k : forall f v p s, (k < f)%nat -> 0 <= v < 128 ^ Z.of_nat (S k) ->
  value_end f (p ++ leb128 (S k) v ++ s) (Z.of_nat (length p)) = Z.of_nat (length (p ++ leb128 (S k) v)).
Proof.
  induction k as [|k IH]; intros [|f] v p s Hf Hv; try lia; cbn [value_end]; rewrite leb128_step by lia.
  - change (128 ^ Z.of_nat 1) with 128 in Hv. rewrite (proj2 (Z.ltb_lt v 128)) by lia. cbn [app]. rewrite at_end_of. cbn [band].
    rewrite band_128, (proj2 (Z.ltb_lt v 128)), len_snoc by lia. done.
  - destruct (Z.ltb_spec v 128) as [Hs|Hs].
    + cbn [app]. rewrite at_end_of. cbn [band]. rewrite band_128, (proj2 (Z.ltb_lt v 128)), len_snoc by lia. done.
    + pose proof (Z.mod_pos_bound v 128 ltac:(lia)). rewrite <-app_comm_cons, at_end_of. cbn [band].
      rewrite band_128, (proj2 (Z.ltb_ge _ 128)) by lia. change (?x :: ?l ++ s) with ([x] ++ l ++ s).
      rewrite (app_assoc p), <-len_snoc with (b := v mod 128 + 128). rewrite Nat2Z.inj_succ, Z.pow_succ_r in Hv by lia.
      rewrite IH by (lia || euclid). by rewrite <-app_assoc.
Qed.
Lemma length_at_leb k : forall f v p s g h, (k < f)%nat -> 0 <= v < 128 ^ Z.of_nat (S k) ->
  length_at f (p ++ leb128 (S k) v ++ s) (Z.of_nat (length p)) g h = (Z.of_nat (length (p ++ leb128 (S k) v)), g + v * h).
Proof.
  induction k as [|k IH]; intros [|f] v p s g h Hf Hv; try lia; cbn [length_at]; rewrite leb128_step by lia.
  - change (128 ^ Z.of_nat 1) with 128 in Hv. rewrite (proj2 (Z.ltb_lt v 128)) by lia. cbn [app]. rewrite at_end_of. cbn [band].
    rewrite band_128, (proj2 (Z.ltb_lt v 128)), len_snoc, land_127, Z.mod_small by lia. done.
  - destruct (Z.ltb_spec v 128) as [Hs|Hs].
    + cbn [app]. rewrite at_end_of. cbn [band]. rewrite band_128, (proj2 (Z.ltb_lt v 128)), len_snoc, land_127, Z.mod_small by lia. done.
    + pose proof (Z.mod_pos_bound v 128 ltac:(lia)). rewrite <-app_comm_cons, at_end_of. cbn [band].
      rewrite band_128, (proj2 (Z.ltb_ge _ 128)) by lia. change (?x :: ?l ++ s) with ([x] ++ l ++ s).
      rewrite (app_assoc p), <-len_snoc with (b := v mod 128 + 128). rewrite Nat2Z.inj_succ, Z.pow_succ_r in Hv by lia.
      rewrite IH by (lia || euclid). rewrite <-app_assoc, land_127, mod_high. f_equal. rewrite (Z.div_mod v 128) at 3 by lia. lia.
Qed.

(** As many digits as there are. *)
Lemma leb128_exact m : forall v, 0 <= v < 128 ^ Z.of_nat (S m) ->
  exists k, leb128 (S m) v = leb128 (S k) v /\ length (leb128 (S k) v) = S k /\ v < 128 ^ Z.of_nat (S k).
Proof.
  induction m as [|m IH]; intros v Hv.
  - exists O. change (128 ^ Z.of_nat 1) with 128 in *. rewrite !leb128_step, (proj2 (Z.ltb_lt v 128)) by lia. split; [done|split; [done|lia]].
  - destruct (Z.lt_ge_cases v 128) as [Hs|Hs].
    + exists O. rewrite (leb128_step (S m)), (leb128_step 0), (proj2 (Z.ltb_lt v 128)) by lia. split; [done|split; [done|change (128 ^ Z.of_nat 1) with 128; lia]].
    + rewrite Nat2Z.inj_succ, Z.pow_succ_r in Hv by lia. destruct (IH (v / 128)) as (k & E & Hl & Hk); [euclid|].
      exists (S k). rewrite (leb128_step (S m)), (leb128_step (S k)), (proj2 (Z.ltb_ge v 128)) by lia. rewrite E. cbn [length].
      split; [done|]. split; [by rewrite Hl|]. rewrite (Nat2Z.inj_succ (S k)), Z.pow_succ_r by lia. euclid.
Qed.
Lemma leb_exact v : 0 <= v < 2 ^ 64 -> exists k, leb v = leb128 (S k) v /\ length (leb v) = S k /\ 0 <= v < 128 ^ Z.of_nat (S k).
Proof.
  intros Hv. destruct (leb128_exact 9 v) as (k & E & Hl & Hk); [change (128 ^ Z.of_nat 10) with (2 ^ 70); pow_norm; lia|].
  exists k. unfold leb. rewrite E. repeat split; [done|lia|done].
Qed.
Lemma value_end_leb_any v p s : 0 <= v < 2 ^ 64 ->
  let a := p ++ leb v ++ s in value_end (S (length a)) a (Z.of_nat (length p)) = Z.of_nat (length (p ++ leb v)).
Proof.
  intros Hv a. destruct (leb_exact v Hv) as (k & E & Hl & Hk). subst a.
  pose proof (length_app p (leb v ++ s)) as L1. pose proof (length_app (leb v) s) as L2. rewrite E in *. apply value_end_leb; [lia|done].
Qed.
Lemma length_at_leb_any v p s : 0 <= v < 2 ^ 64 ->
  let a := p ++ leb v ++ s in length_at (S (length a)) a (Z.of_nat (length p)) 0 1 = (Z.of_nat (length (p ++ leb v)), v).
Proof.
  intros Hv a. destruct (leb_exact v Hv) as (k & E & Hl & Hk). subst a.
  pose proof (length_app p (leb v ++ s)) as L1. pose proof (length_app (leb v) s) as L2. rewrite E in *.
  rewrite length_at_leb by (lia || done). f_equal. lia.
Qed.

(** ** Counting *)

(** A block of fields of one header, then nothing or another header. *)
Definition block (d : Z) (bodies : list (list Z)) : list Z := concat (map (fun b => leb d ++ b) bodies).
Definition other (d : Z) (rest : list Z) : Prop := rest = [] \/ exists g s, rest = leb g ++ s /\ 0 <= g < 2 ^ 42 /\ g <> d.

Lemma count_loop_block (next : list Z -> Z -> Z) d bodies rest : comparable d = true -> other d rest ->
  Forall (fun body => forall p s, next (p ++ body ++ s) (Z.of_nat (length p)) = Z.of_nat (length (p ++ body))) bodies ->
  forall fuel p e, let a := p ++ block d bodies ++ rest in (length (block d bodies ++ rest) <= fuel)%nat ->
  count_loop fuel (next a) a (Z.of_nat (length p)) (Z.of_nat (length a)) d e = e + Z.of_nat (length bodies).
Proof.
  intros Hd Hr Hb. assert (Hl : (1 <= length (leb d))%nat) by (apply leb_length; apply comparable_spec in Hd; lia).
  induction Hb as [|body bodies Hbody _ IH]; intros fuel p e a Hf.
  - subst a. cbn [block map concat app length] in *. rewrite Z.add_0_r. destruct fuel as [|fuel]; [done|]. cbn [count_loop].
    destruct Hr as [-> | (g & s & -> & Hg & Hn)]; [by rewrite app_nil_r, Z.ltb_irrefl|]. rewrite header_other by done. by destruct (_ <? _).
  - subst a. unfold block in *. cbn [map concat] in *. rewrite <-!app_assoc in *. rewrite !length_app in Hf.
    destruct fuel as [|fuel]; [lia|]. cbn [count_loop].
    rewrite (proj2 (Z.ltb_lt _ _)) by (rewrite !length_app; lia). rewrite header_here by done.
    rewrite (app_assoc p), Hbody. rewrite (app_assoc (p ++ leb d)). rewrite IH by (rewrite length_app; lia). cbn [length]. lia.
Qed.
Lemma count_fields_block (next : list Z -> Z -> Z) d bodies rest : comparable d = true -> other d rest ->
  Forall (fun body => forall p s, next (p ++ body ++ s) (Z.of_nat (length p)) = Z.of_nat (length (p ++ body))) bodies ->
  let a := block d bodies ++ rest in count_fields (next a) a 0 (Z.of_nat (length a)) d = Z.of_nat (length bodies).
Proof.
  intros Hd Hr Hb a. unfold count_fields. rewrite Z.sub_0_r, Nat2Z.id.
  exact (count_loop_block next d bodies rest Hd Hr Hb (length a) [] 0 (le_n _)).
Qed.

(** Each of the four functions counts the fields of a number at the head of a
    block, whatever their values, up to the end or to another header, if the
    header is one the comparison reads whole. *)
Theorem fields_counted n rest :
  (forall vs, comparable (8 * n + VARINT) = true -> other (8 * n + VARINT) rest -> forallb (fun v => (0 <=? v) && (v <? 2 ^ 64)) vs = true ->
     let a := block (8 * n + VARINT) (map leb vs) ++ rest in countVarintFields a 0 (Z.of_nat (length a)) n = Z.of_nat (length vs)) /\
  (forall vs, comparable (8 * n + FIXED32) = true -> other (8 * n + FIXED32) rest ->
     let a := block (8 * n + FIXED32) (map (le_bytes 4) vs) ++ rest in countFixed32Fields a 0 (Z.of_nat (length a)) n = Z.of_nat (length vs)) /\
  (forall vs, comparable (8 * n + FIXED64) = true -> other (8 * n + FIXED64) rest ->
     let a := block (8 * n + FIXED64) (map (le_bytes 8) vs) ++ rest in countFixed64Fields a 0 (Z.of_nat (length a)) n = Z.of_nat (length vs)) /\
  (forall bs, comparable (8 * n + DELIMITED) = true -> other (8 * n + DELIMITED) rest -> forallb size_ok bs = true ->
     let a := block (8 * n + DELIMITED) (map (fun b => leb (Z.of_nat (length b)) ++ b) bs) ++ rest in
     countDelimitedFields a 0 (Z.of_nat (length a)) n = Z.of_nat (length bs)).
Proof.
  assert (Hfix : forall k p (s body : list Z), length body = k -> Z.of_nat (length p) + Z.of_nat k = Z.of_nat (length (p ++ body)))
    by (intros k p s body <-; rewrite length_app; lia).
  split; [|split; [|split]].
  - intros vs Hd Hr Hv a. rewrite <-(length_map leb vs). apply (count_fields_block (fun a => value_end (S (length a)) a)); [done|done|].
    apply Forall_map, list.Forall_forall. intros v Hin p s. rewrite forallb_forall in Hv. specialize (Hv v (proj1 (list_elem_of_In _ _) Hin)).
    apply andb_true_iff in Hv as [H0%Z.leb_le H1%Z.ltb_lt]. by apply value_end_leb_any.
  - intros vs Hd Hr a. rewrite <-(length_map (le_bytes 4) vs). apply (count_fields_block (fun _ b => b + 4)); [done|done|].
    apply Forall_map, list.Forall_forall. intros v Hin p s. apply (Hfix 4%nat); [done|]. apply le_bytes_length.
  - intros vs Hd Hr a. rewrite <-(length_map (le_bytes 8) vs). apply (count_fields_block (fun _ b => b + 8)); [done|done|].
    apply Forall_map, list.Forall_forall. intros v Hin p s. apply (Hfix 8%nat); [done|]. apply le_bytes_length.
  - intros bs Hd Hr Hv a. rewrite <-(length_map (fun b => leb (Z.of_nat (length b)) ++ b) bs).
    apply (count_fields_block (fun a b => let '(b, g) := length_at (S (length a)) a b 0 1 in b + g)); [done|done|].
    apply Forall_map, list.Forall_forall. intros b Hin p s. rewrite forallb_forall in Hv. specialize (Hv b (proj1 (list_elem_of_In _ _) Hin)).
    apply size_ok_iff in Hv. rewrite <-!app_assoc, length_at_leb_any by lia. rewrite !length_app. lia.
Qed.
Lemma fields_counted_witness :
  countVarintFields (block 8 [[5]; [255; 1]] ++ [18; 0]) 0 7 1 = 2 /\ countDelimitedFields ([18; 0] ++ [8; 1]) 0 4 2 = 1.
Proof.
  destruct (fields_counted 1 [18; 0]) as (V & _). destruct (fields_counted 2 [8; 1]) as (_ & _ & _ & D).
  split; [apply (V [5; 255])|apply (D [[]])]; try done; right; [exists 18, [0]|exists 8, [1]]; done.
Defined.

(** The header of number 16 with a varint is 128: it is not told from the
    header's first byte alone, its second byte is taken for the value, and the
    fields behind the first are not found. *)
Lemma sixteen_miscounted : countVarintFields (block 128 [leb 5; leb 6]) 0 6 16 = 1.
Proof. reflexivity. Qed.
