(* ===== verification/BufferFindSpec.v ===== *)
(** Searching in buffers: [indexOf] finds the first place of what is looked for
    at the offset or after it, [lastIndexOf] the last at the offset or before,
    and both say -1 only when there is none. *)

From S2P Require Import Prelude JsVal Int32 TextEncoding Labels BufferMem BufferText Buffer BufferNum BufferFind BufferMemSpec.

(** ** Places *)

(** [v] is in [a] at index [i]. *)
Definition occurs (v a : list Z) (i : Z) : Prop :=
  0 <= i /\ forall j, 0 <= j < Z.of_nat (length v) -> at_ a (i + j) = at_ v j.

(** The indices a search from [s] may answer: those from [s] on, or those up
    to [s]. *)
Definition candidate (dir : bool) (s i : Z) : Prop := 0 <= i /\ if dir then s <= i else i <= s.

(** [r] is the nearest place to [s], or -1 and there is none. *)
Definition nearest (dir : bool) (v a : list Z) (s r : Z) : Prop :=
  (r = -1 /\ forall i, candidate dir s i -> ~ occurs v a i) \/
  (candidate dir s r /\ occurs v a r /\
   forall i, candidate dir s i -> occurs v a i -> if dir then r <= i else i <= r).

Lemma at_within a i : 0 <= i < Z.of_nat (length a) -> exists x, at_ a i = Some x.
Proof.
  intros H. unfold at_. rewrite (proj2 (Z.ltb_ge _ _)) by lia.
  apply lookup_lt_is_Some_2. lia.
Qed.

(** What occurs somewhere lies inside. *)
Lemma occurs_inside v a i : v <> [] -> occurs v a i -> i + Z.of_nat (length v) <= Z.of_nat (length a).
Proof.
  intros Hv [Hi H]. assert (0 < length v)%nat by (destruct v; [done|cbn; lia]).
  destruct (at_within v (Z.of_nat (length v) - 1) ltac:(lia)) as [x E].
  specialize (H (Z.of_nat (length v) - 1) ltac:(lia)). rewrite E in H. apply at_Some in H. lia.
Qed.
Lemma occurs_one x a i : occurs [x] a i <-> at_ a i = Some x.
Proof.
  split.
  - intros [Hi H]. specialize (H 0 ltac:(cbn; lia)). by rewrite Z.add_0_r in H.
  - intros E. pose proof (at_Some _ _ _ E). split; [lia|]. intros j Hj. cbn in Hj.
    replace j with 0 by lia. by rewrite Z.add_0_r, E.
Qed.

(** A place where it is not may be passed over. *)
Lemma nearest_skip dir v a s r : ~ occurs v a s ->
  nearest dir v a (if dir then s + 1 else s - 1) r -> nearest dir v a s r.
Proof.
  intros Hs [[-> N]|([? C] & O & N)]; [left|right].
  - split; [done|]. intros i [Hi C] O. destruct (Z.eq_dec i s) as [->|]; [done|].
    apply (N i); [split; [done|destruct dir; lia]|done].
  - split; [split; [done|destruct dir; lia]|]. split; [done|]. intros i [Hi Ci] Oi.
    destruct (Z.eq_dec i s) as [->|]; [done|]. apply (N i); [split; [done|destruct dir; lia]|done].
Qed.

(** ** The loops *)

Lemma read_byte {B} b p (k : option Z -> BM B) m : (read 1 b p ≫= k) m = k (at_ (bytes b m) p) m.
Proof. done. Qed.

Lemma forward_nearest arr val m : valid arr m -> valid val m -> 0 < len val ->
  forall fuel p found, let n := len arr in let q := default p found in
    0 <= q <= p -> p <= n -> p - q < len val -> (found = None -> p = q) ->
    (forall j, 0 <= j < p - q -> at_ (bytes arr m) (q + j) = at_ (bytes val m) j) ->
    (n - q) * n - (p - q) < Z.of_nat fuel ->
    exists r, forward fuel 1 arr val p found m = (Ret r, m) /\ nearest true (bytes val m) (bytes arr m) q r.
Proof.
  intros Va Vv Hpos. pose proof (len_eq arr m Va) as La. pose proof (len_eq val m Vv) as Lv.
  assert (Hne : bytes val m <> []) by (intros E; rewrite E in Lv; cbn in Lv; lia).
  induction fuel as [|f IH]; intros p found; cbn zeta; intros Hq Hp Hlt Hf Hm Hfuel; [nia|].
  set (q := default p found) in *. cbn [forward].
  assert (Ej : match found with None => 0 | Some q => p - q end = p - q).
  { unfold q in *. destruct found; cbn in *; [done|lia]. }
  rewrite Ej. destruct (Z.ltb_spec p (len arr)) as [Hin|Hend].
  - rewrite !read_byte.
    destruct (at_within (bytes val m) (p - q) ltac:(lia)) as [y Ey]. case_bool_decide as Exy; fold q.
    + assert (Hm' : forall j, 0 <= j < p + 1 - q -> at_ (bytes arr m) (q + j) = at_ (bytes val m) j).
      { intros j Hj. destruct (Z.eq_dec j (p - q)) as [->|]; [|apply Hm; lia].
        by replace (q + (p - q)) with p by lia. }
      destruct (Z.eqb_spec (p - q + 1) (len val)) as [El|El].
      * exists q. split; [done|]. right. split; [split; lia|]. split; [|by intros i [_ Hi] _].
        split; [lia|]. intros j Hj. apply Hm'. lia.
      * destruct (IH (p + 1) (Some q)) as (r & E & N); unfold default, id; first [done|lia|exact Hm'|eauto].
    + assert (Hno : ~ occurs (bytes val m) (bytes arr m) q).
      { intros [_ H]. specialize (H (p - q) ltac:(lia)). by replace (q + (p - q)) with p in H by lia. }
      destruct (IH (q + 1) None) as (r & E & N); unfold default; first [lia|nia|intros; lia|idtac].
      exists r. split; [done|]. by apply nearest_skip.
  - exists (-1). split; [done|]. left. split; [done|]. intros i [Hi Hqi] O.
    apply occurs_inside in O as Hi'; [|done]. lia.
Qed.

Lemma matches_occurs arr val p m : valid val m -> 0 <= p ->
  forall fuel j, 0 <= j <= len val -> len val - j < Z.of_nat fuel ->
    (forall k, 0 <= k < j -> at_ (bytes arr m) (p + k) = at_ (bytes val m) k) ->
    exists found, matches fuel 1 arr val p j m = (Ret found, m) /\
      (if found : bool then occurs (bytes val m) (bytes arr m) p else ~ occurs (bytes val m) (bytes arr m) p).
Proof.
  intros Vv Hp. pose proof (len_eq val m Vv) as Lv.
  induction fuel as [|f IH]; intros j Hj Hfuel Hm; cbn [matches]; destruct (Z.ltb_spec j (len val)) as [Hin|Hend]; try lia.
  - rewrite !read_byte. case_bool_decide as E.
    + apply IH; [lia|lia|]. intros k Hk. destruct (Z.eq_dec k j) as [->|]; [done|apply Hm; lia].
    + exists false. split; [done|]. intros [_ H]. apply E, H. lia.
  - exists true. split; [done|]. split; [done|]. intros k Hk. apply Hm. lia.
Qed.

Lemma backward_nearest arr val m : valid arr m -> valid val m ->
  forall fuel p, Z.max 0 (p + 1) < Z.of_nat fuel ->
    exists r, backward fuel 1 arr val p m = (Ret (At r), m) /\ nearest false (bytes val m) (bytes arr m) p r.
Proof.
  intros Va Vv. induction fuel as [|f IH]; intros p Hf; cbn [backward]; destruct (Z.leb_spec 0 p) as [Hp|Hp]; try lia.
  2: { exists (-1). split; [reflexivity|]. left. split; [done|]. intros i [Hi Hip]. lia. }
  unfold mbind at 1, BM_bind at 1.
  destruct (matches_occurs arr val p m Vv Hp (S (v_length val)) 0) as (found & -> & O); [unfold len; lia|unfold len; lia|intros; lia|].
  destruct found.
  - exists p. split; [done|]. right. split; [split; lia|]. split; [done|]. by intros i [_ Hi] _.
  - destruct (IH (p - 1) ltac:(lia)) as (r & E & N). exists r. split; [done|]. by apply nearest_skip.
Qed.

(** [Uint8Array.prototype.indexOf] and [lastIndexOf] on a byte. *)
Lemma first_byte_nearest x a : forall pre,
  nearest true [x] (pre ++ a) (Z.of_nat (length pre)) (first_byte a x (Z.of_nat (length pre))).
Proof.
  induction a as [|y a IH]; intros pre; cbn [first_byte].
  - left. split; [done|]. intros i [Hi Hs] O. apply occurs_inside in O; [|done].
    rewrite app_nil_r in O. cbn in O. lia.
  - assert (E : at_ (pre ++ y :: a) (Z.of_nat (length pre)) = Some y).
    { unfold at_. rewrite (proj2 (Z.ltb_ge _ _)), Nat2Z.id by lia. by apply list_lookup_middle. }
    destruct (Z.eqb_spec y x) as [->|Hn].
    + right. split; [split; lia|]. split; [by apply occurs_one|]. by intros i [_ Hi] _.
    + apply nearest_skip; [rewrite occurs_one, E; congruence|].
      specialize (IH (pre ++ [y])). rewrite length_app, <-app_assoc in IH. cbn in IH.
      by replace (Z.of_nat (length pre) + 1) with (Z.of_nat (length pre + 1)) by lia.
Qed.
Lemma last_byte_app a b x : forall i best,
  last_byte (a ++ b) x i best = last_byte b x (i + Z.of_nat (length a)) (last_byte a x i best).
Proof.
  induction a as [|y a IH]; intros i best; cbn [last_byte length Datatypes.app]; [by rewrite Z.add_0_r|].
  rewrite IH. f_equal. lia.
Qed.
Lemma last_byte_nearest x a n : (n < length a)%nat ->
  nearest false [x] a (Z.of_nat n) (last_byte (take (S n) a) x 0 (-1)).
Proof.
  induction n as [|n IH]; intros Hn; destruct (lookup_lt_is_Some_2 a _ Hn) as [y E];
    match type of E with _ !! ?k = _ => set (n' := k) in * end.
  all: assert (Ea : at_ a (Z.of_nat n') = Some y) by (unfold at_; rewrite (proj2 (Z.ltb_ge _ _)), Nat2Z.id by lia; done).
  all: rewrite (take_S_r _ _ y E), last_byte_app, length_take_le by lia; cbn [last_byte].
  all: destruct (Z.eqb_spec y x) as [->|Hxy].
  1, 3: right; split; [split; lia|]; split; [by apply occurs_one|]; by intros i [_ Hi] _.
  all: apply nearest_skip; [rewrite occurs_one, Ea; congruence|].
  - left. split; [done|]. intros i [Hi Hs] _. lia.
  - replace (Z.of_nat n' - 1) with (Z.of_nat n) by lia. apply IH. lia.
Qed.

(** ** The operations *)

(** What is looked for: the bytes of a buffer, or a number's low byte. *)
Definition needle (val : value) (m : mem) : option (list Z) :=
  match val with
  | VView true c => Some (bytes c m)
  | VNum x => Some [Z.land (i32 x) 0xFF]
  | _ => None
  end.
(** A negative offset counts from the end. *)
Definition from_offset (b : view) (o : Z) : Z := if o <? 0 then len b + o else o.

Lemma nearest_none dir v a s : v <> [] -> (forall i, candidate dir s i -> Z.of_nat (length a) < i + Z.of_nat (length v)) ->
  nearest dir v a s (-1).
Proof.
  intros Hv H. left. split; [done|]. intros i Hi O. specialize (H i Hi). apply occurs_inside in O; [lia|done].
Qed.
(** Offsets with the same candidates where the needle fits have the same answers. *)
Lemma nearest_same dir v a s s' r : v <> [] ->
  (forall i, 0 <= i -> i + Z.of_nat (length v) <= Z.of_nat (length a) -> candidate dir s i <-> candidate dir s' i) ->
  nearest dir v a s r -> nearest dir v a s' r.
Proof.
  intros Hv H [[-> N]|(C & O & N)]; [left|right].
  - split; [done|]. intros i Hi O. apply (N i); [|done]. apply H; try done; [apply Hi|by apply occurs_inside].
  - split; [apply H; try done; [apply C|by apply occurs_inside]|]. split; [done|].
    intros i Hi Oi. apply N; [|done]. apply H; try done; [apply Hi|by apply occurs_inside].
Qed.

Lemma find_offset_num b o dir : - 2 ^ 31 <= o < 2 ^ 31 ->
  find_offset b (VNum o) dir =
    let s := from_offset b o in
    if len b <=? s then (if dir then None else Some (len b - 1))
    else if s <? 0 then (if dir then Some 0 else None) else Some s.
Proof.
  intros Ho. unfold find_offset, from_offset. cbv zeta.
  rewrite (proj2 (Z.ltb_ge 0x7fffffff o)), (proj2 (Z.ltb_ge o (-0x80000000))) by lia. done.
Qed.

Lemma arrayIndexOf_nearest arr val m o dir : valid arr m -> valid val m -> 0 < len val -> 0 <= o < len arr ->
  exists r, arrayIndexOf arr val o VUndef dir m = (Ret (At r), m) /\ nearest dir (bytes val m) (bytes arr m) o r.
Proof.
  intros Va Vv Hpos Ho. pose proof (len_eq arr m Va) as La. pose proof (len_eq val m Vv) as Lv.
  assert (Hne : bytes val m <> []) by (intros E; rewrite E in Lv; cbn in Lv; lia).
  unfold arrayIndexOf. cbn [ucs2_name andb]. destruct dir.
  - destruct (forward_nearest arr val m Va Vv Hpos (S (v_length arr) * S (v_length arr)) o None) as (r & E & N);
      unfold default; first [done|lia|intros; lia|unfold len; nia|idtac].
    exists r. split; [|done]. unfold mbind, BM_bind. by rewrite E.
  - destruct (backward_nearest arr val m Va Vv (S (S (v_length arr)))
                (if len arr <? o + len val then len arr - len val else o)) as (r & E & N).
    { unfold len in *. bdestr; lia. }
    exists r. split; [done|]. eapply nearest_same, N; [done|]. intros i Hi Hf. unfold candidate.
    bdestr; lia.
Qed.

(** [indexOf] answers the first place, at the offset or after it, of a buffer
    or byte that is looked for, and [lastIndexOf] the last place at the offset
    or before it; they answer -1 exactly when there is none, and change nothing. *)
Theorem indexOf_nearest b val v o dir m : valid b m -> - 2 ^ 31 <= o < 2 ^ 31 ->
  (forall c, val = VView true c -> valid c m) -> needle val m = Some v -> v <> [] ->
  exists r, (if dir : bool then indexOf else lastIndexOf) b val (VNum o) VUndef m = (Ret (At r), m) /\
    nearest dir v (bytes b m) (from_offset b o) r.
Proof.
  intros Vb Ho Vv Hn Hne. pose proof (len_eq b m Vb) as Lb. assert (0 < length v)%nat by (destruct v; [done|cbn; lia]).
  assert (E0 : (if dir : bool then indexOf else lastIndexOf) b val (VNum o) VUndef
               = bidirectionalIndexOf b val (VNum o) VUndef dir) by (by destruct dir).
  rewrite E0. clear E0. unfold bidirectionalIndexOf. destruct (Z.eqb_spec (len b) 0) as [E|Hb].
  { exists (-1). split; [done|]. apply nearest_none; [done|]. intros i [Hi _]. lia. }
  rewrite find_offset_num by done. cbv zeta. set (s := from_offset b o).
  assert (Hin : forall o', 0 <= o' < len b -> exists r,
    (match val with
     | VView true c => if len c =? 0 then mret (At (-1)) else arrayIndexOf b c o' VUndef dir
     | VNum _ | VNaN => bs ← all_bytes b; mret (At (byte_index bs (Z.land (i32 (default 0 (to_num val))) 0xFF) o' dir))
     | _ => throw_ TypeErr (js "val must be string, number or Buffer")
     end) m = (Ret (At r), m) /\ nearest dir v (bytes b m) o' r).
  { intros o' Ho'. destruct val as [| | |n| | |[] c| | |]; try discriminate Hn; injection Hn as <-.
    - exists (byte_index (bytes b m) (Z.land (i32 n) 255) o' dir). split; [done|]. unfold byte_index. destruct dir.
      + pose proof (first_byte_nearest (Z.land (i32 n) 255) (skipn (Z.to_nat o') (bytes b m)) (take (Z.to_nat o') (bytes b m))) as N.
        rewrite take_drop, length_take_le, Z2Nat.id in N by lia. exact N.
      + pose proof (last_byte_nearest (Z.land (i32 n) 255) (bytes b m) (Z.to_nat o') ltac:(lia)) as N.
        rewrite Z2Nat.id in N by lia. by replace (Z.to_nat (o' + 1)) with (S (Z.to_nat o')) by lia.
    - specialize (Vv c eq_refl). pose proof (len_eq c m Vv). rewrite (proj2 (Z.eqb_neq _ _)) by lia.
      apply arrayIndexOf_nearest; (done || lia). }
  assert (Hgo : forall o' r, nearest dir v (bytes b m) o' r ->
    (forall i, 0 <= i -> i + Z.of_nat (length v) <= len b -> candidate dir o' i <-> candidate dir s i) ->
    nearest dir v (bytes b m) s r).
  { intros o' r N H'. eapply nearest_same, N; [done|]. by rewrite <-Lb. }
  unfold mbind at 1, BM_bind at 1.
  assert (Hval : match val with VStr _ => False | _ => True end) by (by destruct val).
  destruct (Z.leb_spec (len b) s).
  - destruct dir.
    + exists (-1). split; [done|]. apply nearest_none; [done|]. intros i [_ Hi]. lia.
    + destruct (Hin (len b - 1)) as (r & E & N); [lia|]. exists r. split; [by destruct val|].
      eapply Hgo; [exact N|]. intros i. unfold candidate. lia.
  - destruct (Z.ltb_spec s 0).
    + destruct dir.
      * destruct (Hin 0) as (r & E & N); [lia|]. exists r. split; [by destruct val|].
        eapply Hgo; [exact N|]. intros i. unfold candidate. lia.
      * exists (-1). split; [done|]. apply nearest_none; [done|]. intros i [? Hi]. lia.
    + destruct (Hin s) as (r & E & N); [lia|]. exists r. split; [by destruct val|done].
Qed.
Lemma indexOf_nearest_witness :
  let m := [[1; 2; 1; 2; 1]; [2; 1]] in
  exists r, lastIndexOf (View 0 0 5) (VView true (View 1 0 2)) (VNum (-3)) VUndef m = (Ret (At r), m) /\
    nearest false [2; 1] [1; 2; 1; 2; 1] 2 r.
Proof.
  apply (indexOf_nearest (View 0 0 5) (VView true (View 1 0 2)) [2; 1] (-3) false [[1; 2; 1; 2; 1]; [2; 1]]);
    [split; cbn; lia|lia|intros c [= <-]; split; cbn; lia|done|done].
Defined.

(** With an encoding of two-byte units [lastIndexOf] answers the unit's number
    instead of its index, and [indexOf] of a buffer with an odd number of
    bytes reads past its end. *)
Example last_unit_halved :
  fst (lastIndexOf (View 0 0 4) (VStr (js "b")) VUndef (VStr (js "ucs2")) [[97; 0; 98; 0]]) = Ret (At 1).
Proof. vm_compute. reflexivity. Qed.
Example odd_length_throws : exists e,
  fst (indexOf (View 0 0 3) (VStr (js "x")) VUndef (VStr (js "ucs2")) [[1; 2; 3]]) = Throw (JErr RangeErr e).
Proof. vm_compute. eauto. Qed.
