(* ===== verification/ProcessSpec.v ===== *)
(** [process.nextTick] is a first-in first-out queue of calls: the shim, with
    its two queues, its index and its two timers, refines that specification,
    and a call that throws costs no other call its turn. *)

From S2P Require Import Prelude JsVal Process.

(** ** The specification *)

(** Calls that wait, and calls that were made. *)
Definition fifo : Type := list item * list (nat * list jsval).

(** Make the waiting calls, first come first served, until one throws or none
    waits; what a call submits goes to the end. *)
Fixpoint serve (fuel : nat) (p : list item) (l : list (nat * list jsval)) : bool * fifo :=
  match fuel, p with
  | S f, i :: p =>
      if item_throws i then (true, (p ++ item_spawns i, l ++ [applied i]))
      else serve f (p ++ item_spawns i) (l ++ [applied i])
  | _, _ => (false, (p, l))
  end.
Definition spec_step (a : fifo) (e : event) : fifo :=
  match e with
  | Tick i => (a.1 ++ [i], a.2)
  | Fire => (serve (total a.1) a.1 a.2).2
  end.

(** The calls the shim still has to make: the rest of the queue it was working
    on, then the queue. *)
Definition pending (s : process) : list item :=
  match currentQueue s with Some cq => drop (Z.to_nat (queueIndex s + 1)) cq | None => [] end ++ queue s.
Definition abs (s : process) : fifo := (pending s, log s).

(** ** The states between events *)

Inductive Inv : process -> Prop :=
  | Idle n l : Inv (Process [] false None (-1) [] n l)
  | Armed q t n l : q <> [] -> Inv (Process q false None (-1) [(t, DrainQueue)] n l)
  | Failed q cq k t n l : (k < length cq)%nat ->
      Inv (Process q true (Some cq) (Z.of_nat k) [(t, CleanUpNextTick)] n l).

(** ** Sizes *)

Lemma total_app p q : total (p ++ q) = (total p + total q)%nat.
Proof. unfold total. by rewrite map_app, list_sum_app. Qed.
Lemma total_cons i p : total (i :: p) = S (total (item_spawns i) + total p).
Proof. destruct i. reflexivity. Qed.
Lemma total_length p : (length p <= total p)%nat.
Proof. induction p as [|i p IH]; [done|]. rewrite total_cons. cbn. lia. Qed.
Lemma total_drop k p : (total (drop k p) <= total p)%nat.
Proof. rewrite <-(take_drop k p) at 2. rewrite total_app. lia. Qed.

(** ** One queue *)

(** The calls of a queue [rest] while new ones gather in [q]: what is left of
    it when one throws. *)
Fixpoint batch (rest q : list item) l : option (list item) * list item * list (nat * list jsval) :=
  match rest with
  | [] => (None, q, l)
  | i :: rest =>
      if item_throws i then (Some rest, q ++ item_spawns i, l ++ [applied i])
      else batch rest (q ++ item_spawns i) (l ++ [applied i])
  end.

Lemma serve_batch rest : forall q l fuel, (length rest <= fuel)%nat ->
  serve fuel (rest ++ q) l =
    match batch rest q l with
    | (Some rest', q', l') => (true, (rest' ++ q', l'))
    | (None, q', l') => serve (fuel - length rest) q' l'
    end.
Proof.
  induction rest as [|i rest IH]; intros q l fuel Hf; cbn [batch app length].
  - by rewrite Nat.sub_0_r.
  - cbn in Hf. destruct fuel; [lia|]. cbn [serve Nat.sub]. rewrite <-app_assoc.
    destruct (item_throws i); [done|]. apply IH. lia.
Qed.

Lemma batch_total rest : forall q l q' l', batch rest q l = (None, q', l') ->
  (total q' + length rest = total q + total rest)%nat.
Proof.
  induction rest as [|i rest IH]; intros q l q' l' E; cbn [batch] in E; [simplify_eq; cbn; lia|].
  destruct (item_throws i); [done|]. apply IH in E. rewrite total_app in E. rewrite total_cons.
  cbn. lia.
Qed.
Lemma batch_rest rest : forall q l r q' l', batch rest q l = (Some r, q', l') ->
  exists done, rest = done ++ r /\ done <> [].
Proof.
  induction rest as [|i rest IH]; intros q l r q' l' E; cbn [batch] in E; [done|].
  destruct (item_throws i); [simplify_eq; by exists [i]|].
  apply IH in E as (d & -> & _). by exists (i :: d).
Qed.

(** While the queue is drained, [nextTick] only appends. *)
Lemma spawn_draining js : forall q c k tm n l,
  fold_left (fun s j => nextTick j s) js (Process q true c k tm n l) = Process (q ++ js) true c k tm n l.
Proof.
  induction js as [|j js IH]; intros; cbn [fold_left]; [by rewrite app_nil_r|].
  unfold nextTick at 2. cbn [draining set_queue]. rewrite andb_false_r. unfold set_queue. cbn.
  by rewrite IH, <-app_assoc.
Qed.
Lemma run_draining i q c k tm n l :
  run i (Process q true c k tm n l) =
  (if item_throws i then Threw else Returned,
   Process (q ++ item_spawns i) true c k tm n (l ++ [applied i])).
Proof. unfold run, set_log. cbn [queue draining currentQueue queueIndex timers nextTimer log]. by rewrite spawn_draining. Qed.

Lemma inner_loop_batch cq tm n : forall fuel k q l, (length cq < k + fuel)%nat -> (k <= length cq)%nat ->
  inner_loop fuel (Z.of_nat (length cq)) (Process q true (Some cq) (Z.of_nat k - 1) tm n l) =
    match batch (drop k cq) q l with
    | (Some r, q', l') => (Threw, Process q' true (Some cq) (Z.of_nat (length cq - length r) - 1) tm n l')
    | (None, q', l') => (Returned, Process q' true (Some cq) (Z.of_nat (length cq)) tm n l')
    end.
Proof.
  induction fuel as [|fuel IH]; intros k q l Hf Hk; [lia|]. cbn [inner_loop].
  unfold set_queueIndex. cbn [queue draining currentQueue queueIndex timers nextTimer log].
  replace (Z.of_nat k - 1 + 1) with (Z.of_nat k) by lia.
  destruct (Z.ltb_spec (Z.of_nat k) (Z.of_nat (length cq))) as [Hl|Hl].
  - destruct (lookup_lt_is_Some_2 cq k) as [i Hi]; [lia|]. rewrite Nat2Z.id, Hi, run_draining.
    rewrite (drop_S cq i k) by done. cbn [batch]. destruct (item_throws i).
    + do 2 f_equal. rewrite length_drop. lia.
    + replace (Z.of_nat k) with (Z.of_nat (S k) - 1) at 1 by lia. apply IH; lia.
  - replace k with (length cq) in * by lia. by rewrite drop_all.
Qed.

(** ** The whole drain *)

(** How a drain ends, by what the specification makes of the same calls. *)
Definition drained (tm : list (nat * callback)) n (spec : bool * fifo) (o : result * process) : Prop :=
  match spec with
  | (true, (p, l)) => exists q cq j,
      o = (Threw, Process q true (Some cq) (Z.of_nat j) tm n l) /\
      (j < length cq)%nat /\ drop (S j) cq ++ q = p
  | (false, (p, l)) => p = [] /\ exists c, o = (Returned, Process [] true c (-1) tm n l)
  end.

Lemma drain_loop_nil tm n fuel k c l F : (k <= 0)%nat ->
  drained tm n (serve F (drop k []) l) (drain_loop fuel (Process [] true c (Z.of_nat k - 1) tm n l)).
Proof. intros Hk. destruct k; [|lia]. destruct fuel, F; cbn; eauto. Qed.

Lemma drain_loop_serve tm n : forall fuel q k c l F,
  (k <= length q)%nat -> (total q <= fuel)%nat -> (total (drop k q) <= F)%nat ->
  drained tm n (serve F (drop k q) l) (drain_loop fuel (Process q true c (Z.of_nat k - 1) tm n l)).
Proof.
  induction fuel as [|fuel IH]; intros q k c l F Hk Hf HF;
    (destruct (decide (q = [])) as [->|Hq]; [by apply drain_loop_nil|]).
  { pose proof (total_length q). destruct q; [done|cbn in *; lia]. }
  assert (Hlen : (1 <= length q)%nat) by (destruct q; [done|cbn; lia]).
  cbn [drain_loop queue]. rewrite (proj2 (Z.eqb_neq _ 0)) by lia.
  unfold set_queue, set_currentQueue. cbn [queue draining currentQueue queueIndex timers nextTimer log].
  rewrite Nat2Z.id, inner_loop_batch by lia.
  pose proof (total_length (drop k q)) as Hd.
  rewrite <-(app_nil_r (drop k q)), serve_batch, app_nil_r by lia.
  destruct (batch (drop k q) [] l) as [[[r|] q'] l'] eqn:E.
  - apply batch_rest in E as (d & E & Hne). assert (Hl := f_equal length E).
    rewrite length_drop, length_app in Hl. assert (1 <= length d)%nat by (destruct d; [done|cbn; lia]).
    exists q', q, (length q - length r - 1)%nat. split; [do 2 f_equal; lia|]. split; [lia|].
    f_equal. replace (S (length q - length r - 1)) with (k + length d)%nat by lia.
    by rewrite <-drop_drop, E, drop_app_length.
  - apply batch_total in E. cbn in E. unfold set_queueIndex.
    cbn [queue draining currentQueue queueIndex timers nextTimer log]. pose proof (total_drop k q).
    apply (IH q' 0%nat (Some q) l' (F - length (drop k q))%nat); [lia| |change (drop 0 q') with q'; lia].
    destruct (decide (length (drop k q) = 0)%nat) as [Ez|]; [|lia].
    apply nil_length_inv in Ez. rewrite Ez in E. change (total []) with 0%nat in E. cbn in E. lia.
Qed.

(** ** The refinement *)

Lemma clear_own t tm n l q c k :
  runClearTimeout t (Process q false c k [(t, tm)] n l) = Process q false c k [] n l.
Proof. unfold runClearTimeout, set_timers. cbn. by rewrite Nat.eqb_refl. Qed.

(** Draining from a state without timers, [k] calls of the queue already made. *)
Lemma drainQueue_serve q k c n l : (k <= length q)%nat ->
  let s := (drainQueue (Process q false c (Z.of_nat k - 1) [] n l)).2 in
  Inv s /\ abs s = (serve (total (drop k q)) (drop k q) l).2.
Proof.
  intros Hk. unfold drainQueue, runTimeout, set_timers, set_draining.
  cbn [queue draining currentQueue queueIndex timers nextTimer log fst snd app].
  pose proof (drain_loop_serve [(n, CleanUpNextTick)] (S n) (total q) q k c l (total (drop k q))
                Hk ltac:(lia) ltac:(lia)) as H.
  destruct (serve _ _ _) as [[] [p l']].
  - destruct H as (q' & cq & j & -> & Hj & Hp). cbn [snd]. split; [by constructor|].
    unfold abs, pending. cbn. replace (Z.to_nat (Z.of_nat j + 1)) with (S j) by lia. by rewrite Hp.
  - destruct H as (-> & c' & ->). cbn [snd]. unfold set_draining, set_currentQueue.
    cbn [queue draining currentQueue queueIndex timers nextTimer log]. rewrite clear_own.
    split; [constructor|done].
Qed.

Lemma step_refines s e : Inv s -> Inv (step s e) /\ abs (step s e) = spec_step (abs s) e.
Proof.
  intros [n l|q t n l Hq|q cq k t n l Hk]; destruct e as [i|].
  - split; [by constructor|done].
  - split; [constructor|done].
  - destruct q as [|j q]; [done|]. unfold step, nextTick, set_queue. cbn.
    replace (length (q ++ [i]) =? 0)%nat with false
      by (symmetry; apply Nat.eqb_neq; rewrite length_app; cbn; lia).
    split; [by constructor|done].
  - cbn [step timers]. unfold set_timers. cbn [queue draining currentQueue queueIndex timers nextTimer log].
    pose proof (drainQueue_serve q 0 None n l ltac:(lia)) as H. exact H.
  - unfold step, nextTick, set_queue. cbn. rewrite andb_false_r.
    split; [by constructor|]. unfold abs, pending. cbn. by rewrite app_assoc.
  - cbn [step timers]. unfold set_timers, cleanUpNextTick.
    cbn [queue draining currentQueue queueIndex timers nextTimer log].
    destruct (decide (cq = [])) as [->|Hcq]; [cbn in Hk; lia|]. unfold set_draining, set_queue.
    cbn [queue draining currentQueue queueIndex timers nextTimer log].
    destruct (decide (cq ++ q = [])) as [[]%app_nil|_]; [done|].
    replace (Z.of_nat k) with (Z.of_nat (S k) - 1) by lia.
    pose proof (drainQueue_serve (cq ++ q) (S k) (Some cq) n l) as [HI HA]; [rewrite length_app; lia|].
    split; [exact HI|]. rewrite HA. unfold abs, pending, spec_step. cbn [fst snd currentQueue queueIndex queue log].
    replace (Z.to_nat (Z.of_nat (S k) - 1 + 1)) with (S k) by lia. by rewrite drop_app_le by lia.
Qed.

Lemma steps_refine es : forall s, Inv s ->
  Inv (steps s es) /\ abs (steps s es) = fold_left spec_step es (abs s).
Proof.
  induction es as [|e es IH]; intros s Hs; [done|]. destruct (step_refines s e Hs) as [HI HA].
  cbn [steps fold_left]. rewrite <-HA. by apply IH.
Qed.
Lemma Inv_new : Inv new_process.
Proof. constructor. Qed.

(** C30. Whatever is submitted and whenever the timers fire, the shim's waiting
    calls and the calls it has made are those of the queue. *)
Theorem process_refines_fifo es : abs (steps new_process es) = fold_left spec_step es ([], []).
Proof. apply steps_refine, Inv_new. Qed.

(** ** Every call gets its turn *)

(** The waiting calls and those they lead to, in order, whether they throw or
    not. *)
Fixpoint all_calls (fuel : nat) (p : list item) : list (nat * list jsval) :=
  match fuel, p with
  | S f, i :: p => applied i :: all_calls f (p ++ item_spawns i)
  | _, _ => []
  end.

Lemma serve_calls F : forall p l, (total p <= F)%nat ->
  let '(_, (p', l')) := serve F p l in
  (total p' <= total p)%nat /\ (p <> [] -> (total p' < total p)%nat) /\
  l' ++ all_calls (total p') p' = l ++ all_calls (total p) p.
Proof.
  induction F as [|F IH]; intros p l HF.
  { destruct p; [done|]. rewrite total_cons in HF. lia. }
  destruct p as [|i p]; [done|]. cbn [serve]. rewrite total_cons in *.
  assert (Ht : total (p ++ item_spawns i) = (total (item_spawns i) + total p)%nat) by (rewrite total_app; lia).
  destruct (item_throws i).
  - rewrite Ht. cbn [all_calls]. rewrite <-app_assoc. repeat split; [lia|lia].
  - specialize (IH (p ++ item_spawns i) (l ++ [applied i]) ltac:(lia)).
    destruct (serve F _ _) as [b [p' l']]. destruct IH as (H1 & _ & H3). rewrite Ht in *.
    split; [lia|]. split; [lia|]. rewrite H3. cbn [all_calls]. by rewrite <-app_assoc.
Qed.

Lemma serve_all k : forall s, Inv s -> (total (pending s) <= k)%nat ->
  let s' := steps s (repeat Fire k) in
  pending s' = [] /\ log s' = log s ++ all_calls (total (pending s)) (pending s).
Proof.
  induction k as [|k IH]; intros s Hs Hk.
  - pose proof (total_length (pending s)). destruct (pending s) eqn:E; [|cbn in *; lia].
    cbn. rewrite E. by rewrite app_nil_r.
  - destruct (step_refines s Fire Hs) as [HI HA]. cbn [repeat steps fold_left].
    pose proof (serve_calls (total (pending s)) (pending s) (log s) ltac:(lia)) as H.
    unfold abs, spec_step in HA. cbn [fst snd] in HA.
    destruct (serve _ _ _) as [b [p' l']]. cbn [snd] in HA. destruct H as (H1 & H2 & H3). simplify_eq.
    destruct (IH (step s Fire) HI) as [E1 E2].
    { destruct (pending s); [cbn in *; lia|]. specialize (H2 ltac:(done)). lia. }
    split; [done|]. unfold steps in E2. rewrite E2. congruence.
Qed.

(** C31. However the calls before it behaved, every submitted call is made after
    finitely many timers, once, in the order of submission. *)
Theorem every_call_made es : exists n,
  let s := steps new_process es in
  let s' := steps s (repeat Fire n) in
  pending s' = [] /\ log s' = log s ++ all_calls (total (pending s)) (pending s).
Proof.
  exists (total (pending (steps new_process es))). apply serve_all; [|lia].
  apply steps_refine, Inv_new.
Qed.

(** A timer is set whenever a call waits. *)
Theorem timer_while_pending es : pending (steps new_process es) <> [] -> timers (steps new_process es) <> [].
Proof. destruct (proj1 (steps_refine es new_process Inv_new)); intros Hp; done. Qed.
