(* ===== verification/AppsSpec.v ===== *)
(** The example applications: the address they dial, what their send buttons
    put on the wire and on the page, and the chat of the protobuf application
    from one page to the other. *)

From S2P Require Import Prelude JsVal JsMap TextEncoding Utf8Step Message CodecLaws MessageSpec World Conn.
From S2P Require Import ConnInv System ConnSpec Dial Wire WireReader WireSpec WireFields UserMessage.
From S2P Require Import UserMessageSpec Apps.

(** ** Running a handler *)

Lemma app_bind {A B} (m : AM A) (f : A -> AM B) s a s' :
  m s = (Ret a, s') -> (m ≫= f) s = f a s'.
Proof. unfold mbind, AM_bind. by intros ->. Qed.
Lemma app_throw {A B} (m : AM A) (f : A -> AM B) s e s' :
  m s = (Throw e, s') -> (m ≫= f) s = (Throw e, s').
Proof. unfold mbind, AM_bind. by intros ->. Qed.
Lemma client_ret {A} (m : M A) p w a w' :
  m w = (Ret a, w') -> client m (App p w) = (Ret a, App p w').
Proof. unfold client. cbn. by intros ->. Qed.

(** ** The address *)

(** The address the applications put together is the one the library itself
    makes of the path "/echo", and the library dials it unchanged. *)
Theorem wsURL_endpoint isBrowser loc :
  wsURL loc = dial_endpoint true loc (js "/echo") /\
  dial_endpoint isBrowser loc (wsURL loc) = wsURL loc.
Proof.
  assert (Hc : forall s, contains (js "ws") (js "ws" ++ s) = true) by (intros s; reflexivity).
  assert (Hs : forall s, contains (js "ws") (js "wss" ++ s) = true) by (intros s; reflexivity).
  assert (Hn : forall s, strip (js "/") (js "ws" ++ s) = None) by (intros s; reflexivity).
  assert (Hm : forall s, strip (js "/") (js "wss" ++ s) = None) by (intros s; reflexivity).
  unfold wsURL, dial_endpoint. change (strip (js "/") (js "/echo")) with (Some (js "echo")).
  destruct (loc_protocol loc ==? js "https:"), (loc_port loc ==? []);
    rewrite ?Hn, ?Hm, ?Hc, ?Hs; done.
Qed.

(** ** The handler tables *)

(** Both handler objects make a table with the one namespace "default". *)
Lemma handlers_resolve :
  (exists evs, resolveNamespaces (Some json_handlers) = inl (<[Some default_namespace := evs]> jm_new) /\
     map fst (map snd (jm_ents evs)) =
       [Some OnNamespaceConnected; Some OnNamespaceDisconnect; Some OnRoomJoined; Some OnRoomLeft;
        Some (js "notify"); Some chat_event]) /\
  (exists evs, resolveNamespaces (Some protobuf_handlers) = inl (<[Some default_namespace := evs]> jm_new) /\
     map fst (map snd (jm_ents evs)) =
       [Some OnNamespaceConnected; Some OnNamespaceDisconnect; Some chat_event; Some (js "chat_test")]).
Proof. split; eexists; (split; [reflexivity|vm_compute; reflexivity]). Qed.

(** ** The basic application *)

(** The button of the basic application sends nothing: any text but "leave"
    ends in a ReferenceError, after the input has been cleared. *)
Theorem basic_sends_nothing `{TextCodec} `{Env} p w c :
  sendBtn_onclick p = Some c -> inputTxt p <> js "leave" ->
  basic_send (App p w) = (Throw (JErr ReferenceErr (js "toID is not defined")),
    App (Page (outputTxt p) [] (inputToTxt p) (sendBtn_disabled p) (sendBtn_onclick p)
           (answers p) (alerts p)) w).
Proof.
  intros Hc Hi. destruct c as [ns v]. unfold basic_send, of_page, clear_input, upd_page, of_outcome.
  unfold mbind, AM_bind. cbn [a_page a_world]. rewrite Hc. cbn -[bool_decide js].
  rewrite (bool_decide_eq_false_2 (inputTxt p = js "leave") Hi). cbv beta iota. by rewrite Hc.
Qed.

(** ** The chat of the protobuf application *)

(** A client whose connection is open and has the namespace "default". *)
Definition on_default (w : world) (ns : nsref) : Prop :=
  c_closed (w_conn w) = false /\
  (exists nsc, h_nsconns (w_heap w) !! ns = Some nsc /\ ns_namespace nsc = Some default_namespace) /\
  is_Some (c_connectedNamespaces (w_conn w) !! Some default_namespace).

(** The message [emitBinary("chat", body)] makes. *)
Definition binary_chat_message (body : list Z) : message :=
  set_SetBinary true (set_Body (JBytes body) (set_Event (Some chat_event)
    (set_Namespace (Some default_namespace) new_Message))).

Lemma binary_chat_message_clean body : clean_message (binary_chat_message body).
Proof.
  split; [apply (bool_decide_unpack _); by vm_compute|].
  repeat split; apply not_ambiguous; apply (bool_decide_unpack _); by vm_compute.
Qed.

Section chat.
Context `{TextCodecLaws} `{Env}.

(** Emitting it sends the one frame the other end takes apart again. *)
Lemma emitBinary_sends w ns body : on_default w ns ->
  exists data w', NSConn_emitBinary ns (Some chat_event) (JBytes body) w = (Ret true, w') /\
    io_sent (w_io w') = io_sent (w_io w) ++ [JBytes data] /\
    deserializeMessage (Binary data) false = received (binary_chat_message body) (JBuffer body) false.
Proof.
  destruct w as [co [ms os ps jobs] [se op cl ti fi]]. intros (Hc & (nsc & Hns & En) & (r & Hr)).
  cbn [w_conn w_heap h_nsconns] in *. destruct (binary_frame_read (binary_chat_message body) body false) as (data & Es & Ed);
    [by left|apply binary_chat_message_clean|repeat split; by vm_compute|done|done|].
  exists data. eexists. split; [|split; [|exact Ed]].
  - unfold NSConn_emitBinary, ns_message, get_ns. run. cbn [w_heap h_nsconns]. rewrite Hns. cbn [default id from_option]. rewrite En.
    unfold alloc_msg. erewrite bind_ret by reflexivity.
    rewrite (write_eq _ _ (binary_chat_message body)) by (cbn; by rewrite list_lookup_middle).
    unfold may_write. cbn [w_conn upd_heap]. rewrite Hc.
    change (Namespace (binary_chat_message body)) with (Some default_namespace). rewrite Hr.
    rewrite Es. reflexivity.
  - reflexivity.
Qed.
End chat.

(** ** From one page to the other *)

Section page.
Context `{TextCodecLaws} `{Env}.

(** The page after [sendBtn.onclick] and after a line was added. *)
Definition after_send (p : page) : page :=
  Page (outputTxt p ++ [(js "Me: " ++ inputTxt p) ++ newline]) [] (inputToTxt p)
    (sendBtn_disabled p) (sendBtn_onclick p) (answers p) (alerts p).
Definition with_line (line : jsstr) (p : page) : page :=
  Page (outputTxt p ++ [line ++ newline]) (inputTxt p) (inputToTxt p)
    (sendBtn_disabled p) (sendBtn_onclick p) (answers p) (alerts p).

Lemma protobuf_sends p w ns u b : on_default w ns ->
  sendBtn_onclick p = Some (Closure ns u) ->
  serializeBinary (setText (setUsername (UserMessage None) u) (JStr (inputTxt p))) = Ret b ->
  exists data w', protobuf_send (App p w) = (Ret tt, App (after_send p) w') /\
    io_sent (w_io w') = io_sent (w_io w) ++ [JBytes data] /\
    deserializeMessage (Binary data) false = received (binary_chat_message b) (JBuffer b) false.
Proof.
  intros Hw Hc Hb. destruct (emitBinary_sends w ns b Hw) as (data & w' & Ew & Es & Ed).
  exists data, w'. split; [|done]. unfold protobuf_send, of_page, clear_input, upd_page, of_outcome.
  unfold mbind, AM_bind. cbn [a_page a_world]. rewrite Hc. cbn -[serializeBinary setText setUsername js addMessage NSConn_emitBinary].
  rewrite Hb. cbn -[js addMessage NSConn_emitBinary]. rewrite (client_ret _ _ _ _ _ Ew). done.
Qed.

Lemma protobuf_shows p w r fuel body m : h_msgs (w_heap w) !! r = Some m ->
  deserializeBinary fuel (Body m) = Ret body ->
  protobuf_chat fuel r (App p w) =
    (Ret tt, App (with_line (to_str (getUsername body) ++ js ": " ++ to_str (getText body)) p) w).
Proof.
  intros Hm Hb. unfold protobuf_chat, of_outcome, mbind, AM_bind.
  rewrite (client_ret _ _ w m w) by (unfold get_msg, gets; by rewrite Hm). by rewrite Hb.
Qed.

Lemma message_fields_length u t :
  Z.of_nat (length (utf8 u)) < 2 ^ 32 -> Z.of_nat (length (utf8 t)) < 2 ^ 32 ->
  (length (encode_fields (message_fields u t)) <= length (utf8 u) + length (utf8 t) + 12)%nat.
Proof.
  intros Lu Lt. pose proof (varint_length (Z.of_nat (length (utf8 u))) ltac:(lia)).
  pose proof (varint_length (Z.of_nat (length (utf8 t))) ltac:(lia)). rewrite !varint_leb in * by lia.
  unfold message_fields. rewrite encode_fields_app, length_app.
  repeat case_decide; unfold encode_fields; cbn [map concat encode_field Datatypes.app length]; unfold delimited;
    rewrite ?app_nil_r, ?length_app; cbn [length]; change (length (tag _ DELIMITED)) with 1%nat; lia.
Qed.

End page.

(** A page that can send, and a client for it. *)
Definition demo_page : page :=
  Page [] (js "hi " ++ [0xE9]) [] false (Some (Closure 0 (JStr (js "kataras")))) [] [].
Definition demo_client : world :=
  World (set_connectedNamespaces (<[Some default_namespace := 0%nat]> jm_new) (new_Conn jm_new 0))
    (Heap [] [NS (Some default_namespace) jm_new jm_new] [] []) (Io [] true 0 0 []).
Definition quiet_env : Env := {| callback := fun _ _ _ => mret JNull; clock_at := fun n => HrTime 7 (Z.of_nat n); fuel := 10 |}.


Lemma basic_sends_nothing_witness :
  basic_send (H0 := quiet_env) (App demo_page demo_client) =
    (Throw (JErr ReferenceErr (js "toID is not defined")),
     App (Page (outputTxt demo_page) [] (inputToTxt demo_page) (sendBtn_disabled demo_page)
            (sendBtn_onclick demo_page) (answers demo_page) (alerts demo_page)) demo_client).
Proof.
  apply (basic_sends_nothing (H0 := quiet_env) demo_page demo_client (Closure 0 (JStr (js "kataras"))));
    [reflexivity|discriminate].
Defined.

(** ** The scale-out application *)

Section scaleout.
Context `{TextCodec} `{Env} `{JSON}.

(** A client with the namespace "default", in the rooms given. *)
Definition in_rooms (w : world) (ns : nsref) (nsc : nsconn) : Prop :=
  c_closed (w_conn w) = false /\ h_nsconns (w_heap w) !! ns = Some nsc /\
  ns_namespace nsc = Some default_namespace /\
  c_connectedNamespaces (w_conn w) !! Some default_namespace = Some ns /\
  forall rn r, ns_rooms nsc !! rn = Some r -> r = Room_ ns rn.

(** The message of [emit] in the room [rn], or in none. *)
Definition text_message (rn : key) (body : jsstr) : message :=
  set_Room rn (set_Body (JStr body) (set_Event (Some chat_event)
    (set_Namespace (Some default_namespace) new_Message))).

(** The room the message goes to; the empty name stands for none. *)
Definition target (rn : jsstr) : key := if decide (rn = []) then None else Some rn.

Lemma text_message_clean rn body : clean (Some rn) -> clean_message (text_message (target rn) body).
Proof.
  intros Hc. split; [apply (bool_decide_unpack _); by vm_compute|]. unfold target.
  repeat split; [..|case_decide|]; try done; apply not_ambiguous; apply (bool_decide_unpack _); by vm_compute.
Qed.

Lemma emit_sends w ns nsc rn body : in_rooms w ns nsc -> rn = [] \/ is_Some (ns_rooms nsc !! Some rn) ->
  clean (Some rn) ->
  let m := text_message (target rn) body in
  exists data w', (if decide (rn = []) then NSConn_emit ns (Some chat_event) (JStr body)
                   else Room_emit (Room_ ns (Some rn)) (Some chat_event) (JStr body)) w = (Ret true, w') /\
    io_sent (w_io w') = io_sent (w_io w) ++ [JStr data] /\
    deserializeMessage (Text data) false = received m (JStr (payload_text m)) false.
Proof.
  destruct w as [co [ms os ps jobs] [se op cl ti fi]]. intros (Hc & Hns & En & Hr & _) Hrn Hcl m.
  cbn [w_conn w_heap h_nsconns] in *.
  destruct (text_frame_read m false) as (data & Es & Ed);
    [by left|by apply text_message_clean|unfold m; by destruct (target rn)|].
  unfold m, target in *. exists data. case_decide.
  - eexists. split; [|split; [|exact Ed]].
    { unfold NSConn_emit, ns_message, get_ns. run. cbn [w_heap h_nsconns]. rewrite Hns.
    cbn [default id from_option]. rewrite En. unfold alloc_msg. erewrite bind_ret by reflexivity.
    rewrite (write_eq _ _ (text_message None body)) by (cbn; by rewrite list_lookup_middle).
    unfold may_write. cbn [w_conn upd_heap]. rewrite Hc.
    change (Namespace (text_message _ _)) with (Some default_namespace). rewrite Hr, Es. reflexivity. }
    reflexivity.
  - destruct Hrn as [|[x Hx]]; [done|]. eexists. split; [|split; [|exact Ed]].
    { unfold Room_emit, ns_message, get_ns. run. cbn [w_heap h_nsconns room_ns]. rewrite Hns.
    cbn [default id from_option]. rewrite En. unfold alloc_msg. erewrite bind_ret by reflexivity.
    rewrite (write_eq _ _ (text_message (Some rn) body)) by (cbn; by rewrite list_lookup_middle).
    unfold may_write. cbn [w_conn upd_heap]. rewrite Hc.
    change (Namespace (text_message _ _)) with (Some default_namespace). rewrite Hr.
    change (Room (text_message _ _)) with (Some rn). cbn [w_heap upd_heap set_msgs h_nsconns].
    rewrite Hns. unfold jm_has. rewrite Hx, !orb_true_r. cbn [andb negb]. rewrite Es. reflexivity. }
    reflexivity.
Qed.

(** The JSON text the button sends. *)
Definition user_message (w : world) (to text : jsstr) : jsstr :=
  stringify [(js "from", c_ID (w_conn w)); (js "to", JStr to); (js "text", JStr text)].

(** Once the room is joined, or without one, the button sends its message
    there: one frame, with the sender's ID, the addressee and the text. *)
Theorem scaleout_sends p w ns nsc rn :
  in_rooms w ns nsc -> sendBtn_onclick p = Some (Closure ns (JStr rn)) ->
  rn = [] \/ is_Some (ns_rooms nsc !! Some rn) -> clean (Some rn) -> inputTxt p <> js "leave" ->
  let m := text_message (target rn) (user_message w (inputToTxt p) (inputTxt p)) in
  exists data w', scaleout_send (App p w) = (Ret tt, App (after_send p) w') /\
    io_sent (w_io w') = io_sent (w_io w) ++ [JStr data] /\
    deserializeMessage (Text data) false = received m (JStr (payload_text m)) false.
Proof.
  intros Hw Hc Hrn Hcl Hi m.
  destruct (emit_sends w ns nsc rn (user_message w (inputToTxt p) (inputTxt p)) Hw Hrn Hcl)
    as (data & w' & Ew & Es & Ed).
  exists data, w'. split; [|done]. destruct Hw as (_ & Hns & _ & _ & Hroom).
  unfold scaleout_send, of_page, clear_input, upd_page, mbind, AM_bind. cbn [a_page a_world].
  rewrite Hc. cbn -[bool_decide emit_chat js addMessage].
  rewrite (bool_decide_eq_false_2 (inputTxt p = js "leave") Hi). cbv beta iota.
  unfold emit_chat. case_decide as Ern.
  - subst rn. rewrite bool_decide_eq_true_2 by done. cbn [negb].
    unfold mbind, AM_bind. unfold user_message in Ew. rewrite (client_ret _ _ _ _ _ Ew). reflexivity.
  - destruct Hrn as [|[r Hr]]; [done|]. rewrite bool_decide_eq_false_2 by congruence. cbn [negb as_key].
    unfold mbind, AM_bind. rewrite (client_ret _ _ w (Some r) w).
    2: { unfold NSConn_room, get_ns. run. rewrite Hns. cbn [default id from_option]. by rewrite Hr. }
    rewrite (Hroom _ _ Hr). unfold user_message in Ew. rewrite (client_ret _ _ _ _ _ Ew). reflexivity.
Qed.

(** Before the server has let the client into the room, the button throws and
    the text is gone. *)
Theorem scaleout_too_early p w ns nsc rn :
  h_nsconns (w_heap w) !! ns = Some nsc -> ns_rooms nsc !! Some rn = None ->
  sendBtn_onclick p = Some (Closure ns (JStr rn)) -> rn <> [] -> inputTxt p <> js "leave" ->
  scaleout_send (App p w) =
    (Throw (JErr TypeErr (js "Cannot read properties of undefined (reading 'emit')")),
     App (Page (outputTxt p) [] (inputToTxt p) (sendBtn_disabled p) (sendBtn_onclick p)
            (answers p) (alerts p)) w).
Proof.
  intros Hns Hr Hc Hrn Hi.
  unfold scaleout_send, of_page, clear_input, upd_page, mbind, AM_bind. cbn [a_page a_world].
  rewrite Hc. cbn -[bool_decide emit_chat js addMessage].
  rewrite (bool_decide_eq_false_2 (inputTxt p = js "leave") Hi). cbv beta iota.
  unfold emit_chat. rewrite bool_decide_eq_false_2 by congruence. cbn [negb as_key].
  unfold mbind, AM_bind. rewrite (client_ret _ _ w None w).
  2: { unfold NSConn_room, get_ns. run. rewrite Hns. cbn [default id from_option]. by rewrite Hr. }
  by rewrite Hc.
Qed.
End scaleout.

(** JSON text of members that need no escapes. *)
Definition plain_json : JSON := {|
  stringify := fun o => js "{" ++ join (js ",") (map (fun '(k, v) =>
     [34] ++ k ++ [34; 58; 34] ++ to_str v ++ [34]) o) ++ js "}";
  parse := fun _ => Ret (Some []) |}.
Definition room_page : page :=
  Page [] (js "hello") (js "42") false (Some (Closure 0 (JStr (js "room1")))) [] [].
Definition room_client (rooms : jmap key room) : world :=
  World (set_connectedNamespaces (<[Some default_namespace := 0%nat]> jm_new) (new_Conn jm_new 0))
    (Heap [] [NS (Some default_namespace) jm_new rooms] [] []) (Io [] true 0 0 []).
Definition one_room : jmap key room := <[Some (js "room1") := Room_ 0 (Some (js "room1"))]> jm_new.

Lemma one_room_here : in_rooms (room_client one_room) 0 (NS (Some default_namespace) jm_new one_room).
Proof.
  repeat split; try reflexivity. intros rn r. unfold one_room. cbn [ns_rooms].
  destruct (decide (rn = Some (js "room1"))) as [->|Hn].
  - rewrite jm_lookup_insert_eq. by intros [= <-].
  - rewrite jm_lookup_insert_ne by congruence. done.
Qed.

Lemma scaleout_sends_witness :
  let m := text_message (Some (js "room1"))
             (user_message (H1 := plain_json) (room_client one_room) (js "42") (js "hello")) in
  exists data w', scaleout_send (H0 := quiet_env) (H1 := plain_json) (App room_page (room_client one_room))
      = (Ret tt, App (after_send room_page) w') /\
    io_sent (w_io w') = [JStr data] /\
    deserializeMessage (Text data) false = received m (JStr (payload_text m)) false.
Proof.
  apply (scaleout_sends (H0 := quiet_env) (H1 := plain_json) room_page (room_client one_room) 0
           (NS (Some default_namespace) jm_new one_room) (js "room1"));
    [apply one_room_here|reflexivity|right; eexists; reflexivity| |discriminate].
  apply not_ambiguous; apply (bool_decide_unpack _); by vm_compute.
Defined.

Lemma scaleout_too_early_witness :
  scaleout_send (H0 := quiet_env) (H1 := plain_json) (App room_page (room_client jm_new)) =
    (Throw (JErr TypeErr (js "Cannot read properties of undefined (reading 'emit')")),
     App (Page (outputTxt room_page) [] (inputToTxt room_page) (sendBtn_disabled room_page)
            (sendBtn_onclick room_page) (answers room_page) (alerts room_page)) (room_client jm_new)).
Proof.
  apply (scaleout_too_early (H0 := quiet_env) (H1 := plain_json) room_page (room_client jm_new) 0
           (NS (Some default_namespace) jm_new jm_new) (js "room1"));
    [reflexivity|reflexivity|reflexivity|discriminate|discriminate].
Defined.
