(* ===== verification/IsoSpec.v ===== *)
(** text-encoding, ISO-2022-JP: the one encoding whose encoder has a state. What
    it writes, escape sequences included, the decoder reads back. *)

From S2P Require Import Prelude JsVal TextEncoding Utf8Step Utf8Spec Legacy LegacyCjk Codecs.
From S2P Require Import LegacySpec.

Section iso.
Context `{Indexes}.

Definition dec_state_of (st : iso_enc_state) : iso_state :=
  match st with EncASCII => ASCII | EncRoman => Roman | EncJis0208 => LeadByte end.

(** The decoder is ready for what the encoder writes next. *)
Definition in_step (st : iso_enc_state) (dst : iso2022jp_state) : Prop :=
  iso_decoder_state dst = dec_state_of st.
Definition synced (st : iso_enc_state) (dst : iso2022jp_state) : Prop :=
  in_step st dst /\ iso_output_flag dst = false.

(** [out] is one character: it drives the decoder back to a synced state. *)
Definition char_ok st cp out : Prop := Forall is_byte out /\ forall dst, in_step st dst ->
  exists dst', feeds ISO2022JPDecoder dst out [cp] dst' /\ synced st dst'.
(** [esc] switches a synced decoder. *)
Definition esc_ok st' esc : Prop := Forall is_byte esc /\ forall st dst, synced st dst ->
  exists dst', feeds ISO2022JPDecoder dst esc [] dst' /\ in_step st' dst'.

Lemma feeds_one_iso dst dst' b cp : b <> end_of_stream ->
  (forall fatal stream, iso2022jp_handler fatal dst stream b = (Ret (Emit [cp]), dst', stream)) ->
  feeds ISO2022JPDecoder dst [b] [cp] dst'.
Proof. intros Hb Hh. apply (feeds_emit ISO2022JPDecoder _ _ dst' [cp] [] []); [done|done|constructor]. Qed.

Lemma single_ok st b cp : st <> EncJis0208 -> is_byte b -> b <> 0x1B ->
  (match st with EncASCII => iso_ascii b | _ => iso_roman b end) = Some cp -> char_ok st cp [b].
Proof.
  intros Hst Hb Hesc Hcp. unfold is_byte in Hb. split; [repeat constructor; unfold is_byte; lia|].
  intros [ds os lead flag] Hd. unfold in_step in Hd. simpl in Hd. subst ds.
  exists (Iso (dec_state_of st) os lead false). split; [|by split].
  apply feeds_one_iso; [unfold end_of_stream; lia|]. intros fatal stream.
  destruct st; [| |done]; simpl; unfold iso_single; rewrite (proj2 (Z.eqb_neq b 0x1B)) by done; by rewrite Hcp.
Qed.

Lemma ascii_ok cp : isASCIICodePoint cp = true -> cp <> 0x0E -> cp <> 0x0F -> cp <> 0x1B ->
  char_ok EncASCII cp [cp].
Proof.
  intros Ha%isASCII_true H1 H2 H3. apply single_ok; [done|unfold is_byte; lia|done|].
  unfold iso_ascii. rewrite (proj2 (inRange_true cp 0 0x7F)) by lia.
  by rewrite !(proj2 (Z.eqb_neq _ _)).
Qed.

Lemma jis_ok cp p : indexPointerFor cp (index "jis0208") = Some p -> p < 8836 -> cp <> 0 ->
  char_ok EncJis0208 cp [floor_div p 94 + 0x21; js_mod p 94 + 0x21].
Proof.
  intros [Hp Hget]%indexPointerFor_spec Hlt Hcp. destruct (div_rem p 94) as [-> ->]; [lia..|].
  assert (Hd : 0 <= p / 94 < 94 /\ 0 <= p mod 94 < 94) by (Z.to_euclidean_division_equations; lia).
  assert (Hq : p = (p / 94) * 94 + p mod 94) by (Z.to_euclidean_division_equations; lia).
  set (l := p / 94) in *. set (t := p mod 94) in *. clearbody l t.
  split; [repeat constructor; unfold is_byte; lia|].
  intros [ds os lead flag] Hs. unfold in_step in Hs. simpl in Hs. subst ds.
  exists (Iso LeadByte os (l + 0x21) false). split; [|by split].
  eapply (feeds_skip ISO2022JPDecoder _ _ (Iso TrailByte os (l + 0x21) false)); [unfold end_of_stream; lia| |].
  - intros fatal stream. simpl. by decide_tests.
  - apply feeds_one_iso; [unfold end_of_stream; lia|]. intros fatal stream. simpl. decide_tests.
    replace ((l + 0x21 - 0x21) * 94 + (t + 0x21) - 0x21) with p by lia.
    by rewrite (indexCodePointFor_get _ _ cp Hget Hcp).
Qed.

Lemma escape_ok st' b1 b2 : b1 = 0x24 \/ b1 = 0x28 -> is_byte b2 ->
  iso_escape b1 b2 = Some (dec_state_of st') -> esc_ok st' [0x1B; b1; b2].
Proof.
  intros Hb1 Hb2 He. unfold is_byte in Hb2. split; [repeat constructor; unfold is_byte; lia|].
  intros st [ds os lead flag] [Hs Hf]. unfold in_step in Hs. simpl in Hs, Hf. subst ds flag.
  exists (Iso (dec_state_of st') os 0 true). split; [|done].
  eapply (feeds_skip ISO2022JPDecoder _ _ (Iso EscapeStart os lead false)); [unfold end_of_stream; lia| |].
  { intros fatal stream. by destruct st. }
  eapply (feeds_skip ISO2022JPDecoder _ _ (Iso Escape os b1 false)); [unfold end_of_stream; lia| |].
  { intros fatal stream. simpl. by destruct Hb1; subst b1. }
  eapply (feeds_skip ISO2022JPDecoder _ _ (Iso (dec_state_of st') os 0 true));
    [unfold end_of_stream; lia| |constructor].
  intros fatal stream. simpl. by rewrite He.
Qed.

(** In state [st] the encoder answers [cp] with its bytes, or throws. *)
Definition direct st cp : Prop := forall stream,
  (exists e, iso2022jp_encode st stream cp = (Throw e, st, stream)) \/
  exists out, iso2022jp_encode st stream cp = (Ret (Emit out), st, stream) /\ char_ok st cp out.

(** The characters ISO-2022-JP keeps. *)
Definition iso_keeps (cp : Z) : Prop :=
  cp <> 0x2212 /\ forall p, indexPointerFor cp (index "jis0208") = Some p -> p < 8836.

Definition needs_ascii cp := isASCIICodePoint cp = true.
Definition needs_roman cp := cp = 0xA5 \/ cp = 0x203E.

Lemma direct_ascii cp : is_scalar cp -> needs_ascii cp -> direct EncASCII cp.
Proof.
  intros Hs Ha stream. unfold needs_ascii in Ha. pose proof (proj1 (isASCII_true cp) Ha).
  unfold iso2022jp_encode, end_of_stream. rewrite (proj2 (Z.eqb_neq cp (-1))) by lia. cbn [andb orb negb].
  destruct (Z.eqb_spec cp 0x0E), (Z.eqb_spec cp 0x0F), (Z.eqb_spec cp 0x1B); cbn [orb];
    try (left; eexists; reflexivity).
  right. exists [cp]. rewrite Ha. split; [done|]. by apply ascii_ok.
Qed.

Lemma direct_roman cp : needs_roman cp -> direct EncRoman cp.
Proof.
  intros [-> | ->] stream; right; eexists; (split; [reflexivity|]); by apply single_ok.
Qed.

Lemma direct_jis cp : is_scalar cp -> iso_keeps cp -> ~ needs_ascii cp -> ~ needs_roman cp ->
  direct EncJis0208 cp.
Proof.
  intros Hs [Hm Hk] Ha Hr stream. unfold needs_ascii in Ha. unfold needs_roman in Hr.
  apply not_true_is_false in Ha. unfold is_scalar in Hs. unfold iso2022jp_encode, end_of_stream.
  rewrite (proj2 (Z.eqb_neq cp (-1))), (proj2 (Z.eqb_neq cp 0xA5)), (proj2 (Z.eqb_neq cp 0x203E)) by lia.
  rewrite Ha. cbn [andb orb negb]. rewrite (proj2 (Z.eqb_neq cp 0x2212)) by done.
  destruct (indexPointerFor cp _) as [p|] eqn:Ep; [|left; by eexists].
  right. eexists. split; [reflexivity|]. apply jis_ok; [done|by apply Hk|]. by intros ->.
Qed.

(** One code point: directly, or after an escape sequence. *)
Lemma encode_cases st cp : is_scalar cp -> iso_keeps cp ->
  direct st cp \/
  exists esc st', (forall stream, iso2022jp_encode st stream cp = (Ret (Emit esc), st', prepend stream [cp]))
    /\ esc_ok st' esc /\ direct st' cp.
Proof.
  intros Hs Hk.
  assert (Ha : esc_ok EncASCII [0x1B; 0x28; 0x42]) by (apply escape_ok; [lia|unfold is_byte; lia|done]).
  assert (Hr : esc_ok EncRoman [0x1B; 0x28; 0x4A]) by (apply escape_ok; [lia|unfold is_byte; lia|done]).
  assert (Hj : esc_ok EncJis0208 [0x1B; 0x24; 0x42]) by (apply escape_ok; [lia|unfold is_byte; lia|done]).
  destruct (isASCIICodePoint cp) eqn:Ea.
  - pose proof (proj1 (isASCII_true cp) Ea) as Hcp. pose proof (direct_ascii cp Hs Ea) as Hda.
    destruct st; [by left| |].
    + destruct (Z.eqb_spec cp 0x5C) as [->|Hn]; [right; by eexists _, EncASCII|].
      destruct (Z.eqb_spec cp 0x7E) as [->|Hn2]; [right; by eexists _, EncASCII|].
      left. intros stream. unfold iso2022jp_encode, end_of_stream.
      rewrite (proj2 (Z.eqb_neq cp (-1))), (proj2 (Z.eqb_neq cp 0x5C)), (proj2 (Z.eqb_neq cp 0x7E)) by lia.
      rewrite Ea. cbn [andb orb negb].
      destruct (Z.eqb_spec cp 0x0E), (Z.eqb_spec cp 0x0F), (Z.eqb_spec cp 0x1B); cbn [orb];
        try (left; eexists; reflexivity).
      right. exists [cp]. split; [done|]. apply single_ok; [done|unfold is_byte; lia|done|].
      unfold iso_roman, iso_ascii. rewrite (proj2 (inRange_true cp 0 0x7F)) by lia.
      by rewrite !(proj2 (Z.eqb_neq _ _)).
    + right. eexists _, EncASCII. split; [|by split]. intros stream. unfold iso2022jp_encode, end_of_stream.
      rewrite (proj2 (Z.eqb_neq cp (-1))) by lia. rewrite Ea. reflexivity.
  - assert (Hna : ~ needs_ascii cp) by (unfold needs_ascii; congruence).
    destruct (decide (cp = 0xA5 \/ cp = 0x203E)) as [Hro|Hro].
    + pose proof (direct_roman cp Hro) as Hdr.
      destruct st; [right|by left|right]; eexists _, EncRoman; (split; [|by split]); intros stream;
        by destruct Hro; subst cp.
    + pose proof (direct_jis cp Hs Hk Hna Hro) as Hdj. destruct Hk as [Hm Hk]. unfold needs_roman in Hro.
      pose proof (proj1 (isASCII_false cp) Ea) as Hcp. unfold is_scalar in Hs.
      destruct (indexPointerFor cp (index "jis0208")) as [p|] eqn:Ep.
      * destruct st; [right|right|by left]; eexists _, EncJis0208; (split; [|by split]);
          intros stream; unfold iso2022jp_encode, end_of_stream; rewrite Ea; decide_tests; by rewrite Ep.
      * left. intros stream. left. eexists. unfold iso2022jp_encode, end_of_stream. rewrite Ea.
        decide_tests. rewrite Ep. destruct st; reflexivity.
Qed.

(** ** The whole string *)

Lemma enc_loop_direct st cp cps n acc r : direct st cp -> cp <> end_of_stream ->
  enc_loop ISO2022JPEncoder (S n) st (Stream (cp :: cps)) acc = Ret r ->
  exists out, char_ok st cp out /\ enc_loop ISO2022JPEncoder n st (Stream cps) (acc ++ out) = Ret r.
Proof.
  intros Hd Hcp. unfold Stream. cbn [enc_loop]. rewrite read_rev.
  rewrite (proj2 (Z.eqb_neq cp end_of_stream)) by done. change (enc_handler ISO2022JPEncoder) with iso2022jp_encode.
  destruct (Hd (reverse cps)) as [[e ->]|(out & -> & Hok)]; [done|]. intros Hl. by exists out.
Qed.

Lemma enc_loop_iso cps : Forall is_scalar cps -> Forall iso_keeps cps -> forall n st acc output st' strm,
  (2 * length cps < n)%nat ->
  enc_loop ISO2022JPEncoder n st (Stream cps) acc = Ret (output, st', strm) ->
  strm = [] /\ exists bytes, output = acc ++ bytes /\ Forall is_byte bytes /\
    forall dst, synced st dst -> exists dst', feeds ISO2022JPDecoder dst bytes cps dst' /\ synced st' dst'.
Proof.
  induction cps as [|cp cps IH]; intros Hs Hk n st acc output st' strm Hn.
  { destruct n as [|n]; [simpl in Hn; lia|]. cbn [enc_loop]. unfold Stream. rewrite read_rev. simpl.
    intros [= <- <- <-]. split; [done|]. exists []. rewrite app_nil_r. split; [done|]. split; [constructor|].
    intros dst Hd. exists dst. split; [constructor|done]. }
  apply Forall_cons_1 in Hs as [Hc Hs]. apply Forall_cons_1 in Hk as [Hkc Hk]. simpl in Hn.
  assert (Hne : cp <> end_of_stream) by (unfold is_scalar, end_of_stream in *; lia).
  assert (Hrest : forall n st1 acc, direct st1 cp -> (2 * length cps < n)%nat ->
    enc_loop ISO2022JPEncoder (S n) st1 (Stream (cp :: cps)) acc = Ret (output, st', strm) ->
    strm = [] /\ exists bytes, output = acc ++ bytes /\ Forall is_byte bytes /\
      forall dst, in_step st1 dst -> exists dst', feeds ISO2022JPDecoder dst bytes (cp :: cps) dst' /\ synced st' dst').
  { clear n st acc Hn. intros n st acc Hd Hn El. destruct (enc_loop_direct st cp cps n acc _ Hd Hne El)
      as (out & [Hob Hok] & El'). destruct (IH Hs Hk n st _ _ _ _ Hn El') as [-> (bytes & -> & Hb & Hf)].
    split; [done|]. exists (out ++ bytes). rewrite app_assoc. split; [done|]. split; [by apply Forall_app|].
    intros dst Hd'. destruct (Hok dst Hd') as (dst1 & Hf1 & Hs1). destruct (Hf dst1 Hs1) as (dst2 & Hf2 & Hs2).
    exists dst2. split; [|done]. by apply (feeds_app _ _ _ [cp] dst1). }
  destruct (encode_cases st cp Hc Hkc) as [Hd|(esc & st1 & He & [Heb Hesc] & Hd)].
  - destruct n as [|n]; [lia|]. intros El. destruct (Hrest n st acc Hd ltac:(lia) El) as [-> (bytes & -> & Hb & Hf)].
    split; [done|]. exists bytes. split; [done|]. split; [done|]. intros dst [Hi _]. by apply Hf.
  - destruct n as [|[|n]]; [lia..|]. cbn [enc_loop]. unfold Stream at 1. rewrite read_rev.
    rewrite (proj2 (Z.eqb_neq cp end_of_stream)) by done.
    change (enc_handler ISO2022JPEncoder) with iso2022jp_encode. rewrite He, prepend_rev. intros El.
    destruct (Hrest n st1 (acc ++ esc) Hd ltac:(lia) El) as [-> (bytes & -> & Hb & Hf)].
    split; [done|]. exists (esc ++ bytes). rewrite app_assoc. split; [done|]. split; [by apply Forall_app|].
    intros dst Hdst. destruct (Hesc st dst Hdst) as (dst1 & Hf1 & Hi). destruct (Hf dst1 Hi) as (dst2 & Hf2 & Hs2).
    exists dst2. split; [|done]. by apply (feeds_app _ _ _ [] dst1).
Qed.

Lemma enc_flush_iso st output n : exists tail,
  enc_flush ISO2022JPEncoder (S (S n)) st [] output = Ret (output ++ tail) /\ Forall is_byte tail /\
  forall dst, synced st dst -> exists dst', feeds ISO2022JPDecoder dst tail [] dst' /\ in_step EncASCII dst'.
Proof.
  destruct st.
  - exists []. rewrite app_nil_r. split; [done|]. split; [constructor|]. intros dst [Hd _].
    exists dst. split; [constructor|done].
  - exists [0x1B; 0x28; 0x42]. split; [done|]. destruct (escape_ok EncASCII 0x28 0x42) as [Hb Hok];
      [lia|unfold is_byte; lia|done|]. split; [done|]. by apply Hok.
  - exists [0x1B; 0x28; 0x42]. split; [done|]. destruct (escape_ok EncASCII 0x28 0x42) as [Hb Hok];
      [lia|unfold is_byte; lia|done|]. split; [done|]. by apply Hok.
Qed.

(** C40. What the ISO-2022-JP encoder writes, its decoder reads back, on every
    string without U+2212, whatever the JIS X 0208 table of at most 94 rows. *)
Theorem iso2022jp_roundtrip fatal dec bom s bytes :
  well_formed s = true -> Forall iso_keeps (stringToCodePoints s) ->
  encode_with ISO2022JPEncoder s = Ret bytes ->
  Forall is_byte bytes /\
  (decode (TextDec (js "ISO-2022-JP") ISO2022JPDecoder fatal false dec bom false) bytes false).1 = Ret s.
Proof.
  intros Hw Hk. unfold encode_with. pose proof (s2cp_scalar s (well_formed_unit _ Hw)) as Hs.
  destruct (enc_loop _ _ _ _ []) as [[[output st] strm]|e|] eqn:El; [|done..].
  apply enc_loop_iso in El as [-> (bytes1 & -> & Hb1 & Hf1)]; [|done|done|lia].
  cbn [mbind outcome_bind]. rewrite Nat.add_comm.
  destruct (enc_flush_iso st ([] ++ bytes1) (2 * length (stringToCodePoints s))) as (tail & Hfl & Hb2 & Hf2).
  simpl app in *. cbn [Nat.add]. rewrite Hfl. intros [= <-].
  rewrite to_uint8_bytes by (by apply Forall_app). split; [by apply Forall_app|].
  destruct (Hf1 (Iso ASCII ASCII 0 false)) as (dst1 & Hd1 & Hs1); [done|].
  destruct (Hf2 dst1 Hs1) as ([ds os lead flag] & Hd2 & Hi). unfold in_step in Hi. simpl in Hi. subst ds.
  pose proof (feeds_app ISO2022JPDecoder _ _ _ _ _ _ _ Hd1 Hd2) as Hd. rewrite app_nil_r in Hd.
  rewrite (decode_feeds _ _ fatal dec bom _ _ _ Hd) by done. by rewrite cp2s_s2cp.
Qed.

(** The output state, which a broken escape sequence returns to, never changes:
    after a switch to katakana a broken escape sequence falls back to ASCII. *)
Theorem iso2022jp_output_state fatal st stream bite :
  iso_output_state (iso2022jp_handler fatal st stream bite).1.2 = iso_output_state st /\
  (decode (TextDec (js "ISO-2022-JP") ISO2022JPDecoder false false None false false)
     [0x1B; 0x28; 0x49; 0x31; 0x1B; 0x31] false).1 = Ret [0xFF71; 0xFFFD; 0x31].
Proof.
  split; [|reflexivity]. destruct st as [ds os lead flag].
  unfold iso2022jp_handler, iso_single. by repeat case_match.
Qed.
End iso.
