(* ===== verification/DecodeTotal.v ===== *)
(** text-encoding: every decoder of the registry terminates, on every sequence of
    chunks, and only a fatal one throws.

    A handler may put back bytes it has read before; what bounds the loop is that
    it never puts back the first of them. *)

From S2P Require Import Prelude JsVal TextEncoding Utf8Step Labels Legacy LegacyCjk Codecs.

(** ** A decoder that makes progress *)

Definition the_decoder_error : jsval := JErr TypeErr (js "Decoder error").

(** [ok] holds of the states the machine reaches, [pending] counts the bytes it
    holds. A step leaves fewer bytes, read or held, or holds one more. *)
Record live (D : decoder) (ok : dec_state D -> Prop) (pending : dec_state D -> nat) : Prop := {
  live_new : ok (dec_new D);
  live_pending st : (pending st <= 3)%nat;
  live_step fatal st stream b r st' stream' : ok st ->
    dec_handler D fatal st stream b = (r, st', stream') ->
    ok st' /\
    match r with
    | Running => False
    | Throw e => fatal = true /\ e = the_decoder_error
    | Ret Finished => stream' = stream /\ (pending st' <= pending st)%nat
    | Ret _ => (4 * length stream' + 3 * pending st' < 4 * S (length stream) + 3 * pending st)%nat
    end
}.

Definition fails_only_fatal {A} (fatal : bool) (r : outcome A) : Prop :=
  match r with
  | Ret _ => True
  | Throw e => fatal = true /\ e = the_decoder_error
  | Running => False
  end.

Lemma read_length tokens t rest : read tokens = (t, rest) ->
  (tokens = [] /\ t = end_of_stream /\ rest = []) \/ length tokens = S (length rest).
Proof.
  unfold read. destruct (reverse tokens) as [|x l] eqn:E; intros [= <- <-].
  - left. by apply (f_equal reverse) in E; rewrite reverse_involutive in E.
  - right. rewrite <-(length_reverse tokens), E. simpl. by rewrite length_reverse.
Qed.

Section live.
Context (D : decoder) (ok : dec_state D -> Prop) (pending : dec_state D -> nat).
Context (Hlive : live D ok pending) (fatal : bool).

Lemma decode_loop_live n st stream out r st' stream' : ok st ->
  (4 * length stream + 3 * pending st < n)%nat ->
  decode_loop D fatal n st stream out = (r, st', stream') ->
  ok st' /\ fails_only_fatal fatal r /\
  ((exists x, r = Ret x) -> 4 * length stream' + 3 * pending st' <= 4 * length stream + 3 * pending st)%nat.
Proof.
  revert st stream out. induction n as [|n IH]; intros st stream out Hok Hn; [lia|]. cbn [decode_loop].
  destruct (read stream) as [t rest] eqn:Er. apply read_length in Er as [(-> & -> & ->)|Hl].
  { rewrite Z.eqb_refl. intros [= <- <- <-]. by split. }
  destruct (t =? end_of_stream). { intros [= <- <- <-]. split; [done|]. split; [done|]. lia. }
  destruct (dec_handler D fatal st rest t) as [[r1 st1] stream1] eqn:Eh.
  destruct (live_step _ _ _ Hlive _ _ _ _ _ _ _ Hok Eh) as [Hok1 Hr].
  destruct r1 as [[| |o]|e|]; cbv beta iota in Hr; try done.
  - intros E. destruct (IH st1 stream1 _ Hok1 ltac:(lia) E) as (? & ? & Hm). repeat split; try done.
    intros Hs. specialize (Hm Hs). lia.
  - intros [= <- <- <-]. destruct Hr as [-> Hp]. split; [done|]. split; [done|]. lia.
  - intros E. destruct (IH st1 stream1 _ Hok1 ltac:(lia) E) as (? & ? & Hm). repeat split; try done.
    intros Hs. specialize (Hm Hs). lia.
  - intros [= <- <- <-]. split; [done|]. split; [done|]. by intros [].
Qed.

Lemma flush_loop_live n st stream out r st' : ok st ->
  (4 * Nat.max 1 (length stream) + 3 * pending st < n)%nat ->
  flush_loop D fatal n st stream out = (r, st') -> ok st' /\ fails_only_fatal fatal r.
Proof.
  revert st stream out. induction n as [|n IH]; intros st stream out Hok Hn; [lia|]. cbn [flush_loop].
  destruct (read stream) as [t rest] eqn:Er.
  assert (Hl : (S (length rest) <= Nat.max 1 (length stream))%nat).
  { apply read_length in Er as [(-> & -> & ->)|Hl]; simpl; lia. }
  destruct (dec_handler D fatal st rest t) as [[r1 st1] stream1] eqn:Eh.
  destruct (live_step _ _ _ Hlive _ _ _ _ _ _ _ Hok Eh) as [Hok1 Hr].
  assert (Hnext : forall out, (4 * length stream1 + 3 * pending st1 < 4 * S (length rest) + 3 * pending st)%nat ->
    (if endOfStream stream1 then (Ret out, st1) else flush_loop D fatal n st1 stream1 out) = (r, st') ->
    ok st' /\ fails_only_fatal fatal r).
  { intros out' Hm. unfold endOfStream. destruct (Nat.eqb_spec (length stream1) 0).
    - by intros [= <- <-].
    - apply IH; [done|]. lia. }
  destruct r1 as [[| |o]|e|]; cbv beta iota in Hr; try done; try by apply Hnext.
  - by intros [= <- <-].
  - by intros [= <- <-].
Qed.

(** A TextDecoder over this machine, between two calls. *)
Definition td_ok (td : textdecoder) : Prop := exists name ign dec bom dnf,
  td = TextDec name D fatal ign dec bom dnf /\ (dnf = true -> exists st, dec = Some st /\ ok st).

Lemma serialize_td name ign dec bom dnf out : (dnf = true -> exists st, dec = Some st /\ ok st) ->
  td_ok (serializeStream (TextDec name D fatal ign dec bom dnf) out).2.
Proof.
  intros Hd. unfold serializeStream. destruct (_ && _); [destruct out|]; by eexists _, _, _, _, _.
Qed.

Lemma decode_live td bytes do_stream : td_ok td ->
  fails_only_fatal fatal (decode td bytes do_stream).1 /\ td_ok (decode td bytes do_stream).2.
Proof.
  intros (name & ign & dec & bom & dnf & -> & Hd). unfold decode.
  assert (Hstart : exists st b, (if dnf then (dec, bom) else (Some (dec_new D), false)) = (Some st, b) /\ ok st).
  { destruct dnf; [destruct (Hd eq_refl) as (st & -> & ?); eauto|]. eexists _, _. split; [done|]. apply Hlive. }
  destruct Hstart as (st & b & -> & Hok).
  destruct (decode_loop D fatal _ st _ []) as [[r st1] stream1] eqn:El.
  pose proof (live_pending _ _ _ Hlive st) as Hp.
  assert (Hlen : length (Stream bytes) = length bytes) by apply length_reverse.
  apply decode_loop_live in El as (Hok1 & Hr & Hm); [|done|unfold decode_fuel; lia].
  destruct r as [out|e|]; [|split; [done|by eexists _, _, _, _, _; eauto]|done].
  specialize (Hm ltac:(by eexists)). destruct do_stream.
  - rewrite (surjective_pairing (serializeStream _ _)). split; [done|]. apply serialize_td. eauto.
  - destruct (flush_loop _ _ _ st1 stream1 out) as [r2 st2] eqn:Ef.
    apply flush_loop_live in Ef as (Hok2 & Hr2); [|done|unfold decode_fuel; lia].
    destruct r2 as [out2|e|]; [|split; [done|by eexists _, _, _, _, _]|done].
    rewrite (surjective_pairing (serializeStream _ _)). split; [done|]. by apply serialize_td.
Qed.
End live.

(** ** Every machine is live *)

Lemma length_prepend s l : length (prepend s l) = (length s + length l)%nat.
Proof. unfold prepend. by rewrite length_app, length_reverse. Qed.

Definition any {A} (_ : A) : Prop := True.
Definition held (lead : Z) : nat := if lead =? 0 then 0 else 1.

(** Runs a handler through all its branches. *)
Ltac branches fatal E :=
  unfold decoderError, type_error in E; destruct fatal;
  repeat case_match; simplify_eq; try done;
  rewrite ?length_prepend; simpl in *; repeat case_match; try (split; [done|]); try lia; try done.

Lemma single_byte_live idx : live (SingleByteDecoder (Some idx)) any (fun _ => 0%nat).
Proof.
  split; [done|simpl; lia|]. intros fatal [] stream b r [] stream' _ E. simpl in E. unfold emit_or_error in E.
  branches fatal E.
Qed.

Lemma x_user_defined_live : live XUserDefinedDecoder any (fun _ => 0%nat).
Proof.
  split; [done|simpl; lia|]. intros fatal [] stream b r [] stream' _ E. simpl in E. branches fatal E.
Qed.

Lemma utf8_live : live UTF8Decoder any (fun st => held (utf8_bytes_needed st)).
Proof.
  split; [done|intros st; unfold held; case_match; lia|].
  intros fatal [cp seen needed lo hi] stream b r st' stream' _ E. simpl in E. unfold utf8_lead in E.
  unfold held. simpl. branches fatal E.
Qed.

Lemma utf16_live be : live (UTF16Decoder be) any (fun st =>
  (match utf16_lead_byte st with Some _ => 1 | None => 0 end)
  + match utf16_lead_surrogate st with Some _ => 1 | None => 0 end)%nat.
Proof.
  split; [done|intros st; repeat case_match; lia|].
  intros fatal [lb ls] stream b r st' stream' _ E. simpl in E. unfold convertCodeUnitToBytes in E. simpl.
  branches fatal E.
Qed.

Section indexed.
Context `{Indexes}.

Definition gb_held (st : gb_state) : nat :=
  if negb (gb18030_third st =? 0) then 3
  else if negb (gb18030_second st =? 0) then 2
  else held (gb18030_first st).

Lemma gb18030_live : live GB18030Decoder any gb_held.
Proof.
  split; [done|intros st; unfold gb_held, held; repeat case_match; lia|].
  intros fatal [b1 b2 b3] stream b r st' stream' _ E. simpl in E.
  unfold gb18030_handler, gb18030_rest in E. unfold gb_held, held. simpl. branches fatal E.
Qed.

Lemma big5_live : live Big5Decoder any held.
Proof.
  split; [done|intros st; unfold held; case_match; lia|].
  intros fatal lead stream b r st' stream' _ E. simpl in E. unfold big5_handler in E. unfold held. simpl.
  branches fatal E.
Qed.

Lemma shift_jis_live : live ShiftJISDecoder any held.
Proof.
  split; [done|intros st; unfold held; case_match; lia|].
  intros fatal lead stream b r st' stream' _ E. simpl in E. unfold shift_jis_handler in E. unfold held. simpl.
  branches fatal E.
Qed.

Lemma euckr_live : live EUCKRDecoder any held.
Proof.
  split; [done|intros st; unfold held; case_match; lia|].
  intros fatal lead stream b r st' stream' _ E. simpl in E. unfold euckr_handler, emit_or_error in E.
  unfold held. simpl. branches fatal E.
Qed.

Lemma eucjp_live : live EUCJPDecoder any (fun st => held (eucjp_lead st)).
Proof.
  split; [done|intros st; unfold held; case_match; lia|].
  intros fatal [flag lead] stream b r st' stream' _ E. simpl in E. unfold eucjp_handler, emit_or_error in E.
  unfold held. simpl. branches fatal E.
Qed.

(** The escape sequences put bytes back and return to the output state, which
    is always the initial one. *)
Definition iso_held (st : iso2022jp_state) : nat :=
  match iso_decoder_state st with EscapeStart | TrailByte => 1 | Escape => 2 | _ => 0 end.

Lemma iso2022jp_live : live ISO2022JPDecoder (fun st => iso_output_state st = ASCII) iso_held.
Proof.
  split; [done|intros st; unfold iso_held; case_match; lia|].
  intros fatal [ds os lead flag] stream b r st' stream' Hos E. simpl in Hos, E. subst os.
  unfold iso2022jp_handler, iso_single, emit_or_error in E. unfold iso_held. simpl.
  branches fatal E.
Qed.
End indexed.

(** ** The registry *)

Definition hebrew_i : string := "ISO-8859-8-I".

Lemma single_byte_indexed name : In name single_byte_names -> name <> hebrew_i ->
  is_Some (single_byte_index (lower_string name)).
Proof.
  intros Hin Hne.
  assert (Hall : forallb (fun n => String.eqb n hebrew_i ||
    match single_byte_index (lower_string n) with Some _ => true | None => false end) single_byte_names = true)
    by (vm_compute; reflexivity).
  rewrite forallb_forall in Hall. specialize (Hall name Hin).
  apply orb_true_iff in Hall as [->%String.eqb_eq|Hs]; [done|]. by destruct (single_byte_index _).
Qed.

Lemma codec_live `{Indexes} name D E : codecs name = Some (D, E) -> name <> hebrew_i ->
  exists ok pending, live D ok pending.
Proof.
  unfold codecs. intros Hc Hne. destruct (existsb _ single_byte_names) eqn:Es.
  - apply existsb_exists in Es as (n & Hin & ->%String.eqb_eq). injection Hc as <- _.
    destruct (single_byte_indexed n Hin Hne) as [idx ->]. eexists _, _. apply single_byte_live.
  - destruct (List.find _ other_codecs) as [[n p]|] eqn:Ef; [|done]. injection Hc as ->.
    apply List.find_some in Ef as [Hin _]. simpl in Hin.
    repeat (destruct Hin as [[= <- <- <-]|Hin]; [|]); try done; eexists _, _;
      first [ apply utf8_live | apply gb18030_live | apply big5_live | apply eucjp_live
            | apply iso2022jp_live | apply shift_jis_live | apply euckr_live | apply utf16_live
            | apply x_user_defined_live ].
Qed.

(** One TextDecoder fed a sequence of chunks, each with its [stream] option. *)
Fixpoint decode_chunks (td : textdecoder) (chunks : list (list Z * bool)) : list (outcome jsstr) :=
  match chunks with
  | [] => []
  | (bytes, do_stream) :: chunks =>
      let '(r, td) := decode td bytes do_stream in r :: decode_chunks td chunks
  end.

Lemma decode_chunks_live D ok pending fatal td chunks : live D ok pending -> td_ok D ok fatal td ->
  Forall (fails_only_fatal fatal) (decode_chunks td chunks).
Proof.
  intros Hl. revert td. induction chunks as [|[bytes s] chunks IH]; intros td Htd; [constructor|]. simpl.
  destruct (decode_live D ok pending Hl fatal td bytes s Htd) as [Hr Hok].
  destruct (decode td bytes s) as [r td']. constructor; auto.
Qed.

(** C38. Every TextDecoder that can be constructed terminates on every sequence of chunks,
    streaming or not, and throws only if it is fatal, the one encoding without an index
    apart. *)
Theorem decode_terminates `{Indexes} label fatal ignoreBOM td chunks :
  TextDecoder label fatal ignoreBOM = Ret td -> td_encoding td <> js hebrew_i ->
  Forall (fails_only_fatal fatal) (decode_chunks td chunks).
Proof.
  unfold TextDecoder. destruct (getEncoding _) as [e|]; [|done]. destruct (String.eqb _ _); [done|].
  unfold decoders. destruct (codecs (enc_name e)) as [[D E]|] eqn:Ec; [|done]. intros [= <-] Hne. simpl in Hne.
  destruct (codec_live _ _ _ Ec) as (ok & pending & Hl); [by intros Heq; rewrite Heq in Hne|].
  apply (decode_chunks_live D ok pending); [done|]. by eexists _, _, _, _, _.
Qed.
