(* ===== verification/SingleByteSpec.v ===== *)
(** text-encoding, the single-byte encodings with the tables of the source: what
    a decoder reads, the encoder writes back, byte for byte. Together with
    [LegacySpec.legacy_roundtrip] each is a bijection between the bytes it knows
    and their characters. *)

From S2P Require Import Prelude JsVal TextEncoding Utf8Step Utf8Spec Labels Tables Legacy LegacyCjk.
From S2P Require Import Codecs LegacySpec DecodeTotal.

(** ** The tables *)

(** Every code point of a table is a non-ASCII character of the basic plane, and
    is found where it stands. *)
Definition entry_ok (l : list (option Z)) (i : nat) (e : option Z) : bool :=
  match e with
  | None => true
  | Some cp =>
      (inRange cp 0x80 0xD7FF || inRange cp 0xE000 0xFFFF) && bool_decide (indexPointerFor cp l = Some (Z.of_nat i))
  end.
Definition table_ok (l : list (option Z)) : bool :=
  (length l =? 128)%nat && forallb id (imap (entry_ok l) l).

Lemma tables_ok : forallb (fun e => table_ok e.2) single_byte_tables = true.
Proof. vm_compute. reflexivity. Qed.

Lemma table_entry name l p cp : single_byte_index name = Some l -> array_get l p = Some (Some cp) ->
  (0x80 <= cp <= 0xD7FF \/ 0xE000 <= cp <= 0xFFFF) /\ indexPointerFor cp l = Some p.
Proof.
  intros Hin%single_byte_table Hget. pose proof tables_ok as Hall. rewrite forallb_forall in Hall.
  specialize (Hall _ Hin). apply andb_true_iff in Hall as [_ Hall]. simpl in Hall. rewrite forallb_forall in Hall.
  unfold array_get in Hget. destruct (Z.ltb_spec p 0); [done|].
  assert (He : entry_ok l (Z.to_nat p) (Some cp) = true).
  { apply Hall, list_elem_of_In, list_elem_of_lookup. exists (Z.to_nat p). by rewrite list_lookup_imap, Hget. }
  unfold entry_ok in He. apply andb_true_iff in He as [Hr Hp]. apply bool_decide_eq_true in Hp.
  rewrite Z2Nat.id in Hp by done. split; [|done].
  apply orb_true_iff in Hr as [Hr|Hr]; apply inRange_true in Hr; lia.
Qed.

Lemma table_length name l : single_byte_index name = Some l -> length l = 128%nat.
Proof.
  intros Hin%single_byte_table. pose proof tables_ok as Hall. rewrite forallb_forall in Hall.
  specialize (Hall _ Hin). by apply andb_true_iff in Hall as [Hl%Nat.eqb_eq _].
Qed.

(** ** One byte *)

Definition encode_byte (idx : list (option Z)) (cp : Z) : outcome hres :=
  (enc_handler (SingleByteEncoder (Some idx)) tt [] cp).1.1.

Lemma decoded_byte name idx b r : single_byte_index name = Some idx -> is_byte b ->
  (dec_handler (SingleByteDecoder (Some idx)) true tt [] b).1.1 = r ->
  r = Throw the_decoder_error \/
  exists cp, r = Ret (Emit [cp]) /\ is_scalar cp /\ cp <= 0xFFFF /\ encode_byte idx cp = Ret (Emit [b]).
Proof.
  intros Hi Hb <-. unfold is_byte in Hb. simpl. unfold end_of_stream. rewrite (proj2 (Z.eqb_neq b (-1))) by lia.
  destruct (isASCIIByte b) eqn:Ea.
  - right. exists b. split; [done|]. apply isASCII_true in Ea. unfold is_scalar. split; [lia|]. split; [lia|].
    unfold encode_byte. simpl. unfold isASCIICodePoint, end_of_stream. by decide_tests.
  - apply isASCII_false in Ea. pose proof (table_length _ _ Hi) as Hl.
    destruct (array_get idx (b - 0x80)) as [[cp|]|] eqn:Eg.
    + right. exists cp. split; [done|]. destruct (table_entry _ _ _ _ Hi Eg) as [Hr Hp].
      unfold is_scalar. split; [lia|]. split; [lia|].
      unfold encode_byte. simpl. unfold isASCIICodePoint, end_of_stream. decide_tests. rewrite Hp.
      by replace (b - 0x80 + 0x80) with b by lia.
    + by left.
    + unfold array_get in Eg. rewrite (proj2 (Z.ltb_ge _ _)) in Eg by lia. apply lookup_ge_None in Eg. lia.
Qed.

(** ** Whole strings *)

Lemma decode_loop_bytes name idx bytes : single_byte_index name = Some idx -> Forall is_byte bytes ->
  forall n acc out st strm, (length bytes < n)%nat ->
  decode_loop (SingleByteDecoder (Some idx)) true n tt (Stream bytes) acc = (Ret out, st, strm) ->
  strm = [] /\ exists cps, out = acc ++ cps /\ Forall (fun cp => is_scalar cp /\ cp <= 0xFFFF) cps /\
    Forall2 (fun cp o => cp <> end_of_stream /\ encode_byte idx cp = Ret (Emit o)) cps (map (fun b => [b]) bytes).
Proof.
  intros Hi. induction 1 as [|b bytes Hb _ IH]; intros [|n] acc out [] strm Hn; simpl in Hn; try lia;
    cbn [decode_loop]; unfold Stream; rewrite read_rev.
  - simpl. intros [= <- <-]. split; [done|]. exists []. rewrite app_nil_r. by repeat constructor.
  - rewrite (proj2 (Z.eqb_neq b end_of_stream)) by (unfold is_byte, end_of_stream in *; lia).
    destruct (dec_handler _ _ _ _ b) as [[r []] strm1] eqn:Eh.
    assert (Hh : (dec_handler (SingleByteDecoder (Some idx)) true tt [] b).1.1 = r /\ strm1 = reverse bytes).
    { simpl in Eh |- *. by injection Eh as -> ->. }
    destruct Hh as [Hr ->]. destruct (decoded_byte _ _ _ _ Hi Hb Hr) as [->|(cp & -> & Hs & Hle & He)]; [done|].
    intros El. destruct (IH n _ _ _ _ ltac:(lia) El) as [-> (cps & -> & Hc & Hf)]. split; [done|].
    exists (cp :: cps). rewrite <-app_assoc. split; [done|]. split; [by constructor|]. constructor; [|done].
    split; [unfold is_scalar, end_of_stream in *; lia|done].
Qed.

Lemma concat_singletons {A} (l : list A) : concat (map (fun b => [b]) l) = l.
Proof. induction l as [|a l IH]; simpl; [done|]. by rewrite IH. Qed.

Lemma not_bom_name name : In name single_byte_names -> js name ∉ bom_names.
Proof.
  intros Hin. assert (Hall : forallb (fun n => bool_decide (js n ∉ bom_names)) single_byte_names = true)
    by (vm_compute; reflexivity).
  rewrite forallb_forall in Hall. specialize (Hall _ Hin). by apply bool_decide_eq_true in Hall.
Qed.

(** In a single-byte encoding, the text a fatal decoder accepts is encoded to the
    very bytes it came from. *)
Theorem single_byte_bytes_back `{Indexes} name D E dec bom bytes s :
  In name single_byte_names -> name <> hebrew_i -> codecs name = Some (D, E) -> Forall is_byte bytes ->
  (decode (TextDec (js name) D true false dec bom false) bytes false).1 = Ret s ->
  encode_with E s = Ret bytes.
Proof.
  intros Hin Hne Hc Hb. unfold codecs in Hc.
  rewrite (proj2 (existsb_exists _ _)) in Hc by (exists name; split; [done|apply String.eqb_refl]).
  destruct (single_byte_indexed name Hin Hne) as [idx Hi]. rewrite Hi in Hc. injection Hc as <- <-.
  unfold decode. destruct (decode_loop _ _ _ _ _ []) as [[[out|e|] st] strm] eqn:El; [|done..].
  eapply decode_loop_bytes in El as [-> (cps & -> & Hs & Hf)]; [|done|done|unfold decode_fuel; lia].
  destruct (decode_fuel_S bytes) as [n ->]. cbn [flush_loop]. change (read []) with (end_of_stream, @nil Z).
  cbv beta iota. simpl dec_handler. cbv beta iota.
  rewrite (surjective_pairing (serializeStream _ _)). simpl fst. unfold serializeStream.
  rewrite bool_decide_false by (by apply not_bom_name). simpl. intros [= <-].
  change (SingleByteEncoder (Some idx)) with (stateless (encode_byte idx)).
  rewrite (encode_stateless _ _ (map (fun b => [b]) bytes)); [|done|].
  - by rewrite concat_singletons, to_uint8_bytes.
  - rewrite s2cp_cp2s; [done|]. eapply Forall_impl; [|exact Hs]. by intros ? [].
Qed.
