(* ===== verification/EncodingExamples.v ===== *)
(** text-encoding: the theorems on the encodings applied to concrete strings,
    with the first characters of JIS X 0208 for an index. *)

From S2P Require Import Prelude JsVal TextEncoding Utf8Step Labels Tables Legacy LegacyCjk Codecs.
From S2P Require Import LegacySpec EncodingSpec IsoSpec DecodeTotal SingleByteSpec.

(** The first entries of the source's table; the other multi-byte tables empty. *)
Definition jis0208_start : list (option Z) :=
  index_data [12288; 12289; 12290; 65292; 65294; 12539; 65306; 65307; 65311; 65281; 12443; 12444; 180].
#[local] Instance sample_indexes : Indexes := {|
  index name := if String.eqb name "jis0208" then jis0208_start else []
|}.
#[local] Instance sample_sizes : IndexSizes.
Proof. split; vm_compute; intros; discriminate. Qed.

(** "Привет" *)
Definition privet : jsstr := [0x41F; 0x440; 0x438; 0x432; 0x435; 0x442].
Definition cp1251 := single_byte_index "windows-1251".


Lemma single_byte_bytes_back_witness :
  encode_with (SingleByteEncoder cp1251) privet = Ret [0xCF; 0xF0; 0xE8; 0xE2; 0xE5; 0xF2].
Proof.
  apply (single_byte_bytes_back "windows-1251" (SingleByteDecoder cp1251) (SingleByteEncoder cp1251) None false
    [0xCF; 0xF0; 0xE8; 0xE2; 0xE5; 0xF2] privet); [|discriminate|reflexivity| |by vm_compute].
  - vm_compute. tauto.
  - by vm_compute; repeat constructor.
Defined.

Lemma iso2022jp_roundtrip_witness :
  (decode (TextDec (js "ISO-2022-JP") ISO2022JPDecoder false false None false false)
     [0x41; 0x1B; 0x24; 0x42; 0x21; 0x22; 0x21; 0x23; 0x1B; 0x28; 0x42] false).1 = Ret [0x41; 0x3001; 0x3002].
Proof.
  apply (iso2022jp_roundtrip false None false [0x41; 0x3001; 0x3002]
    [0x41; 0x1B; 0x24; 0x42; 0x21; 0x22; 0x21; 0x23; 0x1B; 0x28; 0x42]); [reflexivity| |reflexivity].
  repeat constructor; try discriminate; intros p Hp; vm_compute in Hp; try discriminate Hp; by injection Hp as <-.
Defined.

(** U+263A has no place in Shift_JIS: it becomes the bytes of U+0080 and '?'. *)
Lemma shift_jis_never_refuses_witness : encode_with ShiftJISEncoder [0x263A] = Ret [0x80; 0x3F].
Proof.
  apply (shift_jis_never_refuses [0x263A] 0x263A); [reflexivity|unfold is_scalar; lia|unfold sjis_plain; lia|lia|].
  intros p Hp. assert (Hin : (Some 0x263A : option Z) ∈ index "jis0208").
  { unfold array_get in Hp. destruct (p <? 0); [discriminate|]. by eapply list_elem_of_lookup_2. }
  revert Hin. refine (bool_decide_unpack _ _). vm_compute. exact I.
Defined.

Lemma ascii_transparent_witness : encode_with Big5Encoder (js "ws") = Ret (js "ws").
Proof.
  apply (ascii_transparent "Big5" Big5Decoder Big5Encoder true None false (js "ws"));
    [reflexivity|discriminate|discriminate|].
  repeat constructor; vm_compute; discriminate.
Defined.

Lemma hebrew_logical_unusable_witness :
  exists td, TextDecoder (Some (js "iso-8859-8-i")) false false = Ret td /\
    (decode td [0xE0] false).1 = no_index.
Proof.
  destruct (hebrew_logical_unusable false 0xE0) as (td & H1 & H2 & _); [lia|]. by exists td.
Defined.

Lemma decode_terminates_witness :
  Forall (fails_only_fatal false)
    (decode_chunks (TextDec (js "gb18030") GB18030Decoder false false None false false)
       [([0x81; 0x30], true); ([0x81], true); ([0x20], false)]).
Proof.
  apply (decode_terminates (Some (js "GB18030")) false false); [reflexivity|vm_compute; discriminate].
Defined.
